(** * A-2 motorway traffic simulation: the engine of the four variants

    Shallow embedding of the simulation engine found in
    [atascos.py], [trafico.py], [traff.py] and [a2.py].

    - Python floats are modelled by exact rationals ([Q]); [float("inf")]
      by the extra point [PInf] of [ext].
    - Vehicle objects are shared by reference between the lane lists, the
      global vehicle list and the statistics lists.  The model keeps one
      object store ([gmap nat Vehicle], keyed by the vehicle id) and the
      lists hold ids, so a mutation of a vehicle is seen through every list.
    - Python exceptions are results [Raise e] of the error monad [result].
    - The [random] module is an oracle: the draws it will return are
      recorded in [Rng] and consumed in call order.  The wall clock
      ([time.time()], [clock.tick]) is an input of the same kind.
    - The [trace] of a state is a ghost log of the lane-change attempts and
      car-following updates performed so far; the programs keep no such log.
    - The file has three parts: the engines, the predicates and concrete
      runs the statements use, and the properties. *)

From Stdlib Require Import QArith Qminmax Qround ZArith List Sorted Lia Lqa.
From stdpp Require Import base option list gmap.
Import ListNotations.

Local Open Scope Q_scope.

(** ** Numbers *)

(** [a < b] on floats, as a boolean. *)
Definition Qltb (a b : Q) : bool := negb (Qle_bool b a).

(** A gap is a float or [float("inf")]. *)
Inductive ext : Type :=
  | Fin (q : Q)
  | PInf.

(** [g > q] for a gap [g]. *)
Definition ext_gtb (g : ext) (q : Q) : bool :=
  match g with
  | Fin a => Qltb q a
  | PInf => true
  end.

(** ** Exceptions *)

Inductive exn : Type :=
  | ZeroDivisionError
  | IndexError
  | ValueError
  | TypeError
  | NoSuchObject        (* a dangling id: cannot happen in Python *)
  | NonTermination.     (* not an exception: a loop that never ends *)

Inductive result (A : Type) : Type :=
  | Ok (a : A)
  | Raise (e : exn).
Arguments Ok {A} a.
Arguments Raise {A} e.

#[global] Instance result_ret : MRet result := fun A a => Ok a.
#[global] Instance result_bind : MBind result := fun A B k m =>
  match m with
  | Ok a => k a
  | Raise e => Raise e
  end.

(** Float division: [a / b] raises [ZeroDivisionError] when [b] is zero. *)
Definition py_div (a b : Q) : result Q :=
  if Qeq_bool b 0 then Raise ZeroDivisionError else Ok (a / b).

(** [int(q)]: the integer part, rounded towards zero. *)
Definition py_int (q : Q) : Z := (Qnum q ÷ Zpos (Qden q))%Z.

(** The position an index [i] designates in a list of length [n]:
    negative indices count from the end. *)
Definition py_index (n : nat) (i : Z) : Z :=
  if (i <? 0)%Z then (Z.of_nat n + i)%Z else i.

(** [l[i]]: anything out of range raises [IndexError]. *)
Definition py_get {A} (l : list A) (i : Z) : result A :=
  let j := py_index (length l) i in
  if ((0 <=? j)%Z && (j <? Z.of_nat (length l))%Z)%bool then
    match l !! Z.to_nat j with
    | Some a => Ok a
    | None => Raise IndexError
    end
  else Raise IndexError.

(** The list [l] once the element [l[i]] has been replaced by [a] (the
    inner list [l[i]] was mutated in place); [i] is valid for [py_get]. *)
Definition py_set {A} (l : list A) (i : Z) (a : A) : list A :=
  <[Z.to_nat (py_index (length l) i) := a]> l.

(** ** Python list primitives used by the engine *)

Section ListPrims.
Context {A : Type}.

(** [min(l, key=key)]: the first element whose key is minimal. *)
Definition py_min_by (key : A -> Q) (l : list A) : option A :=
  match l with
  | [] => None
  | a :: l' =>
      Some (fold_left (fun best c => if Qltb (key c) (key best) then c else best) l' a)
  end.

(** [max(l, key=key)]: the first element whose key is maximal. *)
Definition py_max_by (key : A -> Q) (l : list A) : option A :=
  match l with
  | [] => None
  | a :: l' =>
      Some (fold_left (fun best c => if Qltb (key best) (key c) then c else best) l' a)
  end.

(** [l.sort(key=...)] is stable.  [le a b] tells whether [a] may stay in
    front of [b]; an element is inserted in front of the first element it
    may precede, so equal keys keep their order. *)
Fixpoint insert_by (le : A -> A -> bool) (a : A) (l : list A) : list A :=
  match l with
  | [] => [a]
  | b :: l' => if le a b then a :: b :: l' else b :: insert_by le a l'
  end.

Fixpoint sort_by (le : A -> A -> bool) (l : list A) : list A :=
  match l with
  | [] => []
  | a :: l' => insert_by le a (sort_by le l')
  end.

End ListPrims.

(** [l.remove(a)]: drops the first occurrence, [ValueError] when absent. *)
Fixpoint remove_first (a : nat) (l : list nat) : option (list nat) :=
  match l with
  | [] => None
  | b :: l' =>
      if Nat.eqb a b then Some l'
      else match remove_first a l' with
           | Some r => Some (b :: r)
           | None => None
           end
  end.

Definition py_remove (a : nat) (l : list nat) : result (list nat) :=
  match remove_first a l with
  | Some r => Ok r
  | None => Raise ValueError
  end.

(** [a in l] on objects compares identities, that is ids. *)
Definition py_in (a : nat) (l : list nat) : bool := existsb (Nat.eqb a) l.

(** ** Vehicles and the object store *)

(** The three vehicle types; [atascos.py] calls the third "emergency". *)
Inductive VType : Type := car | truck | ambulance.

#[global] Instance VType_eq_dec : EqDecision VType.
Proof. solve_decision. Defined.

(** One table entry per vehicle type (the dicts keyed by the type name). *)
Record ByType (A : Type) : Type := mkByType
  { of_car : A; of_truck : A; of_ambulance : A }.
Arguments mkByType {A} _ _ _.
Arguments of_car {A} _.
Arguments of_truck {A} _.
Arguments of_ambulance {A} _.

Definition get_type {A} (t : VType) (d : ByType A) : A :=
  match t with
  | car => of_car d
  | truck => of_truck d
  | ambulance => of_ambulance d
  end.

Definition set_type {A} (t : VType) (a : A) (d : ByType A) : ByType A :=
  match t with
  | car => mkByType a (of_truck d) (of_ambulance d)
  | truck => mkByType (of_car d) a (of_ambulance d)
  | ambulance => mkByType (of_car d) (of_truck d) a
  end.

(** The attributes of a [Vehicle] object, over the three engines:
    [length_m] is [length] in [atascos.py] and [trafico.py];
    [preferred_speed] and [accel] exist in [traff.py] only. *)
Record Vehicle : Type := mkVehicle
  { vid : nat;
    vtype : VType;
    lane : Z;
    x : Q;
    v : Q;
    priority : Z;
    length_m : Q;
    preferred_speed : Q;
    accel : Q;
    entry_time : option Q;
    exit_time : option Q;
    finished : bool }.

(** Attribute writes.  A position or a speed is stored as the fraction in
    lowest terms ([Qred]), which is the same number. *)
Definition set_lane (l : Z) (u : Vehicle) : Vehicle :=
  mkVehicle (vid u) (vtype u) l (x u) (v u) (priority u) (length_m u)
    (preferred_speed u) (accel u) (entry_time u) (exit_time u) (finished u).

Definition set_x (q : Q) (u : Vehicle) : Vehicle :=
  mkVehicle (vid u) (vtype u) (lane u) (Qred q) (v u) (priority u) (length_m u)
    (preferred_speed u) (accel u) (entry_time u) (exit_time u) (finished u).

Definition set_v (q : Q) (u : Vehicle) : Vehicle :=
  mkVehicle (vid u) (vtype u) (lane u) (x u) (Qred q) (priority u) (length_m u)
    (preferred_speed u) (accel u) (entry_time u) (exit_time u) (finished u).

Definition set_entry_time (t : Q) (u : Vehicle) : Vehicle :=
  mkVehicle (vid u) (vtype u) (lane u) (x u) (v u) (priority u) (length_m u)
    (preferred_speed u) (accel u) (Some t) (exit_time u) (finished u).

(** [veh.exit_time = t; veh.finished = True] *)
Definition set_exit (t : Q) (u : Vehicle) : Vehicle :=
  mkVehicle (vid u) (vtype u) (lane u) (x u) (v u) (priority u) (length_m u)
    (preferred_speed u) (accel u) (entry_time u) (Some t) true.

(** The highway object together with the vehicle objects it refers to.
    [all] is [Highway.all] ([all_vehicles] in [atascos.py]);
    [finished_vehicles] is the dict of [traff.py], which has no [all]. *)
Record World : Type := mkWorld
  { objs : gmap nat Vehicle;
    hw_length : Q;
    num_lanes : Z;
    lanes : list (list nat);
    all : list nat;
    finished_vehicles : ByType (list nat) }.

Definition set_objs (o : gmap nat Vehicle) (w : World) : World :=
  mkWorld o (hw_length w) (num_lanes w) (lanes w) (all w) (finished_vehicles w).

Definition set_lanes (l : list (list nat)) (w : World) : World :=
  mkWorld (objs w) (hw_length w) (num_lanes w) l (all w) (finished_vehicles w).

Definition set_all (l : list nat) (w : World) : World :=
  mkWorld (objs w) (hw_length w) (num_lanes w) (lanes w) l (finished_vehicles w).

Definition set_finished_vehicles (f : ByType (list nat)) (w : World) : World :=
  mkWorld (objs w) (hw_length w) (num_lanes w) (lanes w) (all w) f.

(** [Highway(length_m, num_lanes)] *)
Definition new_highway (length_m : Q) (n : Z) : World :=
  mkWorld ∅ length_m n (replicate (Z.to_nat n) []) [] (mkByType [] [] []).

(** Following a reference. *)
Definition deref (w : World) (i : nat) : result Vehicle :=
  match objs w !! i with
  | Some u => Ok u
  | None => Raise NoSuchObject
  end.

(** Attribute reads through a reference held in a list. *)
Definition attr {A} (f : Vehicle -> A) (dflt : A) (w : World) (i : nat) : A :=
  match objs w !! i with
  | Some u => f u
  | None => dflt
  end.

Definition x_of : World -> nat -> Q := attr x 0.
Definition v_of : World -> nat -> Q := attr v 0.
Definition length_of : World -> nat -> Q := attr length_m 0.
Definition priority_of : World -> nat -> Z := attr priority 0%Z.
Definition lane_of : World -> nat -> Z := attr lane 0%Z.

(** An attribute write. *)
Definition update (w : World) (i : nat) (f : Vehicle -> Vehicle) : result World :=
  u ← deref w i;
  mret (set_objs (<[i := f u]> (objs w)) w).

(** [lst.sort(key=lambda v: v.x)] *)
Definition sort_by_x (w : World) (l : list nat) : list nat :=
  sort_by (fun i j => Qle_bool (x_of w i) (x_of w j)) l.

(** ** Highway operations common to the engines *)

(** [Highway.ahead] of [trafico.py], [Highway.vehicle_ahead] of
    [atascos.py] and [traff.py]: the nearest vehicle of the same lane with
    a strictly greater position. *)
Definition ahead (w : World) (i : nat) : result (option nat) :=
  veh ← deref w i;
  lane_list ← py_get (lanes w) (lane veh);
  mret (py_min_by (x_of w) (List.filter (fun j => Qltb (x veh) (x_of w j)) lane_list)).

(** [Highway.add] / [Highway.add_vehicle]; [global_list] tells whether the
    engine also keeps the global list ([trafico.py], [atascos.py]). *)
Definition add (global_list : bool) (w : World) (i : nat) : result World :=
  veh ← deref w i;
  lane_list ← py_get (lanes w) (lane veh);
  let w1 := set_lanes (py_set (lanes w) (lane veh) (sort_by_x w (lane_list ++ [i]))) w in
  mret (if global_list then set_all (all w1 ++ [i]) w1 else w1).

(** [Highway.remove] / [Highway.remove_vehicle]: both removals are guarded
    by a membership test. *)
Definition remove (global_list : bool) (w : World) (i : nat) : result World :=
  veh ← deref w i;
  lane_list ← py_get (lanes w) (lane veh);
  w1 ← (if py_in i lane_list then
          l' ← py_remove i lane_list;
          mret (set_lanes (py_set (lanes w) (lane veh) l') w)
        else mret w);
  if global_list then
    if py_in i (all w1) then
      a' ← py_remove i (all w1);
      mret (set_all a' w1)
    else mret w1
  else mret w1.

(** ** Lane-change geometry common to the engines *)

(** [va = min([v for v in lane_list if v.x > veh.x], key=x)] or [None] *)
Definition nearest_ahead (w : World) (veh : Vehicle) (lane_list : list nat) : option nat :=
  py_min_by (x_of w) (List.filter (fun j => Qltb (x veh) (x_of w j)) lane_list).

(** [vb = max([v for v in lane_list if v.x <= veh.x], key=x)] or [None] *)
Definition nearest_behind (w : World) (veh : Vehicle) (lane_list : list nat) : option nat :=
  py_max_by (x_of w) (List.filter (fun j => Qle_bool (x_of w j) (x veh)) lane_list).

(** [gap_a = (va.x - va.length - veh.x) if va else float("inf")] *)
Definition gap_a (w : World) (veh : Vehicle) (va : option nat) : ext :=
  match va with
  | Some a => Fin (x_of w a - length_of w a - x veh)
  | None => PInf
  end.

(** [gap_b = (veh.x - (vb.x + vb.length)) if vb else float("inf")] *)
Definition gap_b (w : World) (veh : Vehicle) (vb : option nat) : ext :=
  match vb with
  | Some b => Fin (x veh - (x_of w b + length_of w b))
  | None => PInf
  end.

(** [lanes[target].append(veh); lanes[target].sort(key=lambda v: v.x)] *)
Definition append_sorted (w : World) (target : Z) (i : nat) : result World :=
  tgt ← py_get (lanes w) target;
  mret (set_lanes (py_set (lanes w) target (sort_by_x w (tgt ++ [i]))) w).

(** ** The [random] module and the wall clock as oracles *)

(** The values the next calls will return, per function of the module.
    An exhausted stream keeps answering a fixed value. *)
Record Rng : Type := mkRng
  { choices : list VType;        (* random.choices(...)[0] *)
    shuffles : list (list Z);    (* the list left by random.shuffle *)
    randoms : list Q;            (* random.random() *)
    randints : list Z }.         (* random.randint(a, b) *)

Definition next_choice (r : Rng) : VType * Rng :=
  match choices r with
  | [] => (car, r)
  | c :: cs => (c, mkRng cs (shuffles r) (randoms r) (randints r))
  end.

Definition next_shuffle (r : Rng) (l : list Z) : list Z * Rng :=
  match shuffles r with
  | [] => (l, r)
  | s :: ss => (s, mkRng (choices r) ss (randoms r) (randints r))
  end.

Definition next_random (r : Rng) : Q * Rng :=
  match randoms r with
  | [] => (1 # 2, r)
  | u :: us => (u, mkRng (choices r) (shuffles r) us (randints r))
  end.

Definition next_randint (r : Rng) (lo : Z) : Z * Rng :=
  match randints r with
  | [] => (lo, r)
  | n :: ns => (n, mkRng (choices r) (shuffles r) (randoms r) ns)
  end.

(** Ghost log of the sub-steps performed on vehicles, in execution order. *)
Inductive Event : Type :=
  | LaneChange (i : nat) (src : Z) (changed : bool) (dst : Z)
  | CarFollowing (i : nat) (in_lane : Z) (leader : option nat).

(** [veh.exit_time - veh.entry_time]; a time still [None] is a [TypeError]. *)
Definition travel_time (u : Vehicle) : result Q :=
  match exit_time u, entry_time u with
  | Some e, Some s => Ok (e - s)
  | _, _ => Raise TypeError
  end.

(** [sum(l)] *)
Definition Qsum (l : list Q) : Q := fold_left Qplus l 0.


(** [list(range(n))] *)
Definition range (n : Z) : list Z := map Z.of_nat (seq 0 (Z.to_nat n)).

(** * [trafico.py]: immediate placement at the entrance, live plotting *)

Module Trafico.

Record Config : Type := mkConfig
  { L_KM : Q;
    NUM_LANES : Z;
    SIM_SECONDS : Q;
    DT : Q;
    ARRIVAL_RATE_PER_MIN : Q;
    MAX_SPEED_KMH : Q;
    SLOWDOWN_PROB : Q;
    SAFE_TIME_HEADWAY : Q;
    MIN_GAP : Q;
    VEHICLE_LENGTH : Q;
    SPEEDUP : Q }.

(** The constants at the top of the file. *)
Definition default : Config :=
  {| L_KM := 60; NUM_LANES := 3; SIM_SECONDS := 3600 * 2; DT := 1;
     ARRIVAL_RATE_PER_MIN := 40; MAX_SPEED_KMH := 120; SLOWDOWN_PROB := 0.02;
     SAFE_TIME_HEADWAY := 1.8; MIN_GAP := 2; VEHICLE_LENGTH := 4.5;
     SPEEDUP := 20 |}.

Definition kmh_to_ms (s : Q) : Q := s * 1000 / 3600.

Section Engine.
Variable cfg : Config.

Definition ROAD_LENGTH_M : Q := L_KM cfg * 1000.
Definition MAX_SPEED : Q := kmh_to_ms (MAX_SPEED_KMH cfg).

(** [VEHICLE_TYPES[t]["priority"]] and [VEHICLE_TYPES[t]["max_speed"]] *)
Definition type_priority (ty : VType) : Z :=
  match ty with car => 1 | truck => 0 | ambulance => 2 end.

Definition max_speed (ty : VType) : Q :=
  match ty with
  | car => MAX_SPEED
  | truck => MAX_SPEED * 0.7
  | ambulance => MAX_SPEED * 1.1
  end.

(** [Vehicle(lane, vtype)] with [Vehicle._next_id = n].  The two attributes
    that only [traff.py] has are filled in but never read by this engine. *)
Definition new_vehicle (n : nat) (l : Z) (ty : VType) : Vehicle :=
  {| vid := n; vtype := ty; lane := l; x := 0; v := max_speed ty * 0.6;
     priority := type_priority ty; length_m := VEHICLE_LENGTH cfg;
     preferred_speed := max_speed ty; accel := 1.5;
     entry_time := None; exit_time := None; finished := false |}.

(** [need = max(MIN_GAP, veh.v * SAFE_TIME_HEADWAY / 2)] *)
Definition need (speed : Q) : Q :=
  Qmax (MIN_GAP cfg) (speed * SAFE_TIME_HEADWAY cfg / 2).

(** The lane-change trigger of [run_sim]: [dist < veh.v * SAFE_TIME_HEADWAY]. *)
Definition follow_threshold (speed : Q) : Q := speed * SAFE_TIME_HEADWAY cfg.

(** One round of the loop [for d in (-1, 1)] of [Highway.try_lane_change]:
    [Some w'] when the vehicle moved (the method returns [True]),
    [None] when the loop goes on to the next [d]. *)
Definition try_target (w : World) (i : nat) (d : Z) : result (option World) :=
  veh ← deref w i;
  let target := (lane veh + d)%Z in
  if ((target <? 0)%Z || (num_lanes w <=? target)%Z)%bool then mret None
  else
    lane_list ← py_get (lanes w) target;
    let va := nearest_ahead w veh lane_list in
    let vb := nearest_behind w veh lane_list in
    if (ext_gtb (gap_a w veh va) (need (v veh)) && ext_gtb (gap_b w veh vb) (need (v veh)))%bool
    then
      if match va with
         | Some a => (priority veh <? priority_of w a)%Z
         | None => false
         end
      then mret None
      else
        src ← py_get (lanes w) (lane veh);
        src' ← py_remove i src;
        let w1 := set_lanes (py_set (lanes w) (lane veh) src') w in
        w2 ← update w1 i (set_lane target);
        w3 ← append_sorted w2 target i;
        mret (Some w3)
    else mret None.

Fixpoint try_targets (ds : list Z) (w : World) (i : nat) : result (World * bool) :=
  match ds with
  | [] => mret (w, false)
  | d :: ds' =>
      r ← try_target w i d;
      match r with
      | Some w' => mret (w', true)
      | None => try_targets ds' w i
      end
  end.

(** [Highway.try_lane_change] *)
Definition try_lane_change (w : World) (i : nat) : result (World * bool) :=
  try_targets [(-1)%Z; 1%Z] w i.

(** *** The body of the loop over the vehicles of a lane, by sub-step *)

(** First lines of the body: the lane change is attempted when the
    vehicle ahead is nearer than the threshold. *)
Definition lane_change_step (w : World) (i : nat) : result (World * list Event) :=
  a ← ahead w i;
  veh ← deref w i;
  match a with
  | Some j =>
      let dist := x_of w j - (x veh + length_m veh) in
      if Qltb dist (follow_threshold (v veh)) then
        '(w', changed) ← try_lane_change w i;
        mret (w', [LaneChange i (lane veh) changed (lane_of w' i)])
      else mret (w, [])
  | None => mret (w, [])
  end.

(** The speed the car-following rule gives to a vehicle, [leader] being the
    result of [highway.ahead(veh)]. *)
Definition follow_speed (w : World) (veh : Vehicle) (leader : option nat) : result Q :=
  let accel := 1.5 in
  let decel := 6 in
  match leader with
  | Some j =>
      let gap := x_of w j - (x veh + length_m veh) in
      safe_v ← py_div gap (SAFE_TIME_HEADWAY cfg);
      let safe_v := Qmin safe_v (max_speed (vtype veh)) in
      if Qltb safe_v (v veh)
      then mret (v veh - Qmin (v veh - safe_v) (decel * DT cfg))
      else mret (v veh + Qmin (safe_v - v veh) (accel * DT cfg))
  | None =>
      let top := max_speed (vtype veh) in
      mret (v veh + Qmin (top - v veh) (accel * DT cfg))
  end.

Definition car_following_step (w : World) (i : nat) : result (World * list Event) :=
  a ← ahead w i;
  veh ← deref w i;
  s ← follow_speed w veh a;
  w' ← update w i (set_v s);
  mret (w', [CarFollowing i (lane veh) a]).

(** [if random.random() < SLOWDOWN_PROB: veh.v = max(0, veh.v - 3.0)] *)
Definition slowdown_step (w : World) (i : nat) (u : Q) : result World :=
  if Qltb u (SLOWDOWN_PROB cfg)
  then update w i (fun veh => set_v (Qmax 0 (v veh - 3)) veh)
  else mret w.

(** [veh.x += veh.v * DT] *)
Definition integrate_step (w : World) (i : nat) : result World :=
  update w i (fun veh => set_x (x veh + v veh * DT cfg) veh).

(** The state of [run_sim]: the highway, the loop variables, the class
    counter [Vehicle._next_id], the oracles, and what was drawn. *)
Record State : Type := mkState
  { world : World;
    t : Q;
    next_arrival : Q;
    stats : ByType (list nat);
    next_id : nat;
    rng : Rng;
    start_real : Q;
    clock : list Q;                  (* the next readings of time.time() *)
    frames : list (list (Q * Z));    (* the scatter plots drawn so far *)
    trace : list Event }.

(** Last lines of the body: a vehicle past the end of the road leaves. *)
Definition exit_step (st : State) (i : nat) : result State :=
  veh ← deref (world st) i;
  if Qle_bool (hw_length (world st)) (x veh) then
    w1 ← update (world st) i (set_exit (t st));
    w2 ← remove true w1 i;
    mret (mkState w2 (t st) (next_arrival st)
            (set_type (vtype veh) (get_type (vtype veh) (stats st) ++ [i]) (stats st))
            (next_id st) (rng st) (start_real st) (clock st) (frames st) (trace st))
  else mret st.

(** The whole body of [for veh in list(highway.lanes[lane])]. *)
Definition process (st : State) (i : nat) : result State :=
  '(w1, e1) ← lane_change_step (world st) i;
  '(w2, e2) ← car_following_step w1 i;
  let '(u, r) := next_random (rng st) in
  w3 ← slowdown_step w2 i u;
  w4 ← integrate_step w3 i;
  exit_step (mkState w4 (t st) (next_arrival st) (stats st) (next_id st) r
               (start_real st) (clock st) (frames st) (trace st ++ e1 ++ e2)) i.

Fixpoint process_all (st : State) (l : list nat) : result State :=
  match l with
  | [] => mret st
  | i :: l' => st' ← process st i; process_all st' l'
  end.

(** [for lane in range(NUM_LANES): for veh in list(highway.lanes[lane])]:
    the list of a lane is copied when the loop reaches that lane. *)
Fixpoint dynamics (st : State) (ls : list Z) : result State :=
  match ls with
  | [] => mret st
  | l :: ls' =>
      snapshot ← py_get (lanes (world st)) l;
      st' ← process_all st snapshot;
      dynamics st' ls'
  end.

(** *** Arrivals *)

(** [v = Vehicle(lane, vtype); v.entry_time = t; highway.add(v)] *)
Definition enter (st : State) (l : Z) (ty : VType) : result State :=
  let n := next_id st in
  let veh := set_entry_time (t st) (new_vehicle n l ty) in
  let w := set_objs (<[n := veh]> (objs (world st))) (world st) in
  w' ← add true w n;
  mret (mkState w' (t st) (next_arrival st) (stats st) (S n) (rng st)
          (start_real st) (clock st) (frames st) (trace st)).

(** [for lane in lanes: ...] with its two [break]s; nothing is kept of an
    arrival when the loop ends without a [break]. *)
Fixpoint place (st : State) (ty : VType) (ls : list Z) : result State :=
  match ls with
  | [] => mret st
  | l :: ls' =>
      lane_list ← py_get (lanes (world st)) l;
      match py_min_by (x_of (world st)) lane_list with
      | None => enter st l ty
      | Some first =>
          if Qltb (VEHICLE_LENGTH cfg + MIN_GAP cfg) (x_of (world st) first)
          then enter st l ty
          else place st ty ls'
      end
  end.

Definition arrival (arrival_interval : Q) (st : State) : result State :=
  if Qle_bool (next_arrival st) (t st) then
    let '(ty, r1) := next_choice (rng st) in
    let '(order, r2) := next_shuffle r1 (range (NUM_LANES cfg)) in
    st1 ← place (mkState (world st) (t st) (next_arrival st) (stats st) (next_id st) r2
                   (start_real st) (clock st) (frames st) (trace st)) ty order;
    mret (mkState (world st1) (t st1) (next_arrival st1 + arrival_interval) (stats st1)
            (next_id st1) (rng st1) (start_real st1) (clock st1) (frames st1) (trace st1))
  else mret st.

(** *** Live plot *)

Definition next_time (c : list Q) (last : Q) : Q * list Q :=
  match c with
  | [] => (last, [])
  | r :: c' => (r, c')
  end.

(** [if time.time() - start_real >= 1 / SPEEDUP: ...] draws one point per
    vehicle of [highway.all]. *)
Definition render (st : State) : result State :=
  period ← py_div 1 (SPEEDUP cfg);
  let '(now, c1) := next_time (clock st) (start_real st) in
  if Qle_bool period (now - start_real st) then
    let '(now', c2) := next_time c1 now in
    let w := world st in
    mret (mkState w (t st) (next_arrival st) (stats st) (next_id st) (rng st)
            now' c2 (frames st ++ [map (fun i => (x_of w i, lane_of w i)) (all w)])
            (trace st))
  else
    mret (mkState (world st) (t st) (next_arrival st) (stats st) (next_id st) (rng st)
            (start_real st) c1 (frames st) (trace st)).

(** One iteration of [while t < SIM_SECONDS]. *)
Definition tick (arrival_interval : Q) (st : State) : result State :=
  st1 ← arrival arrival_interval st;
  st2 ← dynamics st1 (range (NUM_LANES cfg));
  render (mkState (world st2) (t st2 + DT cfg) (next_arrival st2) (stats st2)
            (next_id st2) (rng st2) (start_real st2) (clock st2) (frames st2) (trace st2)).

(** The [while] loop, at most [fuel] iterations. *)
Fixpoint loop (arrival_interval : Q) (fuel : nat) (st : State) : result State :=
  match fuel with
  | O => mret st
  | S fuel' =>
      if Qltb (t st) (SIM_SECONDS cfg)
      then st' ← tick arrival_interval st; loop arrival_interval fuel' st'
      else mret st
  end.

(** The state at the first test of the [while], [c0] being the readings
    of the wall clock during the run. *)
Definition init (r : Rng) (c0 : list Q) : State :=
  let '(now, c1) := next_time c0 0 in
  mkState (new_highway ROAD_LENGTH_M (NUM_LANES cfg)) 0 0 (mkByType [] [] []) 1 r
    now c1 [] [].

(** *** Results *)

(** [sum(veh.exit_time - veh.entry_time for veh in finished)] *)
Fixpoint total_travel (w : World) (l : list nat) (acc : Q) : result Q :=
  match l with
  | [] => mret acc
  | i :: l' =>
      veh ← deref w i;
      d ← travel_time veh;
      total_travel w l' (acc + d)
  end.

(** The figures printed for one vehicle type: the count and, when it is
    not zero, the speed handed to [round(_, 2)]. *)
Definition report (w : World) (finished_list : list nat) : result (nat * option Q) :=
  match finished_list with
  | [] => mret (O, None)
  | _ =>
      avg_speed ← total_travel w finished_list 0;
      s ← py_div (60 * 60 * L_KM cfg) (avg_speed / inject_Z (Z.of_nat (length finished_list)));
      mret (length finished_list, Some s)
  end.

Definition results (st : State) : result (ByType (nat * option Q)) :=
  c ← report (world st) (of_car (stats st));
  k ← report (world st) (of_truck (stats st));
  a ← report (world st) (of_ambulance (stats st));
  mret (mkByType c k a).

(** [run_sim], the loop bounded by [fuel] iterations. *)
Definition run_sim (fuel : nat) (r : Rng) (c0 : list Q) : result (ByType (nat * option Q)) :=
  arrival_interval ← py_div 60 (ARRIVAL_RATE_PER_MIN cfg);
  st ← loop arrival_interval fuel (init r c0);
  results st.

End Engine.

End Trafico.

(** * [atascos.py]: entry queues per lane, trajectories written to a file *)

Module Atascos.

Record Config : Type := mkConfig
  { L_KM : Q;
    NUM_LANES : Z;
    SIM_SECONDS : Q;
    DT : Q;
    ARRIVAL_RATE_PER_MIN : Q;
    MAX_SPEED_KMH : Q;
    SLOWDOWN_PROB : Q;
    SAFE_TIME_HEADWAY : Q;
    MIN_GAP : Q;
    VEHICLE_LENGTH : Q;
    MAX_LINES : Z }.

Definition default : Config :=
  {| L_KM := 60; NUM_LANES := 3; SIM_SECONDS := 3600 * 1; DT := 1;
     ARRIVAL_RATE_PER_MIN := 30; MAX_SPEED_KMH := 120; SLOWDOWN_PROB := 0.02;
     SAFE_TIME_HEADWAY := 1.8; MIN_GAP := 2; VEHICLE_LENGTH := 4.5;
     MAX_LINES := 300000 |}.

Definition kmh_to_ms (v_kmh : Q) : Q := v_kmh * 1000 / 3600.
Definition ms_to_kmh (v_ms : Q) : Q := v_ms * 3.6.

Section Engine.
Variable cfg : Config.

Definition ROAD_LENGTH_M : Q := L_KM cfg * 1000.
Definition MAX_SPEED : Q := kmh_to_ms (MAX_SPEED_KMH cfg).

(** [{"emergency": 3, "truck": 2, "car": 1}[type_]] *)
Definition type_priority (ty : VType) : Z :=
  match ty with car => 1 | truck => 2 | ambulance => 3 end.

(** [Vehicle(lane=l, x=0.0, v=speed, type_=ty)] with [Vehicle._next_id = n].
    The two attributes that only [traff.py] has are filled in but never read
    by this engine. *)
Definition new_vehicle (n : nat) (l : Z) (speed : Q) (ty : VType) : Vehicle :=
  {| vid := n; vtype := ty; lane := l; x := 0; v := speed;
     priority := type_priority ty; length_m := VEHICLE_LENGTH cfg;
     preferred_speed := MAX_SPEED; accel := 1.5;
     entry_time := None; exit_time := None; finished := false |}.

(** [max(MIN_GAP, veh.v * SAFE_TIME_HEADWAY / 2)] *)
Definition clearance (speed : Q) : Q :=
  Qmax (MIN_GAP cfg) (speed * SAFE_TIME_HEADWAY cfg / 2).

(** [desired_gap = veh.v * SAFE_TIME_HEADWAY + MIN_GAP] *)
Definition desired_gap (speed : Q) : Q :=
  speed * SAFE_TIME_HEADWAY cfg + MIN_GAP cfg.

(** One round of the loop [for d in (-1, 1)] of [Highway.try_change_lane].
    The test on the priorities guards a [pass]: it changes nothing. *)
Definition try_target (w : World) (i : nat) (d : Z) : result (option World) :=
  veh ← deref w i;
  let target := (lane veh + d)%Z in
  if ((target <? 0)%Z || (num_lanes w <=? target)%Z)%bool then mret None
  else
    lane_list ← py_get (lanes w) target;
    let veh_ahead := nearest_ahead w veh lane_list in
    let veh_behind := nearest_behind w veh lane_list in
    if (ext_gtb (gap_a w veh veh_ahead) (clearance (v veh))
        && ext_gtb (gap_b w veh veh_behind) (clearance (v veh)))%bool
    then
      let _ := match veh_ahead with
               | Some a => if (priority_of w a <? priority veh)%Z then tt else tt
               | None => tt
               end in
      src ← py_get (lanes w) (lane veh);
      w1 ← (if py_in i src then
              src' ← py_remove i src;
              mret (set_lanes (py_set (lanes w) (lane veh) src') w)
            else mret w);
      w2 ← update w1 i (set_lane target);
      w3 ← append_sorted w2 target i;
      old ← py_get (lanes w3) (target - d);
      mret (Some (set_lanes (py_set (lanes w3) (target - d) (sort_by_x w3 old)) w3))
    else mret None.

Fixpoint try_targets (ds : list Z) (w : World) (i : nat) : result (World * bool) :=
  match ds with
  | [] => mret (w, false)
  | d :: ds' =>
      r ← try_target w i d;
      match r with
      | Some w' => mret (w', true)
      | None => try_targets ds' w i
      end
  end.

(** [Highway.try_change_lane] *)
Definition try_change_lane (w : World) (i : nat) : result (World * bool) :=
  try_targets [(-1)%Z; 1%Z] w i.

(** *** The body of the loop over the vehicles of a lane, by sub-step *)

Definition lane_change_step (w : World) (i : nat) : result (World * list Event) :=
  a ← ahead w i;
  veh ← deref w i;
  match a with
  | Some j =>
      let dist_to_ahead := x_of w j - (x veh + length_m veh) in
      if (Qltb dist_to_ahead (desired_gap (v veh)) || Qltb (v_of w j) (v veh * 0.8))%bool then
        '(w', changed) ← try_change_lane w i;
        mret (w', [LaneChange i (lane veh) changed (lane_of w' i)])
      else mret (w, [])
  | None => mret (w, [])
  end.

(** [safe_v = gap / max(1e-6, SAFE_TIME_HEADWAY)] *)
Definition safe_speed (gap : Q) : result Q :=
  py_div gap (Qmax (1 # 1000000) (SAFE_TIME_HEADWAY cfg)).

Definition follow_speed (w : World) (veh : Vehicle) (leader : option nat) : result Q :=
  let accel := 1.5 in
  let decel_max := 6 in
  match leader with
  | Some j =>
      let gap := x_of w j - (x veh + length_m veh) in
      safe_v ← safe_speed gap;
      let target_v := Qmin MAX_SPEED safe_v in
      if Qltb target_v (v veh)
      then mret (v veh - Qmin (v veh - target_v) (decel_max * DT cfg))
      else mret (v veh + Qmin (target_v - v veh) (accel * DT cfg))
  | None =>
      mret (v veh + Qmin (MAX_SPEED - v veh) (accel * DT cfg))
  end.

Definition car_following_step (w : World) (i : nat) : result (World * list Event) :=
  a ← ahead w i;
  veh ← deref w i;
  s ← follow_speed w veh a;
  w' ← update w i (set_v s);
  mret (w', [CarFollowing i (lane veh) a]).

(** [if random.random() < SLOWDOWN_PROB: veh.v = max(0.0, veh.v - 3.0)] *)
Definition slowdown_step (w : World) (i : nat) (u : Q) : result World :=
  if Qltb u (SLOWDOWN_PROB cfg)
  then update w i (fun veh => set_v (Qmax 0 (v veh - 3)) veh)
  else mret w.

(** [veh.x += veh.v * DT] *)
Definition integrate_step (w : World) (i : nat) : result World :=
  update w i (fun veh => set_x (x veh + v veh * DT cfg) veh).

(** The state of [run_simulation].  [rows] are the lines handed to the csv
    writer after the header, before rounding. *)
Record State : Type := mkState
  { world : World;
    t : Q;
    next_arrival_time : Q;
    stats_flow : nat;
    total_speed : Q;
    speed_samples : nat;
    lines_written : Z;
    queues : list (list nat);
    next_id : nat;
    rng : Rng;
    rows : list (Q * nat * Z * Q * Q);
    trace : list Event }.

(** [if lines_written < MAX_LINES: ...] *)
Definition sample_step (st : State) (i : nat) : result State :=
  veh ← deref (world st) i;
  if (lines_written st <? MAX_LINES cfg)%Z then
    mret (mkState (world st) (t st) (next_arrival_time st) (stats_flow st)
            (total_speed st + v veh) (S (speed_samples st)) (lines_written st + 1)
            (queues st) (next_id st) (rng st)
            (rows st ++ [(t st, vid veh, lane veh, x veh, v veh)]) (trace st))
  else mret st.

Definition exit_step (st : State) (i : nat) : result State :=
  veh ← deref (world st) i;
  if Qle_bool (hw_length (world st)) (x veh) then
    w1 ← update (world st) i (fun u => set_exit (t st) u);
    w2 ← remove true w1 i;
    mret (mkState w2 (t st) (next_arrival_time st) (S (stats_flow st))
            (total_speed st) (speed_samples st) (lines_written st)
            (queues st) (next_id st) (rng st) (rows st) (trace st))
  else mret st.

Definition process (st : State) (i : nat) : result State :=
  '(w1, e1) ← lane_change_step (world st) i;
  '(w2, e2) ← car_following_step w1 i;
  let '(u, r) := next_random (rng st) in
  w3 ← slowdown_step w2 i u;
  w4 ← integrate_step w3 i;
  st1 ← sample_step (mkState w4 (t st) (next_arrival_time st) (stats_flow st)
                       (total_speed st) (speed_samples st) (lines_written st)
                       (queues st) (next_id st) r (rows st) (trace st ++ e1 ++ e2)) i;
  exit_step st1 i.

Fixpoint process_all (st : State) (l : list nat) : result State :=
  match l with
  | [] => mret st
  | i :: l' => st' ← process st i; process_all st' l'
  end.

Fixpoint dynamics (st : State) (ls : list Z) : result State :=
  match ls with
  | [] => mret st
  | l :: ls' =>
      snapshot ← py_get (lanes (world st)) l;
      st' ← process_all st snapshot;
      dynamics st' ls'
  end.

(** *** Arrivals and admission *)

(** The vehicle is created and appended to the queue of its lane. *)
Definition arrival (arrival_interval : Q) (st : State) : result State :=
  if Qle_bool (next_arrival_time st) (t st) then
    let '(veh_type, r1) := next_choice (rng st) in
    let '(l, r2) := next_randint r1 0 in
    let n := next_id st in
    let veh := set_entry_time (t st) (new_vehicle n l (MAX_SPEED * 0.6) veh_type) in
    let w := set_objs (<[n := veh]> (objs (world st))) (world st) in
    q ← py_get (queues st) l;
    mret (mkState w (t st) (next_arrival_time st + arrival_interval) (stats_flow st)
            (total_speed st) (speed_samples st) (lines_written st)
            (py_set (queues st) l (q ++ [n])) (S n) r2 (rows st) (trace st))
  else mret st.

(** [queues[lane].sort(key=lambda v: v.priority, reverse=True)]: stable,
    greatest priority first. *)
Definition sort_queue (w : World) (q : list nat) : list nat :=
  sort_by (fun i j => (priority_of w j <=? priority_of w i)%Z) q.

(** The gap at the entrance of a lane, as the admission test measures it:
    [lane_list[0].x - VEHICLE_LENGTH], infinite for an empty lane. *)
Definition entry_gap (w : World) (lane_list : list nat) : ext :=
  match lane_list with
  | [] => PInf
  | first :: _ => Fin (x_of w first - VEHICLE_LENGTH cfg)
  end.

(** [not lane_list or (lane_list[0].x - VEHICLE_LENGTH > MIN_GAP + VEHICLE_LENGTH)] *)
Definition entry_free (w : World) (lane_list : list nat) : bool :=
  ext_gtb (entry_gap w lane_list) (MIN_GAP cfg + VEHICLE_LENGTH cfg).

(** The body of [for lane in range(NUM_LANES)] of the admission. *)
Definition admit_head (st : State) (l : Z) : result State :=
  q ← py_get (queues st) l;
  match q with
  | [] => mret st
  | _ :: _ =>
      let q' := sort_queue (world st) q in
      match q' with
      | [] => Raise IndexError
      | first_in_queue :: rest =>
          lane_list ← py_get (lanes (world st)) l;
          if entry_free (world st) lane_list then
            w' ← add true (world st) first_in_queue;
            mret (mkState w' (t st) (next_arrival_time st) (stats_flow st)
                    (total_speed st) (speed_samples st) (lines_written st)
                    (py_set (queues st) l rest) (next_id st) (rng st) (rows st) (trace st))
          else
            mret (mkState (world st) (t st) (next_arrival_time st) (stats_flow st)
                    (total_speed st) (speed_samples st) (lines_written st)
                    (py_set (queues st) l q') (next_id st) (rng st) (rows st) (trace st))
      end
  end.

Fixpoint admission (st : State) (ls : list Z) : result State :=
  match ls with
  | [] => mret st
  | l :: ls' => st' ← admit_head st l; admission st' ls'
  end.

(** One iteration of [while t < SIM_SECONDS]. *)
Definition tick (arrival_interval : Q) (st : State) : result State :=
  st1 ← arrival arrival_interval st;
  st2 ← admission st1 (range (NUM_LANES cfg));
  st3 ← dynamics st2 (range (NUM_LANES cfg));
  mret (mkState (world st3) (t st3 + DT cfg) (next_arrival_time st3) (stats_flow st3)
          (total_speed st3) (speed_samples st3) (lines_written st3)
          (queues st3) (next_id st3) (rng st3) (rows st3) (trace st3)).

Fixpoint loop (arrival_interval : Q) (fuel : nat) (st : State) : result State :=
  match fuel with
  | O => mret st
  | S fuel' =>
      if Qltb (t st) (SIM_SECONDS cfg)
      then st' ← tick arrival_interval st; loop arrival_interval fuel' st'
      else mret st
  end.

(** The state at the first test of the [while]; the header of the csv
    file is line 1. *)
Definition init (r : Rng) : State :=
  mkState (new_highway ROAD_LENGTH_M (NUM_LANES cfg)) 0 0 0 0 0 1
    (replicate (Z.to_nat (NUM_LANES cfg)) []) 1 r [] [].

(** The two figures printed at the end: the flow, and
    [ms_to_kmh(total_speed / speed_samples if speed_samples else 0.0)]. *)
Definition results (st : State) : nat * Q :=
  let avg_speed_ms :=
    match speed_samples st with
    | O => 0
    | S _ => total_speed st / inject_Z (Z.of_nat (speed_samples st))
    end in
  (stats_flow st, ms_to_kmh avg_speed_ms).


End Engine.

End Atascos.

(** * [traff.py]: real-time display, simulated step taken from the frame time *)

Module Traff.

Record TypeInfo : Type := mkTypeInfo
  { ti_length_m : Q;
    ti_preferred_speed_ms : Q;
    ti_accel : Q;
    ti_priority : Z }.

Record Config : Type := mkConfig
  { L_KM : Q;
    SIM_SECONDS : Q;
    SPEEDUP : Q;
    ARRIVAL_RATE_PER_MIN : Q;
    LANE_SPEED_KMH : list Q;
    VEH_TYPES : ByType TypeInfo;
    SAFE_TIME_HEADWAY : Q;
    MIN_GAP : Q;
    SLOWDOWN_PROB : Q }.

Definition default : Config :=
  {| L_KM := 60; SIM_SECONDS := 7200; SPEEDUP := 100; ARRIVAL_RATE_PER_MIN := 40;
     LANE_SPEED_KMH := [120; 100; 90];
     VEH_TYPES :=
       mkByType (mkTypeInfo 4.5 (120 / 3.6) 1.5 2)
                (mkTypeInfo 12 (85 / 3.6) 0.9 1)
                (mkTypeInfo 4.5 (140 / 3.6) 2 3);
     SAFE_TIME_HEADWAY := 1.8; MIN_GAP := 2; SLOWDOWN_PROB := 0.04 |}.

Section Engine.
Variable cfg : Config.

Definition ROAD_LENGTH_M : Q := L_KM cfg * 1000.

(** [LANE_SPEED_MS = [v * 1000.0 / 3600.0 for v in LANE_SPEED_KMH]] *)
Definition LANE_SPEED_MS : list Q := map (fun s => s * 1000 / 3600) (LANE_SPEED_KMH cfg).

(** [Vehicle(vtype, lane, entry_time)] with [Vehicle._id_counter = n] *)
Definition new_vehicle (n : nat) (ty : VType) (l : Z) (entry : Q) : Vehicle :=
  let info := get_type ty (VEH_TYPES cfg) in
  {| vid := n; vtype := ty; lane := l; x := 0;
     v := ti_preferred_speed_ms info * 0.6;
     priority := ti_priority info; length_m := ti_length_m info;
     preferred_speed := ti_preferred_speed_ms info; accel := ti_accel info;
     entry_time := Some entry; exit_time := None; finished := false |}.

(** [Highway.can_insert_at_start] *)
Definition can_insert_at_start (w : World) (l : Z) (veh_length : Q) : result bool :=
  lane_list ← py_get (lanes w) l;
  match py_min_by (x_of w) lane_list with
  | None => mret true
  | Some first => mret (Qltb (veh_length + MIN_GAP cfg) (x_of w first))
  end.

(** [Highway._move_vehicle]: a [ValueError] of the removal is swallowed. *)
Definition _move_vehicle (w : World) (i : nat) (target : Z) : result World :=
  veh ← deref w i;
  src ← py_get (lanes w) (lane veh);
  let w1 := match remove_first i src with
            | Some src' => set_lanes (py_set (lanes w) (lane veh) src') w
            | None => w
            end in
  w2 ← update w1 i (set_lane target);
  append_sorted w2 target i.

(** [required = max(MIN_GAP, veh.v * SAFE_TIME_HEADWAY)] *)
Definition required (speed : Q) : Q :=
  Qmax (MIN_GAP cfg) (speed * SAFE_TIME_HEADWAY cfg).

(** One round of the loop [for d in (-1, 1)] of [Highway.try_lane_change]. *)
Definition try_target (w : World) (i : nat) (d : Z) : result (option World) :=
  veh ← deref w i;
  let target := (lane veh + d)%Z in
  if ((target <? 0)%Z || (num_lanes w <=? target)%Z)%bool then mret None
  else
    lane_list ← py_get (lanes w) target;
    let va := nearest_ahead w veh lane_list in
    let vb := nearest_behind w veh lane_list in
    let ga := gap_a w veh va in
    let gb := gap_b w veh vb in
    if (bool_decide (vtype veh = ambulance)
        && (ext_gtb ga (MIN_GAP cfg) && ext_gtb gb (MIN_GAP cfg)))%bool
    then w' ← _move_vehicle w i target; mret (Some w')
    else
      if (ext_gtb ga (required (v veh)) && ext_gtb gb (required (v veh)))%bool then
        if match va with
           | Some a => (priority veh <? priority_of w a)%Z
           | None => false
           end
        then mret None
        else w' ← _move_vehicle w i target; mret (Some w')
      else mret None.

Fixpoint try_targets (ds : list Z) (w : World) (i : nat) : result (World * bool) :=
  match ds with
  | [] => mret (w, false)
  | d :: ds' =>
      r ← try_target w i d;
      match r with
      | Some w' => mret (w', true)
      | None => try_targets ds' w i
      end
  end.

(** [Highway.try_lane_change] *)
Definition try_lane_change (w : World) (i : nat) : result (World * bool) :=
  try_targets [(-1)%Z; 1%Z] w i.

(** *** The body of the loop over the vehicles of a lane, by sub-step *)

(** [desired_top = min(veh.preferred_speed, LANE_SPEED_MS[veh.lane])] *)
Definition desired_top (veh : Vehicle) : result Q :=
  lane_limit ← py_get LANE_SPEED_MS (lane veh);
  mret (Qmin (preferred_speed veh) lane_limit).

(** [safe_v = gap / max(0.1, SAFE_TIME_HEADWAY)] *)
Definition safe_speed (gap : Q) : result Q :=
  py_div gap (Qmax 0.1 (SAFE_TIME_HEADWAY cfg)).

Definition follow_speed (w : World) (veh : Vehicle) (leader : option nat) (sim_dt : Q)
  : result Q :=
  top ← desired_top veh;
  match leader with
  | Some j =>
      let gap := x_of w j - (x veh + length_m veh) in
      safe_v ← safe_speed gap;
      let target_v := Qmin top safe_v in
      if Qltb target_v (v veh)
      then mret (v veh - Qmin (v veh - target_v) (6 * sim_dt))
      else mret (v veh + Qmin (target_v - v veh) (accel veh * sim_dt))
  | None =>
      mret (v veh + Qmin (top - v veh) (accel veh * sim_dt))
  end.

Definition car_following_step (w : World) (i : nat) (sim_dt : Q)
  : result (World * list Event) :=
  a ← ahead w i;
  veh ← deref w i;
  s ← follow_speed w veh a sim_dt;
  w' ← update w i (set_v s);
  mret (w', [CarFollowing i (lane veh) a]).

(** [if random.random() < SLOWDOWN_PROB: veh.v = max(0.0, veh.v - 3.0)] *)
Definition slowdown_step (w : World) (i : nat) (u : Q) : result World :=
  if Qltb u (SLOWDOWN_PROB cfg)
  then update w i (fun veh => set_v (Qmax 0 (v veh - 3)) veh)
  else mret w.

(** [highway.try_lane_change(veh)], attempted for every vehicle. *)
Definition lane_change_step (w : World) (i : nat) : result (World * list Event) :=
  veh ← deref w i;
  '(w', changed) ← try_lane_change w i;
  mret (w', [LaneChange i (lane veh) changed (lane_of w' i)]).

(** [veh.x += veh.v * sim_dt] *)
Definition integrate_step (w : World) (i : nat) (sim_dt : Q) : result World :=
  update w i (fun veh => set_x (x veh + v veh * sim_dt) veh).

(** What one pass of the frame loop receives from pygame. *)
Inductive UIEvent : Type := QUIT | KEYDOWN_SPACE | OTHER.

Record Frame : Type := mkFrame
  { events : list UIEvent;      (* pygame.event.get() *)
    tick_ms : Z }.              (* clock.tick(FPS) *)

(** The state of [run_pygame_sim]. *)
Record State : Type := mkState
  { world : World;
    sim_time : Q;
    next_arrival : Q;
    entry_queue : list (VType * Q);
    running : bool;
    paused : bool;
    next_id : nat;
    rng : Rng;
    trace : list Event }.

Definition exit_step (st : State) (i : nat) : result State :=
  veh ← deref (world st) i;
  if Qle_bool ROAD_LENGTH_M (x veh) then
    w1 ← update (world st) i (fun u => set_exit (sim_time st) u);
    let fv := finished_vehicles w1 in
    let w2 := set_finished_vehicles
                (set_type (vtype veh) (get_type (vtype veh) fv ++ [i]) fv) w1 in
    w3 ← remove false w2 i;
    mret (mkState w3 (sim_time st) (next_arrival st) (entry_queue st) (running st)
            (paused st) (next_id st) (rng st) (trace st))
  else mret st.

(** The body of [for veh in list(highway.lanes[lane_idx])]. *)
Definition process (sim_dt : Q) (st : State) (i : nat) : result State :=
  '(w1, e1) ← car_following_step (world st) i sim_dt;
  let '(u, r) := next_random (rng st) in
  w2 ← slowdown_step w1 i u;
  '(w3, e2) ← lane_change_step w2 i;
  w4 ← integrate_step w3 i sim_dt;
  exit_step (mkState w4 (sim_time st) (next_arrival st) (entry_queue st) (running st)
               (paused st) (next_id st) r (trace st ++ e1 ++ e2)) i.

Fixpoint process_all (sim_dt : Q) (st : State) (l : list nat) : result State :=
  match l with
  | [] => mret st
  | i :: l' => st' ← process sim_dt st i; process_all sim_dt st' l'
  end.

Fixpoint dynamics (sim_dt : Q) (st : State) (ls : list Z) : result State :=
  match ls with
  | [] => mret st
  | l :: ls' =>
      snapshot ← py_get (lanes (world st)) l;
      st' ← process_all sim_dt st snapshot;
      dynamics sim_dt st' ls'
  end.

(** *** Arrivals and insertion *)

(** [sim_time >= next_arrival and sim_time <= SIM_SECONDS], the test of the
    arrival loop. *)
Definition arrival_due (st : State) : bool :=
  (Qle_bool (next_arrival st) (sim_time st)
   && Qle_bool (sim_time st) (SIM_SECONDS cfg))%bool.

(** [while sim_time >= next_arrival and sim_time <= SIM_SECONDS]: [n]
    bounds the number of rounds. *)
Fixpoint arrivals (n : nat) (arrival_interval : Q) (st : State) : State :=
  match n with
  | O => st
  | S n' =>
      if arrival_due st then
        let '(ty, r) := next_choice (rng st) in
        arrivals n' arrival_interval
          (mkState (world st) (sim_time st) (next_arrival st + arrival_interval)
             (entry_queue st ++ [(ty, sim_time st)]) (running st) (paused st)
             (next_id st) r (trace st))
      else st
  end.

(** The arrival times not later than [sim_time], which is how often the
    loop above can go round when the interval is positive.  (When the
    interval is not positive and the loop is entered, its test stays true
    and it never ends, whatever the number of rounds.) *)
Definition due_arrivals (arrival_interval : Q) (st : State) : nat :=
  Z.to_nat (Qfloor ((sim_time st - next_arrival st) / arrival_interval) + 1).

(** [sorted(list(entry_queue), key=..., reverse=True)] *)
Definition sort_entries (q : list (VType * Q)) : list (VType * Q) :=
  sort_by (fun a b => (ti_priority (get_type (fst b) (VEH_TYPES cfg))
                       <=? ti_priority (get_type (fst a) (VEH_TYPES cfg)))%Z) q.

(** The first entry equal to [(ty, te)] leaves the queue. *)
Fixpoint remove_entry (ty : VType) (te : Q) (q : list (VType * Q)) : list (VType * Q) :=
  match q with
  | [] => []
  | (vt, tm) :: q' =>
      if (bool_decide (vt = ty) && Qeq_bool tm te)%bool then q'
      else (vt, tm) :: remove_entry ty te q'
  end.

(** [for lane_try in [0,1,2]: ...] *)
Fixpoint insert_in (st : State) (ty : VType) (te : Q) (ls : list Z) : result State :=
  match ls with
  | [] => mret st
  | lane_try :: ls' =>
      ok ← can_insert_at_start (world st) lane_try
             (ti_length_m (get_type ty (VEH_TYPES cfg)));
      if (ok : bool) then
        let n := next_id st in
        let w := set_objs (<[n := new_vehicle n ty lane_try te]> (objs (world st)))
                   (world st) in
        w' ← add false w n;
        mret (mkState w' (sim_time st) (next_arrival st)
                (remove_entry ty te (entry_queue st)) (running st) (paused st)
                (S n) (rng st) (trace st))
      else insert_in st ty te ls'
  end.

Definition insertion (st : State) : result State :=
  match sort_entries (entry_queue st) with
  | [] => mret st
  | (vtype_try, t_entry) :: _ => insert_in st vtype_try t_entry [0%Z; 1%Z; 2%Z]
  end.

(** *** The frame loop *)

Definition handle_event (st : State) (e : UIEvent) : State :=
  match e with
  | QUIT =>
      mkState (world st) (sim_time st) (next_arrival st) (entry_queue st) false
        (paused st) (next_id st) (rng st) (trace st)
  | KEYDOWN_SPACE =>
      mkState (world st) (sim_time st) (next_arrival st) (entry_queue st) (running st)
        (negb (paused st)) (next_id st) (rng st) (trace st)
  | OTHER => st
  end.

(** The first half of a pass that is not paused: the simulated clock
    moves by [sim_dt], the arrivals that are due join the queue, and the
    head of the queue is inserted if a lane has room.  If the test of the
    arrival loop still holds after the rounds counted by [due_arrivals],
    the interval is not positive and the loop of the source goes on for
    ever. *)
Definition advance (arrival_interval : Q) (st0 : State) (sim_dt : Q) : result State :=
  let st1 := mkState (world st0) (sim_time st0 + sim_dt) (next_arrival st0)
               (entry_queue st0) (running st0) (paused st0) (next_id st0)
               (rng st0) (trace st0) in
  let st2 := arrivals (due_arrivals arrival_interval st1) arrival_interval st1 in
  if arrival_due st2 then Raise NonTermination else insertion st2.

(** One pass of [while running]. *)
Definition frame (arrival_interval : Q) (st : State) (f : Frame) : result State :=
  let st0 := fold_left handle_event (events f) st in
  let real_dt := inject_Z (tick_ms f) / 1000 in
  if paused st0 then mret st0
  else
    let sim_dt := real_dt * SPEEDUP cfg in
    st3 ← advance arrival_interval st0 sim_dt;
    st4 ← dynamics sim_dt st3 (range (num_lanes (world st3)));
    mret (if Qle_bool (SIM_SECONDS cfg) (sim_time st4)
          then mkState (world st4) (sim_time st4) (next_arrival st4) (entry_queue st4)
                 false (paused st4) (next_id st4) (rng st4) (trace st4)
          else st4).

(** [while running], over the frames the display delivers. *)
Fixpoint frames_loop (arrival_interval : Q) (st : State) (fs : list Frame) : result State :=
  match fs with
  | [] => mret st
  | f :: fs' =>
      if running st
      then st' ← frame arrival_interval st f; frames_loop arrival_interval st' fs'
      else mret st
  end.

Definition init (r : Rng) : State :=
  mkState (new_highway ROAD_LENGTH_M 3) 0 0 [] true false 1 r [].

(** *** Statistics *)

(** The list [speeds] of [compute_finished_stats]: one entry per vehicle
    whose travel time is positive. *)
Fixpoint speeds_kmh (w : World) (l : list nat) : result (list Q) :=
  match l with
  | [] => mret []
  | i :: l' =>
      veh ← deref w i;
      travel ← travel_time veh;
      rest ← speeds_kmh w l';
      if Qltb 0 travel then
        speed_ms ← py_div ROAD_LENGTH_M travel;
        mret (speed_ms * 3.6 :: rest)
      else mret rest
  end.

(** One entry [(count, avg_kmh)] of [compute_finished_stats]. *)
Definition finished_stats (w : World) (finished_list : list nat) : result (nat * Q) :=
  let count := length finished_list in
  match count with
  | O => mret (count, 0)
  | S _ =>
      speeds ← speeds_kmh w finished_list;
      match speeds with
      | [] => mret (count, 0)
      | _ :: _ => mret (count, Qsum speeds / inject_Z (Z.of_nat (length speeds)))
      end
  end.

Definition compute_finished_stats (w : World) : result (ByType (nat * Q)) :=
  c ← finished_stats w (of_car (finished_vehicles w));
  k ← finished_stats w (of_truck (finished_vehicles w));
  a ← finished_stats w (of_ambulance (finished_vehicles w));
  mret (mkByType c k a).

(** [run_pygame_sim] up to the printing of the results. *)
Definition run_pygame_sim (r : Rng) (fs : list Frame) : result (ByType (nat * Q)) :=
  arrival_interval ← py_div 60 (ARRIVAL_RATE_PER_MIN cfg);
  st ← frames_loop arrival_interval (init r) fs;
  compute_finished_stats (world st).

(** *** Drawing *)

Definition SCREEN_W : Z := 1200.
Definition SCREEN_H : Z := 480.
Definition MARGIN : Z := 80.

(** [SCALE_X = (SCREEN_W - 2 * MARGIN) / ROAD_LENGTH_M] *)
Definition SCALE_X : result Q :=
  py_div (inject_Z (SCREEN_W - 2 * MARGIN)) ROAD_LENGTH_M.

(** [def meters_to_px(m): return max(2, int(m * SCALE_X))] *)
Definition meters_to_px (m : Q) : result Z :=
  s ← SCALE_X; mret (Z.max 2 (py_int (m * s))).

(** [def pos_to_px(x_m): return int(MARGIN + x_m * SCALE_X)] *)
Definition pos_to_px (x_m : Q) : result Z :=
  s ← SCALE_X; mret (py_int (inject_Z MARGIN + x_m * s)).

(** [LANE_GAP] and [LANE_Y] *)
Definition LANE_GAP : Q := inject_Z (SCREEN_H - 2 * MARGIN) / 3.
Definition LANE_Y : list Q :=
  map (fun i => inject_Z MARGIN + inject_Z i * LANE_GAP + LANE_GAP / 2) (range 3).

(** The rectangle drawn for a vehicle:
    [pygame.Rect(xpx - w//2, ypx - h//2, w, h)], as (left, top, width,
    height). *)
Definition vehicle_rect (w : World) (i : nat) : result (Z * Z * Z * Z) :=
  veh ← deref w i;
  xpx ← pos_to_px (x veh);
  y ← py_get LANE_Y (lane veh);
  let ypx := py_int y in
  m ← meters_to_px (length_m veh);
  let wd := Z.max 6 m in
  let h := (if bool_decide (vtype veh = truck) then 12 else 8)%Z in
  mret ((xpx - wd / 2)%Z, (ypx - h / 2)%Z, wd, h).

End Engine.

End Traff.

(** * [a2.py]: the text-mode simulator *)

Module A2.

(** [LANE_SPEED] *)
Definition LANE_SPEED (l : Z) : result Q :=
  if (l =? 0)%Z then Ok 90
  else if (l =? 1)%Z then Ok 100
  else if (l =? 2)%Z then Ok 120
  else Raise IndexError.

Record Vehicle : Type := mkVehicle
  { type : VType;
    position : Q;
    lane : Z;
    speed : Q;
    priority : Z }.

(** [Vehicle.update_speed_by_lane] *)
Definition update_speed_by_lane (u : Vehicle) : result Vehicle :=
  max_lane_speed ← LANE_SPEED (lane u);
  if Qltb max_lane_speed (speed u)
  then mret (mkVehicle (type u) (position u) (lane u) max_lane_speed (priority u))
  else mret u.

(** [Vehicle.move] *)
Definition move (u : Vehicle) (dt : Q) : result Vehicle :=
  u1 ← update_speed_by_lane u;
  mret (mkVehicle (type u1) (position u1 + speed u1 * (dt / 3600)) (lane u1)
          (speed u1) (priority u1)).

(** *** The simulator

    A key that the dict [LANE_SPEED] does not hold is reported by the
    lookup error [IndexError] of [exn]. *)

(** [random.uniform(a, b)], which is [a + (b - a) * random()]. *)
Definition uniform (a b : Q) (r : Rng) : Q * Rng :=
  let '(u, r') := next_random r in (a + (b - a) * u, r').

(** The bounds of the base speed of a type (km/h), and
    [{"camion": 1, "coche": 2, "ambulancia": 3}[vtype]]. *)
Definition base_speed (ty : VType) : Q * Q :=
  match ty with
  | car => (80, 120)
  | truck => (70, 90)
  | ambulance => (110, 140)
  end.

Definition type_priority (ty : VType) : Z :=
  match ty with truck => 1 | car => 2 | ambulance => 3 end.

(** [Vehicle(vtype, lane)] *)
Definition new_vehicle (ty : VType) (l : Z) (r : Rng) : Vehicle * Rng :=
  let '(s, r') := uniform (fst (base_speed ty)) (snd (base_speed ty)) r in
  (mkVehicle ty 0 l s (type_priority ty), r').

(** The attributes of an [A2Simulator]. *)
Record Simulator : Type := mkSimulator
  { vehicles : list Vehicle;
    finished : ByType nat;
    speeds_finished : ByType (list Q) }.

(** [A2Simulator()] *)
Definition new_simulator : Simulator :=
  mkSimulator [] (mkByType O O O) (mkByType [] [] []).

Definition ROAD_LENGTH : Q := 60.
Definition TIME_LIMIT : Z := 2.

(** [A2Simulator.spawn_vehicles] *)
Definition spawn_vehicles (s : Simulator) (r : Rng) : Simulator * Rng :=
  let '(u, r1) := next_random r in
  if Qltb u 0.3 then
    let '(ty, r2) := next_choice r1 in
    let '(l, r3) := next_randint r2 0 in
    let '(veh, r4) := new_vehicle ty l r3 in
    (mkSimulator (vehicles s ++ [veh]) (finished s) (speeds_finished s), r4)
  else (s, r1).

(** [for v in self.vehicles: v.move(dt)] *)
Fixpoint move_all (l : list Vehicle) (dt : Q) : result (list Vehicle) :=
  match l with
  | [] => mret []
  | u :: l' =>
      u' ← move u dt;
      rest ← move_all l' dt;
      mret (u' :: rest)
  end.

(** [a <= b] on the sort keys [(x.position, x.priority)], compared as
    tuples. *)
Definition key_le (a b : Vehicle) : bool :=
  (Qltb (position a) (position b)
   || (Qeq_bool (position a) (position b) && (priority a <=? priority b)%Z))%bool.

(** [self.vehicles.sort(key=..., reverse=True)]: greatest key first, equal
    keys in their former order. *)
Definition sort_vehicles (l : list Vehicle) : list Vehicle :=
  sort_by (fun a b => key_le b a) l.

(** [A2Simulator.update_positions] *)
Definition update_positions (s : Simulator) (dt : Q) : result Simulator :=
  moved ← move_all (vehicles s) dt;
  mret (mkSimulator (sort_vehicles moved) (finished s) (speeds_finished s)).

(** One round of the loop of [remove_finished]; [vehicles] holds the list
    [remaining] built so far. *)
Definition retire (s : Simulator) (u : Vehicle) : Simulator :=
  if Qle_bool ROAD_LENGTH (position u) then
    mkSimulator (vehicles s)
      (set_type (type u) (S (get_type (type u) (finished s))) (finished s))
      (set_type (type u) (get_type (type u) (speeds_finished s) ++ [speed u])
         (speeds_finished s))
  else mkSimulator (vehicles s ++ [u]) (finished s) (speeds_finished s).

(** [A2Simulator.remove_finished] *)
Definition remove_finished (s : Simulator) : Simulator :=
  fold_left retire (vehicles s) (mkSimulator [] (finished s) (speeds_finished s)).

(** A character of the road drawn by [display]: ["."], or the letter of a
    vehicle type (["C"], ["T"], ["A"]). *)
Inductive Cell : Type := Free | Letter (ty : VType).

(** [road[v.lane][min(int(v.position), 59)] = symbol] *)
Definition plot (road : list (list Cell)) (u : Vehicle) : result (list (list Cell)) :=
  let pos := Z.min (py_int (position u)) 59 in
  row ← py_get road (lane u);
  _ ← py_get row pos;
  mret (py_set road (lane u) (py_set row pos (Letter (type u)))).

Fixpoint plot_all (road : list (list Cell)) (l : list Vehicle) : result (list (list Cell)) :=
  match l with
  | [] => mret road
  | u :: l' => road' ← plot road u; plot_all road' l'
  end.

(** What [display] prints: the three lanes (lane 2 first), the number of
    vehicles on the road and the counters of finished vehicles. *)
Record Screen : Type := mkScreen
  { lines : list (list Cell);
    on_road : nat;
    finished_shown : ByType nat }.

(** [A2Simulator.display] *)
Definition display (s : Simulator) : result Screen :=
  road ← plot_all (replicate 3 (replicate 60 Free)) (vehicles s);
  mret (mkScreen (rev road) (length (vehicles s)) (finished s)).

(** The state of [A2Simulator.run]: the simulator, the loop counter, the
    oracle and what was displayed. *)
Record State : Type := mkState
  { sim : Simulator;
    elapsed : Z;
    rng : Rng;
    screens : list Screen }.

(** One iteration of [while elapsed < total_seconds]. *)
Definition step (st : State) : result State :=
  let '(s1, r1) := spawn_vehicles (sim st) (rng st) in
  s2 ← update_positions s1 1;
  let s3 := remove_finished s2 in
  scr ← display s3;
  mret (mkState s3 (elapsed st + 1) r1 (screens st ++ [scr])).

Fixpoint loop (fuel : nat) (st : State) : result State :=
  match fuel with
  | O => mret st
  | S fuel' =>
      if (elapsed st <? TIME_LIMIT * 3600)%Z
      then st' ← step st; loop fuel' st'
      else mret st
  end.

Definition init (r : Rng) : State := mkState new_simulator 0 r [].

(** The figures printed for one type at the end: the count and
    [sum(speeds)/len(speeds) if speeds else 0]. *)
Definition report (s : Simulator) (ty : VType) : nat * Q :=
  let speeds := get_type ty (speeds_finished s) in
  (get_type ty (finished s),
   match speeds with
   | [] => 0
   | _ :: _ => Qsum speeds / inject_Z (Z.of_nat (length speeds))
   end).

(** [A2Simulator.run], the loop bounded by [fuel] iterations; the results
    are those of "camion", "coche" and "ambulancia". *)
Definition run (fuel : nat) (r : Rng) : result ((nat * Q) * (nat * Q) * (nat * Q)) :=
  st ← loop fuel (init r);
  mret (report (sim st) truck, report (sim st) car, report (sim st) ambulance).

End A2.

(** * Predicates of the statements *)

(** A move to another lane rewrites the [lane] attribute of the vehicle and
    no other attribute of any vehicle. *)
Definition relaned (w w' : World) (i : nat) (target : Z) : Prop :=
  exists veh, objs w !! i = Some veh /\ objs w' = <[i := set_lane target veh]> (objs w).

(** The outcome of the loop over the two neighbours: nothing happened, or
    the vehicle sits in one of them. *)
Definition lane_changed (w w' : World) (i : nat) (changed : bool) : Prop :=
  (changed = false /\ w' = w)
  \/ (changed = true
      /\ exists veh d, deref w i = Ok veh /\ (d = -1 \/ d = 1)%Z
                       /\ relaned w w' i (lane veh + d)).

(** The speed of vehicle [i] lies between 0 and [ceiling]. *)
Definition speed_within (ceiling : Vehicle -> Q) (w : World) (i : nat) : Prop :=
  exists veh, objs w !! i = Some veh /\ 0 <= v veh /\ v veh <= ceiling veh.

(** The leader of vehicle [i], if it has one, does not overlap it: the gap
    the car-following rule measures is not negative. *)
Definition leader_clear (w : World) (i : nat) : Prop :=
  forall veh j,
    objs w !! i = Some veh -> ahead w i = Ok (Some j) ->
    0 <= x_of w j - (x veh + length_m veh).

(** The speed of vehicle [i] is at most the limit of the lane it is in
    ([traff.py]). *)
Definition under_lane_limit (limits : list Q) (w : World) (i : nat) : Prop :=
  exists veh limit,
    objs w !! i = Some veh /\ py_get limits (lane veh) = Ok limit /\ v veh <= limit.

(** The constants of [trafico.py] make sense: the time step and the top
    speed are not negative, the headway is positive. *)
Definition trafico_sane (cfg : Trafico.Config) : Prop :=
  0 <= Trafico.DT cfg /\ 0 < Trafico.SAFE_TIME_HEADWAY cfg
  /\ 0 <= Trafico.MAX_SPEED_KMH cfg.

(** The lane limits of [traff.py] are not negative. *)
Definition traff_sane (cfg : Traff.Config) : Prop :=
  forall limit, In limit (Traff.LANE_SPEED_MS cfg) -> 0 <= limit.

(** How often the log [l] records a car-following update of vehicle [i]. *)
Definition followings (i : nat) (l : list Event) : nat :=
  length (List.filter (fun e => match e with
                                | CarFollowing j _ _ => Nat.eqb i j
                                | LaneChange _ _ _ _ => false
                                end) l).

(** A state of [trafico.py] with other values for the three variables of
    the live plot: the time of the last drawing, the coming readings of the
    wall clock, and the plots drawn. *)
Definition with_plot (s : Q) (c : list Q) (fr : list (list (Q * Z))) (st : Trafico.State)
  : Trafico.State :=
  Trafico.mkState (Trafico.world st) (Trafico.t st) (Trafico.next_arrival st)
    (Trafico.stats st) (Trafico.next_id st) (Trafico.rng st) s c fr (Trafico.trace st).

Definition on_ok {A B} (f : A -> B) (r : result A) : result B :=
  match r with
  | Ok a => Ok (f a)
  | Raise e => Raise e
  end.

(** * Concrete configurations, oracles and states used below *)

(** The oracle of a run in which no call to [random] is recorded: every
    arrival is a car, [shuffle] leaves the lanes in order, and no draw is
    below the slowdown probability. *)
Definition quiet : Rng := mkRng [] [] [] [].

(** [trafico.py] with [SAFE_TIME_HEADWAY = 0]. *)
Definition trafico_zero_headway : Trafico.Config :=
  Trafico.mkConfig 60 3 (3600 * 2) 1 40 120 0.02 0 2 4.5 20.




(** A run of [atascos.py]: a truck arrives for lane 0, then two cars for
    lane 1, and the first car brakes at random in both of its first steps. *)
Definition truck_then_two_cars : Rng :=
  mkRng [truck; car; car] [] [1 # 2; 1 # 2; 1 # 2; 0; 1 # 2; 0] [0; 1; 1]%Z.

(** The state of that run in its fifth iteration, when the loop over the
    vehicles reaches lane 1: the second car (vehicle 3) has just been let
    in behind the first (vehicle 2). *)
Definition atascos_at_decision : result Atascos.State :=
  st ← Atascos.loop Atascos.default 2 4 (Atascos.init Atascos.default truck_then_two_cars);
  st ← Atascos.arrival Atascos.default 2 st;
  st ← Atascos.admission Atascos.default st (range 3);
  snapshot ← py_get (lanes (Atascos.world st)) 0;
  Atascos.process_all Atascos.default st snapshot.

(** [gapAtEntry(lane)] in the words of the specification (section 4.1):
    the distance from the road start to the nearest active vehicle of the
    lane, infinite if the lane is empty. *)
Definition spec_gap_at_entry (w : World) (lane_list : list nat) : ext :=
  match py_min_by (x_of w) lane_list with
  | Some first => Fin (x_of w first)
  | None => PInf
  end.

(** [atascos.py] with [MAX_SPEED_KMH = 30], and the draws of a run in
    which two cars arrive for lane 0 and the first brakes at random in its
    first step. *)
Definition atascos_30 : Atascos.Config :=
  Atascos.mkConfig 60 3 (3600 * 1) 1 30 30 0.02 1.8 2 4.5 300000.

Definition first_car_brakes : Rng := mkRng [car; car] [] [0] [0; 0]%Z.


(** The state reached by a computation, [d] if it raised. *)
Definition reached {A} (d : A) (r : result A) : A :=
  match r with
  | Ok a => a
  | Raise _ => d
  end.

(** That run in its third iteration (t = 2), when the second car has just
    been queued and the admission is about to start. *)
Definition atascos_slow_entrance : Atascos.State :=
  reached (Atascos.init atascos_30 first_car_brakes)
    (st ← Atascos.loop atascos_30 2 2 (Atascos.init atascos_30 first_car_brakes);
     Atascos.arrival atascos_30 2 st).

(** The length of the queue at position [k]. *)
Definition queue_length (st : Atascos.State) (k : nat) : nat :=
  length (default [] (Atascos.queues st !! k)).

(** The vehicles of a lane list are ordered by non-decreasing position. *)
Definition ordered_by_position (w : World) (l : list nat) : Prop :=
  Sorted (fun i j => x_of w i <= x_of w j) l.

(** A run of [trafico.py]: an ambulance enters lane 1 at t = 0, a truck
    lane 0 at t = 2 and a car lane 0 at t = 3 (12.5 m behind the truck);
    the truck brakes at random in each of its steps. *)
Definition truck_braking : Rng :=
  mkRng [ambulance; truck; car] [[1; 0; 2]; [0; 1; 2]; [0; 1; 2]]%Z
    [1 # 2; 1 # 2; 0; 1 # 2; 1 # 2; 0; 1 # 2; 1 # 2; 0; 1 # 2] [].

(** The same arrivals; the truck brakes at random in its first two steps
    and the car in its second. *)
Definition car_braking : Rng :=
  mkRng [ambulance; truck; car] [[1; 0; 2]; [0; 1; 2]; [0; 1; 2]]%Z
    [1 # 2; 1 # 2; 0; 1 # 2; 1 # 2; 0; 1 # 2; 0; 1 # 2; 1 # 2] [].

(** The state of [trafico.py] after [n] iterations of its loop. *)
Definition trafico_after (n : nat) (r : Rng) : Trafico.State :=
  reached (Trafico.init Trafico.default r [])
    (Trafico.loop Trafico.default 1.5 n (Trafico.init Trafico.default r [])).

(** A run of [trafico.py] that fills the three entrances, one arrival every
    1.5 s: a car enters lane 1, three trucks lane 0, a car lane 2, three
    trucks lane 1, a car and three trucks lane 2; a last car arrives at
    t = 18.  [brakes] tells, for each step of a vehicle in the order of the
    run, whether it brakes at random: every truck does, in each of its
    steps, and no car does. *)
Definition brakes : list bool :=
  [false; false; true; false; true; true; false; true; true; false;
   true; true; true; false; true; true; true; false; false; true;
   true; true; false; false; true; true; true; true; false; false;
   true; true; true; true; true; false; false; true; true; true;
   true; true; false; false; true; true; true; true; true; true;
   false; false; true; true; true; true; true; true; false; false;
   false; true; true; true; true; true; true; false; false; false;
   true; true; true; true; true; true; false; true; false; false;
   true; true; true; true; true; true; false; true; true; false;
   false; true; true; true; true; true; true; false; true; true;
   false; false; true; true; true; true; true; true; false; true;
   true; true; false; false].

Definition entrances_filling : Rng :=
  mkRng [car; truck; truck; truck; car; truck; truck; truck; car; truck; truck; truck; car]
    [[1; 0; 2]; [0; 1; 2]; [0; 1; 2]; [0; 1; 2]; [2; 1; 0]; [1; 0; 2]; [1; 0; 2];
     [1; 0; 2]; [2; 1; 0]; [2; 1; 0]; [2; 1; 0]; [2; 1; 0]; [0; 1; 2]]%Z
    (map (fun b : bool => if b then 0 else 1 # 2) brakes) [].

(** [traff.py] in its first frame, which lasted 60 ms (6 simulated
    seconds): the arrivals are queued and the first car has been inserted
    in lane 0; the loop over the vehicles is about to start. *)
Definition traff_first_insertion : Traff.State :=
  reached (Traff.init Traff.default quiet)
    (Traff.advance Traff.default 1.5 (Traff.init Traff.default quiet) 6).

(** A run of [trafico.py]: a truck enters lane 0 at t = 0 and a car enters
    the same lane at t = 2, 28 m behind it. *)
Definition truck_then_car : Rng :=
  mkRng [truck; car] [[0; 1; 2]; [0; 1; 2]]%Z [] [].

(** Two sequences of frames for [traff.py]: a first frame of 17 ms, then
    a frame during which the display was held for 72 s, or for 80 s. *)
Definition frames_72 : list Traff.Frame := [Traff.mkFrame [] 17; Traff.mkFrame [] 72000].
Definition frames_80 : list Traff.Frame := [Traff.mkFrame [] 17; Traff.mkFrame [] 80000].

(** * Predicates and inputs of the further properties *)

(** The draws [random] can return: [random()] lies in [0, 1) and
    [randint(0, 2)] in 0..2. *)
Definition a2_oracle (r : Rng) : Prop :=
  Forall (fun u => 0 <= u /\ u < 1) (randoms r)
  /\ Forall (fun l => (0 <= l <= 2)%Z) (randints r).

(** [a] may be listed before [b] by [update_positions]: the key
    (position, priority) of [a] is not smaller than that of [b]. *)
Definition a2_before (a b : A2.Vehicle) : Prop :=
  A2.position b < A2.position a
  \/ (A2.position b == A2.position a /\ (A2.priority b <= A2.priority a)%Z).

(** The speeds (km/h) a vehicle of a type can have once it has moved:
    its base speed, cut to the limit of a lane. *)
Definition a2_speed_bounds (ty : VType) : Q * Q :=
  match ty with
  | truck => (70, 90)
  | car => (80, 120)
  | ambulance => (90, 120)
  end.

(** The vehicle has reached the end of the road. *)
Definition a2_arrived (u : A2.Vehicle) : bool := Qle_bool A2.ROAD_LENGTH (A2.position u).

(** The vehicle is at cell [col] of lane [l] on the road drawn by
    [display]: the cells are one kilometre long and the last one takes
    whatever lies beyond it. *)
Definition a2_at_cell (l : Z) (col : Z) (u : A2.Vehicle) : bool :=
  ((A2.lane u =? l) && (Z.min (py_int (A2.position u)) 59 =? col))%Z.

(** What a cell of the drawing should show: the letter of the last
    vehicle of the list that is at this cell, or a free cell. *)
Definition a2_shown (l : Z) (col : Z) (vs : list A2.Vehicle) : A2.Cell :=
  match find (a2_at_cell l col) (rev vs) with
  | Some u => A2.Letter (A2.type u)
  | None => A2.Free
  end.

(** The cell at row [k] and column [c] of a grid. *)
Definition a2_cell (road : list (list A2.Cell)) (k c : nat) : option A2.Cell :=
  match road !! k with
  | Some row => row !! c
  | None => None
  end.

(** [n] calls of [Vehicle.move] on a vehicle of [a2.py]. *)
Fixpoint a2_moves (n : nat) (u : A2.Vehicle) (dt : Q) : result A2.Vehicle :=
  match n with
  | O => mret u
  | S n' => u' ← A2.move u dt; a2_moves n' u' dt
  end.

(** A car of [a2.py] in lane 0 with a base speed of 110 km/h, and a truck
    in lane 2 at 80 km/h that is 30 km down the road. *)
Definition a2_fast_car : A2.Vehicle := A2.mkVehicle car 0 0 110 2.
Definition a2_truck_midway : A2.Vehicle := A2.mkVehicle truck 30 2 80 1.

(** A simulator of [a2.py] with these two vehicles on the road, and one
    in which a car has moreover reached the end of the road. *)
Definition a2_two_on_road : A2.Simulator :=
  A2.mkSimulator [a2_fast_car; a2_truck_midway] (mkByType O O O) (mkByType [] [] []).

Definition a2_one_arrived : A2.Simulator :=
  A2.mkSimulator [A2.mkVehicle car 60 2 120 2; a2_truck_midway; a2_fast_car]
    (mkByType O O O) (mkByType [] [] []).

(** A vehicle of [a2.py] that is on the road after [k] iterations: its
    lane is a lane of the road, it has driven at most [k] steps at
    120 km/h, and its speed is within the bounds of its type. *)
Definition a2_vehicle_ok (k : Z) (u : A2.Vehicle) : Prop :=
  (0 <= A2.lane u <= 2)%Z
  /\ 0 <= A2.position u
  /\ A2.position u <= inject_Z k * (1 # 30)
  /\ fst (a2_speed_bounds (A2.type u)) <= A2.speed u
  /\ A2.speed u <= snd (A2.base_speed (A2.type u)).

(** What holds of the state of [A2Simulator.run] at every test of its
    [while]. *)
Definition a2_inv (st : A2.State) : Prop :=
  (0 <= A2.elapsed st)%Z
  /\ a2_oracle (A2.rng st)
  /\ Forall (fun u => a2_vehicle_ok (A2.elapsed st) u /\ A2.position u < A2.ROAD_LENGTH)
       (A2.vehicles (A2.sim st))
  /\ (forall ty, get_type ty (A2.finished (A2.sim st))
                 = length (get_type ty (A2.speeds_finished (A2.sim st))))
  /\ (forall ty sp, In sp (get_type ty (A2.speeds_finished (A2.sim st))) ->
                    fst (a2_speed_bounds ty) <= sp /\ sp <= snd (a2_speed_bounds ty))
  /\ ((A2.elapsed st < 1800)%Z ->
      forall ty, get_type ty (A2.finished (A2.sim st)) = O)
  /\ length (A2.screens st) = Z.to_nat (A2.elapsed st).

(** A sequence of draws of [a2.py]: vehicles are spawned in the first,
    second and fourth iterations (a car in lane 2, a truck in lane 0, an
    ambulance in lane 1). *)
Definition a2_draws : Rng :=
  mkRng [car; truck; ambulance] []
    [1 # 10; 1 # 2; 2 # 10; 1 # 4; 9 # 10; 0; 3 # 4] [2; 0; 1]%Z.

(** The road that [display] fills: three lanes of sixty characters. *)
Definition a2_road_shape (road : list (list A2.Cell)) : Prop :=
  length road = 3%nat /\ Forall (fun row => length row = 60%nat) road.

(** [traff.py] in its first frame of 60 ms, when the simulated clock has
    moved to 6 s and the arrival loop is about to start; and after that
    loop, when the five arrivals that are due are queued. *)
Definition traff_first_clock : Traff.State :=
  Traff.mkState (Traff.world (Traff.init Traff.default quiet)) 6 0 [] true false 1 quiet [].

Definition traff_first_queue : Traff.State :=
  Traff.arrivals Traff.default (Traff.due_arrivals 1.5 traff_first_clock) 1.5
    traff_first_clock.

(** Vehicle [i] is listed in lane [k] of the highway; it is on the road
    when some lane lists it. *)
Definition in_lane (w : World) (k : nat) (i : nat) : Prop :=
  exists l, lanes w !! k = Some l /\ In i l.

Definition on_road (w : World) (i : nat) : Prop := exists k, in_lane w k i.

(** A well-formed highway: it has as many lane lists as lanes, no list
    holds a vehicle twice, and a vehicle listed in lane [k] is an object
    whose [lane] attribute is [k]. *)
Definition highway_wf (w : World) : Prop :=
  length (lanes w) = Z.to_nat (num_lanes w)
  /\ (forall k l, lanes w !! k = Some l -> NoDup l)
  /\ (forall k i, in_lane w k i ->
        exists veh, objs w !! i = Some veh /\ lane veh = Z.of_nat k).

(** The global list of [trafico.py] and [atascos.py] holds the vehicles
    that are on the road, once each. *)
Definition all_wf (w : World) : Prop :=
  NoDup (all w) /\ forall i, In i (all w) <-> on_road w i.

(** What handling vehicle [i] may change on the highway: the attributes of
    [i], and where [i] is listed.  No object appears or disappears. *)
Definition same_road_except (i : nat) (w w' : World) : Prop :=
  num_lanes w' = num_lanes w /\ hw_length w' = hw_length w
  /\ (forall j, j <> i -> objs w' !! j = objs w !! j)
  /\ (forall j, is_Some (objs w' !! j) <-> is_Some (objs w !! j))
  /\ (forall j k, j <> i -> (in_lane w' k j <-> in_lane w k j))
  /\ (forall j, j <> i -> (In j (all w') <-> In j (all w))).

(** The orders [random.shuffle] can leave in [lanes]: lists of lanes of a
    highway with [n] lanes. *)
Definition shuffles_valid (n : Z) (r : Rng) : Prop :=
  Forall (Forall (fun l => (0 <= l < n)%Z)) (shuffles r).

(** What a lane-change attempt on vehicle [i] leaves: a well-formed
    highway on which [i] is still listed, the other vehicles where they
    were, the same global list and lists of finished vehicles, and as
    many vehicles in the lanes. *)
Definition lane_step_ok (i : nat) (w w' : World) : Prop :=
  highway_wf w' /\ same_road_except i w w' /\ all w' = all w /\ on_road w' i
  /\ length (concat (lanes w')) = length (concat (lanes w))
  /\ finished_vehicles w' = finished_vehicles w.

(** The number of vehicles in the lists of finished vehicles. *)
Definition stats_total (s : ByType (list nat)) : nat :=
  (length (of_car s) + length (of_truck s) + length (of_ambulance s))%nat.

(** The highway has the same lanes and the same vehicle objects (whatever
    their attributes). *)
Definition same_objects (w w' : World) : Prop :=
  num_lanes w' = num_lanes w
  /\ forall j, is_Some (objs w' !! j) <-> is_Some (objs w !! j).

(** What holds of the state of [run_sim] of [trafico.py] at every test of
    its [while]: the highway is well formed, its global list holds the
    vehicles on the road, the ids of the objects are below the next id,
    and every vehicle created is on the road or in the statistics. *)
Definition trafico_inv (cfg : Trafico.Config) (st : Trafico.State) : Prop :=
  highway_wf (Trafico.world st) /\ all_wf (Trafico.world st)
  /\ num_lanes (Trafico.world st) = Trafico.NUM_LANES cfg
  /\ (forall j, is_Some (objs (Trafico.world st) !! j) -> (j < Trafico.next_id st)%nat)
  /\ shuffles_valid (Trafico.NUM_LANES cfg) (Trafico.rng st)
  /\ (length (all (Trafico.world st)) + stats_total (Trafico.stats st) + 1
      = Trafico.next_id st)%nat.

(** What the loop over the vehicles of [trafico.py] (the dynamics of an
    iteration) keeps: a well-formed highway and global list, the time, the
    arrival time, the next id, the shuffles to come, the vehicle objects,
    and the number of vehicles on the road or finished. *)
Definition trafico_dyn (st st' : Trafico.State) : Prop :=
  highway_wf (Trafico.world st') /\ all_wf (Trafico.world st')
  /\ same_objects (Trafico.world st) (Trafico.world st')
  /\ Trafico.t st' = Trafico.t st
  /\ Trafico.next_arrival st' = Trafico.next_arrival st
  /\ Trafico.next_id st' = Trafico.next_id st
  /\ shuffles (Trafico.rng st') = shuffles (Trafico.rng st)
  /\ (length (all (Trafico.world st')) + stats_total (Trafico.stats st')
      = length (all (Trafico.world st)) + stats_total (Trafico.stats st))%nat.

(** Handling vehicles that are on the road changes nothing for a vehicle
    that is not: its object is untouched and it stays off the road. *)
Definition off_road_kept (w w' : World) : Prop :=
  forall j, ~ on_road w j -> objs w' !! j = objs w !! j /\ ~ on_road w' j.

(** Vehicle [i] waits in the entry queue of lane [k] ([atascos.py]). *)
Definition in_queue (st : Atascos.State) (k : nat) (i : nat) : Prop :=
  exists q, Atascos.queues st !! k = Some q /\ In i q.

(** The lanes [random.randint(0, NUM_LANES - 1)] can return. *)
Definition randints_valid (n : Z) (r : Rng) : Prop :=
  Forall (fun l => (0 <= l < n)%Z) (randints r).

(** The column [v_m_s] of a row of the csv file of [atascos.py]. *)
Definition row_speed (row : Q * nat * Z * Q * Q) : Q := snd row.

(** The counters of the csv file of [atascos.py] agree: one line for the
    header and one per speed sample, never more than [MAX_LINES] lines
    (leaving the header aside), and [total_speed] is the sum of the speeds
    in the rows written. *)
Definition csv_ok (cfg : Atascos.Config) (st : Atascos.State) : Prop :=
  Atascos.lines_written st = (Z.of_nat (Atascos.speed_samples st) + 1)%Z
  /\ length (Atascos.rows st) = Atascos.speed_samples st
  /\ (Atascos.lines_written st <= Z.max 1 (Atascos.MAX_LINES cfg))%Z
  /\ Atascos.total_speed st == Qsum (map row_speed (Atascos.rows st)).

(** What the loop over the vehicles of [atascos.py] keeps. *)
Definition atascos_dyn (cfg : Atascos.Config) (st st' : Atascos.State) : Prop :=
  highway_wf (Atascos.world st') /\ all_wf (Atascos.world st')
  /\ same_objects (Atascos.world st) (Atascos.world st')
  /\ off_road_kept (Atascos.world st) (Atascos.world st')
  /\ Atascos.t st' = Atascos.t st
  /\ Atascos.next_arrival_time st' = Atascos.next_arrival_time st
  /\ Atascos.queues st' = Atascos.queues st
  /\ Atascos.next_id st' = Atascos.next_id st
  /\ randints (Atascos.rng st') = randints (Atascos.rng st)
  /\ (length (all (Atascos.world st')) + Atascos.stats_flow st'
      = length (all (Atascos.world st)) + Atascos.stats_flow st)%nat
  /\ (csv_ok cfg st -> csv_ok cfg st').

(** What holds of the state of [run_simulation] of [atascos.py] at every
    test of its [while]. *)
Definition atascos_inv (cfg : Atascos.Config) (st : Atascos.State) : Prop :=
  highway_wf (Atascos.world st) /\ all_wf (Atascos.world st)
  /\ num_lanes (Atascos.world st) = Atascos.NUM_LANES cfg
  /\ length (Atascos.queues st) = Z.to_nat (Atascos.NUM_LANES cfg)
  /\ (forall k q, Atascos.queues st !! k = Some q -> NoDup q)
  /\ (forall k i, in_queue st k i ->
        exists veh, objs (Atascos.world st) !! i = Some veh
                    /\ lane veh = Z.of_nat k /\ ~ on_road (Atascos.world st) i)
  /\ (forall j, is_Some (objs (Atascos.world st) !! j) -> (j < Atascos.next_id st)%nat)
  /\ randints_valid (Atascos.NUM_LANES cfg) (Atascos.rng st)
  /\ (length (concat (Atascos.queues st)) + length (all (Atascos.world st))
      + Atascos.stats_flow st + 1 = Atascos.next_id st)%nat
  /\ csv_ok cfg st.



(** What no step of [traff.py] changes of a vehicle object: the object
    stays, with its type and its entry time, and an exit time that is set
    stays set.  No object appears. *)
Definition obj_kept (w w' : World) : Prop :=
  (forall j veh, objs w !! j = Some veh ->
     exists veh', objs w' !! j = Some veh' /\ vtype veh' = vtype veh
                  /\ entry_time veh' = entry_time veh
                  /\ (is_Some (exit_time veh) -> is_Some (exit_time veh')))
  /\ (forall j, is_Some (objs w' !! j) -> is_Some (objs w !! j)).

(** The vehicles of [traff.py] have the times the statistics subtract:
    every vehicle object has an entry time, and the list
    [finished_vehicles[ty]] holds vehicles of type [ty] whose exit time is
    set. *)
Definition traff_timed (w : World) : Prop :=
  (forall j veh, objs w !! j = Some veh -> is_Some (entry_time veh))
  /\ (forall ty j, In j (get_type ty (finished_vehicles w)) ->
        exists veh, objs w !! j = Some veh /\ vtype veh = ty
                    /\ is_Some (exit_time veh)).

(** What the loop over the vehicles of a frame of [traff.py] keeps. *)
Definition traff_dyn (st st' : Traff.State) : Prop :=
  highway_wf (Traff.world st')
  /\ same_objects (Traff.world st) (Traff.world st')
  /\ Traff.sim_time st' = Traff.sim_time st
  /\ Traff.next_arrival st' = Traff.next_arrival st
  /\ Traff.entry_queue st' = Traff.entry_queue st
  /\ Traff.running st' = Traff.running st
  /\ Traff.paused st' = Traff.paused st
  /\ Traff.next_id st' = Traff.next_id st
  /\ (length (concat (lanes (Traff.world st')))
      + stats_total (finished_vehicles (Traff.world st'))
      = length (concat (lanes (Traff.world st)))
        + stats_total (finished_vehicles (Traff.world st)))%nat
  /\ (traff_timed (Traff.world st) -> traff_timed (Traff.world st')).

(** What holds of the state of [run_pygame_sim] of [traff.py] at every
    test of its [while running]. *)
Definition traff_inv (st : Traff.State) : Prop :=
  highway_wf (Traff.world st)
  /\ num_lanes (Traff.world st) = 3%Z
  /\ (forall j, is_Some (objs (Traff.world st) !! j) -> (j < Traff.next_id st)%nat)
  /\ (length (concat (lanes (Traff.world st)))
      + stats_total (finished_vehicles (Traff.world st)) + 1
      = Traff.next_id st)%nat
  /\ traff_timed (Traff.world st).

(** [traff.py] after the frames [fs], no key pressed, [random.choice]
    always a car and [random.random] always 0.5. *)
Definition traff_after (fs : list Traff.Frame) : Traff.State :=
  reached (Traff.init Traff.default quiet)
    (Traff.frames_loop Traff.default 1.5 (Traff.init Traff.default quiet) fs).

(** * Properties *)

(** ** Numbers, results and list primitives *)

Lemma Qltb_lt a b : Qltb a b = true <-> a < b.
Proof.
  unfold Qltb. rewrite negb_true_iff.
  split; intros H.
  - apply Qnot_le_lt. intros Hle. apply Qle_bool_iff in Hle. congruence.
  - destruct (Qle_bool b a) eqn:E; [|reflexivity].
    apply Qle_bool_iff in E. exfalso. apply (Qlt_not_le a b); assumption.
Qed.

Lemma Qltb_ge a b : Qltb a b = false <-> b <= a.
Proof.
  unfold Qltb. rewrite negb_false_iff. apply Qle_bool_iff.
Qed.

Lemma bind_ok {A B} (m : result A) (k : A -> result B) (b : B) :
  (m ≫= k) = Ok b <-> exists a, m = Ok a /\ k a = Ok b.
Proof.
  destruct m as [a|e]; simpl; split.
  - intros H. exists a. split; [reflexivity | exact H].
  - intros (a' & Ha & Hk). injection Ha as ->. exact Hk.
  - discriminate.
  - intros (a' & Ha & _). discriminate.
Qed.

Lemma bind_inv {A B} (m : result A) (k : A -> result B) (b : B) :
  (m ≫= k) = Ok b -> exists a, m = Ok a /\ k a = Ok b.
Proof. apply bind_ok. Qed.

Lemma mret_inv {A} (a b : A) : (mret a : result A) = Ok b -> a = b.
Proof. intros H; injection H; auto. Qed.


Lemma py_div_ok a b : ~ b == 0 -> py_div a b = Ok (a / b).
Proof.
  intros Hb. unfold py_div.
  destruct (Qeq_bool b 0) eqn:E; [|reflexivity].
  apply Qeq_bool_iff in E. contradiction.
Qed.

Lemma py_div_zero a b : b == 0 -> py_div a b = Raise ZeroDivisionError.
Proof.
  intros Hb. unfold py_div.
  apply Qeq_bool_iff in Hb. rewrite Hb. reflexivity.
Qed.

(** ** Lane-change clearance against the following distance (C9) *)

(** C9, as stated, fails in [trafico.py]: at 1 m/s the clearance a lane
    change requires (2 m) is larger than the distance under which the
    car-following trigger fires (1.8 m). *)
Lemma clearance_above_threshold_at_low_speed :
  ~ (Trafico.need Trafico.default 1 <= Trafico.follow_threshold Trafico.default 1).
Proof.
  unfold Trafico.need, Trafico.follow_threshold. simpl.
  intros H. vm_compute in H. apply H. reflexivity.
Qed.

(** C9 (amended): under the default parameters and for every speed
    [s >= 0], the clearance of [atascos.py] is at most its desired gap
    [s * headway + MIN_GAP], strictly below it when [s > 0]; the clearance
    of [trafico.py] is at most its threshold [s * headway] exactly when
    [s >= 10/9] (strictly below it when [s > 10/9]) and above it for slower
    vehicles. *)
Theorem clearance_vs_following_distance (s : Q) (Hs : 0 <= s) :
  Atascos.clearance Atascos.default s <= Atascos.desired_gap Atascos.default s
  /\ (0 < s -> Atascos.clearance Atascos.default s < Atascos.desired_gap Atascos.default s)
  /\ (10 # 9 <= s <-> Trafico.need Trafico.default s <= Trafico.follow_threshold Trafico.default s)
  /\ (10 # 9 < s <-> Trafico.need Trafico.default s < Trafico.follow_threshold Trafico.default s).
Proof.
  unfold Atascos.clearance, Atascos.desired_gap, Trafico.need,
    Trafico.follow_threshold. simpl.
  assert (E : s * 1.8 / 2 == s * (9 # 10)) by field.
  repeat split.
  - apply Q.max_lub; [lra | rewrite E; lra].
  - intros Hp. apply Q.max_lub_lt; [lra | rewrite E; lra].
  - intros H. apply Q.max_lub; [lra | rewrite E; lra].
  - intros H. apply Q.max_lub_l in H. lra.
  - intros H. apply Q.max_lub_lt; [lra | rewrite E; lra].
  - intros H. apply Q.max_lub_lt_iff in H. lra.
Qed.

Lemma clearance_vs_following_distance_witness :
  0 <= 20 /\ Atascos.clearance Atascos.default 20 <= Atascos.desired_gap Atascos.default 20.
Proof.
  assert (H : 0 <= 20) by lra.
  split; [exact H | exact (proj1 (clearance_vs_following_distance 20 H))].
Defined.

(** ** Division by the time headway (C7) *)

(** [atascos.py] and [traff.py] clamp the headway before dividing: the
    conversion never raises, whatever the configuration. *)
Lemma atascos_safe_speed_total cfg gap :
  exists s, Atascos.safe_speed cfg gap = Ok s.
Proof.
  unfold Atascos.safe_speed. eexists. apply py_div_ok.
  intros H. pose proof (Q.le_max_l (1 # 1000000) (Atascos.SAFE_TIME_HEADWAY cfg)).
  rewrite H in H0. lra.
Qed.

Lemma traff_safe_speed_total cfg gap :
  exists s, Traff.safe_speed cfg gap = Ok s.
Proof.
  unfold Traff.safe_speed. eexists. apply py_div_ok.
  intros H. pose proof (Q.le_max_l 0.1 (Traff.SAFE_TIME_HEADWAY cfg)).
  rewrite H in H0. lra.
Qed.

(** [trafico.py] divides by the headway itself: with a zero headway the
    update of any vehicle that has a leader raises. *)
Lemma trafico_follow_speed_zero_headway cfg w veh j :
  Trafico.SAFE_TIME_HEADWAY cfg == 0 ->
  Trafico.follow_speed cfg w veh (Some j) = Raise ZeroDivisionError.
Proof.
  intros H. unfold Trafico.follow_speed.
  rewrite (py_div_zero _ _ H). reflexivity.
Qed.

(** C7 (the code at the failing input): [trafico.py] run with
    [SAFE_TIME_HEADWAY = 0] stops with [ZeroDivisionError] in its third
    iteration, when the second car enters lane 0 behind the first; so does
    every longer run. *)
Theorem trafico_run_zero_headway_raises (n : nat) :
  Trafico.run_sim trafico_zero_headway (3 + n) quiet [] = Raise ZeroDivisionError.
Proof. vm_compute. reflexivity. Qed.

(** ** Mean speed of the finished vehicles (C3) *)

Lemma fold_left_Qplus (l : list Q) (a : Q) : fold_left Qplus l a == a + Qsum l.
Proof.
  unfold Qsum. revert a.
  induction l as [|b l IH]; intros a; simpl.
  - ring.
  - rewrite (IH (a + b)), (IH (0 + b)). ring.
Qed.

Lemma Qsum_cons (a : Q) (l : list Q) : Qsum (a :: l) == a + Qsum l.
Proof. unfold Qsum at 1. simpl. rewrite fold_left_Qplus. ring. Qed.





(** ** Priority in the lane-change decision (C1) *)

Lemma ext_gtb_mono g a b : a <= b -> ext_gtb g b = true -> ext_gtb g a = true.
Proof.
  destruct g as [q|]; simpl; [|reflexivity].
  intros Hab H. apply Qltb_lt in H. apply Qltb_lt. lra.
Qed.

(** [trafico.py]: a vehicle that moves into a lane never has, ahead of it
    in that lane, a nearest vehicle of strictly higher priority. *)
Lemma trafico_try_target_priority cfg w i d w' veh lane_list a :
  Trafico.try_target cfg w i d = Ok (Some w') ->
  deref w i = Ok veh ->
  py_get (lanes w) (lane veh + d) = Ok lane_list ->
  nearest_ahead w veh lane_list = Some a ->
  (priority_of w a <= priority veh)%Z.
Proof.
  intros H Hveh Hl Ha. unfold Trafico.try_target in H.
  rewrite Hveh in H. simpl in H.
  destruct (_ || _)%bool; [discriminate|].
  rewrite Hl in H. simpl in H. rewrite Ha in H.
  destruct (_ && _)%bool; [|discriminate].
  destruct (priority veh <? priority_of w a)%Z eqn:E; [discriminate|].
  apply Z.ltb_ge in E. exact E.
Qed.

(** [traff.py]: the same, except for ambulances. *)
Lemma traff_try_target_priority cfg w i d w' veh lane_list a :
  Traff.try_target cfg w i d = Ok (Some w') ->
  deref w i = Ok veh ->
  py_get (lanes w) (lane veh + d) = Ok lane_list ->
  nearest_ahead w veh lane_list = Some a ->
  vtype veh = ambulance \/ (priority_of w a <= priority veh)%Z.
Proof.
  intros H Hveh Hl Ha. unfold Traff.try_target in H.
  rewrite Hveh in H. simpl in H.
  destruct (_ || _)%bool; [discriminate|].
  rewrite Hl in H. simpl in H. rewrite Ha in H.
  destruct (bool_decide (vtype veh = ambulance)) eqn:Ev.
  - left. apply bool_decide_eq_true in Ev. exact Ev.
  - simpl in H. right.
    destruct (_ && _)%bool; [|discriminate].
    destruct (priority veh <? priority_of w a)%Z eqn:E; [discriminate|].
    apply Z.ltb_ge in E. exact E.
Qed.

(** [traff.py]: with the gaps the other vehicles need, an ambulance moves
    whatever the priority of the vehicle ahead. *)
Lemma traff_ambulance_bypass cfg w i d veh lane_list :
  deref w i = Ok veh ->
  (0 <= lane veh + d < num_lanes w)%Z ->
  py_get (lanes w) (lane veh + d) = Ok lane_list ->
  vtype veh = ambulance ->
  ext_gtb (gap_a w veh (nearest_ahead w veh lane_list)) (Traff.required cfg (v veh)) = true ->
  ext_gtb (gap_b w veh (nearest_behind w veh lane_list)) (Traff.required cfg (v veh)) = true ->
  Traff.try_target cfg w i d
  = (w' ← Traff._move_vehicle w i (lane veh + d); mret (Some w')).
Proof.
  intros Hveh Hr Hl Hty Ha Hb. unfold Traff.try_target.
  rewrite Hveh. simpl.
  replace (_ || _)%bool with false.
  2:{ symmetry. apply orb_false_iff. split; [apply Z.ltb_ge | apply Z.leb_gt]; lia. }
  rewrite Hl. simpl.
  rewrite (bool_decide_eq_true_2 _ Hty).
  assert (Hm : Traff.MIN_GAP cfg <= Traff.required cfg (v veh)) by apply Q.le_max_l.
  rewrite (ext_gtb_mono _ _ _ Hm Ha), (ext_gtb_mono _ _ _ Hm Hb). reflexivity.
Qed.

(** C1 (the code at the failing input): in [atascos.py], when the second
    car of the run above looks at lane 0, the nearest vehicle ahead there
    is the truck, whose priority (2) is strictly higher than the car's (1);
    both gaps exceed the clearance and the car, which is not an emergency
    vehicle, moves into lane 0 all the same. *)
Theorem atascos_change_despite_higher_priority :
  exists st veh lane0 w',
    atascos_at_decision = Ok st
    /\ deref (Atascos.world st) 3 = Ok veh
    /\ vtype veh = car /\ lane veh = 1%Z
    /\ py_get (lanes (Atascos.world st)) 0 = Ok lane0
    /\ nearest_ahead (Atascos.world st) veh lane0 = Some 1%nat
    /\ (priority veh < priority_of (Atascos.world st) 1)%Z
    /\ ext_gtb (gap_a (Atascos.world st) veh (nearest_ahead (Atascos.world st) veh lane0))
         (Atascos.clearance Atascos.default (v veh)) = true
    /\ ext_gtb (gap_b (Atascos.world st) veh (nearest_behind (Atascos.world st) veh lane0))
         (Atascos.clearance Atascos.default (v veh)) = true
    /\ Atascos.lane_change_step Atascos.default (Atascos.world st) 3
       = Ok (w', [LaneChange 3 1 true 0])
    /\ lanes w' = [[3%nat; 1%nat]; [2%nat]; []].
Proof.
  do 4 eexists.
  split; [vm_compute; reflexivity|].
  split; [vm_compute; reflexivity|].
  split; [reflexivity|]. split; [reflexivity|].
  split; [vm_compute; reflexivity|].
  split; [vm_compute; reflexivity|].
  split; [vm_compute; reflexivity|].
  split; [vm_compute; reflexivity|].
  split; [vm_compute; reflexivity|].
  split; [vm_compute; reflexivity|].
  vm_compute; reflexivity.
Qed.

(** ** Removal of a vehicle (C10) *)

Lemma py_in_In a l : py_in a l = true <-> In a l.
Proof.
  unfold py_in. rewrite existsb_exists. split.
  - intros (b & Hb & E). apply Nat.eqb_eq in E. subst. exact Hb.
  - intros H. exists a. split; [exact H | apply Nat.eqb_refl].
Qed.

Lemma remove_first_spec a l :
  match remove_first a l with
  | Some r => exists l1 l2, l = l1 ++ a :: l2 /\ ~ In a l1 /\ r = l1 ++ l2
  | None => ~ In a l
  end.
Proof.
  induction l as [|b l IH]; simpl.
  - intros [].
  - destruct (Nat.eqb a b) eqn:E.
    + apply Nat.eqb_eq in E. subst b. exists [], l. simpl. auto.
    + apply Nat.eqb_neq in E.
      destruct (remove_first a l) as [r|].
      * destruct IH as (l1 & l2 & -> & Hn & ->).
        exists (b :: l1), l2. simpl. repeat split; auto.
        intros [H|H]; [congruence | contradiction].
      * intros [H|H]; [congruence | contradiction].
Qed.

Lemma py_remove_present a l :
  py_in a l = true ->
  exists l1 l2, l = l1 ++ a :: l2 /\ ~ In a l1 /\ py_remove a l = Ok (l1 ++ l2).
Proof.
  intros H. apply py_in_In in H. unfold py_remove.
  pose proof (remove_first_spec a l) as S.
  destruct (remove_first a l) as [r|]; [|contradiction].
  destruct S as (l1 & l2 & E1 & Hn & ->). exists l1, l2. auto.
Qed.

Lemma py_get_inv {A} (l : list A) i a :
  py_get l i = Ok a ->
  (0 <= py_index (length l) i < Z.of_nat (length l))%Z
  /\ l !! Z.to_nat (py_index (length l) i) = Some a.
Proof.
  unfold py_get. intros H.
  destruct (_ && _)%bool eqn:E; [|discriminate].
  apply andb_true_iff in E as [E1 E2].
  apply Z.leb_le in E1. apply Z.ltb_lt in E2.
  destruct (l !! _) eqn:El; [|discriminate].
  injection H as ->. split; [lia | reflexivity].
Qed.

Lemma py_get_set {A} (l : list A) i a b :
  py_get l i = Ok a -> py_get (py_set l i b) i = Ok b.
Proof.
  intros H. apply py_get_inv in H as [Hr _].
  unfold py_get, py_set. rewrite !length_insert.
  replace (_ && _)%bool with true.
  2:{ symmetry. apply andb_true_iff. split; [apply Z.leb_le | apply Z.ltb_lt]; lia. }
  rewrite list_lookup_insert_eq; [reflexivity | lia].
Qed.

Lemma py_set_other {A} (l : list A) i b (k : nat) :
  k <> Z.to_nat (py_index (length l) i) -> py_set l i b !! k = l !! k.
Proof. intros H. unfold py_set. apply list_lookup_insert_ne. congruence. Qed.

Lemma py_set_length {A} (l : list A) i b : length (py_set l i b) = length l.
Proof. apply length_insert. Qed.

(** [Highway.remove] on any highway: removing a vehicle whose lane index
    designates a lane raises no error and leaves the vehicle objects
    alone; the list of that lane loses the first occurrence of the vehicle
    when it is there and is unchanged otherwise; no other lane changes; the
    global list of [trafico.py] and [atascos.py] ([global_list = true])
    has its own membership test: it loses the first occurrence of the
    vehicle when it is there and is unchanged otherwise. *)
Lemma remove_spec (global_list : bool) (w : World) (i : nat)
    (veh : Vehicle) (lane_list : list nat) :
  deref w i = Ok veh ->
  py_get (lanes w) (lane veh) = Ok lane_list ->
  exists w',
    remove global_list w i = Ok w'
    /\ objs w' = objs w
    /\ length (lanes w') = length (lanes w)
    /\ (forall k : nat,
           k <> Z.to_nat (py_index (length (lanes w)) (lane veh)) ->
           lanes w' !! k = lanes w !! k)
    /\ (~ In i lane_list -> lanes w' = lanes w)
    /\ (In i lane_list ->
        exists l1 l2, lane_list = l1 ++ i :: l2 /\ ~ In i l1
                      /\ py_get (lanes w') (lane veh) = Ok (l1 ++ l2))
    /\ (global_list = false \/ ~ In i (all w) -> all w' = all w)
    /\ (global_list = true -> In i (all w) ->
        exists a1 a2, all w = a1 ++ i :: a2 /\ ~ In i a1 /\ all w' = a1 ++ a2).
Proof.
  intros Hveh Hl. unfold remove. rewrite Hveh. simpl. rewrite Hl. simpl.
  destruct (py_in i lane_list) eqn:Ein.
  - destruct (py_remove_present _ _ Ein) as (l1 & l2 & El & Hn & Hr).
    rewrite Hr. simpl.
    set (w1 := set_lanes (py_set (lanes w) (lane veh) (l1 ++ l2)) w).
    assert (Hin : In i lane_list) by (apply py_in_In; exact Ein).
    assert (Hw1 : forall w', (all w' = all w1 \/ True) -> objs w' = objs w1 ->
              lanes w' = lanes w1 ->
              objs w' = objs w
              /\ length (lanes w') = length (lanes w)
              /\ (forall k : nat,
                     k <> Z.to_nat (py_index (length (lanes w)) (lane veh)) ->
                     lanes w' !! k = lanes w !! k)
              /\ (~ In i lane_list -> lanes w' = lanes w)
              /\ (In i lane_list ->
                  exists l1 l2, lane_list = l1 ++ i :: l2 /\ ~ In i l1
                                /\ py_get (lanes w') (lane veh) = Ok (l1 ++ l2))).
    { intros w' _ Ho Hls. rewrite Ho, Hls. simpl.
      split; [reflexivity|]. split; [apply py_set_length|].
      split; [intros k Hk; apply py_set_other; exact Hk|].
      split; [intros Hc; contradiction|].
      intros _. exists l1, l2. split; [exact El|]. split; [exact Hn|].
      eapply py_get_set. exact Hl. }
    destruct global_list.
    + destruct (py_in i (all w)) eqn:Ea.
      * destruct (py_remove_present _ _ Ea) as (a1 & a2 & Ea1 & Han & Har).
        rewrite Har. simpl. eexists. split; [reflexivity|].
        destruct (Hw1 (set_all (a1 ++ a2) w1)) as (H1 & H2 & H3 & H4 & H5); auto.
        repeat split; auto.
        -- intros [Hc|Hc]; [discriminate|]. exfalso. apply Hc.
           apply py_in_In. exact Ea.
        -- intros _ _. exists a1, a2. auto.
      * exists w1. split; [reflexivity|].
        destruct (Hw1 w1) as (H1 & H2 & H3 & H4 & H5); auto.
        repeat split; auto.
        intros _ Hc. apply py_in_In in Hc. congruence.
    + exists w1. split; [reflexivity|].
      destruct (Hw1 w1) as (H1 & H2 & H3 & H4 & H5); auto.
      repeat split; auto. intros Hc. discriminate.
  - simpl.
    assert (Hnin : ~ In i lane_list).
    { intros Hc. apply py_in_In in Hc. congruence. }
    destruct global_list.
    + destruct (py_in i (all w)) eqn:Ea.
      * destruct (py_remove_present _ _ Ea) as (a1 & a2 & Ea1 & Han & Har).
        rewrite Har. simpl. eexists. split; [reflexivity|]. simpl.
        repeat split; auto.
        -- intros Hc. contradiction.
        -- intros [Hc|Hc]; [discriminate|]. exfalso. apply Hc.
           apply py_in_In. exact Ea.
        -- intros _ _. exists a1, a2. auto.
      * exists w. split; [reflexivity|].
        repeat split; auto.
        -- intros Hc. contradiction.
        -- intros _ Hc. apply py_in_In in Hc. congruence.
    + exists w. split; [reflexivity|].
      repeat split; auto.
      -- intros Hc. contradiction.
      -- intros Hc. discriminate.
Qed.

(** ** Admission at the entrance (C2) *)

Lemma insert_by_perm {A} (le : A -> A -> bool) a l :
  Permutation (insert_by le a l) (a :: l).
Proof.
  induction l as [|b l IH]; simpl; [reflexivity|].
  destruct (le a b); [reflexivity|].
  rewrite IH. apply perm_swap.
Qed.

Lemma sort_by_perm {A} (le : A -> A -> bool) l : Permutation (sort_by le l) l.
Proof.
  induction l as [|a l IH]; simpl; [reflexivity|].
  rewrite insert_by_perm, IH. reflexivity.
Qed.

(** The head of a queue sorted by decreasing key is the first element of
    the queue whose key is the greatest. *)
Lemma sort_desc_head {A} (key : A -> Z) (l : list A) h rest :
  sort_by (fun i j => (key j <=? key i)%Z) l = h :: rest ->
  exists l1 l2,
    l = l1 ++ h :: l2
    /\ (forall j, In j l1 -> (key j < key h)%Z)
    /\ (forall j, In j l2 -> (key j <= key h)%Z).
Proof.
  revert h rest.
  induction l as [|a l IH]; intros h rest H; simpl in H; [discriminate|].
  destruct (sort_by _ l) as [|h' r'] eqn:Es.
  - simpl in H. injection H as <- <-.
    assert (l = []) as ->.
    { apply Permutation_nil. rewrite <- Es. apply sort_by_perm. }
    exists [], []. simpl. repeat split; intros j [].
  - simpl in H.
    destruct (IH _ _ eq_refl) as (l1 & l2 & El & H1 & H2).
    destruct (key h' <=? key a)%Z eqn:E.
    + injection H as <- <-. apply Z.leb_le in E.
      exists [], l. simpl. split; [reflexivity|]. split; [intros j []|].
      intros j Hj. rewrite El in Hj. apply in_app_or in Hj as [Hj|[<-|Hj]].
      * specialize (H1 _ Hj). lia.
      * exact E.
      * specialize (H2 _ Hj). lia.
    + injection H as <- <-. apply Z.leb_gt in E.
      exists (a :: l1), l2. simpl. split; [rewrite El; reflexivity|].
      split; [|exact H2].
      intros j [<-|Hj]; [exact E | apply H1; exact Hj].
Qed.

(** [trafico.py] has no queue, and an arrival that finds no room is lost:
    in the run [entrances_filling], after 18 iterations from the empty road
    the last vehicle of each lane is a truck 5 m from the entrance; the
    arrival that is due at t = 18 finds no lane with room, it is consumed
    (the next arrival time moves on) and no vehicle is created or kept
    anywhere. *)
Lemma trafico_arrival_is_discarded :
  Trafico.loop Trafico.default 1.5 18 (Trafico.init Trafico.default entrances_filling [])
  = Ok (trafico_after 18 entrances_filling)
  /\ Trafico.t (trafico_after 18 entrances_filling) == 18
  /\ Trafico.next_arrival (trafico_after 18 entrances_filling) == 18
  /\ lanes (Trafico.world (trafico_after 18 entrances_filling))
     = [[4; 3; 2]; [8; 7; 6; 1]; [12; 11; 10; 9; 5]]%nat
  /\ x_of (Trafico.world (trafico_after 18 entrances_filling)) 4 == 5
  /\ x_of (Trafico.world (trafico_after 18 entrances_filling)) 8 == 5
  /\ x_of (Trafico.world (trafico_after 18 entrances_filling)) 12 == 5
  /\ exists st',
       Trafico.arrival Trafico.default 1.5 (trafico_after 18 entrances_filling) = Ok st'
       /\ Trafico.next_arrival st' == 18 + 1.5
       /\ Trafico.world st' = Trafico.world (trafico_after 18 entrances_filling)
       /\ Trafico.next_id st' = Trafico.next_id (trafico_after 18 entrances_filling).
Proof.
  split; [vm_compute; reflexivity|].
  do 6 (split; [vm_compute; reflexivity|]).
  eexists. split; [vm_compute; reflexivity|].
  repeat split; vm_compute; reflexivity.
Qed.

Lemma py_index_nonneg n l : (0 <= l)%Z -> py_index n l = l.
Proof. intros H. unfold py_index. destruct (l <? 0)%Z eqn:E; [lia | reflexivity]. Qed.

(** One round of the admission: the head of the queue in priority order
    (the first of the vehicles of greatest priority) is the only candidate;
    it is added to the highway exactly when the entrance is free, and the
    queue keeps every vehicle that was not added. *)
Lemma atascos_admit_spec cfg (st st' : Atascos.State) (l : Z) (q : list nat) :
  py_get (Atascos.queues st) l = Ok q ->
  Atascos.admit_head cfg st l = Ok st' ->
  (q = [] /\ st' = st)
  \/ exists h q' lane_list,
       py_get (Atascos.queues st') l = Ok q'
       /\ py_get (lanes (Atascos.world st)) l = Ok lane_list
       /\ (exists q1 q2,
              q = q1 ++ h :: q2
              /\ (forall j, In j q1 ->
                    (priority_of (Atascos.world st) j < priority_of (Atascos.world st) h)%Z)
              /\ (forall j, In j q2 ->
                    (priority_of (Atascos.world st) j <= priority_of (Atascos.world st) h)%Z))
       /\ (if ext_gtb (Atascos.entry_gap cfg (Atascos.world st) lane_list)
                (Atascos.MIN_GAP cfg + Atascos.VEHICLE_LENGTH cfg)
           then add true (Atascos.world st) h = Ok (Atascos.world st')
                /\ Permutation q (h :: q')
           else Atascos.world st' = Atascos.world st
                /\ Permutation q q' /\ head q' = Some h)
       /\ length (Atascos.queues st') = length (Atascos.queues st)
       /\ (forall k : nat,
              k <> Z.to_nat (py_index (length (Atascos.queues st)) l) ->
              Atascos.queues st' !! k = Atascos.queues st !! k).
Proof.
  intros Hq H. unfold Atascos.admit_head in H. rewrite Hq in H. simpl in H.
  destruct q as [|a q0].
  { left. split; [reflexivity|]. apply mret_inv in H. congruence. }
  right. cbv beta iota in H.
  pose proof (sort_by_perm
                (fun i j => (priority_of (Atascos.world st) j
                             <=? priority_of (Atascos.world st) i)%Z) (a :: q0)) as Hp.
  fold (Atascos.sort_queue (Atascos.world st) (a :: q0)) in Hp.
  destruct (Atascos.sort_queue (Atascos.world st) (a :: q0)) as [|h rest] eqn:Es.
  { apply Permutation_nil in Hp. discriminate. }
  apply bind_inv in H as (lane_list & Hl & H).
  exists h.
  pose proof (sort_desc_head (priority_of (Atascos.world st)) (a :: q0) h rest Es) as Hh.
  unfold Atascos.entry_free in H.
  destruct (ext_gtb _ _) eqn:Ef.
  - apply bind_inv in H as (w' & Hadd & H). apply mret_inv in H. subst st'. simpl.
    exists rest, lane_list.
    split; [eapply py_get_set; exact Hq|].
    split; [exact Hl|]. split; [exact Hh|].
    rewrite Ef. split; [split; [exact Hadd | symmetry; exact Hp]|].
    split; [apply py_set_length|].
    intros k Hk. apply py_set_other. exact Hk.
  - apply mret_inv in H. subst st'. simpl.
    exists (h :: rest), lane_list.
    split; [eapply py_get_set; exact Hq|].
    split; [exact Hl|]. split; [exact Hh|].
    rewrite Ef. split; [split; [reflexivity | split; [symmetry; exact Hp | reflexivity]]|].
    split; [apply py_set_length|].
    intros k Hk. apply py_set_other. exact Hk.
Qed.

Lemma py_get_lookup {A} (l : list A) (i : Z) a :
  (0 <= i)%Z -> py_get l i = Ok a -> l !! Z.to_nat i = Some a.
Proof.
  intros Hi H. apply py_get_inv in H as [_ H].
  rewrite py_index_nonneg in H by exact Hi. exact H.
Qed.

(** A round of the admission takes at most one vehicle out of the queue
    of its lane, and leaves the other queues alone. *)
Lemma atascos_admit_queue_length cfg st st' l :
  (0 <= l)%Z ->
  Atascos.admit_head cfg st l = Ok st' ->
  (forall k, k <> Z.to_nat l -> queue_length st' k = queue_length st k)
  /\ (queue_length st (Z.to_nat l) <= S (queue_length st' (Z.to_nat l)))%nat.
Proof.
  intros Hl H.
  assert (Hq : exists q, py_get (Atascos.queues st) l = Ok q).
  { unfold Atascos.admit_head in H. apply bind_inv in H as (q & Hq & _). eauto. }
  destruct Hq as (q & Hq).
  destruct (atascos_admit_spec cfg st st' l q Hq H)
    as [[-> ->] | (h & q' & lane_list & Hq' & _ & _ & Hcase & _ & Hother)].
  { split; [reflexivity | lia]. }
  rewrite py_index_nonneg in Hother by exact Hl.
  split.
  - intros k Hk. unfold queue_length. rewrite (Hother k Hk). reflexivity.
  - unfold queue_length.
    rewrite (py_get_lookup _ _ _ Hl Hq), (py_get_lookup _ _ _ Hl Hq'). simpl.
    destruct (ext_gtb _ _).
    + destruct Hcase as [_ Hp]. apply Permutation_length in Hp. simpl in Hp. lia.
    + destruct Hcase as (_ & Hp & _). apply Permutation_length in Hp. lia.
Qed.

Lemma atascos_admission_untouched cfg ls : forall st st' k,
  Atascos.admission cfg st ls = Ok st' ->
  (forall l, In l ls -> (0 <= l)%Z /\ Z.to_nat l <> k) ->
  queue_length st' k = queue_length st k.
Proof.
  induction ls as [|l ls IH]; intros st st' k H Hk; simpl in H.
  - apply mret_inv in H. subst. reflexivity.
  - apply bind_inv in H as (st1 & H1 & H).
    destruct (Hk l (or_introl eq_refl)) as [Hl Hne].
    destruct (atascos_admit_queue_length cfg st st1 l Hl H1) as [Ho _].
    rewrite (IH st1 st' k H).
    + apply Ho. congruence.
    + intros l' Hl'. apply Hk. right. exact Hl'.
Qed.

(** Over the lanes of one iteration, each visited once, at most one
    vehicle leaves each queue. *)
Lemma atascos_admission_at_most_one cfg ls : forall st st' k,
  Atascos.admission cfg st ls = Ok st' ->
  NoDup ls ->
  (forall l, In l ls -> (0 <= l)%Z) ->
  (queue_length st k <= S (queue_length st' k))%nat.
Proof.
  induction ls as [|l ls IH]; intros st st' k H Hnd Hpos; simpl in H.
  - apply mret_inv in H. subst. lia.
  - apply bind_inv in H as (st1 & H1 & H).
    apply NoDup_cons in Hnd as [Hnotin Hnd].
    assert (Hl : (0 <= l)%Z) by (apply Hpos; left; reflexivity).
    destruct (atascos_admit_queue_length cfg st st1 l Hl H1) as [Ho Hone].
    destruct (Nat.eq_dec k (Z.to_nat l)) as [->|Hne].
    + rewrite (atascos_admission_untouched cfg ls st1 st' (Z.to_nat l) H).
      * exact Hone.
      * intros l' Hl'. split; [apply Hpos; right; exact Hl'|].
        intros E. apply Hnotin.
        assert (l' = l) as -> by (specialize (Hpos l' (or_intror Hl')); lia).
        apply list_elem_of_In. exact Hl'.
    + rewrite <- (Ho k Hne). apply IH; [exact H | exact Hnd |].
      intros l' Hl'. apply Hpos. right. exact Hl'.
Qed.

Lemma range_NoDup n : NoDup (range n).
Proof.
  unfold range. apply NoDup_fmap_2; [|apply NoDup_seq].
  intros a b E. lia.
Qed.

Lemma range_nonneg n l : In l (range n) -> (0 <= l)%Z.
Proof.
  unfold range. intros H. apply in_map_iff in H as (k & <- & _). lia.
Qed.

(** [trafico.py]: when every lane tried has a vehicle within
    [VEHICLE_LENGTH + MIN_GAP] of the entrance, the loop over the lanes ends
    without a [break] and nothing is created. *)
Lemma trafico_place_blocked cfg ty ls : forall st,
  (forall l, In l ls ->
     exists lane_list first,
       py_get (lanes (Trafico.world st)) l = Ok lane_list
       /\ py_min_by (x_of (Trafico.world st)) lane_list = Some first
       /\ x_of (Trafico.world st) first <= Trafico.VEHICLE_LENGTH cfg + Trafico.MIN_GAP cfg) ->
  Trafico.place cfg st ty ls = Ok st.
Proof.
  induction ls as [|l ls IH]; intros st Hb; simpl; [reflexivity|].
  destruct (Hb l (or_introl eq_refl)) as (lane_list & first & Hl & Hm & Hx).
  rewrite Hl. simpl. rewrite Hm.
  replace (Qltb _ _) with false by (symmetry; apply Qltb_ge; exact Hx).
  apply IH. intros l' Hl'. apply Hb. right. exact Hl'.
Qed.

Lemma trafico_arrival_dropped cfg iv (st : Trafico.State) :
  Qle_bool (Trafico.next_arrival st) (Trafico.t st) = true ->
  (forall l,
     In l (fst (next_shuffle (snd (next_choice (Trafico.rng st)))
                  (range (Trafico.NUM_LANES cfg)))) ->
     exists lane_list first,
       py_get (lanes (Trafico.world st)) l = Ok lane_list
       /\ py_min_by (x_of (Trafico.world st)) lane_list = Some first
       /\ x_of (Trafico.world st) first <= Trafico.VEHICLE_LENGTH cfg + Trafico.MIN_GAP cfg) ->
  exists st',
    Trafico.arrival cfg iv st = Ok st'
    /\ Trafico.world st' = Trafico.world st
    /\ Trafico.next_id st' = Trafico.next_id st
    /\ Trafico.stats st' = Trafico.stats st
    /\ Trafico.next_arrival st' = Trafico.next_arrival st + iv.
Proof.
  intros Ht Hb. unfold Trafico.arrival. rewrite Ht.
  destruct (next_choice (Trafico.rng st)) as [ty r1]. simpl in Hb.
  destruct (next_shuffle r1 (range (Trafico.NUM_LANES cfg))) as [order r2]. simpl in Hb.
  rewrite trafico_place_blocked; [|exact Hb].
  simpl. eexists. split; [reflexivity|]. simpl. repeat split; reflexivity.
Qed.


(** C2 (the code at the failing input): [atascos.py] run with
    [MAX_SPEED_KMH = 30] and the draws [first_car_brakes].  A car enters
    lane 0 at t = 0 and brakes at random in its first step; at t = 2 it is
    8.5 m down the road and a second car arrives for lane 0.  The entry
    gap of the lane, the distance from the road start to its nearest
    vehicle, is 8.5 m and exceeds the vehicle length plus the minimum gap
    (6.5 m), yet the admission leaves the second car in the queue: the
    test of [atascos.py] takes the vehicle length off the gap and still
    asks for the minimum gap plus the vehicle length (4 > 6.5).  The car is
    let in one iteration later, when the first is 15 m away. *)
Theorem atascos_refuses_free_entrance :
  (st ← Atascos.loop atascos_30 2 2 (Atascos.init atascos_30 first_car_brakes);
   Atascos.arrival atascos_30 2 st) = Ok atascos_slow_entrance
  /\ Atascos.t atascos_slow_entrance == 2
  /\ lanes (Atascos.world atascos_slow_entrance) = [[1%nat]; []; []]
  /\ Atascos.queues atascos_slow_entrance = [[2%nat]; []; []]
  /\ x_of (Atascos.world atascos_slow_entrance) 1 == 8.5
  /\ spec_gap_at_entry (Atascos.world atascos_slow_entrance) [1%nat]
     = Fin (x_of (Atascos.world atascos_slow_entrance) 1)
  /\ ext_gtb (spec_gap_at_entry (Atascos.world atascos_slow_entrance) [1%nat])
       (Atascos.VEHICLE_LENGTH atascos_30 + Atascos.MIN_GAP atascos_30) = true
  /\ Atascos.entry_free atascos_30 (Atascos.world atascos_slow_entrance) [1%nat] = false
  /\ (exists st',
        Atascos.admission atascos_30 atascos_slow_entrance (range 3) = Ok st'
        /\ lanes (Atascos.world st') = [[1%nat]; []; []]
        /\ Atascos.queues st' = [[2%nat]; []; []])
  /\ (exists st',
        Atascos.loop atascos_30 2 4 (Atascos.init atascos_30 first_car_brakes) = Ok st'
        /\ Atascos.queues st' = [[]; []; []]
        /\ In 2%nat (all (Atascos.world st'))).
Proof.
  split; [vm_compute; reflexivity|].
  split; [vm_compute; reflexivity|].
  split; [vm_compute; reflexivity|].
  split; [vm_compute; reflexivity|].
  split; [vm_compute; reflexivity|].
  split; [vm_compute; reflexivity|].
  split; [vm_compute; reflexivity|].
  split; [vm_compute; reflexivity|].
  split.
  - eexists. split; [vm_compute; reflexivity|]. split; vm_compute; reflexivity.
  - eexists. split; [vm_compute; reflexivity|].
    split; [vm_compute; reflexivity | vm_compute; auto].
Qed.

(** ** Order of the lane lists (C5) *)

Lemma insert_by_sorted {A} (le : A -> A -> bool) (a : A) (l : list A) :
  (forall b c, le b c = false -> le c b = true) ->
  Sorted (fun b c => le b c = true) l ->
  Sorted (fun b c => le b c = true) (insert_by le a l).
Proof.
  intros Htot. induction l as [|b l IH]; intros Hs; simpl.
  - repeat constructor.
  - destruct (le a b) eqn:E.
    + constructor; [exact Hs | constructor; exact E].
    + apply Sorted_inv in Hs as [Hs Hhd].
      constructor; [apply IH; exact Hs|].
      destruct l as [|c l]; simpl.
      * constructor. apply Htot. exact E.
      * destruct (le a c); constructor.
        -- apply Htot. exact E.
        -- apply HdRel_inv in Hhd. exact Hhd.
Qed.

Lemma sort_by_sorted {A} (le : A -> A -> bool) (l : list A) :
  (forall b c, le b c = false -> le c b = true) ->
  Sorted (fun b c => le b c = true) (sort_by le l).
Proof.
  intros Htot. induction l as [|a l IH]; simpl.
  - constructor.
  - apply insert_by_sorted; assumption.
Qed.

(** [lst.sort(key=lambda v: v.x)] leaves the list ordered by position. *)
Lemma sort_by_x_ordered w l : ordered_by_position w (sort_by_x w l).
Proof.
  unfold ordered_by_position, sort_by_x.
  eapply Sorted_ind with
    (P := fun l => Sorted (fun i j => x_of w i <= x_of w j) l);
    [constructor | | apply sort_by_sorted].
  - intros a l0 _ IH Hhd. constructor; [exact IH|].
    destruct Hhd; constructor. apply Qle_bool_iff. assumption.
  - intros b c H.
    apply Qle_bool_iff.
    destruct (Qlt_le_dec (x_of w c) (x_of w b)) as [Hlt|Hle].
    + apply Qlt_le_weak. exact Hlt.
    + exfalso. apply Qle_bool_iff in Hle. congruence.
Qed.

Lemma deref_inv w i u : deref w i = Ok u -> objs w !! i = Some u.
Proof. unfold deref. destruct (objs w !! i); [congruence | discriminate]. Qed.

Lemma update_inv w i f w' :
  update w i f = Ok w' ->
  exists u, objs w !! i = Some u /\ w' = set_objs (<[i := f u]> (objs w)) w.
Proof.
  unfold update. intros H. apply bind_inv in H as (u & Hu & H).
  apply mret_inv in H. exists u. split; [apply deref_inv; exact Hu | congruence].
Qed.

Lemma ordered_by_position_objs w w' l :
  objs w' = objs w -> ordered_by_position w l -> ordered_by_position w' l.
Proof.
  unfold ordered_by_position, x_of, attr. intros ->. auto.
Qed.

Lemma append_sorted_inv w target i w' :
  append_sorted w target i = Ok w' ->
  exists tgt,
    py_get (lanes w) target = Ok tgt
    /\ w' = set_lanes (py_set (lanes w) target (sort_by_x w (tgt ++ [i]))) w.
Proof.
  unfold append_sorted. intros H. apply bind_inv in H as (tgt & Ht & H).
  apply mret_inv in H. exists tgt. split; [exact Ht | congruence].
Qed.

Lemma append_sorted_ordered w target i w' l' :
  append_sorted w target i = Ok w' ->
  py_get (lanes w') target = Ok l' ->
  ordered_by_position w' l'.
Proof.
  intros H Hl. apply append_sorted_inv in H as (tgt & Ht & ->).
  simpl in Hl. rewrite (py_get_set _ _ _ _ Ht) in Hl. injection Hl as <-.
  apply (ordered_by_position_objs w); [reflexivity | apply sort_by_x_ordered].
Qed.

(** C5 (the code at the failing input): [trafico.py] with its constants
    and the draws [truck_braking].  A truck enters lane 0 at t = 2 (in the
    third iteration) and brakes at random in each of its steps; a car
    enters the same lane at t = 3, 12.5 m behind it.  After the fourth
    iteration the car is at 14 m and the truck at 16 m; after the fifth the
    car, which cannot brake by more than 6 m/s in a step, is at 22 m and
    the truck still at 16 m.  The list of lane 0 is [car, truck], as the
    insertion of the car left it: nothing sorts it after the positions are
    integrated, and it is not ordered by position at the end of the
    iteration. *)
Theorem trafico_lane_out_of_order :
  Trafico.loop Trafico.default 1.5 5 (Trafico.init Trafico.default truck_braking [])
  = Ok (trafico_after 5 truck_braking)
  /\ lanes (Trafico.world (trafico_after 4 truck_braking)) = [[3%nat; 2%nat]; [1%nat]; []]
  /\ x_of (Trafico.world (trafico_after 4 truck_braking)) 3 == 14
  /\ x_of (Trafico.world (trafico_after 4 truck_braking)) 2 == 16
  /\ lanes (Trafico.world (trafico_after 5 truck_braking)) = [[3%nat; 2%nat]; [1%nat]; []]
  /\ x_of (Trafico.world (trafico_after 5 truck_braking)) 3 == 22
  /\ x_of (Trafico.world (trafico_after 5 truck_braking)) 2 == 16
  /\ ~ ordered_by_position (Trafico.world (trafico_after 5 truck_braking)) [3%nat; 2%nat].
Proof.
  do 7 (split; [vm_compute; reflexivity|]).
  intros H. apply Sorted_inv in H as [_ H]. apply HdRel_inv in H.
  vm_compute in H. apply H. reflexivity.
Qed.


(** ** What a lane change does to the vehicle objects *)

Lemma relaned_step w1 w2 w3 i target :
  objs w1 = objs w2 ->
  update w2 i (set_lane target) = Ok w3 ->
  relaned w1 w3 i target.
Proof.
  intros E H. apply update_inv in H as (u & Hu & ->).
  exists u. simpl. rewrite E. auto.
Qed.

Lemma relaned_objs w w1 w' i target :
  relaned w w1 i target -> objs w' = objs w1 -> relaned w w' i target.
Proof. intros (veh & H1 & H2) E. exists veh. rewrite E. auto. Qed.

Lemma append_sorted_objs w target i w' :
  append_sorted w target i = Ok w' -> objs w' = objs w.
Proof. intros H. apply append_sorted_inv in H as (tgt & _ & ->). reflexivity. Qed.

Lemma trafico_try_target_relaned cfg w i d w' :
  Trafico.try_target cfg w i d = Ok (Some w') ->
  exists veh, deref w i = Ok veh /\ relaned w w' i (lane veh + d).
Proof.
  unfold Trafico.try_target. intros H.
  apply bind_inv in H as (veh & Hveh & H). exists veh. split; [exact Hveh|].
  destruct (_ || _)%bool; [discriminate|].
  apply bind_inv in H as (lane_list & Hll & H).
  destruct (_ && _)%bool; [|discriminate].
  destruct (match nearest_ahead w veh lane_list with Some _ => _ | None => _ end);
    [discriminate|].
  apply bind_inv in H as (src & Hsrc & H).
  apply bind_inv in H as (src' & Hsrc' & H).
  apply bind_inv in H as (w2 & Hw2 & H).
  apply bind_inv in H as (w3 & Hw3 & H).
  apply mret_inv in H. injection H as <-.
  eapply relaned_objs; [|apply (append_sorted_objs _ _ _ _ Hw3)].
  eapply relaned_step; [|exact Hw2]. reflexivity.
Qed.

Lemma atascos_try_target_relaned cfg w i d w' :
  Atascos.try_target cfg w i d = Ok (Some w') ->
  exists veh, deref w i = Ok veh /\ relaned w w' i (lane veh + d).
Proof.
  unfold Atascos.try_target. intros H.
  apply bind_inv in H as (veh & Hveh & H). exists veh. split; [exact Hveh|].
  destruct (_ || _)%bool; [discriminate|].
  apply bind_inv in H as (lane_list & Hll & H).
  destruct (_ && _)%bool; [|discriminate].
  apply bind_inv in H as (src & Hsrc & H).
  apply bind_inv in H as (w1 & Hw1 & H).
  apply bind_inv in H as (w2 & Hw2 & H).
  apply bind_inv in H as (w3 & Hw3 & H).
  apply bind_inv in H as (old & Hold & H).
  apply mret_inv in H. injection H as <-.
  eapply relaned_objs; [|simpl; apply (append_sorted_objs _ _ _ _ Hw3)].
  eapply relaned_step; [|exact Hw2].
  destruct (py_in i src).
  - apply bind_inv in Hw1 as (src' & _ & Hw1). apply mret_inv in Hw1.
    subst w1. reflexivity.
  - apply mret_inv in Hw1. subst w1. reflexivity.
Qed.

Lemma traff_move_vehicle_relaned w i target w' :
  Traff._move_vehicle w i target = Ok w' -> relaned w w' i target.
Proof.
  unfold Traff._move_vehicle. intros H.
  apply bind_inv in H as (veh & Hveh & H).
  apply bind_inv in H as (src & Hsrc & H).
  apply bind_inv in H as (w2 & Hw2 & H).
  eapply relaned_objs; [|apply (append_sorted_objs _ _ _ _ H)].
  eapply relaned_step; [|exact Hw2].
  destruct (remove_first i src); reflexivity.
Qed.

Lemma traff_try_target_relaned cfg w i d w' :
  Traff.try_target cfg w i d = Ok (Some w') ->
  exists veh, deref w i = Ok veh /\ relaned w w' i (lane veh + d).
Proof.
  unfold Traff.try_target. intros H.
  apply bind_inv in H as (veh & Hveh & H). exists veh. split; [exact Hveh|].
  destruct (_ || _)%bool; [discriminate|].
  apply bind_inv in H as (lane_list & Hll & H).
  destruct (_ && _)%bool.
  - apply bind_inv in H as (w1 & Hw1 & H). apply mret_inv in H. injection H as <-.
    apply traff_move_vehicle_relaned. exact Hw1.
  - destruct (_ && _)%bool; [|discriminate].
    destruct (match nearest_ahead w veh lane_list with Some _ => _ | None => _ end);
      [discriminate|].
    apply bind_inv in H as (w1 & Hw1 & H). apply mret_inv in H. injection H as <-.
    apply traff_move_vehicle_relaned. exact Hw1.
Qed.

Section TryTargets.
Context (try_target : World -> nat -> Z -> result (option World)).
Context (try_targets : list Z -> World -> nat -> result (World * bool)).
Hypothesis try_targets_nil : forall w i, try_targets [] w i = mret (w, false).
Hypothesis try_targets_cons : forall d ds w i,
  try_targets (d :: ds) w i
  = (r ← try_target w i d;
     match r with Some w' => mret (w', true) | None => try_targets ds w i end).
Hypothesis try_target_relaned : forall w i d w',
  try_target w i d = Ok (Some w') ->
  exists veh, deref w i = Ok veh /\ relaned w w' i (lane veh + d).

Lemma try_both_lane_changed w i w' changed :
  try_targets [(-1)%Z; 1%Z] w i = Ok (w', changed) -> lane_changed w w' i changed.
Proof.
  intros H. rewrite try_targets_cons in H.
  apply bind_inv in H as (r1 & H1 & H).
  destruct r1 as [w1|].
  - apply mret_inv in H. injection H as <- <-.
    right. split; [reflexivity|].
    destruct (try_target_relaned _ _ _ _ H1) as (veh & Hveh & Hr).
    exists veh, (-1)%Z. auto.
  - rewrite try_targets_cons in H.
    apply bind_inv in H as (r2 & H2 & H).
    destruct r2 as [w2|].
    + apply mret_inv in H. injection H as <- <-.
      right. split; [reflexivity|].
      destruct (try_target_relaned _ _ _ _ H2) as (veh & Hveh & Hr).
      exists veh, 1%Z. auto.
    + rewrite try_targets_nil in H. apply mret_inv in H. injection H as <- <-.
      left. auto.
Qed.

End TryTargets.

Lemma trafico_try_lane_change_changed cfg w i w' changed :
  Trafico.try_lane_change cfg w i = Ok (w', changed) -> lane_changed w w' i changed.
Proof.
  apply (try_both_lane_changed (Trafico.try_target cfg) (Trafico.try_targets cfg));
    [reflexivity | reflexivity | apply trafico_try_target_relaned].
Qed.

Lemma atascos_try_change_lane_changed cfg w i w' changed :
  Atascos.try_change_lane cfg w i = Ok (w', changed) -> lane_changed w w' i changed.
Proof.
  apply (try_both_lane_changed (Atascos.try_target cfg) (Atascos.try_targets cfg));
    [reflexivity | reflexivity | apply atascos_try_target_relaned].
Qed.

Lemma traff_try_lane_change_changed cfg w i w' changed :
  Traff.try_lane_change cfg w i = Ok (w', changed) -> lane_changed w w' i changed.
Proof.
  apply (try_both_lane_changed (Traff.try_target cfg) (Traff.try_targets cfg));
    [reflexivity | reflexivity | apply traff_try_target_relaned].
Qed.

(** ** Bounds on the speed, sub-step by sub-step (C4) *)

(** The two branches of the car-following rule, as arithmetic. *)
Lemma approach_bounds (s target hi dec acc : Q) :
  0 <= dec -> 0 <= acc ->
  let s' := if Qltb target s then s - Qmin (s - target) dec
            else s + Qmin (target - s) acc in
  (s <= hi -> target <= hi -> s' <= hi) /\ (0 <= s -> 0 <= target -> 0 <= s').
Proof.
  intros Hd Ha. simpl.
  destruct (Qltb target s) eqn:E.
  - apply Qltb_lt in E.
    destruct (Q.min_spec (s - target) dec) as [[H1 H2]|[H1 H2]]; rewrite H2;
      split; intros; lra.
  - apply Qltb_ge in E.
    destruct (Q.min_spec (target - s) acc) as [[H1 H2]|[H1 H2]]; rewrite H2;
      split; intros; lra.
Qed.

Lemma free_road_bounds (s top acc : Q) :
  0 <= acc ->
  s + Qmin (top - s) acc <= top
  /\ (0 <= s -> 0 <= top -> 0 <= s + Qmin (top - s) acc).
Proof.
  intros Ha.
  destruct (Q.min_spec (top - s) acc) as [[H1 H2]|[H1 H2]]; rewrite H2;
    split; intros; lra.
Qed.

Lemma slowdown_bounds (s hi : Q) :
  0 <= Qmax 0 (s - 3) /\ (0 <= s -> s <= hi -> Qmax 0 (s - 3) <= hi).
Proof.
  split; [apply Q.le_max_l|].
  intros H0 Hh. apply Q.max_lub; lra.
Qed.

Lemma Qdiv_nonneg a b : 0 <= a -> 0 < b -> 0 <= a / b.
Proof. intros Ha Hb. apply Qle_shift_div_l; [exact Hb | lra]. Qed.

Lemma trafico_max_speed_nonneg cfg ty :
  0 <= Trafico.MAX_SPEED_KMH cfg -> 0 <= Trafico.max_speed cfg ty.
Proof.
  intros H.
  assert (Hm : 0 <= Trafico.MAX_SPEED cfg).
  { unfold Trafico.MAX_SPEED, Trafico.kmh_to_ms.
    apply Qdiv_nonneg; [|reflexivity]. nra. }
  destruct ty; simpl; nra.
Qed.

(** [trafico.py], the speed the car-following rule returns. *)
Lemma trafico_follow_speed_bounds cfg w veh leader s :
  trafico_sane cfg ->
  Trafico.follow_speed cfg w veh leader = Ok s ->
  (v veh <= Trafico.max_speed cfg (vtype veh) -> s <= Trafico.max_speed cfg (vtype veh))
  /\ (0 <= v veh ->
      (forall j, leader = Some j -> 0 <= x_of w j - (x veh + length_m veh)) ->
      0 <= s).
Proof.
  intros (Hdt & Hh & Hk) H.
  pose proof (trafico_max_speed_nonneg cfg (vtype veh) Hk) as Hm.
  unfold Trafico.follow_speed in H.
  destruct leader as [j|].
  - apply bind_inv in H as (safe_v & Hs & H).
    rewrite py_div_ok in Hs by (intros E; rewrite E in Hh; lra).
    injection Hs as <-.
    set (gap := x_of w j - (x veh + length_m veh)) in *.
    set (target := Qmin (gap / Trafico.SAFE_TIME_HEADWAY cfg)
                     (Trafico.max_speed cfg (vtype veh))) in *.
    pose proof (approach_bounds (v veh) target (Trafico.max_speed cfg (vtype veh))
                  (6 * Trafico.DT cfg) (1.5 * Trafico.DT cfg)) as Hb.
    simpl in Hb.
    destruct Hb as [Hup Hlo]; [nra | nra |].
    assert (Htm : target <= Trafico.max_speed cfg (vtype veh)) by apply Q.le_min_r.
    destruct (Qltb target (v veh)); apply mret_inv in H; subst s; split.
    + intros Hv. apply Hup; assumption.
    + intros Hv Hg. apply Hlo; [exact Hv|].
      apply Q.min_glb; [apply Qdiv_nonneg; [apply Hg; reflexivity | exact Hh] | exact Hm].
    + intros Hv. apply Hup; assumption.
    + intros Hv Hg. apply Hlo; [exact Hv|].
      apply Q.min_glb; [apply Qdiv_nonneg; [apply Hg; reflexivity | exact Hh] | exact Hm].
  - apply mret_inv in H. subst s.
    destruct (free_road_bounds (v veh) (Trafico.max_speed cfg (vtype veh))
                (1.5 * Trafico.DT cfg)) as [Hup Hlo]; [nra|].
    split; [intros _; exact Hup | intros Hv _; apply Hlo; assumption].
Qed.

Lemma speed_within_update ceiling w i f w' :
  update w i f = Ok w' ->
  (forall u, objs w !! i = Some u -> 0 <= v (f u) /\ v (f u) <= ceiling (f u)) ->
  speed_within ceiling w' i.
Proof.
  intros H Hf. apply update_inv in H as (u & Hu & ->).
  exists (f u). simpl. rewrite lookup_insert_eq. split; [reflexivity|]. apply Hf. exact Hu.
Qed.

Lemma trafico_car_following_speed cfg w i w' e :
  trafico_sane cfg ->
  Trafico.car_following_step cfg w i = Ok (w', e) ->
  speed_within (fun u => Trafico.max_speed cfg (vtype u)) w i ->
  leader_clear w i ->
  speed_within (fun u => Trafico.max_speed cfg (vtype u)) w' i.
Proof.
  intros Hsane H (veh & Hveh & H0 & Hmax) Hclear.
  unfold Trafico.car_following_step in H.
  apply bind_inv in H as (a & Ha & H).
  apply bind_inv in H as (veh' & Hveh' & H).
  apply deref_inv in Hveh'. rewrite Hveh in Hveh'. injection Hveh' as <-.
  apply bind_inv in H as (s & Hs & H).
  apply bind_inv in H as (w1 & Hw1 & H).
  apply mret_inv in H. injection H as <- <-.
  destruct (trafico_follow_speed_bounds cfg w veh a s Hsane Hs) as [Hup Hlo].
  eapply speed_within_update; [exact Hw1|].
  intros u Hu. rewrite Hveh in Hu. injection Hu as <-. simpl.
  rewrite Qred_correct. split.
  - apply Hlo; [exact H0|]. intros j ->. apply Hclear; assumption.
  - apply Hup. exact Hmax.
Qed.

Lemma trafico_slowdown_speed cfg w i u w' :
  0 <= Trafico.MAX_SPEED_KMH cfg ->
  Trafico.slowdown_step cfg w i u = Ok w' ->
  speed_within (fun u => Trafico.max_speed cfg (vtype u)) w i ->
  speed_within (fun u => Trafico.max_speed cfg (vtype u)) w' i.
Proof.
  intros Hk H (veh & Hveh & H0 & Hmax). unfold Trafico.slowdown_step in H.
  destruct (Qltb u (Trafico.SLOWDOWN_PROB cfg)).
  - eapply speed_within_update; [exact H|].
    intros u' Hu. rewrite Hveh in Hu. injection Hu as <-. simpl.
    rewrite Qred_correct.
    destruct (slowdown_bounds (v veh) (Trafico.max_speed cfg (vtype veh))) as [H1 H2].
    split; [exact H1 | apply H2; assumption].
  - apply mret_inv in H. subst w'. exists veh. auto.
Qed.

Lemma speed_within_lane_changed ceiling w w' i changed :
  (forall l u, ceiling (set_lane l u) = ceiling u) ->
  lane_changed w w' i changed ->
  speed_within ceiling w i -> speed_within ceiling w' i.
Proof.
  intros Hc [[_ ->]|(_ & veh & d & Hveh & _ & (veh' & Hveh' & Ho))] Hs; [exact Hs|].
  destruct Hs as (u & Hu & H0 & Hmax).
  rewrite Hu in Hveh'. injection Hveh' as <-.
  exists (set_lane (lane veh + d) u). rewrite Ho, lookup_insert_eq.
  split; [reflexivity|]. rewrite Hc. simpl. auto.
Qed.

Lemma trafico_lane_change_speed cfg w i w' e :
  Trafico.lane_change_step cfg w i = Ok (w', e) ->
  speed_within (fun u => Trafico.max_speed cfg (vtype u)) w i ->
  speed_within (fun u => Trafico.max_speed cfg (vtype u)) w' i.
Proof.
  intros H Hs. unfold Trafico.lane_change_step in H.
  apply bind_inv in H as (a & Ha & H).
  apply bind_inv in H as (veh & Hveh & H).
  destruct a as [j|].
  - destruct (Qltb _ _).
    + apply bind_inv in H as ([w1 changed] & Hc & H).
      apply mret_inv in H. injection H as <- <-.
      eapply speed_within_lane_changed;
        [reflexivity | eapply trafico_try_lane_change_changed; exact Hc | exact Hs].
    + apply mret_inv in H. injection H as <- <-. exact Hs.
  - apply mret_inv in H. injection H as <- <-. exact Hs.
Qed.

Lemma py_get_In {A} (l : list A) i a : py_get l i = Ok a -> In a l.
Proof.
  intros H. apply py_get_inv in H as [_ H].
  apply list_elem_of_In. eapply list_elem_of_lookup_2. exact H.
Qed.

(** [traff.py], the speed the car-following rule returns. *)
Lemma traff_follow_speed_bounds cfg w veh leader dt s limit :
  0 <= dt -> 0 <= accel veh -> 0 <= limit ->
  py_get (Traff.LANE_SPEED_MS cfg) (lane veh) = Ok limit ->
  Traff.follow_speed cfg w veh leader dt = Ok s ->
  (v veh <= preferred_speed veh -> s <= preferred_speed veh)
  /\ (0 <= v veh -> v veh <= preferred_speed veh ->
      (forall j, leader = Some j -> 0 <= x_of w j - (x veh + length_m veh)) ->
      0 <= s)
  /\ (v veh <= limit \/ leader = None -> s <= limit).
Proof.
  intros Hdt Hacc Hlim Hl H. unfold Traff.follow_speed, Traff.desired_top in H.
  rewrite Hl in H. simpl in H.
  set (top := Qmin (preferred_speed veh) limit) in *.
  assert (Htp : top <= preferred_speed veh) by apply Q.le_min_l.
  assert (Htl : top <= limit) by apply Q.le_min_r.
  destruct leader as [j|].
  - apply bind_inv in H as (safe_v & Hs & H). unfold Traff.safe_speed in Hs.
    assert (Hh : 0 < Qmax 0.1 (Traff.SAFE_TIME_HEADWAY cfg)).
    { pose proof (Q.le_max_l 0.1 (Traff.SAFE_TIME_HEADWAY cfg)). lra. }
    rewrite py_div_ok in Hs by (intros E; rewrite E in Hh; lra).
    injection Hs as <-.
    set (gap := x_of w j - (x veh + length_m veh)) in *.
    set (target := Qmin top (gap / Qmax 0.1 (Traff.SAFE_TIME_HEADWAY cfg))) in *.
    assert (Htt : target <= top) by apply Q.le_min_l.
    destruct (approach_bounds (v veh) target (preferred_speed veh) (6 * dt) (accel veh * dt))
      as [Hup Hlo]; [nra | nra |].
    destruct (approach_bounds (v veh) target limit (6 * dt) (accel veh * dt))
      as [Hupl _]; [nra | nra |].
    simpl in Hup, Hlo, Hupl.
    assert (Hs : s = if Qltb target (v veh)
                     then v veh - Qmin (v veh - target) (6 * dt)
                     else v veh + Qmin (target - v veh) (accel veh * dt)).
    { destruct (Qltb target (v veh)); apply mret_inv in H; congruence. }
    rewrite Hs. split; [|split].
    + intros Hv. apply Hup; [exact Hv | lra].
    + intros Hv Hp Hg. apply Hlo; [exact Hv|].
      apply Q.min_glb.
      * apply Q.min_glb; lra.
      * apply Qdiv_nonneg; [apply Hg; reflexivity | exact Hh].
    + intros [Hv|Hn]; [|discriminate]. apply Hupl; [exact Hv | lra].
  - apply mret_inv in H. subst s.
    destruct (free_road_bounds (v veh) top (accel veh * dt)) as [Hup Hlo]; [nra|].
    split; [|split].
    + intros _. lra.
    + intros Hv Hp _. apply Hlo; [exact Hv|]. apply Q.min_glb; lra.
    + intros _. lra.
Qed.

Lemma traff_car_following_speed cfg w i dt w' e :
  traff_sane cfg -> 0 <= dt ->
  (forall veh, objs w !! i = Some veh -> 0 <= accel veh) ->
  Traff.car_following_step cfg w i dt = Ok (w', e) ->
  speed_within preferred_speed w i ->
  leader_clear w i ->
  speed_within preferred_speed w' i
  /\ (under_lane_limit (Traff.LANE_SPEED_MS cfg) w i \/ ahead w i = Ok None ->
      under_lane_limit (Traff.LANE_SPEED_MS cfg) w' i).
Proof.
  intros Hsane Hdt Hacc H (veh & Hveh & H0 & Hmax) Hclear.
  unfold Traff.car_following_step in H.
  apply bind_inv in H as (a & Ha & H).
  apply bind_inv in H as (veh' & Hveh' & H).
  apply deref_inv in Hveh'. rewrite Hveh in Hveh'. injection Hveh' as <-.
  apply bind_inv in H as (s & Hs & H).
  apply bind_inv in H as (w1 & Hw1 & H).
  apply mret_inv in H. injection H as <- <-.
  assert (Hl : exists limit, py_get (Traff.LANE_SPEED_MS cfg) (lane veh) = Ok limit).
  { unfold Traff.follow_speed, Traff.desired_top in Hs.
    apply bind_inv in Hs as (top & Ht & _).
    apply bind_inv in Ht as (limit & Hl & _). eauto. }
  destruct Hl as (limit & Hl).
  assert (Hlim : 0 <= limit) by (apply Hsane; eapply py_get_In; exact Hl).
  destruct (traff_follow_speed_bounds cfg w veh a dt s limit Hdt (Hacc _ Hveh) Hlim Hl Hs)
    as (Hup & Hlo & Hll).
  split.
  - eapply speed_within_update; [exact Hw1|].
    intros u Hu. rewrite Hveh in Hu. injection Hu as <-. simpl.
    rewrite Qred_correct. split.
    + apply Hlo; [exact H0 | exact Hmax |]. intros j ->. apply Hclear; assumption.
    + apply Hup. exact Hmax.
  - intros Hpre. apply update_inv in Hw1 as (u & Hu & ->).
    rewrite Hveh in Hu. injection Hu as <-.
    exists (set_v s veh), limit. simpl. rewrite lookup_insert_eq.
    split; [reflexivity|]. split; [exact Hl|].
    rewrite Qred_correct. apply Hll.
    destruct Hpre as [(u & l' & Hu & Hl' & Hv)|Hn].
    + left. rewrite Hveh in Hu. injection Hu as <-. congruence.
    + right. congruence.
Qed.

Lemma traff_slowdown_speed cfg w i u w' :
  traff_sane cfg ->
  Traff.slowdown_step cfg w i u = Ok w' ->
  speed_within preferred_speed w i ->
  speed_within preferred_speed w' i
  /\ (under_lane_limit (Traff.LANE_SPEED_MS cfg) w i ->
      under_lane_limit (Traff.LANE_SPEED_MS cfg) w' i).
Proof.
  intros Hsane H (veh & Hveh & H0 & Hmax). unfold Traff.slowdown_step in H.
  destruct (Qltb u (Traff.SLOWDOWN_PROB cfg)).
  - split.
    + eapply speed_within_update; [exact H|].
      intros u' Hu. rewrite Hveh in Hu. injection Hu as <-. simpl.
      rewrite Qred_correct.
      destruct (slowdown_bounds (v veh) (preferred_speed veh)) as [H1 H2].
      split; [exact H1 | apply H2; assumption].
    + intros (u' & limit & Hu & Hl & Hv).
      rewrite Hveh in Hu. injection Hu as <-.
      apply update_inv in H as (u' & Hu & ->).
      rewrite Hveh in Hu. injection Hu as <-.
      eexists _, limit. simpl. rewrite lookup_insert_eq.
      split; [reflexivity|]. split; [exact Hl|]. simpl.
      rewrite Qred_correct.
      apply (slowdown_bounds (v veh) limit); assumption.
  - apply mret_inv in H. subst w'. split; [exists veh; auto | auto].
Qed.

Lemma traff_lane_change_speed cfg w i w' e :
  Traff.lane_change_step cfg w i = Ok (w', e) ->
  speed_within preferred_speed w i ->
  speed_within preferred_speed w' i.
Proof.
  intros H Hs. unfold Traff.lane_change_step in H.
  apply bind_inv in H as (veh & Hveh & H).
  apply bind_inv in H as ([w1 changed] & Hc & H).
  apply mret_inv in H. injection H as <- <-.
  eapply speed_within_lane_changed;
    [reflexivity | eapply traff_try_lane_change_changed; exact Hc | exact Hs].
Qed.

(** [a2.py]: after [update_speed_by_lane] the speed is at most the limit
    of the lane, and it is not negative if it was not. *)
Lemma a2_update_speed_by_lane_bounds u u' :
  A2.update_speed_by_lane u = Ok u' ->
  exists limit,
    A2.LANE_SPEED (A2.lane u) = Ok limit
    /\ A2.lane u' = A2.lane u
    /\ A2.speed u' <= limit
    /\ A2.speed u' <= A2.speed u
    /\ (0 <= A2.speed u -> 0 <= A2.speed u').
Proof.
  unfold A2.update_speed_by_lane. intros H.
  apply bind_inv in H as (limit & Hl & H). exists limit. split; [exact Hl|].
  assert (Hpos : 0 <= limit).
  { unfold A2.LANE_SPEED in Hl.
    repeat (destruct (_ =? _)%Z; [injection Hl as <-; lra|]). discriminate. }
  destruct (Qltb limit (A2.speed u)) eqn:E; apply mret_inv in H; subst u'; simpl.
  - apply Qltb_lt in E. repeat split; lra.
  - apply Qltb_ge in E. repeat split; lra.
Qed.

(** In [traff.py] too a bound of C4 is exceeded: in a first frame of
    60 ms, the first car accelerates to 29 m/s in lane 0 and then changes
    to lane 1; immediately after the lane change its speed exceeds the
    minimum of its class ceiling and the ceiling of lane 1 (250/9 m/s). *)
Lemma traff_speed_above_lane_ceiling :
  exists w1 e1 w2 w3 e2 veh top,
    Traff.car_following_step Traff.default (Traff.world traff_first_insertion) 1 6
    = Ok (w1, e1)
    /\ Traff.slowdown_step Traff.default w1 1 (1 # 2) = Ok w2
    /\ Traff.lane_change_step Traff.default w2 1 = Ok (w3, e2)
    /\ e2 = [LaneChange 1 0 true 1]
    /\ deref w3 1 = Ok veh
    /\ lane veh = 1%Z
    /\ v veh == 29
    /\ Traff.desired_top Traff.default veh = Ok top
    /\ top < v veh.
Proof.
  do 7 eexists.
  split; [vm_compute; reflexivity|].
  split; [vm_compute; reflexivity|].
  split; [vm_compute; reflexivity|].
  split; [reflexivity|].
  split; [vm_compute; reflexivity|].
  split; [reflexivity|].
  split; [vm_compute; reflexivity|].
  split; [vm_compute; reflexivity|].
  vm_compute; reflexivity.
Qed.

(** C4 (the code at the failing input): [trafico.py] with its constants
    and the draws [car_braking].  A truck enters lane 0 at t = 2 (in the
    third iteration) and a car enters the same lane at t = 3, 12.5 m behind
    it.  After the fourth iteration the car is at 14 m and the truck at
    16 m with a speed of 3.5 m/s.  In the fifth iteration the car moves to
    19 m, past the truck; the truck then finds the car ahead of it with a
    gap of -1.5 m, its target speed is -1.5 / 1.8 = -5/6 m/s, and since
    the car-following branch has no floor at zero the truck ends the
    iteration with the speed -5/6 m/s, 5/6 m further back. *)
Theorem trafico_speed_negative :
  Trafico.loop Trafico.default 1.5 5 (Trafico.init Trafico.default car_braking [])
  = Ok (trafico_after 5 car_braking)
  /\ lanes (Trafico.world (trafico_after 4 car_braking)) = [[3%nat; 2%nat]; [1%nat]; []]
  /\ x_of (Trafico.world (trafico_after 4 car_braking)) 3 == 14
  /\ x_of (Trafico.world (trafico_after 4 car_braking)) 2 == 16
  /\ v_of (Trafico.world (trafico_after 4 car_braking)) 2 == 3.5
  /\ x_of (Trafico.world (trafico_after 5 car_braking)) 3 == 19
  /\ v_of (Trafico.world (trafico_after 5 car_braking)) 2 == - (5 # 6)
  /\ v_of (Trafico.world (trafico_after 5 car_braking)) 2 < 0
  /\ x_of (Trafico.world (trafico_after 5 car_braking)) 2 == 16 - (5 # 6).
Proof.
  do 8 (split; [vm_compute; reflexivity|]). vm_compute. reflexivity.
Qed.


(** ** One car-following update per handling of a vehicle (C6) *)

Lemma lane_of_objs w w' i : objs w' = objs w -> lane_of w' i = lane_of w i.
Proof. unfold lane_of, attr. intros ->. reflexivity. Qed.

Lemma lane_of_update w i f w' :
  update w i f = Ok w' -> (forall u, lane (f u) = lane u) ->
  lane_of w' i = lane_of w i.
Proof.
  intros H Hf. apply update_inv in H as (u & Hu & ->).
  unfold lane_of, attr. simpl. rewrite lookup_insert_eq, Hu. apply Hf.
Qed.

Lemma lane_of_deref w i veh : deref w i = Ok veh -> lane_of w i = lane veh.
Proof. intros H. apply deref_inv in H. unfold lane_of, attr. rewrite H. reflexivity. Qed.

Lemma remove_objs g w i w' : remove g w i = Ok w' -> objs w' = objs w.
Proof.
  unfold remove. intros H.
  apply bind_inv in H as (veh & _ & H).
  apply bind_inv in H as (lane_list & _ & H).
  apply bind_inv in H as (w1 & Hw1 & H).
  assert (E1 : objs w1 = objs w).
  { destruct (py_in i lane_list).
    - apply bind_inv in Hw1 as (l' & _ & Hw1). apply mret_inv in Hw1. subst w1. reflexivity.
    - apply mret_inv in Hw1. subst w1. reflexivity. }
  destruct g; [destruct (py_in i (all w1))|].
  - apply bind_inv in H as (a' & _ & H). apply mret_inv in H. subst w'. exact E1.
  - apply mret_inv in H. subst w'. exact E1.
  - apply mret_inv in H. subst w'. exact E1.
Qed.

(** The car-following sub-step of the three engines logs one update, made
    with the leader found in the lane the vehicle is in at that moment, and
    leaves the vehicle in its lane. *)
Lemma car_following_event (follow : World -> Vehicle -> option nat -> result Q) w i w' e :
  (a ← ahead w i;
   veh ← deref w i;
   s ← follow w veh a;
   w1 ← update w i (set_v s);
   mret (w1, [CarFollowing i (lane veh) a])) = Ok (w', e) ->
  exists leader,
    ahead w i = Ok leader
    /\ e = [CarFollowing i (lane_of w i) leader]
    /\ lane_of w' i = lane_of w i.
Proof.
  intros H.
  apply bind_inv in H as (a & Ha & H).
  apply bind_inv in H as (veh & Hveh & H).
  apply bind_inv in H as (s & Hs & H).
  apply bind_inv in H as (w1 & Hw1 & H).
  apply mret_inv in H. injection H as <- <-.
  exists a. split; [exact Ha|].
  rewrite (lane_of_deref _ _ _ Hveh). split; [reflexivity|].
  rewrite <- (lane_of_deref _ _ _ Hveh).
  eapply lane_of_update; [exact Hw1 | reflexivity].
Qed.

Lemma trafico_lane_change_event cfg w i w' e :
  Trafico.lane_change_step cfg w i = Ok (w', e) ->
  followings i e = 0%nat
  /\ (e = [] /\ w' = w
      \/ exists changed, e = [LaneChange i (lane_of w i) changed (lane_of w' i)]
                         /\ lane_changed w w' i changed).
Proof.
  unfold Trafico.lane_change_step. intros H.
  apply bind_inv in H as (a & Ha & H).
  apply bind_inv in H as (veh & Hveh & H).
  destruct a as [j|].
  - destruct (Qltb _ _).
    + apply bind_inv in H as ([w1 changed] & Hc & H).
      apply mret_inv in H. injection H as <- <-.
      split; [reflexivity|]. right. exists changed.
      rewrite (lane_of_deref _ _ _ Hveh).
      split; [reflexivity | eapply trafico_try_lane_change_changed; exact Hc].
    + apply mret_inv in H. injection H as <- <-. split; [reflexivity | left; auto].
  - apply mret_inv in H. injection H as <- <-. split; [reflexivity | left; auto].
Qed.

Lemma atascos_lane_change_event cfg w i w' e :
  Atascos.lane_change_step cfg w i = Ok (w', e) ->
  followings i e = 0%nat
  /\ (e = [] /\ w' = w
      \/ exists changed, e = [LaneChange i (lane_of w i) changed (lane_of w' i)]
                         /\ lane_changed w w' i changed).
Proof.
  unfold Atascos.lane_change_step. intros H.
  apply bind_inv in H as (a & Ha & H).
  apply bind_inv in H as (veh & Hveh & H).
  destruct a as [j|].
  - destruct (_ || _)%bool.
    + apply bind_inv in H as ([w1 changed] & Hc & H).
      apply mret_inv in H. injection H as <- <-.
      split; [reflexivity|]. right. exists changed.
      rewrite (lane_of_deref _ _ _ Hveh).
      split; [reflexivity | eapply atascos_try_change_lane_changed; exact Hc].
    + apply mret_inv in H. injection H as <- <-. split; [reflexivity | left; auto].
  - apply mret_inv in H. injection H as <- <-. split; [reflexivity | left; auto].
Qed.

Lemma traff_lane_change_event cfg w i w' e :
  Traff.lane_change_step cfg w i = Ok (w', e) ->
  exists changed, e = [LaneChange i (lane_of w i) changed (lane_of w' i)]
                  /\ lane_changed w w' i changed.
Proof.
  unfold Traff.lane_change_step. intros H.
  apply bind_inv in H as (veh & Hveh & H).
  apply bind_inv in H as ([w1 changed] & Hc & H).
  apply mret_inv in H. injection H as <- <-.
  exists changed. rewrite (lane_of_deref _ _ _ Hveh).
  split; [reflexivity | eapply traff_try_lane_change_changed; exact Hc].
Qed.

Lemma slowdown_lane_of (p : Q) w i u w' :
  (if Qltb u p then update w i (fun veh => set_v (Qmax 0 (v veh - 3)) veh) else mret w)
  = Ok w' ->
  lane_of w' i = lane_of w i.
Proof.
  destruct (Qltb u p); intros H.
  - eapply lane_of_update; [exact H | reflexivity].
  - apply mret_inv in H. subst. reflexivity.
Qed.

Lemma trafico_exit_step_inv st i st' :
  Trafico.exit_step st i = Ok st' ->
  Trafico.trace st' = Trafico.trace st
  /\ lane_of (Trafico.world st') i = lane_of (Trafico.world st) i.
Proof.
  unfold Trafico.exit_step. intros H.
  apply bind_inv in H as (veh & Hveh & H).
  destruct (Qle_bool _ _).
  - apply bind_inv in H as (w1 & Hw1 & H).
    apply bind_inv in H as (w2 & Hw2 & H).
    apply mret_inv in H. subst st'. simpl. split; [reflexivity|].
    rewrite (lane_of_objs _ _ _ (remove_objs _ _ _ _ Hw2)).
    eapply lane_of_update; [exact Hw1 | reflexivity].
  - apply mret_inv in H. subst st'. auto.
Qed.

Lemma atascos_exit_step_inv st i st' :
  Atascos.exit_step st i = Ok st' ->
  Atascos.trace st' = Atascos.trace st
  /\ lane_of (Atascos.world st') i = lane_of (Atascos.world st) i.
Proof.
  unfold Atascos.exit_step. intros H.
  apply bind_inv in H as (veh & Hveh & H).
  destruct (Qle_bool _ _).
  - apply bind_inv in H as (w1 & Hw1 & H).
    apply bind_inv in H as (w2 & Hw2 & H).
    apply mret_inv in H. subst st'. simpl. split; [reflexivity|].
    rewrite (lane_of_objs _ _ _ (remove_objs _ _ _ _ Hw2)).
    eapply lane_of_update; [exact Hw1 | reflexivity].
  - apply mret_inv in H. subst st'. auto.
Qed.

Lemma atascos_sample_step_inv cfg st i st' :
  Atascos.sample_step cfg st i = Ok st' ->
  Atascos.trace st' = Atascos.trace st /\ Atascos.world st' = Atascos.world st.
Proof.
  unfold Atascos.sample_step. intros H.
  apply bind_inv in H as (veh & Hveh & H).
  destruct (_ <? _)%Z; apply mret_inv in H; subst st'; auto.
Qed.

Lemma traff_exit_step_inv cfg st i st' :
  Traff.exit_step cfg st i = Ok st' ->
  Traff.trace st' = Traff.trace st
  /\ lane_of (Traff.world st') i = lane_of (Traff.world st) i.
Proof.
  unfold Traff.exit_step. intros H.
  apply bind_inv in H as (veh & Hveh & H).
  destruct (Qle_bool _ _).
  - apply bind_inv in H as (w1 & Hw1 & H).
    apply bind_inv in H as (w3 & Hw3 & H).
    apply mret_inv in H. subst st'. simpl. split; [reflexivity|].
    rewrite (lane_of_objs _ _ _ (remove_objs _ _ _ _ Hw3)).
    rewrite (lane_of_objs w1) by reflexivity.
    eapply lane_of_update; [exact Hw1 | reflexivity].
  - apply mret_inv in H. subst st'. auto.
Qed.

Lemma trafico_process_once cfg st i st' :
  Trafico.process cfg st i = Ok st' ->
  exists w1 e1 leader,
    Trafico.lane_change_step cfg (Trafico.world st) i = Ok (w1, e1)
    /\ followings i e1 = 0%nat
    /\ ahead w1 i = Ok leader
    /\ Trafico.trace st' = Trafico.trace st ++ e1 ++ [CarFollowing i (lane_of w1 i) leader]
    /\ lane_of (Trafico.world st') i = lane_of w1 i.
Proof.
  unfold Trafico.process. intros H.
  apply bind_inv in H as ([w1 e1] & H1 & H).
  apply bind_inv in H as ([w2 e2] & H2 & H).
  destruct (next_random (Trafico.rng st)) as [u r].
  apply bind_inv in H as (w3 & H3 & H).
  apply bind_inv in H as (w4 & H4 & H).
  apply trafico_exit_step_inv in H as [Ht Hl]. simpl in Ht, Hl.
  apply (car_following_event (Trafico.follow_speed cfg)) in H2 as (leader & Ha & -> & Hl2).
  exists w1, e1, leader.
  split; [exact H1|]. split; [apply (trafico_lane_change_event _ _ _ _ _ H1)|].
  split; [exact Ha|]. split; [exact Ht|].
  rewrite Hl, <- Hl2.
  transitivity (lane_of w3 i).
  - eapply lane_of_update; [exact H4 | reflexivity].
  - eapply slowdown_lane_of. exact H3.
Qed.

Lemma atascos_process_once cfg st i st' :
  Atascos.process cfg st i = Ok st' ->
  exists w1 e1 leader,
    Atascos.lane_change_step cfg (Atascos.world st) i = Ok (w1, e1)
    /\ followings i e1 = 0%nat
    /\ ahead w1 i = Ok leader
    /\ Atascos.trace st' = Atascos.trace st ++ e1 ++ [CarFollowing i (lane_of w1 i) leader]
    /\ lane_of (Atascos.world st') i = lane_of w1 i.
Proof.
  unfold Atascos.process. intros H.
  apply bind_inv in H as ([w1 e1] & H1 & H).
  apply bind_inv in H as ([w2 e2] & H2 & H).
  destruct (next_random (Atascos.rng st)) as [u r].
  apply bind_inv in H as (w3 & H3 & H).
  apply bind_inv in H as (w4 & H4 & H).
  apply bind_inv in H as (st1 & H5 & H).
  apply atascos_exit_step_inv in H as [Ht Hl].
  apply atascos_sample_step_inv in H5 as [Ht5 Hw5]. simpl in Ht5, Hw5.
  rewrite Ht5 in Ht. rewrite Hw5 in Hl.
  apply (car_following_event (Atascos.follow_speed cfg)) in H2 as (leader & Ha & -> & Hl2).
  exists w1, e1, leader.
  split; [exact H1|]. split; [apply (atascos_lane_change_event _ _ _ _ _ H1)|].
  split; [exact Ha|]. split; [exact Ht|].
  rewrite Hl, <- Hl2.
  transitivity (lane_of w3 i).
  - eapply lane_of_update; [exact H4 | reflexivity].
  - eapply slowdown_lane_of. exact H3.
Qed.

Lemma traff_process_once cfg dt st i st' :
  Traff.process cfg dt st i = Ok st' ->
  exists leader src changed,
    ahead (Traff.world st) i = Ok leader
    /\ Traff.trace st'
       = Traff.trace st ++ [CarFollowing i (lane_of (Traff.world st) i) leader;
                            LaneChange i src changed (lane_of (Traff.world st') i)].
Proof.
  unfold Traff.process. intros H.
  apply bind_inv in H as ([w1 e1] & H1 & H).
  destruct (next_random (Traff.rng st)) as [u r].
  apply bind_inv in H as (w2 & H2 & H).
  apply bind_inv in H as ([w3 e2] & H3 & H).
  apply bind_inv in H as (w4 & H4 & H).
  apply traff_exit_step_inv in H as [Ht Hl]. simpl in Ht, Hl.
  apply (car_following_event (fun w veh a => Traff.follow_speed cfg w veh a dt))
    in H1 as (leader & Ha & -> & Hl1).
  apply traff_lane_change_event in H3 as (changed & -> & _).
  exists leader, (lane_of w2 i), changed.
  split; [exact Ha|]. rewrite Ht. simpl.
  rewrite Hl, (lane_of_update _ _ _ _ H4) by reflexivity. reflexivity.
Qed.

(** C6 (the code at the failing input): [trafico.py] with its constants
    and the draws [truck_then_car].  A truck enters lane 0 at t = 0 and a
    car enters the same lane at t = 2 (third iteration), 32.5 m behind it,
    with a speed of 20 m/s.  In that iteration the loop over lane 0 handles
    the car: it changes to lane 1, accelerates to 21.5 m/s and moves to
    21.5 m.  The loop over lane 1, which starts from the list of lane 1 as
    it is by then, handles the car again: its speed is updated a second
    time, to 23 m/s, and its position is integrated a second time, to
    44.5 m.  So within one iteration of 1 s the car-following update of the
    car is computed twice and the car covers 44.5 m. *)
Theorem trafico_vehicle_handled_twice :
  Trafico.loop Trafico.default 1.5 2 (Trafico.init Trafico.default truck_then_car [])
  = Ok (trafico_after 2 truck_then_car)
  /\ Trafico.t (trafico_after 2 truck_then_car) == 2
  /\ exists st0 sta stb stc,
       Trafico.arrival Trafico.default 1.5 (trafico_after 2 truck_then_car) = Ok st0
       /\ lanes (Trafico.world st0) = [[2%nat; 1%nat]; []; []]
       /\ x_of (Trafico.world st0) 2 == 0 /\ v_of (Trafico.world st0) 2 == 20
       /\ x_of (Trafico.world st0) 1 == 32.5
       /\ Trafico.process Trafico.default st0 2 = Ok sta
       /\ lanes (Trafico.world sta) = [[1%nat]; [2%nat]; []]
       /\ x_of (Trafico.world sta) 2 == 21.5 /\ v_of (Trafico.world sta) 2 == 21.5
       /\ Trafico.process Trafico.default sta 1 = Ok stb
       /\ lanes (Trafico.world stb) = [[1%nat]; [2%nat]; []]
       /\ Trafico.process Trafico.default stb 2 = Ok stc
       /\ x_of (Trafico.world stc) 2 == 44.5 /\ v_of (Trafico.world stc) 2 == 23
       /\ Trafico.dynamics Trafico.default st0 (range 3) = Ok stc
       /\ Trafico.world (trafico_after 3 truck_then_car) = Trafico.world stc
       /\ Trafico.t (trafico_after 3 truck_then_car) == 3.
Proof.
  split; [vm_compute; reflexivity|].
  split; [vm_compute; reflexivity|].
  do 4 eexists.
  split; [vm_compute; reflexivity|].
  do 4 (split; [vm_compute; reflexivity|]).
  split; [vm_compute; reflexivity|].
  do 3 (split; [vm_compute; reflexivity|]).
  split; [vm_compute; reflexivity|].
  split; [vm_compute; reflexivity|].
  split; [vm_compute; reflexivity|].
  do 2 (split; [vm_compute; reflexivity|]).
  split; [vm_compute; reflexivity|].
  split; vm_compute; reflexivity.
Qed.

(** The same happens in [traff.py], which moreover updates the speed
    before the lane change: in the first frame (17 ms) of a run, the speed
    of the first car is updated in lane 0, the car then moves to lane 1,
    and it is updated a second time when the loop over the lanes reaches
    lane 1. *)
Lemma traff_follows_before_change_and_twice :
  exists st,
    Traff.frame Traff.default 1.5 (Traff.init Traff.default quiet) (Traff.mkFrame [] 17)
    = Ok st
    /\ Traff.trace st
       = [CarFollowing 1 0 None; LaneChange 1 0 true 1;
          CarFollowing 1 1 None; LaneChange 1 1 true 0]
    /\ followings 1 (Traff.trace st) = 2%nat.
Proof.
  eexists. split; [vm_compute; reflexivity|].
  split; vm_compute; reflexivity.
Qed.


(** ** What the statistics of a run depend on (C8) *)

Lemma with_plot_id st :
  with_plot (Trafico.start_real st) (Trafico.clock st) (Trafico.frames st) st = st.
Proof. destruct st. reflexivity. Qed.

(** The simulation steps of [trafico.py] carry the variables of the plot
    along without reading them. *)
Lemma trafico_exit_step_plot s c fr st i :
  Trafico.exit_step (with_plot s c fr st) i = on_ok (with_plot s c fr) (Trafico.exit_step st i).
Proof.
  unfold Trafico.exit_step. simpl.
  destruct (deref (Trafico.world st) i) as [veh|]; [|reflexivity]. simpl.
  destruct (Qle_bool _ _); [|reflexivity].
  destruct (update _ _ _) as [w1|]; [|reflexivity]. simpl.
  destruct (remove true w1 i); reflexivity.
Qed.

Lemma trafico_process_plot cfg s c fr st i :
  Trafico.process cfg (with_plot s c fr st) i
  = on_ok (with_plot s c fr) (Trafico.process cfg st i).
Proof.
  unfold Trafico.process. simpl.
  destruct (Trafico.lane_change_step cfg (Trafico.world st) i) as [[w1 e1]|]; [|reflexivity].
  simpl.
  destruct (Trafico.car_following_step cfg w1 i) as [[w2 e2]|]; [|reflexivity]. simpl.
  destruct (next_random (Trafico.rng st)) as [u r].
  destruct (Trafico.slowdown_step cfg w2 i u) as [w3|]; [|reflexivity]. simpl.
  destruct (Trafico.integrate_step cfg w3 i) as [w4|]; [|reflexivity]. simpl.
  apply (trafico_exit_step_plot s c fr
           (Trafico.mkState w4 (Trafico.t st) (Trafico.next_arrival st) (Trafico.stats st)
              (Trafico.next_id st) r (Trafico.start_real st) (Trafico.clock st)
              (Trafico.frames st) (Trafico.trace st ++ e1 ++ e2))).
Qed.

Lemma trafico_process_all_plot cfg s c fr l : forall st,
  Trafico.process_all cfg (with_plot s c fr st) l
  = on_ok (with_plot s c fr) (Trafico.process_all cfg st l).
Proof.
  induction l as [|i l IH]; intros st; simpl; [reflexivity|].
  rewrite trafico_process_plot.
  destruct (Trafico.process cfg st i) as [st1|]; [|reflexivity]. simpl. apply IH.
Qed.

Lemma trafico_dynamics_plot cfg s c fr ls : forall st,
  Trafico.dynamics cfg (with_plot s c fr st) ls
  = on_ok (with_plot s c fr) (Trafico.dynamics cfg st ls).
Proof.
  induction ls as [|l ls IH]; intros st; simpl; [reflexivity|].
  destruct (py_get (lanes (Trafico.world st)) l) as [snapshot|]; [|reflexivity]. simpl.
  rewrite trafico_process_all_plot.
  destruct (Trafico.process_all cfg st snapshot) as [st1|]; [|reflexivity]. simpl. apply IH.
Qed.

Lemma trafico_enter_plot cfg s c fr st l ty :
  Trafico.enter cfg (with_plot s c fr st) l ty
  = on_ok (with_plot s c fr) (Trafico.enter cfg st l ty).
Proof.
  unfold Trafico.enter. simpl.
  destruct (add true _ _); reflexivity.
Qed.

Lemma trafico_place_plot cfg s c fr ty ls : forall st,
  Trafico.place cfg (with_plot s c fr st) ty ls
  = on_ok (with_plot s c fr) (Trafico.place cfg st ty ls).
Proof.
  induction ls as [|l ls IH]; intros st; simpl; [reflexivity|].
  destruct (py_get (lanes (Trafico.world st)) l) as [lane_list|]; [|reflexivity]. simpl.
  destruct (py_min_by _ lane_list) as [first|]; [|apply trafico_enter_plot].
  destruct (Qltb _ _); [apply trafico_enter_plot | apply IH].
Qed.

Lemma trafico_arrival_plot cfg iv s c fr st :
  Trafico.arrival cfg iv (with_plot s c fr st)
  = on_ok (with_plot s c fr) (Trafico.arrival cfg iv st).
Proof.
  unfold Trafico.arrival. simpl.
  destruct (Qle_bool _ _); [|reflexivity].
  destruct (next_choice (Trafico.rng st)) as [ty r1].
  destruct (next_shuffle r1 _) as [order r2].
  set (st0 := Trafico.mkState (Trafico.world st) (Trafico.t st) (Trafico.next_arrival st)
                (Trafico.stats st) (Trafico.next_id st) r2 (Trafico.start_real st)
                (Trafico.clock st) (Trafico.frames st) (Trafico.trace st)).
  change (Trafico.mkState (Trafico.world st) (Trafico.t st) (Trafico.next_arrival st)
            (Trafico.stats st) (Trafico.next_id st) r2 s c fr (Trafico.trace st))
    with (with_plot s c fr st0).
  rewrite trafico_place_plot.
  destruct (Trafico.place cfg st0 ty order) as [st1|]; reflexivity.
Qed.

(** Drawing changes nothing but the variables of the plot, and whether it
    raises does not depend on them. *)
Lemma trafico_render_plot cfg st :
  (exists e, forall s c fr, Trafico.render cfg (with_plot s c fr st) = Raise e)
  \/ (forall s c fr, exists s' c' fr',
         Trafico.render cfg (with_plot s c fr st) = Ok (with_plot s' c' fr' st)).
Proof.
  unfold Trafico.render.
  destruct (py_div 1 (Trafico.SPEEDUP cfg)) as [period|e].
  - right. intros s c fr. simpl.
    destruct (Trafico.next_time c s) as [now c1].
    destruct (Qle_bool _ _).
    + destruct (Trafico.next_time c1 now) as [now' c2]. do 3 eexists. reflexivity.
    + do 3 eexists. reflexivity.
  - left. exists e. intros s c fr. reflexivity.
Qed.

(** One iteration, from two states that differ in the variables of the
    plot only, fails in the same way or gives two such states again. *)
Lemma trafico_tick_plot cfg iv st s c fr :
  (exists e, Trafico.tick cfg iv (with_plot s c fr st) = Raise e
             /\ Trafico.tick cfg iv st = Raise e)
  \/ (exists st' s1 c1 fr1 s2 c2 fr2,
         Trafico.tick cfg iv (with_plot s c fr st) = Ok (with_plot s1 c1 fr1 st')
         /\ Trafico.tick cfg iv st = Ok (with_plot s2 c2 fr2 st')).
Proof.
  unfold Trafico.tick. rewrite trafico_arrival_plot.
  destruct (Trafico.arrival cfg iv st) as [st1|e]; [|left; exists e; auto]. simpl.
  rewrite trafico_dynamics_plot.
  destruct (Trafico.dynamics cfg st1 _) as [st2|e]; [|left; exists e; auto]. simpl.
  set (b := Trafico.mkState (Trafico.world st2) (Trafico.t st2 + Trafico.DT cfg)
              (Trafico.next_arrival st2) (Trafico.stats st2) (Trafico.next_id st2)
              (Trafico.rng st2) (Trafico.start_real st2) (Trafico.clock st2)
              (Trafico.frames st2) (Trafico.trace st2)).
  destruct (trafico_render_plot cfg b) as [(e & He)|Hok].
  - left. exists e. split.
    + apply (He s c fr).
    + rewrite <- (with_plot_id b). apply He.
  - right. destruct (Hok s c fr) as (s1 & c1 & fr1 & H1).
    destruct (Hok (Trafico.start_real b) (Trafico.clock b) (Trafico.frames b))
      as (s2 & c2 & fr2 & H2).
    rewrite with_plot_id in H2.
    exists b, s1, c1, fr1, s2, c2, fr2. split; [exact H1 | exact H2].
Qed.

Lemma trafico_loop_plot cfg iv fuel : forall st s c fr,
  on_ok (with_plot 0 [] []) (Trafico.loop cfg iv fuel (with_plot s c fr st))
  = on_ok (with_plot 0 [] []) (Trafico.loop cfg iv fuel st).
Proof.
  induction fuel as [|fuel IH]; intros st s c fr; simpl; [reflexivity|].
  destruct (Qltb _ _); [|reflexivity].
  destruct (trafico_tick_plot cfg iv st s c fr)
    as [(e & -> & ->)|(st' & s1 & c1 & fr1 & s2 & c2 & fr2 & -> & ->)];
    [reflexivity|].
  simpl. rewrite (IH st' s1 c1 fr1), (IH st' s2 c2 fr2). reflexivity.
Qed.

(** C8, as stated, fails in [traff.py]: with the same configuration and
    the same outcomes of the calls to [random], two runs whose second frame
    lasts 72 s and 80 s both end with two finished cars, but with the mean
    speeds 30 km/h and 27 km/h: the simulated time step is the wall-clock
    duration of the frame. *)
Lemma traff_statistics_depend_on_frame_times :
  exists s1 s2,
    Traff.run_pygame_sim Traff.default quiet frames_72
    = Ok (mkByType (2%nat, s1) (0%nat, 0) (0%nat, 0))
    /\ Traff.run_pygame_sim Traff.default quiet frames_80
       = Ok (mkByType (2%nat, s2) (0%nat, 0) (0%nat, 0))
    /\ s1 == 30 /\ s2 == 27
    /\ Traff.run_pygame_sim Traff.default quiet frames_72
       <> Traff.run_pygame_sim Traff.default quiet frames_80.
Proof.
  do 2 eexists.
  split; [vm_compute; reflexivity|].
  split; [vm_compute; reflexivity|].
  split; [vm_compute; reflexivity|].
  split; [vm_compute; reflexivity|].
  vm_compute. discriminate.
Qed.

Lemma trafico_results_strip cfg (r : result Trafico.State) :
  (r ≫= Trafico.results cfg) = (on_ok (with_plot 0 [] []) r ≫= Trafico.results cfg).
Proof. destruct r; reflexivity. Qed.

(** C8 (amended): in [trafico.py], for a fixed configuration and fixed
    outcomes of the calls to [random] (a fixed seed), two runs produce the
    same finished-vehicle statistics (per-type counts and mean speeds),
    or fail alike, whatever the wall clock reads during each of them. *)
Theorem trafico_statistics_ignore_clock cfg fuel r c1 c2 :
  Trafico.run_sim cfg fuel r c1 = Trafico.run_sim cfg fuel r c2.
Proof.
  unfold Trafico.run_sim.
  destruct (py_div 60 (Trafico.ARRIVAL_RATE_PER_MIN cfg)) as [iv|]; [|reflexivity].
  simpl.
  assert (Hi : forall c, exists s c',
               Trafico.init cfg r c = with_plot s c' [] (Trafico.init cfg r [])).
  { intros c. unfold Trafico.init. destruct (Trafico.next_time c 0) as [now c'].
    exists now, c'. reflexivity. }
  destruct (Hi c1) as (s1 & c1' & ->). destruct (Hi c2) as (s2 & c2' & ->).
  rewrite (trafico_results_strip cfg (Trafico.loop cfg iv fuel (with_plot s1 c1' [] _))).
  rewrite (trafico_results_strip cfg (Trafico.loop cfg iv fuel (with_plot s2 c2' [] _))).
  rewrite !trafico_loop_plot. reflexivity.
Qed.

(** * Further properties of the code *)

(** ** [a2.py]: vehicles *)

Lemma a2_lane_speed_valid l :
  (0 <= l <= 2)%Z -> exists m, A2.LANE_SPEED l = Ok m /\ 90 <= m /\ m <= 120.
Proof.
  intros H. assert (l = 0 \/ l = 1 \/ l = 2)%Z as [-> | [-> | ->]] by lia;
    eexists; (split; [reflexivity|]); split; unfold Qle; simpl; lia.
Qed.

Lemma a2_lane_speed_inv l m :
  A2.LANE_SPEED l = Ok m -> (0 <= l <= 2)%Z /\ 90 <= m /\ m <= 120.
Proof.
  unfold A2.LANE_SPEED.
  destruct (l =? 0)%Z eqn:E0; [apply Z.eqb_eq in E0|
  destruct (l =? 1)%Z eqn:E1; [apply Z.eqb_eq in E1|
  destruct (l =? 2)%Z eqn:E2; [apply Z.eqb_eq in E2|discriminate]]];
    intros H; injection H as <-; (split; [lia|]); split; unfold Qle; simpl; lia.
Qed.

(** What one call of [move] does to a vehicle. *)
Lemma a2_move_inv u dt u' :
  A2.move u dt = Ok u' ->
  exists m,
    A2.LANE_SPEED (A2.lane u) = Ok m
    /\ A2.type u' = A2.type u /\ A2.lane u' = A2.lane u
    /\ A2.priority u' = A2.priority u
    /\ A2.speed u' = (if Qltb m (A2.speed u) then m else A2.speed u)
    /\ A2.position u' = A2.position u + A2.speed u' * (dt / 3600).
Proof.
  unfold A2.move, A2.update_speed_by_lane. intros H.
  apply bind_inv in H as (u1 & H1 & H). apply mret_inv in H. subst u'.
  apply bind_inv in H1 as (m & Hm & H1). exists m. split; [exact Hm|].
  destruct (Qltb m (A2.speed u)); apply mret_inv in H1; subst u1; simpl; auto.
Qed.

Lemma a2_move_ok u dt :
  (0 <= A2.lane u <= 2)%Z -> exists u', A2.move u dt = Ok u'.
Proof.
  intros H. destruct (a2_lane_speed_valid _ H) as (m & Hm & _).
  unfold A2.move, A2.update_speed_by_lane. rewrite Hm. simpl.
  destruct (Qltb m (A2.speed u)); simpl; eexists; reflexivity.
Qed.

Lemma a2_clamp_le m s : (if Qltb m s then m else s) <= m.
Proof.
  destruct (Qltb m s) eqn:E; [apply Qle_refl | apply Qltb_ge in E; exact E].
Qed.

Lemma a2_clamp_eq m s : (if Qltb m s then m else s) == Qmin s m.
Proof.
  destruct (Qltb m s) eqn:E.
  - apply Qltb_lt in E. symmetry. apply Q.min_r. apply Qlt_le_weak. exact E.
  - apply Qltb_ge in E. symmetry. apply Q.min_l. exact E.
Qed.

Lemma a2_clamp_idem m s :
  (if Qltb m (if Qltb m s then m else s) then m else (if Qltb m s then m else s))
  = (if Qltb m s then m else s).
Proof.
  destruct (Qltb m s) eqn:E; [|rewrite E; reflexivity].
  replace (Qltb m m) with false; [reflexivity|].
  symmetry. apply Qltb_ge. apply Qle_refl.
Qed.

(** X1: a vehicle of [a2.py] drives at a constant speed.  After one or
    more calls of [move] with the step [dt] its speed is its base speed cut
    to the limit of its lane, and it has advanced by that speed times
    [dt / 3600] at each call; its lane, type and priority are unchanged. *)
Theorem a2_moves_constant_speed (n : nat) (u : A2.Vehicle) (dt : Q) :
  (0 <= A2.lane u <= 2)%Z ->
  exists u' m,
    a2_moves (S n) u dt = Ok u'
    /\ A2.LANE_SPEED (A2.lane u) = Ok m
    /\ A2.speed u' == Qmin (A2.speed u) m
    /\ A2.position u'
       == A2.position u + inject_Z (Z.of_nat (S n)) * (Qmin (A2.speed u) m * (dt / 3600))
    /\ A2.lane u' = A2.lane u /\ A2.type u' = A2.type u
    /\ A2.priority u' = A2.priority u.
Proof.
  revert u. induction n as [|n IH]; intros u Hl.
  - destruct (a2_move_ok u dt Hl) as (u' & Hu').
    destruct (a2_move_inv _ _ _ Hu') as (m & Hm & Ht & Hla & Hp & Hs & Hx).
    exists u', m. simpl. rewrite Hu'. simpl.
    split; [reflexivity|]. split; [exact Hm|].
    assert (Es : A2.speed u' == Qmin (A2.speed u) m)
      by (rewrite Hs; apply a2_clamp_eq).
    split; [exact Es|]. split; [|auto].
    rewrite Hx, Es. ring.
  - destruct (a2_move_ok u dt Hl) as (u1 & Hu1).
    destruct (a2_move_inv _ _ _ Hu1) as (m & Hm & Ht & Hla & Hp & Hs & Hx).
    assert (Hl1 : (0 <= A2.lane u1 <= 2)%Z) by (rewrite Hla; exact Hl).
    destruct (IH u1 Hl1) as (u' & m' & Hr & Hm' & Es' & Ex' & Hla' & Ht' & Hp').
    rewrite Hla, Hm in Hm'. injection Hm' as <-.
    exists u', m.
    change (a2_moves (S (S n)) u dt) with (A2.move u dt ≫= fun u' => a2_moves (S n) u' dt).
    rewrite Hu1. simpl mbind. split; [exact Hr|]. split; [exact Hm|].
    assert (Es : A2.speed u1 == Qmin (A2.speed u) m)
      by (rewrite Hs; apply a2_clamp_eq).
    assert (Em : Qmin (A2.speed u1) m == Qmin (A2.speed u) m).
    { rewrite Es. apply Q.min_l. apply Q.le_min_r. }
    split; [rewrite Es', Em; reflexivity|].
    split; [|repeat split; congruence].
    rewrite Ex', Em, Hx, Es.
    rewrite (Nat2Z.inj_succ (S n)). unfold Z.succ. rewrite inject_Z_plus. ring.
Qed.

Lemma a2_moves_constant_speed_witness :
  exists u' m,
    a2_moves 3 a2_fast_car 1 = Ok u'
    /\ A2.LANE_SPEED (A2.lane a2_fast_car) = Ok m
    /\ A2.speed u' == Qmin (A2.speed a2_fast_car) m
    /\ A2.position u'
       == A2.position a2_fast_car
          + inject_Z (Z.of_nat 3) * (Qmin (A2.speed a2_fast_car) m * (1 / 3600))
    /\ A2.lane u' = A2.lane a2_fast_car /\ A2.type u' = A2.type a2_fast_car
    /\ A2.priority u' = A2.priority a2_fast_car.
Proof.
  apply (a2_moves_constant_speed 2 a2_fast_car 1). simpl. lia.
Defined.

(** ** [a2.py]: the simulator *)

Lemma a2_key_le_total a b : A2.key_le a b = false -> A2.key_le b a = true.
Proof.
  unfold A2.key_le. intros H.
  apply orb_false_iff in H as [H1 H2]. apply Qltb_ge in H1.
  destruct (Qltb (A2.position b) (A2.position a)) eqn:E; [reflexivity|].
  apply Qltb_ge in E. simpl.
  assert (He : A2.position a == A2.position b) by (apply Qle_antisym; assumption).
  assert (Ha : Qeq_bool (A2.position a) (A2.position b) = true)
    by (apply Qeq_bool_iff; exact He).
  assert (Hb : Qeq_bool (A2.position b) (A2.position a) = true)
    by (apply Qeq_bool_iff; symmetry; exact He).
  rewrite Ha in H2. rewrite Hb. simpl in *.
  apply Z.leb_gt in H2. apply Z.leb_le. lia.
Qed.

Lemma a2_key_le_before a b : A2.key_le b a = true -> a2_before a b.
Proof.
  unfold A2.key_le, a2_before. intros H.
  apply orb_true_iff in H as [H|H].
  - left. apply Qltb_lt. exact H.
  - right. apply andb_true_iff in H as [H1 H2].
    split; [apply Qeq_bool_iff; exact H1 | apply Z.leb_le; exact H2].
Qed.

Lemma a2_move_all_ok l dt :
  Forall (fun u => (0 <= A2.lane u <= 2)%Z) l ->
  exists l', A2.move_all l dt = Ok l'.
Proof.
  induction 1 as [|u l Hu _ IH]; simpl; [eexists; reflexivity|].
  destruct (a2_move_ok u dt Hu) as (u' & ->). destruct IH as (l' & ->).
  simpl. eexists. reflexivity.
Qed.

Lemma a2_move_all_inv l dt : forall l',
  A2.move_all l dt = Ok l' -> Forall2 (fun u u' => A2.move u dt = Ok u') l l'.
Proof.
  induction l as [|u l IH]; simpl; intros l' H.
  - apply mret_inv in H. subst. constructor.
  - apply bind_inv in H as (u' & Hu & H). apply bind_inv in H as (r & Hr & H).
    apply mret_inv in H. subst l'. constructor; [exact Hu | apply IH; exact Hr].
Qed.

Lemma a2_sort_vehicles_sorted l : Sorted a2_before (A2.sort_vehicles l).
Proof.
  unfold A2.sort_vehicles.
  eapply Sorted_ind with (P := fun l => Sorted a2_before l);
    [constructor | | apply sort_by_sorted].
  - intros a l0 _ IH Hhd. constructor; [exact IH|].
    destruct Hhd; constructor. apply a2_key_le_before. assumption.
  - intros b c H. apply a2_key_le_total. exact H.
Qed.

(** X2: [update_positions] moves every vehicle once and leaves the list
    ordered by decreasing (position, priority): each vehicle is followed
    by one that is less far, or as far and of no greater priority.  No
    vehicle is added or lost, and the counters of finished vehicles are not
    touched.  (The lanes are those of the road, 0 to 2.) *)
Theorem a2_update_positions_ordered (s : A2.Simulator) (dt : Q) :
  Forall (fun u => (0 <= A2.lane u <= 2)%Z) (A2.vehicles s) ->
  exists s' moved,
    A2.update_positions s dt = Ok s'
    /\ Forall2 (fun u u' => A2.move u dt = Ok u') (A2.vehicles s) moved
    /\ Permutation (A2.vehicles s') moved
    /\ Sorted a2_before (A2.vehicles s')
    /\ A2.finished s' = A2.finished s
    /\ A2.speeds_finished s' = A2.speeds_finished s.
Proof.
  intros H. destruct (a2_move_all_ok _ dt H) as (moved & Hm).
  unfold A2.update_positions. rewrite Hm. simpl.
  eexists. exists moved. split; [reflexivity|]. simpl.
  split; [apply a2_move_all_inv; exact Hm|].
  split; [apply sort_by_perm|].
  split; [apply a2_sort_vehicles_sorted|]. auto.
Qed.

Lemma a2_update_positions_ordered_witness :
  exists s' moved,
    A2.update_positions a2_two_on_road 1 = Ok s'
    /\ Forall2 (fun u u' => A2.move u 1 = Ok u') (A2.vehicles a2_two_on_road) moved
    /\ Permutation (A2.vehicles s') moved
    /\ Sorted a2_before (A2.vehicles s')
    /\ A2.finished s' = A2.finished a2_two_on_road
    /\ A2.speeds_finished s' = A2.speeds_finished a2_two_on_road.
Proof.
  apply (a2_update_positions_ordered a2_two_on_road 1).
  repeat constructor; simpl; lia.
Defined.

Lemma get_set_type {A} (ty ty' : VType) (a : A) (d : ByType A) :
  get_type ty (set_type ty' a d) = if bool_decide (ty' = ty) then a else get_type ty d.
Proof. destruct ty, ty'; reflexivity. Qed.

(** The loop of [remove_finished], from any point of the list. *)
Lemma a2_retire_fold l : forall acc,
  A2.vehicles (fold_left A2.retire l acc)
  = A2.vehicles acc ++ List.filter (fun u => negb (a2_arrived u)) l
  /\ forall ty,
       get_type ty (A2.speeds_finished (fold_left A2.retire l acc))
       = get_type ty (A2.speeds_finished acc)
         ++ map A2.speed
              (List.filter (fun u => a2_arrived u && bool_decide (A2.type u = ty)) l)
       /\ get_type ty (A2.finished (fold_left A2.retire l acc))
          = (get_type ty (A2.finished acc)
             + length (List.filter
                         (fun u => a2_arrived u && bool_decide (A2.type u = ty)) l))%nat.
Proof.
  induction l as [|u l IH]; intros acc; simpl.
  - split; [rewrite app_nil_r; reflexivity|].
    intros ty. rewrite app_nil_r. split; [reflexivity | lia].
  - destruct (IH (A2.retire acc u)) as [Hv Hf]. rewrite Hv.
    unfold A2.retire, a2_arrived in *.
    destruct (Qle_bool A2.ROAD_LENGTH (A2.position u)) eqn:E; simpl.
    + split; [reflexivity|]. intros ty. destruct (Hf ty) as [H1 H2].
      rewrite H1, H2. simpl. rewrite !get_set_type.
      destruct (bool_decide (A2.type u = ty)) eqn:Et; simpl.
      * apply bool_decide_eq_true in Et. subst ty.
        split; [rewrite <- app_assoc; reflexivity | lia].
      * split; reflexivity.
    + split; [rewrite <- app_assoc; reflexivity|].
      intros ty. destruct (Hf ty) as [H1 H2]. rewrite H1, H2. split; reflexivity.
Qed.

(** X3: [remove_finished] splits the list of vehicles at the end of the
    road (60 km): the vehicles that have not reached it stay, in their
    order; for each type, the counter of finished vehicles grows by the
    number of vehicles of the type that have reached it, and their speeds
    are appended, in their order, to the list of finished speeds. *)
Theorem a2_remove_finished_partition (s : A2.Simulator) :
  A2.vehicles (A2.remove_finished s)
  = List.filter (fun u => negb (a2_arrived u)) (A2.vehicles s)
  /\ forall ty,
       get_type ty (A2.speeds_finished (A2.remove_finished s))
       = get_type ty (A2.speeds_finished s)
         ++ map A2.speed
              (List.filter (fun u => a2_arrived u && bool_decide (A2.type u = ty))
                 (A2.vehicles s))
       /\ get_type ty (A2.finished (A2.remove_finished s))
          = (get_type ty (A2.finished s)
             + length (List.filter
                         (fun u => a2_arrived u && bool_decide (A2.type u = ty))
                         (A2.vehicles s)))%nat.
Proof.
  unfold A2.remove_finished.
  destruct (a2_retire_fold (A2.vehicles s)
              (A2.mkSimulator [] (A2.finished s) (A2.speeds_finished s))) as [Hv Hf].
  split; [exact Hv | exact Hf].
Qed.

Lemma py_get_ok {A} (l : list A) (i : Z) :
  (0 <= i < Z.of_nat (length l))%Z ->
  exists a, py_get l i = Ok a /\ l !! Z.to_nat i = Some a.
Proof.
  intros H. unfold py_get. rewrite py_index_nonneg by lia.
  replace (_ && _)%bool with true
    by (symmetry; apply andb_true_iff; split; [apply Z.leb_le | apply Z.ltb_lt]; lia).
  destruct (l !! Z.to_nat i) eqn:E; [eauto|].
  apply lookup_ge_None in E. lia.
Qed.

Lemma py_int_nonneg q : 0 <= q -> (0 <= py_int q)%Z.
Proof.
  intros H. unfold py_int. apply Z.quot_pos; [|lia].
  unfold Qle in H. simpl in H. lia.
Qed.

(** *** The draws *)

Lemma a2_oracle_random r :
  a2_oracle r ->
  0 <= fst (next_random r) /\ fst (next_random r) < 1 /\ a2_oracle (snd (next_random r)).
Proof.
  intros [H1 H2]. unfold next_random.
  destruct (randoms r) as [|u us] eqn:E; simpl.
  - split; [unfold Qle; simpl; lia|]. split; [reflexivity|].
    split; [rewrite E; constructor | exact H2].
  - apply Forall_cons in H1 as [[Ha Hb] Hus]. repeat split; assumption.
Qed.

Lemma a2_oracle_choice r : a2_oracle r -> a2_oracle (snd (next_choice r)).
Proof.
  intros H. unfold next_choice. destruct (choices r); [exact H|].
  destruct H. split; assumption.
Qed.

Lemma a2_oracle_randint r :
  a2_oracle r ->
  (0 <= fst (next_randint r 0) <= 2)%Z /\ a2_oracle (snd (next_randint r 0)).
Proof.
  intros [H1 H2]. unfold next_randint.
  destruct (randints r) as [|n ns] eqn:E; simpl.
  - split; [lia|]. split; [exact H1 | rewrite E; constructor].
  - apply Forall_cons in H2 as [Hn Hns]. split; [exact Hn|]. split; assumption.
Qed.

Lemma a2_base_speed_order ty : fst (A2.base_speed ty) <= snd (A2.base_speed ty).
Proof. destruct ty; unfold Qle; simpl; lia. Qed.

Lemma a2_uniform_range a b r :
  a <= b -> a2_oracle r ->
  a <= fst (A2.uniform a b r) /\ fst (A2.uniform a b r) <= b
  /\ a2_oracle (snd (A2.uniform a b r)).
Proof.
  intros Hab Hr. unfold A2.uniform.
  destruct (a2_oracle_random r Hr) as (H0 & H1 & Hr').
  destruct (next_random r) as [u r']. simpl in *.
  split; [|split; [|exact Hr']]; nra.
Qed.

(** A vehicle that [spawn_vehicles] creates is a vehicle of the road, at
    its start, with the base speed of its type. *)
Lemma a2_spawn_spec s r :
  a2_oracle r ->
  a2_oracle (snd (A2.spawn_vehicles s r))
  /\ A2.finished (fst (A2.spawn_vehicles s r)) = A2.finished s
  /\ A2.speeds_finished (fst (A2.spawn_vehicles s r)) = A2.speeds_finished s
  /\ (A2.vehicles (fst (A2.spawn_vehicles s r)) = A2.vehicles s
      \/ exists u,
           A2.vehicles (fst (A2.spawn_vehicles s r)) = A2.vehicles s ++ [u]
           /\ (0 <= A2.lane u <= 2)%Z /\ A2.position u = 0
           /\ fst (A2.base_speed (A2.type u)) <= A2.speed u
           /\ A2.speed u <= snd (A2.base_speed (A2.type u))).
Proof.
  intros Hr. unfold A2.spawn_vehicles.
  destruct (a2_oracle_random r Hr) as (_ & _ & Hr1).
  destruct (next_random r) as [u r1]. simpl in Hr1.
  destruct (Qltb u 0.3); [|simpl; auto].
  pose proof (a2_oracle_choice r1 Hr1) as Hr2.
  destruct (next_choice r1) as [ty r2]. simpl in Hr2.
  destruct (a2_oracle_randint r2 Hr2) as (Hl & Hr3).
  destruct (next_randint r2 0) as [l r3]. simpl in Hl, Hr3.
  unfold A2.new_vehicle.
  destruct (a2_uniform_range _ _ r3 (a2_base_speed_order ty) Hr3) as (Ha & Hb & Hr4).
  destruct (A2.uniform _ _ r3) as [sp r4]. simpl in *.
  split; [exact Hr4|]. split; [reflexivity|]. split; [reflexivity|].
  right. eexists. split; [reflexivity|]. simpl. auto.
Qed.

(** *** One iteration *)

Lemma a2_move_vehicle_ok k u :
  a2_vehicle_ok k u ->
  exists u',
    A2.move u 1 = Ok u' /\ a2_vehicle_ok (k + 1) u'
    /\ A2.speed u' <= snd (a2_speed_bounds (A2.type u')).
Proof.
  intros (Hl & Hx0 & Hxk & Hlo & Hhi).
  destruct (a2_move_ok u 1 Hl) as (u' & Hu'). exists u'. split; [exact Hu'|].
  destruct (a2_move_inv _ _ _ Hu') as (m & Hm & Ht & Hla & Hp & Hs & Hx).
  apply a2_lane_speed_inv in Hm as (_ & Hm1 & Hm2).
  assert (Hc1 : A2.speed u' <= m) by (rewrite Hs; apply a2_clamp_le).
  assert (Hc2 : A2.speed u' <= A2.speed u).
  { rewrite Hs. destruct (Qltb m (A2.speed u)) eqn:E; [|apply Qle_refl].
    apply Qltb_lt in E. apply Qlt_le_weak. exact E. }
  assert (Hc3 : fst (a2_speed_bounds (A2.type u)) <= A2.speed u').
  { rewrite Hs. destruct (Qltb m (A2.speed u)); [|exact Hlo].
    eapply Qle_trans; [|exact Hm1]. destruct (A2.type u); unfold Qle; simpl; lia. }
  assert (Hc4 : 70 <= A2.speed u').
  { eapply Qle_trans; [|exact Hc3]. destruct (A2.type u); unfold Qle; simpl; lia. }
  assert (Ec : 1 / 3600 == 1 # 3600) by reflexivity.
  unfold a2_vehicle_ok. rewrite Ht, Hla, Hx, Ec.
  rewrite inject_Z_plus.
  split; [split; [exact Hl|]|].
  - split; [|split; [|split; [exact Hc3|]]].
    + change (inject_Z 1) with 1. lra.
    + change (inject_Z 1) with 1. lra.
    + eapply Qle_trans; [exact Hc2 | exact Hhi].
  - destruct (A2.type u); simpl in *; lra.
Qed.

Lemma a2_plot_ok road u :
  a2_road_shape road -> (0 <= A2.lane u <= 2)%Z -> 0 <= A2.position u ->
  exists road', A2.plot road u = Ok road' /\ a2_road_shape road'.
Proof.
  intros [Hn Hrows] Hl Hx. unfold A2.plot.
  destruct (py_get_ok road (A2.lane u)) as (row & Hrow & Hlk); [lia|].
  rewrite Hrow. simpl.
  assert (Hlen : length row = 60%nat).
  { rewrite Forall_forall in Hrows. apply Hrows.
    eapply list_elem_of_lookup_2. exact Hlk. }
  pose proof (py_int_nonneg _ Hx) as Hp.
  destruct (py_get_ok row (Z.min (py_int (A2.position u)) 59)) as (c & Hc & _); [lia|].
  rewrite Hc. simpl. eexists. split; [reflexivity|].
  split; [rewrite py_set_length; exact Hn|].
  unfold py_set at 1. apply Forall_insert; [exact Hrows|].
  rewrite py_set_length. exact Hlen.
Qed.

Lemma a2_plot_all_ok l : forall road,
  a2_road_shape road ->
  Forall (fun u => (0 <= A2.lane u <= 2)%Z /\ 0 <= A2.position u) l ->
  exists road', A2.plot_all road l = Ok road' /\ a2_road_shape road'.
Proof.
  induction l as [|u l IH]; intros road Hs Hl; simpl.
  - eexists. split; [reflexivity | exact Hs].
  - apply Forall_cons in Hl as [[Hu1 Hu2] Hl].
    destruct (a2_plot_ok road u Hs Hu1 Hu2) as (road1 & -> & Hs1). simpl.
    apply IH; assumption.
Qed.

Lemma a2_display_ok s :
  Forall (fun u => (0 <= A2.lane u <= 2)%Z /\ 0 <= A2.position u) (A2.vehicles s) ->
  exists scr, A2.display s = Ok scr.
Proof.
  intros H. unfold A2.display.
  destruct (a2_plot_all_ok (A2.vehicles s) (replicate 3 (replicate 60 A2.Free)))
    as (road & -> & _); [|exact H|simpl; eexists; reflexivity].
  split; [reflexivity|]. repeat constructor.
Qed.

Lemma a2_move_all_vehicles_ok k l :
  Forall (a2_vehicle_ok k) l ->
  exists l',
    A2.move_all l 1 = Ok l'
    /\ Forall (fun u => a2_vehicle_ok (k + 1) u
                        /\ A2.speed u <= snd (a2_speed_bounds (A2.type u))) l'.
Proof.
  induction 1 as [|u l Hu _ IH]; simpl.
  - eexists. split; [reflexivity | constructor].
  - destruct (a2_move_vehicle_ok k u Hu) as (u' & -> & Hu').
    destruct IH as (l' & -> & Hl'). simpl.
    eexists. split; [reflexivity|]. constructor; assumption.
Qed.

Lemma a2_early_not_arrived k u :
  (k < 1800)%Z -> a2_vehicle_ok k u -> a2_arrived u = false.
Proof.
  intros Hk (_ & _ & Hx & _). unfold a2_arrived.
  destruct (Qle_bool A2.ROAD_LENGTH (A2.position u)) eqn:E; [|reflexivity].
  apply Qle_bool_iff in E. unfold A2.ROAD_LENGTH in E.
  assert (Hq : inject_Z k <= 1799).
  { change 1799 with (inject_Z 1799). rewrite <- Zle_Qle. lia. }
  lra.
Qed.

Lemma filter_nil_all {A} (f : A -> bool) (l : list A) :
  (forall x, In x l -> f x = false) -> List.filter f l = [].
Proof.
  induction l as [|a l IH]; intros H; simpl; [reflexivity|].
  rewrite (H a) by (left; reflexivity). apply IH.
  intros x Hx. apply H. right. exact Hx.
Qed.

(** An iteration of [run] succeeds and keeps what holds at the test of
    the [while]. *)
Lemma a2_step_inv st :
  a2_inv st ->
  exists st',
    A2.step st = Ok st' /\ a2_inv st' /\ A2.elapsed st' = (A2.elapsed st + 1)%Z.
Proof.
  intros (Hk & Hr & Hv & Hcnt & Hsp & Hearly & Hscr).
  unfold A2.step.
  destruct (a2_spawn_spec (A2.sim st) (A2.rng st) Hr) as (Hr1 & Hf1 & Hs1 & Hv1).
  destruct (A2.spawn_vehicles (A2.sim st) (A2.rng st)) as [s1 r1]. simpl in *.
  assert (Hok1 : Forall (a2_vehicle_ok (A2.elapsed st)) (A2.vehicles s1)).
  { assert (Hold : Forall (a2_vehicle_ok (A2.elapsed st)) (A2.vehicles (A2.sim st))).
    { eapply Forall_impl; [exact Hv|]. intros u [H _]. exact H. }
    destruct Hv1 as [-> | (u & -> & Hl & Hx & Ha & Hb)]; [exact Hold|].
    apply Forall_app. split; [exact Hold|]. constructor; [|constructor].
    unfold a2_vehicle_ok. rewrite Hx.
    split; [exact Hl|]. split; [apply Qle_refl|].
    split.
    { assert (0 <= inject_Z (A2.elapsed st))
        by (change 0 with (inject_Z 0); rewrite <- Zle_Qle; exact Hk).
      lra. }
    split; [|exact Hb].
    eapply Qle_trans; [|exact Ha]. destruct (A2.type u); unfold Qle; simpl; lia. }
  destruct (a2_move_all_vehicles_ok _ _ Hok1) as (moved & Hm & Hmoved).
  unfold A2.update_positions. rewrite Hm. simpl.
  set (s2 := A2.mkSimulator (A2.sort_vehicles moved) (A2.finished s1)
               (A2.speeds_finished s1)).
  assert (Hsorted : Forall (fun u => a2_vehicle_ok (A2.elapsed st + 1) u
                       /\ A2.speed u <= snd (a2_speed_bounds (A2.type u)))
                      (A2.sort_vehicles moved)).
  { eapply Permutation_Forall; [|exact Hmoved].
    symmetry. apply sort_by_perm. }
  destruct (a2_retire_fold (A2.vehicles s2)
              (A2.mkSimulator [] (A2.finished s2) (A2.speeds_finished s2)))
    as [Hrv Hrf].
  fold (A2.remove_finished s2) in Hrv, Hrf. simpl in Hrv, Hrf.
  assert (Hkeep : Forall (fun u => a2_vehicle_ok (A2.elapsed st + 1) u
                                   /\ A2.position u < A2.ROAD_LENGTH)
                    (A2.vehicles (A2.remove_finished s2))).
  { rewrite Hrv. apply List.Forall_forall. intros u Hu.
    apply filter_In in Hu as [Hu Ha].
    rewrite List.Forall_forall in Hsorted. destruct (Hsorted u Hu) as [Hu1 _].
    split; [exact Hu1|].
    unfold a2_arrived in Ha. apply negb_true_iff in Ha.
    apply Qnot_le_lt. intros Hc. apply Qle_bool_iff in Hc. congruence. }
  destruct (a2_display_ok (A2.remove_finished s2)) as (scr & Hscr').
  { eapply Forall_impl; [exact Hkeep|].
    intros u [(Hl & Hx & _) _]. split; assumption. }
  rewrite Hscr'. simpl. eexists. split; [reflexivity|].
  split; [|reflexivity].
  unfold a2_inv. simpl.
  split; [lia|]. split; [exact Hr1|]. split; [exact Hkeep|].
  split; [|split; [|split]].
  - intros ty. destruct (Hrf ty) as [H1 H2]. rewrite H1, H2.
    rewrite length_app, length_map, Hf1, Hs1, Hcnt. reflexivity.
  - intros ty sp Hin. destruct (Hrf ty) as [H1 _]. rewrite H1 in Hin.
    apply in_app_or in Hin as [Hin|Hin].
    + apply Hsp. rewrite <- Hs1. exact Hin.
    + apply in_map_iff in Hin as (u & <- & Hu).
      apply filter_In in Hu as [Hu Ha].
      apply andb_true_iff in Ha as [_ Ht]. apply bool_decide_eq_true in Ht. subst ty.
      rewrite List.Forall_forall in Hsorted.
      destruct (Hsorted u Hu) as [(_ & _ & _ & Hlo & _) Hhi]. split; assumption.
  - intros Hlt ty. destruct (Hrf ty) as [_ H2]. rewrite H2, Hf1.
    rewrite Hearly by lia.
    replace (List.filter _ (A2.sort_vehicles moved)) with (@nil A2.Vehicle);
      [reflexivity|].
    symmetry. apply filter_nil_all. intros u Hu.
    rewrite List.Forall_forall in Hsorted. destruct (Hsorted u Hu) as [Hu1 _].
    rewrite (a2_early_not_arrived _ _ Hlt Hu1). reflexivity.
  - rewrite length_app, Hscr. simpl. lia.
Qed.

Lemma a2_init_inv r : a2_oracle r -> a2_inv (A2.init r).
Proof.
  intros Hr. unfold a2_inv, A2.init. simpl.
  split; [lia|]. split; [exact Hr|]. split; [constructor|].
  split; [intros []; reflexivity|].
  split; [intros [] sp []|].
  split; [intros _ []; reflexivity | reflexivity].
Qed.

(** The loop of [run]: it cannot fail, and it goes round until the fuel
    or the two hours are used up. *)
Lemma a2_loop_inv fuel : forall st,
  a2_inv st -> (A2.elapsed st <= 7200)%Z ->
  exists st',
    A2.loop fuel st = Ok st' /\ a2_inv st'
    /\ A2.elapsed st' = Z.min (A2.elapsed st + Z.of_nat fuel) 7200.
Proof.
  induction fuel as [|fuel IH]; intros st Hinv Hle.
  - exists st. simpl. split; [reflexivity|]. split; [exact Hinv | lia].
  - cbn [A2.loop]. change (A2.TIME_LIMIT * 3600)%Z with 7200%Z.
    destruct (A2.elapsed st <? 7200)%Z eqn:E.
    + apply Z.ltb_lt in E.
      destruct (a2_step_inv st Hinv) as (st1 & -> & Hinv1 & He1). simpl.
      destruct (IH st1 Hinv1) as (st' & Hl & Hinv' & He'); [lia|].
      exists st'. split; [exact Hl|]. split; [exact Hinv'|]. lia.
    + apply Z.ltb_ge in E. exists st. split; [reflexivity|].
      split; [exact Hinv | lia].
Qed.

Lemma Qsum_bounds lo hi l :
  (forall x, In x l -> lo <= x /\ x <= hi) ->
  inject_Z (Z.of_nat (length l)) * lo <= Qsum l
  /\ Qsum l <= inject_Z (Z.of_nat (length l)) * hi.
Proof.
  induction l as [|a l IH]; intros H.
  - change (Qsum []) with 0. change (inject_Z (Z.of_nat (length (@nil Q)))) with 0.
    split; lra.
  - destruct (H a (or_introl eq_refl)) as [Ha1 Ha2].
    destruct IH as [I1 I2]; [intros x Hx; apply H; right; exact Hx|].
    rewrite Qsum_cons. cbn [length]. rewrite Nat2Z.inj_succ. unfold Z.succ.
    rewrite inject_Z_plus. change (inject_Z 1) with 1. split; lra.
Qed.

Lemma Qmean_bounds lo hi l :
  l <> [] -> (forall x, In x l -> lo <= x /\ x <= hi) ->
  lo <= Qsum l / inject_Z (Z.of_nat (length l))
  /\ Qsum l / inject_Z (Z.of_nat (length l)) <= hi.
Proof.
  intros Hne H. destruct (Qsum_bounds lo hi l H) as [H1 H2].
  assert (Hn : 0 < inject_Z (Z.of_nat (length l))).
  { change 0 with (inject_Z 0). rewrite <- Zlt_Qlt.
    destruct l; [congruence | simpl; lia]. }
  split.
  - apply Qle_shift_div_l; [exact Hn|]. rewrite Qmult_comm. exact H1.
  - apply Qle_shift_div_r; [exact Hn|]. rewrite Qmult_comm. exact H2.
Qed.

(** X4: [A2Simulator.run] cannot fail, whatever [random] returns: every
    iteration succeeds, and the loop stops after 7200 iterations (two
    simulated hours), having displayed the road once per iteration. *)
Theorem a2_run_completes (fuel : nat) (r : Rng) :
  a2_oracle r ->
  exists st,
    A2.loop fuel (A2.init r) = Ok st
    /\ A2.elapsed st = Z.min (Z.of_nat fuel) 7200
    /\ length (A2.screens st) = Z.to_nat (A2.elapsed st)
    /\ A2.loop (S fuel) (A2.init r)
       = (if (7200 <=? Z.of_nat fuel)%Z then Ok st else A2.step st).
Proof.
  intros Hr.
  destruct (a2_loop_inv fuel (A2.init r) (a2_init_inv r Hr)) as (st & Hl & Hinv & He);
    [simpl; lia|].
  simpl in He. exists st. split; [exact Hl|]. split; [exact He|].
  split; [apply Hinv|].
  clear Hinv. revert Hl He. generalize (A2.init r) as st0.
  assert (G : forall n st0 st1,
             A2.loop n st0 = Ok st1 ->
             A2.loop (S n) st0
             = (if (A2.elapsed st1 <? 7200)%Z then A2.step st1 else Ok st1)).
  { induction n as [|n IH]; intros st0 st1 H.
    - simpl in H. injection H as ->. cbn [A2.loop].
      change (A2.TIME_LIMIT * 3600)%Z with 7200%Z.
      destruct (A2.elapsed st1 <? 7200)%Z; [|reflexivity].
      destruct (A2.step st1); reflexivity.
    - cbn [A2.loop] in H |- *. change (A2.TIME_LIMIT * 3600)%Z with 7200%Z in *.
      destruct (A2.elapsed st0 <? 7200)%Z eqn:E.
      + apply bind_inv in H as (st2 & H2 & H). rewrite H2. simpl.
        apply (IH st2 st1) in H. cbn [A2.loop] in H.
        change (A2.TIME_LIMIT * 3600)%Z with 7200%Z in H. exact H.
      + injection H as ->. rewrite E. reflexivity. }
  intros st0 Hl He. rewrite (G _ _ _ Hl).
  destruct (7200 <=? Z.of_nat fuel)%Z eqn:E1.
  - apply Z.leb_le in E1. replace (A2.elapsed st <? 7200)%Z with false; [reflexivity|].
    symmetry. apply Z.ltb_ge. lia.
  - apply Z.leb_gt in E1. replace (A2.elapsed st <? 7200)%Z with true; [reflexivity|].
    symmetry. apply Z.ltb_lt. lia.
Qed.

Lemma a2_draws_oracle : a2_oracle a2_draws.
Proof.
  split; repeat constructor; try (unfold Qle; simpl; lia);
    try (unfold Qlt; simpl; lia); simpl; lia.
Qed.

Lemma a2_run_completes_witness :
  exists st,
    A2.loop 4 (A2.init a2_draws) = Ok st
    /\ A2.elapsed st = Z.min (Z.of_nat 4) 7200
    /\ length (A2.screens st) = Z.to_nat (A2.elapsed st)
    /\ A2.loop 5 (A2.init a2_draws)
       = (if (7200 <=? Z.of_nat 4)%Z then Ok st else A2.step st).
Proof.
  apply (a2_run_completes 4 a2_draws).
  split; repeat constructor; try (unfold Qle; simpl; lia);
    try (unfold Qlt; simpl; lia); simpl; lia.
Defined.

(** X5: at every point of a run of [a2.py], the counter of finished
    vehicles of a type equals the number of speeds recorded for the type:
    the mean speed printed at the end is taken over all the finished
    vehicles of the type, and it is the figure 0 exactly when none has
    finished. *)
Theorem a2_finished_counts_match (fuel : nat) (r : Rng) (st : A2.State) (ty : VType) :
  a2_oracle r ->
  A2.loop fuel (A2.init r) = Ok st ->
  get_type ty (A2.finished (A2.sim st))
  = length (get_type ty (A2.speeds_finished (A2.sim st)))
  /\ (get_type ty (A2.finished (A2.sim st)) = O -> A2.report (A2.sim st) ty = (O, 0))
  /\ (get_type ty (A2.finished (A2.sim st)) <> O ->
      A2.report (A2.sim st) ty
      = (get_type ty (A2.finished (A2.sim st)),
         Qsum (get_type ty (A2.speeds_finished (A2.sim st)))
         / inject_Z (Z.of_nat (get_type ty (A2.finished (A2.sim st)))))).
Proof.
  intros Hr Hl.
  destruct (a2_loop_inv fuel (A2.init r) (a2_init_inv r Hr)) as (st' & Hl' & Hinv & _);
    [simpl; lia|].
  rewrite Hl in Hl'. injection Hl' as <-.
  destruct Hinv as (_ & _ & _ & Hcnt & _).
  split; [apply Hcnt|]. unfold A2.report. rewrite (Hcnt ty).
  destruct (get_type ty (A2.speeds_finished (A2.sim st))); simpl.
  - split; [reflexivity | congruence].
  - split; [discriminate | reflexivity].
Qed.

Lemma a2_finished_counts_match_witness :
  get_type car (A2.finished (A2.sim (reached (A2.init a2_draws)
                                        (A2.loop 4 (A2.init a2_draws)))))
  = length (get_type car (A2.speeds_finished
                            (A2.sim (reached (A2.init a2_draws)
                                       (A2.loop 4 (A2.init a2_draws)))))).
Proof.
  refine (proj1 (a2_finished_counts_match 4 a2_draws _ car _ _)).
  - split; repeat constructor; try (unfold Qle; simpl; lia);
      try (unfold Qlt; simpl; lia); simpl; lia.
  - vm_compute. reflexivity.
Defined.

(** X6: every speed recorded for a finished vehicle of [a2.py] lies
    within the bounds of its type once the lane limits are applied (trucks
    70 to 90 km/h, cars 80 to 120, ambulances 90 to 120), and so does the
    mean speed printed for a type of which a vehicle has finished: no
    printed mean exceeds 120 km/h, although ambulances are created with up
    to 140 km/h. *)
Theorem a2_finished_speeds_bounded (fuel : nat) (r : Rng) (st : A2.State) (ty : VType) :
  a2_oracle r ->
  A2.loop fuel (A2.init r) = Ok st ->
  (forall sp, In sp (get_type ty (A2.speeds_finished (A2.sim st))) ->
              fst (a2_speed_bounds ty) <= sp /\ sp <= snd (a2_speed_bounds ty))
  /\ (get_type ty (A2.finished (A2.sim st)) <> O ->
      fst (a2_speed_bounds ty) <= snd (A2.report (A2.sim st) ty)
      /\ snd (A2.report (A2.sim st) ty) <= snd (a2_speed_bounds ty)).
Proof.
  intros Hr Hl.
  destruct (a2_loop_inv fuel (A2.init r) (a2_init_inv r Hr)) as (st' & Hl' & Hinv & _);
    [simpl; lia|].
  rewrite Hl in Hl'. injection Hl' as <-.
  destruct Hinv as (_ & _ & _ & Hcnt & Hsp & _).
  split; [apply Hsp|]. intros Hne. rewrite (Hcnt ty) in Hne.
  unfold A2.report. simpl.
  destruct (get_type ty (A2.speeds_finished (A2.sim st))) as [|a l] eqn:E;
    [simpl in Hne; congruence|].
  apply Qmean_bounds; [discriminate|]. intros x Hx. apply Hsp. rewrite E. exact Hx.
Qed.

Lemma a2_finished_speeds_bounded_witness :
  (forall sp,
      In sp (get_type ambulance
               (A2.speeds_finished (A2.sim (reached (A2.init a2_draws)
                                              (A2.loop 4 (A2.init a2_draws)))))) ->
      fst (a2_speed_bounds ambulance) <= sp /\ sp <= snd (a2_speed_bounds ambulance))
  /\ (get_type ambulance
        (A2.finished (A2.sim (reached (A2.init a2_draws)
                                (A2.loop 4 (A2.init a2_draws))))) <> O ->
      fst (a2_speed_bounds ambulance)
      <= snd (A2.report (A2.sim (reached (A2.init a2_draws)
                                   (A2.loop 4 (A2.init a2_draws)))) ambulance)
      /\ snd (A2.report (A2.sim (reached (A2.init a2_draws)
                                   (A2.loop 4 (A2.init a2_draws)))) ambulance)
         <= snd (a2_speed_bounds ambulance)).
Proof.
  refine (a2_finished_speeds_bounded 4 a2_draws _ ambulance _ _).
  - split; repeat constructor; try (unfold Qle; simpl; lia);
      try (unfold Qlt; simpl; lia); simpl; lia.
  - vm_compute. reflexivity.
Defined.

(** X7: no vehicle of [a2.py] finishes during the first 1799 iterations
    of [run]: until then every counter of finished vehicles is zero and
    every list of their speeds is empty.  (A vehicle drives at 120 km/h at
    most, one second per iteration, and the road is 60 km long.) *)
Theorem a2_nothing_finishes_early (fuel : nat) (r : Rng) (st : A2.State) (ty : VType) :
  a2_oracle r ->
  (fuel < 1800)%nat ->
  A2.loop fuel (A2.init r) = Ok st ->
  get_type ty (A2.finished (A2.sim st)) = O
  /\ get_type ty (A2.speeds_finished (A2.sim st)) = [].
Proof.
  intros Hr Hf Hl.
  destruct (a2_loop_inv fuel (A2.init r) (a2_init_inv r Hr)) as (st' & Hl' & Hinv & He);
    [simpl; lia|].
  rewrite Hl in Hl'. injection Hl' as <-. simpl in He.
  destruct Hinv as (_ & _ & Hv & Hcnt & _ & Hearly & _).
  assert (H0 : get_type ty (A2.finished (A2.sim st)) = O) by (apply Hearly; lia).
  split; [exact H0|].
  rewrite Hcnt in H0. apply length_zero_iff_nil in H0. exact H0.
Qed.

Lemma a2_nothing_finishes_early_witness :
  get_type car (A2.finished (A2.sim (reached (A2.init a2_draws)
                                        (A2.loop 60 (A2.init a2_draws))))) = O
  /\ get_type car (A2.speeds_finished
                     (A2.sim (reached (A2.init a2_draws)
                                (A2.loop 60 (A2.init a2_draws))))) = [].
Proof.
  refine (a2_nothing_finishes_early 60 a2_draws _ car _ _ _).
  - split; repeat constructor; try (unfold Qle; simpl; lia);
      try (unfold Qlt; simpl; lia); simpl; lia.
  - lia.
  - vm_compute. reflexivity.
Defined.

(** ** The highway operations shared by [trafico.py], [atascos.py] and
    [traff.py] *)

Lemma fold_min_spec {A} (key : A -> Q) (l : list A) : forall a,
  let m := fold_left (fun best c => if Qltb (key c) (key best) then c else best) l a in
  (m = a \/ In m l) /\ key m <= key a /\ forall c, In c l -> key m <= key c.
Proof.
  induction l as [|b l IH]; intros a; simpl.
  - split; [left; reflexivity|]. split; [apply Qle_refl | intros c []].
  - destruct (Qltb (key b) (key a)) eqn:E.
    + apply Qltb_lt in E. destruct (IH b) as (H1 & H2 & H3).
      split; [destruct H1 as [->|H1]; auto|].
      split; [eapply Qle_trans; [exact H2 | apply Qlt_le_weak; exact E]|].
      intros c [<-|Hc]; [exact H2 | apply H3; exact Hc].
    + apply Qltb_ge in E. destruct (IH a) as (H1 & H2 & H3).
      split; [destruct H1 as [->|H1]; auto|].
      split; [exact H2|].
      intros c [<-|Hc]; [eapply Qle_trans; eassumption | apply H3; exact Hc].
Qed.

Lemma fold_max_spec {A} (key : A -> Q) (l : list A) : forall a,
  let m := fold_left (fun best c => if Qltb (key best) (key c) then c else best) l a in
  (m = a \/ In m l) /\ key a <= key m /\ forall c, In c l -> key c <= key m.
Proof.
  induction l as [|b l IH]; intros a; simpl.
  - split; [left; reflexivity|]. split; [apply Qle_refl | intros c []].
  - destruct (Qltb (key a) (key b)) eqn:E.
    + apply Qltb_lt in E. destruct (IH b) as (H1 & H2 & H3).
      split; [destruct H1 as [->|H1]; auto|].
      split; [eapply Qle_trans; [apply Qlt_le_weak; exact E | exact H2]|].
      intros c [<-|Hc]; [exact H2 | apply H3; exact Hc].
    + apply Qltb_ge in E. destruct (IH a) as (H1 & H2 & H3).
      split; [destruct H1 as [->|H1]; auto|].
      split; [exact H2|].
      intros c [<-|Hc]; [eapply Qle_trans; eassumption | apply H3; exact Hc].
Qed.

(** [min(l, key=key)] is an element of [l] of least key, and [None]
    stands for the empty list only. *)
Lemma py_min_by_spec {A} (key : A -> Q) (l : list A) :
  match py_min_by key l with
  | Some m => In m l /\ forall c, In c l -> key m <= key c
  | None => l = []
  end.
Proof.
  destruct l as [|a l]; simpl; [reflexivity|].
  destruct (fold_min_spec key l a) as (H1 & H2 & H3).
  split; [destruct H1 as [->|H1]; auto|].
  intros c [<-|Hc]; [exact H2 | apply H3; exact Hc].
Qed.

Lemma py_max_by_spec {A} (key : A -> Q) (l : list A) :
  match py_max_by key l with
  | Some m => In m l /\ forall c, In c l -> key c <= key m
  | None => l = []
  end.
Proof.
  destruct l as [|a l]; simpl; [reflexivity|].
  destruct (fold_max_spec key l a) as (H1 & H2 & H3).
  split; [destruct H1 as [->|H1]; auto|].
  intros c [<-|Hc]; [exact H2 | apply H3; exact Hc].
Qed.

Lemma nearest_ahead_spec w veh lane_list :
  match nearest_ahead w veh lane_list with
  | Some j => In j lane_list /\ x veh < x_of w j
              /\ forall k, In k lane_list -> x veh < x_of w k -> x_of w j <= x_of w k
  | None => forall k, In k lane_list -> x_of w k <= x veh
  end.
Proof.
  unfold nearest_ahead.
  pose proof (py_min_by_spec (x_of w)
                (List.filter (fun j => Qltb (x veh) (x_of w j)) lane_list)) as S.
  destruct (py_min_by _ _) as [j|].
  - destruct S as [Hj Hmin]. apply filter_In in Hj as [Hj Hx].
    apply Qltb_lt in Hx. repeat split; [exact Hj | exact Hx|].
    intros k Hk Hxk. apply Hmin. apply filter_In. split; [exact Hk|].
    apply Qltb_lt. exact Hxk.
  - intros k Hk. apply Qltb_ge.
    destruct (Qltb (x veh) (x_of w k)) eqn:E; [|reflexivity].
    assert (Hin : In k (List.filter (fun j => Qltb (x veh) (x_of w j)) lane_list))
      by (apply filter_In; auto).
    rewrite S in Hin. destruct Hin.
Qed.

(** X8: [Highway.ahead] ([vehicle_ahead] in [atascos.py] and [traff.py])
    returns the nearest vehicle strictly ahead in the list of the lane
    the vehicle says it is in: a vehicle of that list, other than the
    vehicle itself, at a greater position, and no vehicle of the list lies
    strictly between the two; it returns [None] exactly when no vehicle of
    the list is at a greater position. *)
Theorem ahead_is_nearest (w : World) (i : nat) (veh : Vehicle) (lane_list : list nat) :
  deref w i = Ok veh ->
  py_get (lanes w) (lane veh) = Ok lane_list ->
  (ahead w i = Ok None /\ forall k, In k lane_list -> x_of w k <= x veh)
  \/ exists j,
       ahead w i = Ok (Some j)
       /\ In j lane_list /\ j <> i /\ x veh < x_of w j
       /\ forall k, In k lane_list -> x veh < x_of w k -> x_of w j <= x_of w k.
Proof.
  intros Hveh Hl. unfold ahead. rewrite Hveh. simpl. rewrite Hl. simpl.
  pose proof (nearest_ahead_spec w veh lane_list) as S. unfold nearest_ahead in S.
  destruct (py_min_by _ _) as [j|].
  - right. exists j. destruct S as (Hj & Hx & Hmin).
    split; [reflexivity|]. split; [exact Hj|]. split; [|split; assumption].
    intros ->. apply deref_inv in Hveh. unfold x_of, attr in Hx. rewrite Hveh in Hx.
    apply Qlt_irrefl in Hx. exact Hx.
  - left. split; [reflexivity | exact S].
Qed.

Lemma ahead_is_nearest_witness :
  (ahead (Trafico.world (trafico_after 4 truck_braking)) 3 = Ok None
   /\ forall k, In k [3; 2]%nat ->
        x_of (Trafico.world (trafico_after 4 truck_braking)) k
        <= x (reached (Trafico.new_vehicle Trafico.default 0 0 car)
                (deref (Trafico.world (trafico_after 4 truck_braking)) 3)))
  \/ exists j,
       ahead (Trafico.world (trafico_after 4 truck_braking)) 3 = Ok (Some j)
       /\ In j [3; 2]%nat /\ j <> 3%nat
       /\ x (reached (Trafico.new_vehicle Trafico.default 0 0 car)
               (deref (Trafico.world (trafico_after 4 truck_braking)) 3))
          < x_of (Trafico.world (trafico_after 4 truck_braking)) j
       /\ forall k, In k [3; 2]%nat ->
            x (reached (Trafico.new_vehicle Trafico.default 0 0 car)
                 (deref (Trafico.world (trafico_after 4 truck_braking)) 3))
            < x_of (Trafico.world (trafico_after 4 truck_braking)) k ->
            x_of (Trafico.world (trafico_after 4 truck_braking)) j
            <= x_of (Trafico.world (trafico_after 4 truck_braking)) k.
Proof.
  apply (ahead_is_nearest (Trafico.world (trafico_after 4 truck_braking)) 3);
    vm_compute; reflexivity.
Defined.

(** ** [traff.py]: entrance, arrivals and insertion *)

(** X9: [Highway.can_insert_at_start] answers for a lane of the highway
    without failing, and says yes exactly when every vehicle listed in the
    lane is further from the entrance than the length of the new vehicle
    plus the minimum gap (in particular when the lane is empty). *)
Theorem traff_can_insert_at_start_spec (cfg : Traff.Config) (w : World) (l : Z)
    (veh_length : Q) (lane_list : list nat) :
  py_get (lanes w) l = Ok lane_list ->
  exists b,
    Traff.can_insert_at_start cfg w l veh_length = Ok b
    /\ (b = true <->
        forall j, In j lane_list -> veh_length + Traff.MIN_GAP cfg < x_of w j).
Proof.
  intros Hl. unfold Traff.can_insert_at_start. rewrite Hl. simpl.
  pose proof (py_min_by_spec (x_of w) lane_list) as S.
  destruct (py_min_by (x_of w) lane_list) as [first|].
  - destruct S as [Hf Hmin]. eexists. split; [reflexivity|]. split.
    + intros H j Hj. apply Qltb_lt in H.
      eapply Qlt_le_trans; [exact H | apply Hmin; exact Hj].
    + intros H. apply Qltb_lt. apply H. exact Hf.
  - subst lane_list. exists true. split; [reflexivity|].
    split; [intros _ j [] | reflexivity].
Qed.

Lemma traff_can_insert_at_start_spec_witness :
  exists b,
    Traff.can_insert_at_start Traff.default (Traff.world traff_first_insertion) 0 4.5
    = Ok b
    /\ (b = true <->
        forall j, In j [1%nat] ->
                  4.5 + Traff.MIN_GAP Traff.default
                  < x_of (Traff.world traff_first_insertion) j).
Proof.
  apply (traff_can_insert_at_start_spec Traff.default
           (Traff.world traff_first_insertion) 0 4.5 [1%nat]).
  vm_compute. reflexivity.
Defined.

Lemma Qfloor_unique (y : Q) (z : Z) :
  inject_Z z <= y -> y < inject_Z (z + 1) -> Qfloor y = z.
Proof.
  intros H1 H2.
  assert (A : (z <= Qfloor y)%Z).
  { rewrite <- (Qfloor_Z z). apply Qfloor_resp_le. exact H1. }
  assert (B : (Qfloor y < z + 1)%Z).
  { rewrite Zlt_Qlt. eapply Qle_lt_trans; [apply Qfloor_le | exact H2]. }
  lia.
Qed.

Lemma Qfloor_minus_1 (y : Q) : Qfloor (y - 1) = (Qfloor y - 1)%Z.
Proof.
  apply Qfloor_unique.
  - unfold Z.sub. rewrite inject_Z_plus, inject_Z_opp. change (inject_Z 1) with 1.
    pose proof (Qfloor_le y). lra.
  - replace (Qfloor y - 1 + 1)%Z with (Qfloor y + 1 - 1)%Z by lia.
    unfold Z.sub. rewrite inject_Z_plus, inject_Z_opp. change (inject_Z 1) with 1.
    pose proof (Qlt_floor y). lra.
Qed.

(** What the arrival loop leaves alone, and what it adds to the queue. *)
Lemma traff_arrivals_fields cfg n iv : forall st,
  Traff.world (Traff.arrivals cfg n iv st) = Traff.world st
  /\ Traff.sim_time (Traff.arrivals cfg n iv st) = Traff.sim_time st
  /\ Traff.next_id (Traff.arrivals cfg n iv st) = Traff.next_id st
  /\ Traff.running (Traff.arrivals cfg n iv st) = Traff.running st
  /\ Traff.paused (Traff.arrivals cfg n iv st) = Traff.paused st
  /\ Traff.trace (Traff.arrivals cfg n iv st) = Traff.trace st
  /\ exists new,
       Traff.entry_queue (Traff.arrivals cfg n iv st) = Traff.entry_queue st ++ new
       /\ Forall (fun e => snd e = Traff.sim_time st) new
       /\ Traff.next_arrival (Traff.arrivals cfg n iv st)
          == Traff.next_arrival st + inject_Z (Z.of_nat (length new)) * iv.
Proof.
  induction n as [|n IH]; intros st; cbn [Traff.arrivals].
  - repeat split. exists []. rewrite app_nil_r. split; [reflexivity|].
    split; [constructor|]. simpl. change (inject_Z 0) with 0. ring.
  - destruct (Traff.arrival_due cfg st); [|repeat split].
    + destruct (next_choice (Traff.rng st)) as [ty r].
      destruct (IH (Traff.mkState (Traff.world st) (Traff.sim_time st)
                      (Traff.next_arrival st + iv)
                      (Traff.entry_queue st ++ [(ty, Traff.sim_time st)])
                      (Traff.running st) (Traff.paused st) (Traff.next_id st) r
                      (Traff.trace st)))
        as (H1 & H2 & H3 & H4 & H5 & H6 & new & Hq & Hnew & Hna).
      simpl in *. repeat split; try assumption.
      exists ((ty, Traff.sim_time st) :: new).
      split; [rewrite Hq, <- app_assoc; reflexivity|].
      split; [constructor; [reflexivity | exact Hnew]|].
      rewrite Hna. cbn [length]. rewrite Nat2Z.inj_succ. unfold Z.succ.
      rewrite inject_Z_plus. change (inject_Z 1) with 1. ring.
    + exists []. rewrite app_nil_r. split; [reflexivity|].
      split; [constructor|]. simpl. change (inject_Z 0) with 0. ring.
Qed.

Lemma traff_arrivals_done cfg iv n : 0 < iv -> forall st,
  (Z.to_nat (Qfloor ((Traff.sim_time st - Traff.next_arrival st) / iv) + 1) <= n)%nat ->
  Traff.arrival_due cfg (Traff.arrivals cfg n iv st) = false.
Proof.
  intros Hiv. induction n as [|n IH]; intros st Hn; cbn [Traff.arrivals].
  - unfold Traff.arrival_due.
    destruct (Qle_bool (Traff.next_arrival st) (Traff.sim_time st)) eqn:E; [|reflexivity].
    exfalso. apply Qle_bool_iff in E.
    assert (H0 : 0 <= (Traff.sim_time st - Traff.next_arrival st) / iv).
    { apply Qle_shift_div_l; [exact Hiv | lra]. }
    apply Qfloor_resp_le in H0. change (Qfloor 0) with 0%Z in H0. lia.
  - destruct (Traff.arrival_due cfg st) eqn:E; [|exact E].
    destruct (next_choice (Traff.rng st)) as [ty r].
    apply IH. cbn [Traff.sim_time Traff.next_arrival].
    unfold Traff.arrival_due in E.
    apply andb_true_iff in E as [E _]. apply Qle_bool_iff in E.
    assert (H0 : 0 <= (Traff.sim_time st - Traff.next_arrival st) / iv).
    { apply Qle_shift_div_l; [exact Hiv | lra]. }
    apply Qfloor_resp_le in H0. change (Qfloor 0) with 0%Z in H0.
    assert (Ex : (Traff.sim_time st - (Traff.next_arrival st + iv)) / iv
                 == (Traff.sim_time st - Traff.next_arrival st) / iv - 1).
    { field. intros Hc. rewrite Hc in Hiv. apply Qlt_irrefl in Hiv. exact Hiv. }
    rewrite (Qfloor_comp _ _ Ex), Qfloor_minus_1. lia.
Qed.

(** X24: with an interval between arrivals that is not positive (a
    negative [ARRIVAL_RATE_PER_MIN]), the arrival loop of a frame of
    [traff.py] never ends once it is entered: after any number [n] of
    rounds its test [sim_time >= next_arrival and sim_time <= SIM_SECONDS]
    still holds, and the queue has grown by [n] entries. *)
Theorem traff_arrival_loop_never_ends (cfg : Traff.Config) (iv : Q) (n : nat)
    (st : Traff.State) :
  iv <= 0 -> Traff.arrival_due cfg st = true ->
  Traff.arrival_due cfg (Traff.arrivals cfg n iv st) = true
  /\ length (Traff.entry_queue (Traff.arrivals cfg n iv st))
     = (length (Traff.entry_queue st) + n)%nat.
Proof.
  intros Hiv. revert st.
  induction n as [|n IH]; intros st Hdue; cbn [Traff.arrivals].
  - split; [exact Hdue | lia].
  - rewrite Hdue. destruct (next_choice (Traff.rng st)) as [ty r].
    match goal with |- Traff.arrival_due cfg (Traff.arrivals cfg n iv ?S) = true /\ _ =>
      destruct (IH S) as [H1 H2] end.
    + unfold Traff.arrival_due in *. simpl.
      apply andb_true_iff in Hdue as [Ha Hb]. rewrite Hb.
      apply Qle_bool_iff in Ha. rewrite andb_true_r. apply Qle_bool_iff. lra.
    + split; [exact H1|]. rewrite H2. simpl. rewrite length_app. simpl. lia.
Qed.

Lemma traff_arrival_loop_never_ends_witness :
  Traff.arrival_due Traff.default
    (Traff.arrivals Traff.default 7 (- (3 # 2)) traff_first_clock) = true
  /\ length (Traff.entry_queue
               (Traff.arrivals Traff.default 7 (- (3 # 2)) traff_first_clock))
     = (length (Traff.entry_queue traff_first_clock) + 7)%nat.
Proof.
  apply (traff_arrival_loop_never_ends Traff.default (- (3 # 2)) 7 traff_first_clock).
  - unfold Qle. simpl. lia.
  - vm_compute. reflexivity.
Defined.

(** X10: the arrival loop of a frame of [traff.py]
    ([while sim_time >= next_arrival and sim_time <= SIM_SECONDS]) ends when
    the interval between arrivals is positive: afterwards the next arrival
    lies after the simulated time, or the simulated time is past the end of
    the simulation.  It only appends to the queue, each new entry carries
    the simulated time of the frame, and the next arrival time has moved by
    one interval per new entry. *)
Theorem traff_arrival_loop_ends (cfg : Traff.Config) (iv : Q) (st : Traff.State) :
  0 < iv ->
  (Traff.sim_time st < Traff.next_arrival
                         (Traff.arrivals cfg (Traff.due_arrivals iv st) iv st)
   \/ Traff.SIM_SECONDS cfg < Traff.sim_time st)
  /\ Traff.world (Traff.arrivals cfg (Traff.due_arrivals iv st) iv st) = Traff.world st
  /\ Traff.sim_time (Traff.arrivals cfg (Traff.due_arrivals iv st) iv st)
     = Traff.sim_time st
  /\ Traff.next_id (Traff.arrivals cfg (Traff.due_arrivals iv st) iv st)
     = Traff.next_id st
  /\ exists new,
       Traff.entry_queue (Traff.arrivals cfg (Traff.due_arrivals iv st) iv st)
       = Traff.entry_queue st ++ new
       /\ Forall (fun e => snd e = Traff.sim_time st) new
       /\ Traff.next_arrival (Traff.arrivals cfg (Traff.due_arrivals iv st) iv st)
          == Traff.next_arrival st + inject_Z (Z.of_nat (length new)) * iv.
Proof.
  intros Hiv.
  destruct (traff_arrivals_fields cfg (Traff.due_arrivals iv st) iv st)
    as (H1 & H2 & H3 & _ & _ & _ & Hnew).
  split; [|auto].
  pose proof (traff_arrivals_done cfg iv (Traff.due_arrivals iv st) Hiv st
                (Nat.le_refl _)) as D.
  unfold Traff.arrival_due in D. rewrite H2 in D. apply andb_false_iff in D as [D|D].
  - left. apply Qnot_le_lt. intros Hc. apply Qle_bool_iff in Hc. congruence.
  - right. apply Qnot_le_lt. intros Hc. apply Qle_bool_iff in Hc. congruence.
Qed.

Lemma traff_arrival_loop_ends_witness :
  (Traff.sim_time traff_first_clock
   < Traff.next_arrival
       (Traff.arrivals Traff.default (Traff.due_arrivals 1.5 traff_first_clock) 1.5
          traff_first_clock)
   \/ Traff.SIM_SECONDS Traff.default < Traff.sim_time traff_first_clock)
  /\ length (Traff.entry_queue
               (Traff.arrivals Traff.default (Traff.due_arrivals 1.5 traff_first_clock)
                  1.5 traff_first_clock)) = 5%nat.
Proof.
  split; [|vm_compute; reflexivity].
  apply (traff_arrival_loop_ends Traff.default 1.5 traff_first_clock). reflexivity.
Defined.

Lemma traff_remove_entry_first cfg ty te (l1 l2 : list (VType * Q)) :
  (forall e, In e l1 ->
     (Traff.ti_priority (get_type (fst e) (Traff.VEH_TYPES cfg))
      < Traff.ti_priority (get_type ty (Traff.VEH_TYPES cfg)))%Z) ->
  Traff.remove_entry ty te (l1 ++ (ty, te) :: l2) = l1 ++ l2.
Proof.
  intros H. induction l1 as [|[vt tm] l1 IH]; simpl.
  - rewrite bool_decide_eq_true_2 by reflexivity.
    replace (Qeq_bool te te) with true; [reflexivity|].
    symmetry. apply Qeq_bool_iff. reflexivity.
  - rewrite bool_decide_eq_false_2.
    + simpl. f_equal. apply IH. intros e He. apply H. right. exact He.
    + intros ->. specialize (H (ty, tm) (or_introl eq_refl)). simpl in H. lia.
Qed.

(** The loop over the lanes 0, 1, 2 of the insertion: nothing happens
    when no lane of the list has a free entrance; otherwise the vehicle is
    created in the first lane that has one. *)
Lemma traff_insert_in_spec cfg ty te ls : forall st st',
  Traff.insert_in cfg st ty te ls = Ok st' ->
  (Forall (fun l' =>
             Traff.can_insert_at_start cfg (Traff.world st) l'
               (Traff.ti_length_m (get_type ty (Traff.VEH_TYPES cfg))) = Ok false) ls
   /\ st' = st)
  \/ exists l before after,
       ls = before ++ l :: after
       /\ Forall (fun l' =>
                    Traff.can_insert_at_start cfg (Traff.world st) l'
                      (Traff.ti_length_m (get_type ty (Traff.VEH_TYPES cfg))) = Ok false)
            before
       /\ Traff.can_insert_at_start cfg (Traff.world st) l
            (Traff.ti_length_m (get_type ty (Traff.VEH_TYPES cfg))) = Ok true
       /\ add false
            (set_objs (<[Traff.next_id st
                         := Traff.new_vehicle cfg (Traff.next_id st) ty l te]>
                         (objs (Traff.world st))) (Traff.world st))
            (Traff.next_id st)
          = Ok (Traff.world st')
       /\ Traff.next_id st' = S (Traff.next_id st)
       /\ Traff.entry_queue st' = Traff.remove_entry ty te (Traff.entry_queue st)
       /\ Traff.sim_time st' = Traff.sim_time st
       /\ Traff.next_arrival st' = Traff.next_arrival st.
Proof.
  induction ls as [|l ls IH]; intros st st' H; cbn [Traff.insert_in] in H.
  - apply mret_inv in H. left. split; [constructor | congruence].
  - apply bind_inv in H as (ok & Hok & H). destruct ok.
    + apply bind_inv in H as (w' & Hw' & H). apply mret_inv in H. subst st'.
      right. exists l, [], ls. simpl. repeat split; auto.
    + destruct (IH _ _ H) as [[Hall ->]|(l0 & before & after & -> & Hb & Hrest)].
      * left. split; [constructor; assumption | reflexivity].
      * right. exists l0, (l :: before), after. split; [reflexivity|].
        split; [constructor; assumption | exact Hrest].
Qed.

(** X11: the insertion of a frame of [traff.py].  With an empty queue
    nothing changes.  Otherwise the entry tried is the first entry of the
    queue among those of the greatest priority.  If none of the lanes 0, 1,
    2 has a free entrance, nothing changes: the entry stays in the queue.
    If one has, the vehicle is created in the first such lane, with the
    next id and, as entry time, the time at which it was queued (not the
    time of the insertion), and this entry is the one that leaves the
    queue; no more than this one vehicle is inserted. *)
Theorem traff_insertion_spec (cfg : Traff.Config) (st st' : Traff.State) :
  Traff.insertion cfg st = Ok st' ->
  match Traff.entry_queue st with
  | [] => st' = st
  | _ :: _ =>
      exists ty te q1 q2,
        Traff.entry_queue st = q1 ++ (ty, te) :: q2
        /\ (forall e, In e q1 ->
              (Traff.ti_priority (get_type (fst e) (Traff.VEH_TYPES cfg))
               < Traff.ti_priority (get_type ty (Traff.VEH_TYPES cfg)))%Z)
        /\ (forall e, In e q2 ->
              (Traff.ti_priority (get_type (fst e) (Traff.VEH_TYPES cfg))
               <= Traff.ti_priority (get_type ty (Traff.VEH_TYPES cfg)))%Z)
        /\ ((Forall (fun l' =>
                       Traff.can_insert_at_start cfg (Traff.world st) l'
                         (Traff.ti_length_m (get_type ty (Traff.VEH_TYPES cfg)))
                       = Ok false) [0; 1; 2]%Z
             /\ st' = st)
            \/ exists l before after,
                 [0; 1; 2]%Z = before ++ l :: after
                 /\ Forall (fun l' =>
                              Traff.can_insert_at_start cfg (Traff.world st) l'
                                (Traff.ti_length_m (get_type ty (Traff.VEH_TYPES cfg)))
                              = Ok false) before
                 /\ Traff.can_insert_at_start cfg (Traff.world st) l
                      (Traff.ti_length_m (get_type ty (Traff.VEH_TYPES cfg))) = Ok true
                 /\ add false
                      (set_objs (<[Traff.next_id st
                                   := Traff.new_vehicle cfg (Traff.next_id st) ty l te]>
                                   (objs (Traff.world st))) (Traff.world st))
                      (Traff.next_id st)
                    = Ok (Traff.world st')
                 /\ entry_time (Traff.new_vehicle cfg (Traff.next_id st) ty l te)
                    = Some te
                 /\ Traff.entry_queue st' = q1 ++ q2
                 /\ Traff.next_id st' = S (Traff.next_id st)
                 /\ Traff.sim_time st' = Traff.sim_time st
                 /\ Traff.next_arrival st' = Traff.next_arrival st)
  end.
Proof.
  unfold Traff.insertion. intros H.
  destruct (Traff.entry_queue st) as [|e0 q0] eqn:Eq0.
  { simpl in H. apply mret_inv in H. congruence. }
  destruct (Traff.sort_entries cfg (e0 :: q0)) as [|[ty te] rest] eqn:Es.
  { exfalso. unfold Traff.sort_entries in Es.
    pose proof (sort_by_perm
                  (fun a b : VType * Q =>
                     (Traff.ti_priority (get_type (fst b) (Traff.VEH_TYPES cfg))
                      <=? Traff.ti_priority (get_type (fst a) (Traff.VEH_TYPES cfg)))%Z)
                  (e0 :: q0)) as Hp.
    rewrite Es in Hp. apply Permutation_nil in Hp. discriminate Hp. }
  unfold Traff.sort_entries in Es.
  apply (sort_desc_head
           (fun e : VType * Q => Traff.ti_priority (get_type (fst e) (Traff.VEH_TYPES cfg))))
    in Es as (q1 & q2 & Eq & H1 & H2).
  exists ty, te, q1, q2.
  split; [exact Eq|]. split; [exact H1|]. split; [exact H2|].
  apply traff_insert_in_spec in H
    as [[Hall ->]|(l & before & after & Hls & Hb & Hc & Hadd & Hid & Hq & Ht & Hna)].
  - left. split; [exact Hall | reflexivity].
  - right. exists l, before, after.
    split; [exact Hls|]. split; [exact Hb|]. split; [exact Hc|].
    split; [exact Hadd|]. split; [reflexivity|].
    split; [rewrite Hq, Eq0, Eq; apply (traff_remove_entry_first cfg); exact H1|].
    auto.
Qed.

Lemma traff_insertion_spec_witness :
  exists q2,
    Traff.entry_queue traff_first_queue = (car, 6) :: q2
    /\ Traff.can_insert_at_start Traff.default (Traff.world traff_first_queue) 0
         (Traff.ti_length_m (get_type car (Traff.VEH_TYPES Traff.default))) = Ok true
    /\ add false
         (set_objs (<[1%nat := Traff.new_vehicle Traff.default 1 car 0 6]>
                      (objs (Traff.world traff_first_queue)))
            (Traff.world traff_first_queue)) 1
       = Ok (Traff.world traff_first_insertion)
    /\ Traff.entry_queue traff_first_insertion = q2
    /\ Traff.next_id traff_first_insertion = 2%nat.
Proof.
  assert (Hins : Traff.insertion Traff.default traff_first_queue = Ok traff_first_insertion)
    by (vm_compute; reflexivity).
  pose proof (traff_insertion_spec Traff.default traff_first_queue traff_first_insertion
                Hins) as H.
  assert (Hq : Traff.entry_queue traff_first_queue
               = [(car, 6); (car, 6); (car, 6); (car, 6); (car, 6)])
    by (vm_compute; reflexivity).
  rewrite Hq in H.
  destruct H as (ty & te & q1 & q2 & Eq & H1 & _ & Hcase).
  assert (Hfree : Traff.can_insert_at_start Traff.default (Traff.world traff_first_queue) 0
                    (Traff.ti_length_m (get_type ty (Traff.VEH_TYPES Traff.default)))
                  = Ok true)
    by (destruct ty; vm_compute; reflexivity).
  destruct q1 as [|e q1].
  - simpl in Eq. injection Eq as <- <- <-.
    exists [(car, 6); (car, 6); (car, 6); (car, 6)].
    split; [reflexivity|]. split; [exact Hfree|].
    split; [vm_compute; reflexivity|].
    split; [vm_compute; reflexivity | vm_compute; reflexivity].
  - exfalso. simpl in Eq. injection Eq as <- Eq.
    destruct Hcase as [[Hall _]|(l & before & after & Hls & Hb & _)].
    + apply Forall_cons in Hall as [Hall _]. rewrite Hfree in Hall. discriminate Hall.
    + destruct before as [|b before].
      * specialize (H1 (car, 6) (or_introl eq_refl)).
        assert (Hty : ty = car).
        { assert (Hin : In (ty, te) [(car, 6); (car, 6); (car, 6); (car, 6)]).
          { rewrite Eq. apply in_or_app. right. left. reflexivity. }
          simpl in Hin. intuition congruence. }
        subst ty. vm_compute in H1. discriminate H1.
      * simpl in Hls. injection Hls as <- _.
        apply Forall_cons in Hb as [Hb _]. rewrite Hfree in Hb. discriminate Hb.
Defined.

(** ** [traff.py]: drawing *)

Lemma py_int_floor q : 0 <= q -> py_int q = Qfloor q.
Proof.
  intros H. unfold py_int, Qfloor. destruct q as [n d]. simpl.
  apply Z.quot_div_nonneg; [|lia].
  unfold Qle in H. simpl in H. lia.
Qed.

Lemma traff_scale_x cfg :
  0 < Traff.ROAD_LENGTH_M cfg ->
  Traff.SCALE_X cfg = Ok (1040 / Traff.ROAD_LENGTH_M cfg).
Proof.
  intros H. unfold Traff.SCALE_X. apply py_div_ok.
  intros Hc. rewrite Hc in H. apply Qlt_irrefl in H. exact H.
Qed.

(** X12: [pos_to_px] maps the road onto the strip of the window between
    the two margins: for a road of positive length it cannot fail, a
    position between 0 and the length of the road gets a pixel column
    between [MARGIN] = 80 and [SCREEN_W - MARGIN] = 1120, and a vehicle
    further down the road is never drawn further left. *)
Theorem traff_pos_to_px_range (cfg : Traff.Config) (xa xb : Q) :
  0 < Traff.ROAD_LENGTH_M cfg ->
  0 <= xa -> xa <= xb -> xb <= Traff.ROAD_LENGTH_M cfg ->
  exists pa pb,
    Traff.pos_to_px cfg xa = Ok pa /\ Traff.pos_to_px cfg xb = Ok pb
    /\ (Traff.MARGIN <= pa)%Z /\ (pa <= pb)%Z
    /\ (pb <= Traff.SCREEN_W - Traff.MARGIN)%Z.
Proof.
  intros HL Ha Hab Hb. unfold Traff.pos_to_px.
  rewrite (traff_scale_x cfg HL). simpl.
  set (s := 1040 / Traff.ROAD_LENGTH_M cfg).
  assert (Hs : 0 <= s).
  { unfold s. apply Qle_shift_div_l; [exact HL | lra]. }
  assert (Hs1 : s * Traff.ROAD_LENGTH_M cfg == 1040).
  { unfold s. field. intros Hc. rewrite Hc in HL. apply Qlt_irrefl in HL. exact HL. }
  change (inject_Z Traff.MARGIN) with 80.
  assert (Hxa : 0 <= xa * s) by (apply Qmult_le_0_compat; assumption).
  assert (Hxab : xa * s <= xb * s) by (apply Qmult_le_compat_r; assumption).
  assert (Hxb : xb * s <= 1040).
  { rewrite <- Hs1, (Qmult_comm s). apply Qmult_le_compat_r; assumption. }
  do 2 eexists. split; [reflexivity|]. split; [reflexivity|].
  rewrite !py_int_floor by lra.
  split; [|split].
  - change Traff.MARGIN with (Qfloor 80). apply Qfloor_resp_le. lra.
  - apply Qfloor_resp_le. lra.
  - change (Traff.SCREEN_W - Traff.MARGIN)%Z with (Qfloor 1120).
    apply Qfloor_resp_le. lra.
Qed.

Lemma traff_pos_to_px_range_witness :
  exists pa pb,
    Traff.pos_to_px Traff.default 1500 = Ok pa
    /\ Traff.pos_to_px Traff.default 59999 = Ok pb
    /\ (Traff.MARGIN <= pa)%Z /\ (pa <= pb)%Z
    /\ (pb <= Traff.SCREEN_W - Traff.MARGIN)%Z.
Proof.
  apply (traff_pos_to_px_range Traff.default 1500 59999);
    vm_compute; first [reflexivity | discriminate].
Defined.

(** X13: a vehicle that is on the road is drawn inside the window.  For a
    vehicle between the start and the end of the road, in lane 0, 1 or 2
    and shorter than 7 pixels at the scale of the drawing, the rectangle
    is 6 pixels wide and 8 or 12 high, and it lies between the columns 77
    and 1123 and between the rows 127 and 352 of the 1200 x 480 window. *)
Theorem traff_vehicle_drawn_in_window (cfg : Traff.Config) (w : World) (i : nat)
    (veh : Vehicle) :
  0 < Traff.ROAD_LENGTH_M cfg ->
  deref w i = Ok veh ->
  0 <= x veh -> x veh <= Traff.ROAD_LENGTH_M cfg ->
  (0 <= lane veh <= 2)%Z ->
  0 <= length_m veh -> length_m veh * 1040 < 7 * Traff.ROAD_LENGTH_M cfg ->
  exists left top h,
    Traff.vehicle_rect cfg w i = Ok (left, top, 6%Z, h)
    /\ (h = 8 \/ h = 12)%Z
    /\ (77 <= left)%Z /\ (left + 6 <= 1123)%Z
    /\ (127 <= top)%Z /\ (top + h <= 352)%Z.
Proof.
  intros HL Hveh Hx0 Hx1 Hlane Hlen0 Hlen1.
  destruct (traff_pos_to_px_range cfg (x veh) (x veh) HL Hx0 (Qle_refl _) Hx1)
    as (p & p' & Hp & Hp' & H80 & _ & H1120).
  rewrite Hp in Hp'. injection Hp' as <-.
  change Traff.MARGIN with 80%Z in H80.
  change (Traff.SCREEN_W - Traff.MARGIN)%Z with 1120%Z in H1120.
  unfold Traff.vehicle_rect. rewrite Hveh. simpl. rewrite Hp. simpl.
  assert (Hm : exists m, Traff.meters_to_px cfg (length_m veh) = Ok m /\ (m <= 6)%Z).
  { unfold Traff.meters_to_px. rewrite (traff_scale_x cfg HL). simpl.
    eexists. split; [reflexivity|].
    assert (Hs : 0 <= length_m veh * (1040 / Traff.ROAD_LENGTH_M cfg)).
    { apply Qmult_le_0_compat; [exact Hlen0|].
      apply Qle_shift_div_l; [exact HL | lra]. }
    rewrite py_int_floor by exact Hs.
    assert (Hs7 : length_m veh * (1040 / Traff.ROAD_LENGTH_M cfg) < 7).
    { unfold Qdiv. rewrite Qmult_assoc. apply Qlt_shift_div_r; [exact HL|].
      exact Hlen1. }
    assert (Hf : (Qfloor (length_m veh * (1040 / Traff.ROAD_LENGTH_M cfg)) < 7)%Z).
    { rewrite Zlt_Qlt. eapply Qle_lt_trans; [apply Qfloor_le | exact Hs7]. }
    lia. }
  destruct Hm as (m & Hm & Hm6).
  assert (Hy : exists y, py_get Traff.LANE_Y (lane veh) = Ok y
                         /\ (133 <= py_int y <= 346)%Z).
  { assert (lane veh = 0 \/ lane veh = 1 \/ lane veh = 2)%Z as [-> | [-> | ->]] by lia;
      eexists; (split; [vm_compute; reflexivity|]); vm_compute; split; discriminate. }
  destruct Hy as (y & Hy & Hy1). rewrite Hy. simpl. rewrite Hm. simpl.
  replace (Z.max 6 m) with 6%Z by lia.
  change (6 `div` 2)%Z with 3%Z.
  destruct (bool_decide (vtype veh = truck));
    do 3 eexists; (split; [reflexivity|]);
    [change (12 `div` 2)%Z with 6%Z | change (8 `div` 2)%Z with 4%Z];
    (split; [auto|lia]).
Qed.

Lemma traff_vehicle_drawn_in_window_witness :
  exists left top h,
    Traff.vehicle_rect Traff.default (Traff.world traff_first_insertion) 1
    = Ok (left, top, 6%Z, h)
    /\ (h = 8 \/ h = 12)%Z
    /\ (77 <= left)%Z /\ (left + 6 <= 1123)%Z
    /\ (127 <= top)%Z /\ (top + h <= 352)%Z.
Proof.
  apply (traff_vehicle_drawn_in_window Traff.default
           (Traff.world traff_first_insertion) 1
           (reached (Traff.new_vehicle Traff.default 0 car 0 0)
              (deref (Traff.world traff_first_insertion) 1)));
    vm_compute; first [reflexivity | discriminate | split; discriminate].
Defined.

(** ** Well-formed highways *)

(** *** Lists *)

Lemma py_set_lookup {A} (ls : list A) (k : nat) (a : A) :
  (k < length ls)%nat -> py_set ls (Z.of_nat k) a !! k = Some a.
Proof.
  intros H. unfold py_set. rewrite py_index_nonneg by lia.
  rewrite Nat2Z.id. apply list_lookup_insert_eq. exact H.
Qed.

Lemma py_set_lookup_ne {A} (ls : list A) (k k' : nat) (a : A) :
  k' <> k -> py_set ls (Z.of_nat k) a !! k' = ls !! k'.
Proof.
  intros H. apply py_set_other. rewrite py_index_nonneg by lia.
  rewrite Nat2Z.id. exact H.
Qed.

Lemma py_get_nat {A} (ls : list A) (k : nat) (a : A) :
  ls !! k = Some a -> py_get ls (Z.of_nat k) = Ok a.
Proof.
  intros H. pose proof (lookup_lt_Some _ _ _ H) as Hk.
  destruct (py_get_ok ls (Z.of_nat k)) as (b & Hb & Hlk); [lia|].
  rewrite Nat2Z.id in Hlk. congruence.
Qed.

Lemma remove_first_NoDup i l :
  NoDup l -> In i l ->
  exists r, remove_first i l = Some r /\ NoDup r /\ ~ In i r
            /\ forall j, In j r <-> (In j l /\ j <> i).
Proof.
  intros Hnd Hin. pose proof (remove_first_spec i l) as S.
  destruct (remove_first i l) as [r|]; [|contradiction].
  destruct S as (l1 & l2 & -> & Hn1 & ->). exists (l1 ++ l2).
  split; [reflexivity|].
  apply NoDup_app in Hnd as (Hd1 & Hd12 & Hd2).
  apply NoDup_cons in Hd2 as [Hi2 Hd2].
  assert (Hni : ~ In i (l1 ++ l2)).
  { rewrite in_app_iff. intros [H|H]; [contradiction|].
    apply Hi2. apply list_elem_of_In. exact H. }
  split.
  { apply NoDup_app. split; [exact Hd1|]. split; [|exact Hd2].
    intros x Hx Hx2. apply (Hd12 x Hx). right. exact Hx2. }
  split; [exact Hni|].
  intros j. rewrite !in_app_iff. simpl. split.
  - intros H. split; [tauto|]. intros ->. apply Hni. apply in_app_iff. exact H.
  - intros [[H|[H|H]] Hne]; [auto | congruence | auto].
Qed.

Lemma concat_insert_length {A} (qs : list (list A)) : forall k q q',
  qs !! k = Some q ->
  (length (concat (<[k := q']> qs)) + length q = length (concat qs) + length q')%nat.
Proof.
  induction qs as [|a qs IH]; intros k q q' H; [discriminate|].
  destruct k as [|k]; simpl in *.
  - injection H as ->. rewrite !length_app. lia.
  - rewrite !length_app. specialize (IH k q q' H). lia.
Qed.

Lemma sort_by_x_In w l j : In j (sort_by_x w l) <-> In j l.
Proof.
  unfold sort_by_x. split; apply Permutation_in;
    [apply sort_by_perm | symmetry; apply sort_by_perm].
Qed.

Lemma sort_by_x_NoDup w l : NoDup l -> NoDup (sort_by_x w l).
Proof. unfold sort_by_x. rewrite sort_by_perm. auto. Qed.

Lemma NoDup_snoc (l : list nat) i : NoDup l -> ~ In i l -> NoDup (l ++ [i]).
Proof.
  intros H Hn. apply NoDup_app. split; [exact H|]. split; [|apply NoDup_singleton].
  intros x Hx Hc. apply list_elem_of_singleton in Hc. subst x.
  apply Hn. apply list_elem_of_In. exact Hx.
Qed.

(** *** Lanes *)

Lemma in_lane_py_get w k i :
  in_lane w k i -> exists l, py_get (lanes w) (Z.of_nat k) = Ok l /\ In i l.
Proof.
  intros (l & Hl & Hi). exists l. split; [apply py_get_nat; exact Hl | exact Hi].
Qed.

Lemma in_lane_objs w w' k i : lanes w' = lanes w -> in_lane w' k i <-> in_lane w k i.
Proof. unfold in_lane. intros ->. reflexivity. Qed.

Lemma wf_lane_of w k i :
  highway_wf w -> in_lane w k i ->
  exists veh, deref w i = Ok veh /\ lane veh = Z.of_nat k
              /\ (k < length (lanes w))%nat /\ (0 <= lane veh < num_lanes w)%Z.
Proof.
  intros (Hlen & _ & Hl) Hin. destruct (Hl k i Hin) as (veh & Hv & Hk).
  exists veh. unfold deref. rewrite Hv. split; [reflexivity|]. split; [exact Hk|].
  destruct Hin as (l & Hlk & _). apply lookup_lt_Some in Hlk.
  split; [exact Hlk | lia].
Qed.

Lemma same_road_refl i w : same_road_except i w w.
Proof. repeat split; auto. Qed.

Lemma same_road_trans i w1 w2 w3 :
  same_road_except i w1 w2 -> same_road_except i w2 w3 -> same_road_except i w1 w3.
Proof.
  intros (A1 & A2 & A3 & A4 & A5 & A6) (B1 & B2 & B3 & B4 & B5 & B6).
  split; [congruence|]. split; [congruence|].
  split; [intros j Hj; rewrite B3, A3 by exact Hj; reflexivity|].
  split; [intros j; rewrite B4, A4; reflexivity|].
  split; [intros j k Hj; rewrite B5, A5 by exact Hj; reflexivity|].
  intros j Hj. rewrite B6, A6 by exact Hj. reflexivity.
Qed.

Lemma py_set_nonneg {A} (ls : list A) (t : Z) (a : A) :
  (0 <= t)%Z -> py_set ls t a = <[Z.to_nat t := a]> ls.
Proof. intros H. unfold py_set. rewrite py_index_nonneg by exact H. reflexivity. Qed.

Lemma wf_py_get w (t : Z) :
  highway_wf w -> (0 <= t < num_lanes w)%Z ->
  exists l, py_get (lanes w) t = Ok l /\ lanes w !! Z.to_nat t = Some l.
Proof.
  intros (Hlen & _) Ht. apply py_get_ok. rewrite Hlen. lia.
Qed.

(** *** Attribute writes *)

Lemma update_ok w i f veh :
  objs w !! i = Some veh -> update w i f = Ok (set_objs (<[i := f veh]> (objs w)) w).
Proof. intros H. unfold update, deref. rewrite H. reflexivity. Qed.

Lemma is_Some_insert_same (m : gmap nat Vehicle) i u u0 j :
  m !! i = Some u0 -> is_Some (<[i := u]> m !! j) <-> is_Some (m !! j).
Proof.
  intros H. destruct (decide (j = i)) as [->|Hne].
  - rewrite lookup_insert_eq, H. split; intros _; eexists; reflexivity.
  - rewrite lookup_insert_ne by congruence. reflexivity.
Qed.

(** Writing an attribute other than [lane] keeps the highway well formed
    and moves nothing. *)
Lemma update_same_road w i f veh :
  objs w !! i = Some veh -> lane (f veh) = lane veh -> highway_wf w ->
  highway_wf (set_objs (<[i := f veh]> (objs w)) w)
  /\ same_road_except i w (set_objs (<[i := f veh]> (objs w)) w).
Proof.
  intros Hv Hf (Hlen & Hnd & Hl). split.
  - split; [exact Hlen|]. split; [exact Hnd|].
    intros k j Hin. destruct (Hl k j Hin) as (u & Hu & Hk). simpl.
    destruct (decide (j = i)) as [->|Hne].
    + rewrite lookup_insert_eq. eexists. split; [reflexivity|]. congruence.
    + rewrite lookup_insert_ne by congruence. eauto.
  - split; [reflexivity|]. split; [reflexivity|].
    split; [intros j Hj; simpl; apply lookup_insert_ne; congruence|].
    split; [intros j; simpl; eapply is_Some_insert_same; exact Hv|].
    split; intros; reflexivity.
Qed.

Lemma all_wf_same i w w' :
  all_wf w -> all w' = all w -> same_road_except i w w' ->
  (on_road w i <-> on_road w' i) -> all_wf w'.
Proof.
  intros [Hnd Hall] Ea (_ & _ & _ & _ & Hfr & _) Hi. rewrite <- Ea in Hnd, Hall.
  split; [exact Hnd|]. intros j. rewrite Hall.
  destruct (decide (j = i)) as [->|Hne]; [exact Hi|].
  unfold on_road. split; intros [k Hk]; exists k; apply (Hfr j k Hne); exact Hk.
Qed.

(** *** A move to another lane *)

Lemma lane_move_wf w w' i k (t : Z) veh src tgt src' tgt' :
  highway_wf w ->
  objs w !! i = Some veh -> lanes w !! k = Some src -> In i src ->
  (0 <= t < num_lanes w)%Z -> Z.to_nat t <> k ->
  lanes w !! Z.to_nat t = Some tgt ->
  (forall j, In j src' <-> In j src /\ j <> i) -> NoDup src' ->
  (forall j, In j tgt' <-> In j tgt \/ j = i) -> NoDup tgt' ->
  objs w' = <[i := set_lane t veh]> (objs w) ->
  length (lanes w') = length (lanes w) ->
  lanes w' !! k = Some src' -> lanes w' !! Z.to_nat t = Some tgt' ->
  (forall k', k' <> k -> k' <> Z.to_nat t -> lanes w' !! k' = lanes w !! k') ->
  num_lanes w' = num_lanes w -> hw_length w' = hw_length w -> all w' = all w ->
  highway_wf w' /\ same_road_except i w w' /\ in_lane w' (Z.to_nat t) i.
Proof.
  intros (Hlen & Hnd & Hl) Hv Hsrc Hi Ht Hne Htgt Hs' Hds' Ht' Hdt' Ho Hlen' Hk' Htt'
    Hoth Hn Hh Ha.
  assert (Hin : forall j k', j <> i -> (in_lane w' k' j <-> in_lane w k' j)).
  { intros j k' Hj. unfold in_lane.
    destruct (decide (k' = k)) as [->|Hk1].
    - rewrite Hk', Hsrc. split; intros (l & [= <-] & Hin); eexists; (split; [reflexivity|]).
      + apply Hs' in Hin. tauto.
      + apply Hs'. tauto.
    - destruct (decide (k' = Z.to_nat t)) as [->|Hk2].
      + rewrite Htt', Htgt.
        split; intros (l & [= <-] & Hin); eexists; (split; [reflexivity|]).
        * apply Ht' in Hin. tauto.
        * apply Ht'. tauto.
      + rewrite Hoth by assumption. reflexivity. }
  assert (Hit : in_lane w' (Z.to_nat t) i).
  { exists tgt'. split; [exact Htt'|]. apply Ht'. right. reflexivity. }
  assert (Honly : forall k', in_lane w' k' i -> k' = Z.to_nat t).
  { intros k' (l & Hlk & Hil).
    destruct (decide (k' = Z.to_nat t)) as [->|Hk2]; [reflexivity|].
    destruct (decide (k' = k)) as [->|Hk1].
    - rewrite Hk' in Hlk. injection Hlk as <-. apply Hs' in Hil. tauto.
    - rewrite Hoth in Hlk by assumption.
      destruct (Hl k' i) as (u & Hu & Hku); [exists l; auto|].
      destruct (Hl k i) as (u' & Hu' & Hku'); [exists src; auto|].
      rewrite Hu in Hu'. injection Hu' as <-. lia. }
  split; [|split; [|exact Hit]].
  - split; [rewrite Hlen', Hn; exact Hlen|]. split.
    + intros k' l Hlk.
      destruct (decide (k' = k)) as [->|Hk1]; [rewrite Hk' in Hlk; congruence|].
      destruct (decide (k' = Z.to_nat t)) as [->|Hk2]; [rewrite Htt' in Hlk; congruence|].
      rewrite Hoth in Hlk by assumption. eapply Hnd. exact Hlk.
    + intros k' j Hj. rewrite Ho.
      destruct (decide (j = i)) as [->|Hji].
      * rewrite lookup_insert_eq. eexists. split; [reflexivity|].
        apply Honly in Hj. subst k'. simpl. lia.
      * rewrite lookup_insert_ne by congruence. apply Hl. apply Hin; assumption.
  - split; [exact Hn|]. split; [exact Hh|].
    split; [intros j Hj; rewrite Ho; apply lookup_insert_ne; congruence|].
    split; [intros j; rewrite Ho; eapply is_Some_insert_same; exact Hv|].
    split; [intros j k' Hj; apply Hin; exact Hj|].
    intros j _. rewrite Ha. reflexivity.
Qed.

(** *** Entering and leaving the road *)

Lemma add_wf g w n veh k l :
  highway_wf w ->
  objs w !! n = Some veh -> lane veh = Z.of_nat k -> lanes w !! k = Some l ->
  ~ on_road w n -> (g = true -> all_wf w) ->
  exists w',
    add g w n = Ok w' /\ highway_wf w' /\ (g = true -> all_wf w')
    /\ in_lane w' k n /\ same_road_except n w w' /\ objs w' = objs w
    /\ all w' = (if g then all w ++ [n] else all w)
    /\ lanes w' = <[k := sort_by_x w (l ++ [n])]> (lanes w).
Proof.
  intros Hwf Hv Hk Hl Hnr Hall.
  pose proof Hwf as (Hlen & Hnd & Hlo).
  unfold add, deref. rewrite Hv. simpl. rewrite Hk, (py_get_nat _ _ _ Hl). simpl.
  rewrite py_set_nonneg by lia. rewrite Nat2Z.id.
  set (l' := sort_by_x w (l ++ [n])).
  pose proof (lookup_lt_Some _ _ _ Hl) as Hklt.
  assert (Hnl : ~ In n l) by (intros Hc; apply Hnr; exists k, l; auto).
  assert (Hin : forall j k', j <> n ->
            (in_lane (set_lanes (<[k := l']> (lanes w)) w) k' j <-> in_lane w k' j)).
  { intros j k' Hj. unfold in_lane. simpl.
    destruct (decide (k' = k)) as [->|Hk1].
    - rewrite list_lookup_insert_eq by exact Hklt. rewrite Hl.
      split; intros (l0 & [= <-] & H0); eexists; (split; [reflexivity|]).
      + apply sort_by_x_In, in_app_iff in H0 as [H0|[H0|[]]]; [exact H0 | congruence].
      + apply sort_by_x_In, in_app_iff. left. exact H0.
    - rewrite list_lookup_insert_ne by congruence. reflexivity. }
  assert (Hnk : in_lane (set_lanes (<[k := l']> (lanes w)) w) k n).
  { exists l'. simpl. split; [apply list_lookup_insert_eq; exact Hklt|].
    apply sort_by_x_In, in_app_iff. right. left. reflexivity. }
  assert (Honly : forall k', in_lane (set_lanes (<[k := l']> (lanes w)) w) k' n -> k' = k).
  { intros k' (l0 & Hl0 & Hn0). simpl in Hl0.
    destruct (decide (k' = k)) as [->|Hk1]; [reflexivity|].
    rewrite list_lookup_insert_ne in Hl0 by congruence.
    exfalso. apply Hnr. exists k', l0. auto. }
  assert (Hwf1 : highway_wf (set_lanes (<[k := l']> (lanes w)) w)).
  { split; [simpl; rewrite length_insert; exact Hlen|]. split.
    - intros k' l0 Hl0. simpl in Hl0.
      destruct (decide (k' = k)) as [->|Hk1].
      + rewrite list_lookup_insert_eq in Hl0 by exact Hklt. injection Hl0 as <-.
        apply sort_by_x_NoDup, NoDup_snoc; [eapply Hnd; exact Hl | exact Hnl].
      + rewrite list_lookup_insert_ne in Hl0 by congruence. eapply Hnd. exact Hl0.
    - intros k' j Hj. simpl.
      destruct (decide (j = n)) as [->|Hjn].
      + apply Honly in Hj. subst k'. eauto.
      + apply Hlo. apply Hin; assumption. }
  assert (Hsr : forall a, same_road_except n w
                            (set_all a (set_lanes (<[k := l']> (lanes w)) w))
                          -> True) by auto.
  destruct g.
  - eexists. split; [reflexivity|]. simpl.
    split; [exact Hwf1|]. split.
    + intros _. destruct (Hall eq_refl) as [Hda Hia]. split.
      * simpl. apply NoDup_snoc; [exact Hda|]. intros Hc. apply Hnr. apply Hia. exact Hc.
      * intros j. simpl. rewrite in_app_iff. simpl.
        destruct (decide (j = n)) as [->|Hjn].
        -- split; [intros _; exists k; exact Hnk | auto].
        -- rewrite Hia. unfold on_road.
           split.
           ++ intros [[k' Hk']|[Hc|[]]]; [|congruence].
              exists k'. apply (Hin j k' Hjn). exact Hk'.
           ++ intros [k' Hk']. left. exists k'. apply (Hin j k' Hjn). exact Hk'.
    + split; [exact Hnk|]. split; [|auto].
      split; [reflexivity|]. split; [reflexivity|].
      split; [reflexivity|]. split; [reflexivity|].
      split; [exact Hin|].
      intros j Hj. simpl. rewrite in_app_iff. simpl. split; [|auto].
      intros [H|[H|[]]]; [exact H | congruence].
  - eexists. split; [reflexivity|].
    split; [exact Hwf1|]. split; [discriminate|].
    split; [exact Hnk|]. split; [|auto].
    split; [reflexivity|]. split; [reflexivity|].
    split; [reflexivity|]. split; [reflexivity|].
    split; [exact Hin | reflexivity].
Qed.

Lemma py_remove_In i l : In i l -> exists r, py_remove i l = Ok r /\ remove_first i l = Some r.
Proof.
  intros H. unfold py_remove. pose proof (remove_first_spec i l) as S.
  destruct (remove_first i l) as [r|]; [eauto | contradiction].
Qed.

Lemma remove_wf g w i k :
  highway_wf w -> in_lane w k i -> (g = true -> all_wf w) ->
  exists w',
    remove g w i = Ok w' /\ highway_wf w' /\ (g = true -> all_wf w')
    /\ ~ on_road w' i /\ same_road_except i w w' /\ objs w' = objs w
    /\ (g = true -> length (all w) = S (length (all w')))
    /\ (g = false -> all w' = all w)
    /\ length (concat (lanes w)) = S (length (concat (lanes w'))).
Proof.
  intros Hwf Hin Hall.
  destruct (wf_lane_of w k i Hwf Hin) as (veh & Hveh & Hk & Hklt & _).
  pose proof Hwf as (Hlen & Hnd & Hlo).
  destruct Hin as (l & Hl & Hi).
  unfold remove. rewrite Hveh. simpl. rewrite Hk, (py_get_nat _ _ _ Hl). simpl.
  replace (py_in i l) with true by (symmetry; apply py_in_In; exact Hi).
  destruct (remove_first_NoDup i l (Hnd _ _ Hl) Hi) as (r & Hr & Hdr & Hir & Hmem).
  assert (Hpr : py_remove i l = Ok r) by (unfold py_remove; rewrite Hr; reflexivity).
  rewrite Hpr. simpl.
  rewrite py_set_nonneg by lia. rewrite Nat2Z.id.
  set (w1 := set_lanes (<[k := r]> (lanes w)) w).
  assert (Hfr : forall j k', j <> i -> (in_lane w1 k' j <-> in_lane w k' j)).
  { intros j k' Hj. unfold in_lane. simpl.
    destruct (decide (k' = k)) as [->|Hk1].
    - rewrite list_lookup_insert_eq by exact Hklt. rewrite Hl.
      split; intros (l0 & [= <-] & H0); eexists; (split; [reflexivity|]).
      + apply Hmem in H0. tauto.
      + apply Hmem. tauto.
    - rewrite list_lookup_insert_ne by congruence. reflexivity. }
  assert (Hoff : ~ on_road w1 i).
  { intros (k' & l0 & Hl0 & Hi0). simpl in Hl0.
    destruct (decide (k' = k)) as [->|Hk1].
    - rewrite list_lookup_insert_eq in Hl0 by exact Hklt. injection Hl0 as <-.
      contradiction.
    - rewrite list_lookup_insert_ne in Hl0 by congruence.
      destruct (Hlo k' i) as (u & Hu & Hku); [exists l0; auto|].
      apply deref_inv in Hveh. rewrite Hveh in Hu. injection Hu as <-. lia. }
  assert (Hcc : length (concat (lanes w)) = S (length (concat (lanes w1)))).
  { simpl. pose proof (concat_insert_length (lanes w) k l r Hl) as C.
    pose proof (remove_first_spec i l) as S. rewrite Hr in S.
    destruct S as (l1 & l2 & E1 & _ & E2). subst l r.
    rewrite !length_app in C. simpl in C. lia. }
  assert (Hwf1 : highway_wf w1).
  { split; [simpl; rewrite length_insert; exact Hlen|]. split.
    - intros k' l0 Hl0. simpl in Hl0.
      destruct (decide (k' = k)) as [->|Hk1].
      + rewrite list_lookup_insert_eq in Hl0 by exact Hklt. congruence.
      + rewrite list_lookup_insert_ne in Hl0 by congruence. eapply Hnd. exact Hl0.
    - intros k' j Hj.
      destruct (decide (j = i)) as [->|Hji]; [exfalso; apply Hoff; exists k'; exact Hj|].
      apply Hlo. apply Hfr; assumption. }
  destruct g.
  - destruct (Hall eq_refl) as [Hda Hia].
    assert (Hia1 : In i (all w)) by (apply Hia; exists k, l; auto).
    change (all w1) with (all w).
    replace (py_in i (all w)) with true by (symmetry; apply py_in_In; exact Hia1).
    destruct (remove_first_NoDup i (all w) Hda Hia1) as (a & Ha & Hdaa & Hiaa & Hmema).
    assert (Hpa : py_remove i (all w) = Ok a) by (unfold py_remove; rewrite Ha; reflexivity).
    rewrite Hpa. simpl.
    eexists. split; [reflexivity|]. split; [exact Hwf1|]. split.
    + intros _. split; [exact Hdaa|]. intros j. simpl. rewrite Hmema, Hia.
      destruct (decide (j = i)) as [->|Hji].
      * split; [tauto | intros Hc; contradiction].
      * unfold on_road. split.
        -- intros [[k' Hk'] _]. exists k'. apply (Hfr j k' Hji). exact Hk'.
        -- intros [k' Hk']. split; [|exact Hji]. exists k'. apply (Hfr j k' Hji). exact Hk'.
    + split; [exact Hoff|].
      split; [|split; [reflexivity|split; [|split; [discriminate | exact Hcc]]]].
      * split; [reflexivity|]. split; [reflexivity|].
        split; [reflexivity|]. split; [reflexivity|].
        split; [exact Hfr|]. intros j Hj. simpl. rewrite Hmema. tauto.
      * intros _. simpl.
        pose proof (remove_first_spec i (all w)) as S. rewrite Ha in S.
        destruct S as (l1 & l2 & -> & _ & ->). rewrite !length_app. simpl. lia.
  - eexists. split; [reflexivity|]. split; [exact Hwf1|]. split; [discriminate|].
    split; [exact Hoff|].
    split; [|split; [reflexivity|split; [discriminate|split; [reflexivity | exact Hcc]]]].
    split; [reflexivity|]. split; [reflexivity|].
    split; [reflexivity|]. split; [reflexivity|].
    split; [exact Hfr | reflexivity].
Qed.

(** *** The sub-steps of the handling of a vehicle *)

Lemma ahead_ok w k i : highway_wf w -> in_lane w k i -> exists a, ahead w i = Ok a.
Proof.
  intros Hwf Hin. destruct (wf_lane_of w k i Hwf Hin) as (veh & Hveh & Hk & _).
  destruct (in_lane_py_get w k i Hin) as (l & Hl & _).
  unfold ahead. rewrite Hveh. simpl. rewrite Hk, Hl. simpl. eexists. reflexivity.
Qed.

Lemma lane_step_refl i w : highway_wf w -> on_road w i -> lane_step_ok i w w.
Proof. intros H1 H2. split; [exact H1|]. split; [apply same_road_refl|]. auto. Qed.

(** The three statements of a successful lane change: the vehicle leaves
    the list of its lane, its [lane] attribute is rewritten, and it is
    appended to the list of the target lane, which is sorted. *)
Lemma relane_ok w i k veh src r (t : Z) :
  highway_wf w ->
  objs w !! i = Some veh -> lane veh = Z.of_nat k ->
  lanes w !! k = Some src -> In i src -> remove_first i src = Some r ->
  (0 <= t < num_lanes w)%Z -> t <> Z.of_nat k ->
  exists w',
    (w2 ← update (set_lanes (py_set (lanes w) (lane veh) r) w) i (set_lane t);
     append_sorted w2 t i) = Ok w'
    /\ lane_step_ok i w w' /\ in_lane w' (Z.to_nat t) i
    /\ (forall k', k' <> Z.to_nat t -> lanes w' !! k' = <[k := r]> (lanes w) !! k').
Proof.
  intros Hwf Hv Hk Hsrc Hi Hr Ht Hne.
  pose proof Hwf as (Hlen & Hnd & Hlo).
  pose proof (lookup_lt_Some _ _ _ Hsrc) as Hklt.
  destruct (remove_first_NoDup i src (Hnd _ _ Hsrc) Hi) as (r' & Hr' & Hdr & Hir & Hmem).
  rewrite Hr in Hr'. injection Hr' as <-.
  destruct (wf_py_get w t Hwf Ht) as (tgt & _ & Htgt).
  rewrite Hk, py_set_nonneg by lia. rewrite Nat2Z.id.
  rewrite (update_ok _ i _ veh) by exact Hv. simpl.
  unfold append_sorted. simpl.
  assert (Hnek : Z.to_nat t <> k) by lia.
  destruct (py_get_ok (<[k := r]> (lanes w)) t) as (tgt0 & Hg & Hlk);
    [rewrite length_insert, Hlen; lia|].
  rewrite list_lookup_insert_ne in Hlk by congruence.
  rewrite Htgt in Hlk. injection Hlk as <-.
  rewrite Hg. simpl. rewrite py_set_nonneg by lia.
  eexists. split; [reflexivity|].
  assert (Hti : ~ In i tgt).
  { intros Hc. destruct (Hlo (Z.to_nat t) i) as (u & Hu & Hku); [exists tgt; auto|].
    rewrite Hv in Hu. injection Hu as <-. lia. }
  assert (Htlt : (Z.to_nat t < length (lanes w))%nat) by (rewrite Hlen; lia).
  match goal with |- lane_step_ok i w ?W /\ _ => set (w' := W) end.
  destruct (lane_move_wf w w' i k t veh src tgt r
              (sort_by_x (set_objs (<[i := set_lane t veh]> (objs w))
                            (set_lanes (<[k := r]> (lanes w)) w)) (tgt ++ [i])))
    as (H1 & H2 & H3); try assumption; try reflexivity.
  - intros j. rewrite sort_by_x_In, in_app_iff. simpl. intuition congruence.
  - apply sort_by_x_NoDup, NoDup_snoc; [eapply Hnd; exact Htgt | exact Hti].
  - unfold w'. simpl. rewrite !length_insert. reflexivity.
  - unfold w'. simpl. rewrite list_lookup_insert_ne by congruence.
    apply list_lookup_insert_eq. exact Hklt.
  - unfold w'. simpl. apply list_lookup_insert_eq. rewrite length_insert. exact Htlt.
  - intros k' Hk1 Hk2. unfold w'. simpl.
    rewrite !list_lookup_insert_ne by congruence. reflexivity.
  - split; [|split; [exact H3|]].
    + split; [exact H1|]. split; [exact H2|]. split; [reflexivity|].
      split; [exists (Z.to_nat t); exact H3|].
      unfold w'. simpl.
      pose proof (concat_insert_length (lanes w) k src r Hsrc) as C1.
      assert (Hmid : <[k := r]> (lanes w) !! Z.to_nat t = Some tgt)
        by (rewrite list_lookup_insert_ne by congruence; exact Htgt).
      pose proof (concat_insert_length _ (Z.to_nat t) tgt
                    (sort_by_x (set_objs (<[i := set_lane t veh]> (objs w))
                                  (set_lanes (<[k := r]> (lanes w)) w)) (tgt ++ [i]))
                    Hmid) as C2.
      assert (L1 : length src = S (length r)).
      { pose proof (remove_first_spec i src) as S. rewrite Hr in S.
        destruct S as (l1 & l2 & -> & _ & ->). rewrite !length_app. simpl. lia. }
      assert (L2 : length (sort_by_x (set_objs (<[i := set_lane t veh]> (objs w))
                                        (set_lanes (<[k := r]> (lanes w)) w))
                             (tgt ++ [i])) = S (length tgt)).
      { unfold sort_by_x. rewrite (Permutation_length (sort_by_perm _ _)).
        rewrite length_app. simpl. lia. }
      split; [lia | reflexivity].
    + intros k' Hk'. unfold w'. simpl.
      rewrite list_lookup_insert_ne by congruence. reflexivity.
Qed.

Lemma lane_step_trans i w1 w2 w3 :
  lane_step_ok i w1 w2 -> lane_step_ok i w2 w3 -> lane_step_ok i w1 w3.
Proof.
  intros (_ & A2 & A3 & _ & A5 & A6) (B1 & B2 & B3 & B4 & B5 & B6).
  split; [exact B1|]. split; [eapply same_road_trans; eassumption|].
  split; [congruence|]. split; [exact B4|]. split; congruence.
Qed.

(** Sorting the list of a lane moves no vehicle to another lane. *)
Lemma sort_lane_ok i w k l wx :
  highway_wf w -> on_road w i -> lanes w !! k = Some l ->
  lane_step_ok i w (set_lanes (<[k := sort_by_x wx l]> (lanes w)) w).
Proof.
  intros Hwf Hon Hl. pose proof Hwf as (Hlen & Hnd & Hlo).
  pose proof (lookup_lt_Some _ _ _ Hl) as Hklt.
  assert (Hin : forall j k',
            in_lane (set_lanes (<[k := sort_by_x wx l]> (lanes w)) w) k' j
            <-> in_lane w k' j).
  { intros j k'. unfold in_lane. simpl.
    destruct (decide (k' = k)) as [->|Hk1].
    - rewrite list_lookup_insert_eq by exact Hklt. rewrite Hl.
      split; intros (l0 & [= <-] & H0); eexists; (split; [reflexivity|]).
      + apply sort_by_x_In in H0. exact H0.
      + apply sort_by_x_In. exact H0.
    - rewrite list_lookup_insert_ne by congruence. reflexivity. }
  split; [|split; [|split; [reflexivity|]]].
  - split; [simpl; rewrite length_insert; exact Hlen|]. split.
    + intros k' l0 Hl0. simpl in Hl0.
      destruct (decide (k' = k)) as [->|Hk1].
      * rewrite list_lookup_insert_eq in Hl0 by exact Hklt. injection Hl0 as <-.
        apply sort_by_x_NoDup. eapply Hnd. exact Hl.
      * rewrite list_lookup_insert_ne in Hl0 by congruence. eapply Hnd. exact Hl0.
    + intros k' j Hj. apply Hlo. apply Hin. exact Hj.
  - split; [reflexivity|]. split; [reflexivity|].
    split; [reflexivity|]. split; [reflexivity|].
    split; [intros j k' _; apply Hin | reflexivity].
  - split; [destruct Hon as [k' Hk']; exists k'; apply Hin; exact Hk'|].
    simpl. pose proof (concat_insert_length (lanes w) k l (sort_by_x wx l) Hl) as C.
    assert (L : length (sort_by_x wx l) = length l)
      by (unfold sort_by_x; apply Permutation_length, sort_by_perm).
    split; [lia | reflexivity].
Qed.

Lemma trafico_try_target_wf cfg w i k d :
  highway_wf w -> in_lane w k i -> d <> 0%Z ->
  exists r,
    Trafico.try_target cfg w i d = Ok r
    /\ match r with
       | None => True
       | Some w' => lane_step_ok i w w'
       end.
Proof.
  intros Hwf Hin Hd.
  destruct (wf_lane_of w k i Hwf Hin) as (veh & Hveh & Hk & Hklt & Hrange).
  destruct Hin as (src & Hsrc & Hi).
  unfold Trafico.try_target. rewrite Hveh. simpl.
  destruct (_ || _)%bool eqn:E; [exists None; auto|].
  apply orb_false_iff in E as [E1 E2]. apply Z.ltb_ge in E1. apply Z.leb_gt in E2.
  destruct (wf_py_get w (lane veh + d) Hwf) as (tgt & Hg & _); [lia|].
  rewrite Hg. simpl.
  destruct (_ && _)%bool; [|exists None; auto].
  destruct (match nearest_ahead w veh tgt with Some _ => _ | None => _ end);
    [exists None; auto|].
  assert (Hs : py_get (lanes w) (lane veh) = Ok src)
    by (rewrite Hk; apply py_get_nat; exact Hsrc).
  rewrite Hs. simpl.
  destruct (py_remove_In i src Hi) as (r & Hpr & Hr). rewrite Hpr. simpl.
  destruct (relane_ok w i k veh src r (lane veh + d) Hwf
              (deref_inv _ _ _ Hveh) Hk Hsrc Hi Hr) as (w' & Hw' & Hok & _); [lia | lia|].
  apply bind_inv in Hw' as (w2 & Hw2 & Hw3). rewrite Hw2. simpl. rewrite Hw3. simpl.
  exists (Some w'). auto.
Qed.

Lemma atascos_try_target_wf cfg w i k d :
  highway_wf w -> in_lane w k i -> d <> 0%Z ->
  exists r,
    Atascos.try_target cfg w i d = Ok r
    /\ match r with
       | None => True
       | Some w' => lane_step_ok i w w'
       end.
Proof.
  intros Hwf Hin Hd.
  destruct (wf_lane_of w k i Hwf Hin) as (veh & Hveh & Hk & Hklt & Hrange).
  destruct Hin as (src & Hsrc & Hi).
  unfold Atascos.try_target. rewrite Hveh. simpl.
  destruct (_ || _)%bool eqn:E; [exists None; auto|].
  apply orb_false_iff in E as [E1 E2]. apply Z.ltb_ge in E1. apply Z.leb_gt in E2.
  destruct (wf_py_get w (lane veh + d) Hwf) as (tgt & Hg & _); [lia|].
  rewrite Hg. simpl.
  destruct (_ && _)%bool; [|exists None; auto].
  assert (Hs : py_get (lanes w) (lane veh) = Ok src)
    by (rewrite Hk; apply py_get_nat; exact Hsrc).
  rewrite Hs. simpl.
  replace (py_in i src) with true by (symmetry; apply py_in_In; exact Hi).
  destruct (py_remove_In i src Hi) as (r & Hpr & Hr). rewrite Hpr. simpl.
  destruct (relane_ok w i k veh src r (lane veh + d) Hwf
              (deref_inv _ _ _ Hveh) Hk Hsrc Hi Hr) as (w' & Hw' & Hok & _ & Hoth);
    [lia | lia|].
  apply bind_inv in Hw' as (w2 & Hw2 & Hw3). rewrite Hw2. simpl. rewrite Hw3. simpl.
  replace (lane veh + d - d)%Z with (Z.of_nat k) by lia.
  assert (Hlk : lanes w' !! k = Some r).
  { rewrite Hoth by lia. apply list_lookup_insert_eq. exact Hklt. }
  rewrite (py_get_nat _ _ _ Hlk). simpl. rewrite py_set_nonneg by lia. rewrite Nat2Z.id.
  eexists (Some _). split; [reflexivity|].
  eapply lane_step_trans; [exact Hok|].
  apply sort_lane_ok; [apply Hok | apply Hok | exact Hlk].
Qed.

Lemma traff_move_vehicle_wf w i k (t : Z) :
  highway_wf w -> in_lane w k i -> (0 <= t < num_lanes w)%Z -> t <> Z.of_nat k ->
  exists w', Traff._move_vehicle w i t = Ok w' /\ lane_step_ok i w w'.
Proof.
  intros Hwf Hin Ht Hne.
  destruct (wf_lane_of w k i Hwf Hin) as (veh & Hveh & Hk & Hklt & Hrange).
  destruct Hin as (src & Hsrc & Hi).
  unfold Traff._move_vehicle. rewrite Hveh. simpl.
  assert (Hs : py_get (lanes w) (lane veh) = Ok src)
    by (rewrite Hk; apply py_get_nat; exact Hsrc).
  rewrite Hs. simpl.
  destruct (py_remove_In i src Hi) as (r & _ & Hr). rewrite Hr.
  destruct (relane_ok w i k veh src r t Hwf
              (deref_inv _ _ _ Hveh) Hk Hsrc Hi Hr Ht Hne) as (w' & Hw' & Hok & _).
  exists w'. split; [exact Hw' | exact Hok].
Qed.

Lemma traff_try_target_wf cfg w i k d :
  highway_wf w -> in_lane w k i -> d <> 0%Z ->
  exists r,
    Traff.try_target cfg w i d = Ok r
    /\ match r with
       | None => True
       | Some w' => lane_step_ok i w w'
       end.
Proof.
  intros Hwf Hin Hd.
  destruct (wf_lane_of w k i Hwf Hin) as (veh & Hveh & Hk & Hklt & Hrange).
  unfold Traff.try_target. rewrite Hveh. simpl.
  destruct (_ || _)%bool eqn:E; [exists None; auto|].
  apply orb_false_iff in E as [E1 E2]. apply Z.ltb_ge in E1. apply Z.leb_gt in E2.
  destruct (wf_py_get w (lane veh + d) Hwf) as (tgt & Hg & _); [lia|].
  rewrite Hg. simpl.
  destruct (traff_move_vehicle_wf w i k (lane veh + d) Hwf Hin) as (w' & Hw' & Hok);
    [lia | lia|].
  destruct (_ && _)%bool.
  - rewrite Hw'. simpl. exists (Some w'). auto.
  - destruct (_ && _)%bool; [|exists None; auto].
    destruct (match nearest_ahead w veh tgt with Some _ => _ | None => _ end);
      [exists None; auto|].
    rewrite Hw'. simpl. exists (Some w'). auto.
Qed.

Lemma trafico_try_lane_change_wf cfg w i k :
  highway_wf w -> in_lane w k i ->
  exists w' c, Trafico.try_lane_change cfg w i = Ok (w', c) /\ lane_step_ok i w w'.
Proof.
  intros Hwf Hin. unfold Trafico.try_lane_change. cbn [Trafico.try_targets].
  destruct (trafico_try_target_wf cfg w i k (-1) Hwf Hin) as ([w1|] & -> & H1);
    [lia | simpl; eauto |]. simpl.
  destruct (trafico_try_target_wf cfg w i k 1 Hwf Hin) as ([w1|] & -> & H2);
    [lia | simpl; eauto |]. simpl.
  do 2 eexists. split; [reflexivity|]. apply lane_step_refl; [exact Hwf|].
  exists k. exact Hin.
Qed.

Lemma atascos_try_change_lane_wf cfg w i k :
  highway_wf w -> in_lane w k i ->
  exists w' c, Atascos.try_change_lane cfg w i = Ok (w', c) /\ lane_step_ok i w w'.
Proof.
  intros Hwf Hin. unfold Atascos.try_change_lane. cbn [Atascos.try_targets].
  destruct (atascos_try_target_wf cfg w i k (-1) Hwf Hin) as ([w1|] & -> & H1);
    [lia | simpl; eauto |]. simpl.
  destruct (atascos_try_target_wf cfg w i k 1 Hwf Hin) as ([w1|] & -> & H2);
    [lia | simpl; eauto |]. simpl.
  do 2 eexists. split; [reflexivity|]. apply lane_step_refl; [exact Hwf|].
  exists k. exact Hin.
Qed.

Lemma traff_try_lane_change_wf cfg w i k :
  highway_wf w -> in_lane w k i ->
  exists w' c, Traff.try_lane_change cfg w i = Ok (w', c) /\ lane_step_ok i w w'.
Proof.
  intros Hwf Hin. unfold Traff.try_lane_change. cbn [Traff.try_targets].
  destruct (traff_try_target_wf cfg w i k (-1) Hwf Hin) as ([w1|] & -> & H1);
    [lia | simpl; eauto |]. simpl.
  destruct (traff_try_target_wf cfg w i k 1 Hwf Hin) as ([w1|] & -> & H2);
    [lia | simpl; eauto |]. simpl.
  do 2 eexists. split; [reflexivity|]. apply lane_step_refl; [exact Hwf|].
  exists k. exact Hin.
Qed.

(** An attribute write other than [lane], as a step on the highway. *)
Lemma update_step_ok w i f k :
  highway_wf w -> in_lane w k i -> (forall u, lane (f u) = lane u) ->
  exists w', update w i f = Ok w' /\ lane_step_ok i w w' /\ lanes w' = lanes w.
Proof.
  intros Hwf Hin Hf.
  destruct (wf_lane_of w k i Hwf Hin) as (veh & Hveh & _).
  apply deref_inv in Hveh.
  rewrite (update_ok w i f veh Hveh). eexists. split; [reflexivity|].
  destruct (update_same_road w i f veh Hveh (Hf veh) Hwf) as [H1 H2].
  split; [|reflexivity].
  split; [exact H1|]. split; [exact H2|]. split; [reflexivity|].
  split; [|split; reflexivity].
  exists k. destruct Hin as (l & Hl & Hi). exists l. auto.
Qed.

Lemma lane_step_on_road i w w' : lane_step_ok i w w' -> exists k, in_lane w' k i.
Proof. intros (_ & _ & _ & H & _). exact H. Qed.

(** The car-following sub-step, whatever the rule [follow] that gives the
    new speed, provided the rule gives one to a vehicle of a lane. *)
Lemma car_following_wf (follow : World -> Vehicle -> option nat -> result Q) w i k :
  highway_wf w -> in_lane w k i ->
  (forall veh a, (0 <= lane veh < num_lanes w)%Z -> exists s, follow w veh a = Ok s) ->
  exists w' e,
    (a ← ahead w i;
     veh ← deref w i;
     s ← follow w veh a;
     w1 ← update w i (set_v s);
     mret (w1, [CarFollowing i (lane veh) a])) = Ok (w', e)
    /\ lane_step_ok i w w'.
Proof.
  intros Hwf Hin Hf.
  destruct (ahead_ok w k i Hwf Hin) as (a & ->). simpl.
  destruct (wf_lane_of w k i Hwf Hin) as (veh & Hveh & _ & _ & Hr).
  rewrite Hveh. simpl.
  destruct (Hf veh a Hr) as (s & ->). simpl.
  destruct (update_step_ok w i (set_v s) k Hwf Hin) as (w' & -> & Hok & _);
    [reflexivity|].
  simpl. do 2 eexists. split; [reflexivity | exact Hok].
Qed.

Lemma trafico_follow_speed_ok cfg w veh a :
  ~ Trafico.SAFE_TIME_HEADWAY cfg == 0 ->
  exists s, Trafico.follow_speed cfg w veh a = Ok s.
Proof.
  intros H. unfold Trafico.follow_speed. destruct a as [j|]; [|eexists; reflexivity].
  rewrite py_div_ok by exact H. simpl.
  destruct (Qltb _ _); eexists; reflexivity.
Qed.

Lemma atascos_follow_speed_ok cfg w veh a :
  exists s, Atascos.follow_speed cfg w veh a = Ok s.
Proof.
  unfold Atascos.follow_speed, Atascos.safe_speed.
  destruct a as [j|]; [|eexists; reflexivity].
  rewrite py_div_ok.
  - simpl. destruct (Qltb _ _); eexists; reflexivity.
  - intros Hc.
    assert (H : 1 # 1000000 <= Qmax (1 # 1000000) (Atascos.SAFE_TIME_HEADWAY cfg))
      by apply Q.le_max_l.
    rewrite Hc in H. apply (Qle_not_lt _ _ H). reflexivity.
Qed.

Lemma traff_follow_speed_ok cfg w veh a dt :
  (0 <= lane veh < Z.of_nat (length (Traff.LANE_SPEED_KMH cfg)))%Z ->
  exists s, Traff.follow_speed cfg w veh a dt = Ok s.
Proof.
  intros Hl. unfold Traff.follow_speed, Traff.desired_top, Traff.safe_speed.
  destruct (py_get_ok (Traff.LANE_SPEED_MS cfg) (lane veh)) as (lim & -> & _).
  { unfold Traff.LANE_SPEED_MS. rewrite length_map. exact Hl. }
  simpl. destruct a as [j|]; [|eexists; reflexivity].
  rewrite py_div_ok.
  - simpl. destruct (Qltb _ _); eexists; reflexivity.
  - intros Hc.
    assert (H : 0.1 <= Qmax 0.1 (Traff.SAFE_TIME_HEADWAY cfg)) by apply Q.le_max_l.
    rewrite Hc in H. apply (Qle_not_lt _ _ H). reflexivity.
Qed.

Lemma lane_step_all_wf i w w' :
  lane_step_ok i w w' -> on_road w i -> all_wf w -> all_wf w'.
Proof.
  intros (_ & Hs & Ha & Hon' & _) Hon Hall.
  eapply all_wf_same; [exact Hall | exact Ha | exact Hs | tauto].
Qed.

Lemma same_road_objects i w w' : same_road_except i w w' -> same_objects w w'.
Proof. intros (H1 & _ & _ & H4 & _). split; assumption. Qed.

Lemma same_objects_refl w : same_objects w w.
Proof. split; [reflexivity | intros; reflexivity]. Qed.

Lemma same_objects_trans w1 w2 w3 :
  same_objects w1 w2 -> same_objects w2 w3 -> same_objects w1 w3.
Proof.
  intros [A1 A2] [B1 B2]. split; [congruence|].
  intros j. rewrite B2, A2. reflexivity.
Qed.

(** *** [trafico.py]: the handling of a vehicle *)

Lemma trafico_lane_change_step_wf cfg w i k :
  highway_wf w -> in_lane w k i ->
  exists w' e, Trafico.lane_change_step cfg w i = Ok (w', e) /\ lane_step_ok i w w'.
Proof.
  intros Hwf Hin. unfold Trafico.lane_change_step.
  destruct (ahead_ok w k i Hwf Hin) as (a & ->). simpl.
  destruct (wf_lane_of w k i Hwf Hin) as (veh & -> & _). simpl.
  assert (Hsame : lane_step_ok i w w)
    by (apply lane_step_refl; [exact Hwf | exists k; exact Hin]).
  destruct a as [j|]; [|do 2 eexists; split; [reflexivity | exact Hsame]].
  destruct (Qltb _ _); [|do 2 eexists; split; [reflexivity | exact Hsame]].
  destruct (trafico_try_lane_change_wf cfg w i k Hwf Hin) as (w' & c & -> & Hok).
  simpl. do 2 eexists. split; [reflexivity | exact Hok].
Qed.

Lemma trafico_slowdown_wf cfg w i k u :
  highway_wf w -> in_lane w k i ->
  exists w', Trafico.slowdown_step cfg w i u = Ok w' /\ lane_step_ok i w w'.
Proof.
  intros Hwf Hin. unfold Trafico.slowdown_step. destruct (Qltb _ _).
  - destruct (update_step_ok w i (fun veh => set_v (Qmax 0 (v veh - 3)) veh) k Hwf Hin)
      as (w' & -> & Hok & _); [reflexivity | eauto].
  - eexists. split; [reflexivity|].
    apply lane_step_refl; [exact Hwf | exists k; exact Hin].
Qed.

Lemma trafico_integrate_wf cfg w i k :
  highway_wf w -> in_lane w k i ->
  exists w', Trafico.integrate_step cfg w i = Ok w' /\ lane_step_ok i w w'.
Proof.
  intros Hwf Hin. unfold Trafico.integrate_step.
  destruct (update_step_ok w i (fun veh => set_x (x veh + v veh * Trafico.DT cfg) veh)
              k Hwf Hin) as (w' & -> & Hok & _); [reflexivity | eauto].
Qed.

Lemma stats_total_set ty i (s : ByType (list nat)) :
  stats_total (set_type ty (get_type ty s ++ [i]) s) = S (stats_total s).
Proof.
  unfold stats_total. destruct ty; simpl; rewrite length_app; simpl; lia.
Qed.

Lemma trafico_exit_step_wf st i k :
  highway_wf (Trafico.world st) -> all_wf (Trafico.world st) ->
  in_lane (Trafico.world st) k i ->
  exists st',
    Trafico.exit_step st i = Ok st'
    /\ highway_wf (Trafico.world st') /\ all_wf (Trafico.world st')
    /\ same_road_except i (Trafico.world st) (Trafico.world st')
    /\ Trafico.t st' = Trafico.t st
    /\ Trafico.next_arrival st' = Trafico.next_arrival st
    /\ Trafico.next_id st' = Trafico.next_id st
    /\ Trafico.rng st' = Trafico.rng st
    /\ Trafico.start_real st' = Trafico.start_real st
    /\ Trafico.clock st' = Trafico.clock st
    /\ Trafico.frames st' = Trafico.frames st
    /\ (length (all (Trafico.world st')) + stats_total (Trafico.stats st')
        = length (all (Trafico.world st)) + stats_total (Trafico.stats st))%nat.
Proof.
  intros Hwf Hall Hin. unfold Trafico.exit_step.
  destruct (wf_lane_of _ k i Hwf Hin) as (veh & Hveh & _). rewrite Hveh. simpl.
  destruct (Qle_bool _ _).
  - destruct (update_step_ok (Trafico.world st) i (set_exit (Trafico.t st)) k Hwf Hin)
      as (w1 & -> & Hok1 & Hl1); [reflexivity|]. simpl.
    assert (Hin1 : in_lane w1 k i) by (apply (in_lane_objs _ _ _ _ Hl1); exact Hin).
    assert (Hall1 : all_wf w1).
    { eapply lane_step_all_wf; [exact Hok1 | exists k; exact Hin | exact Hall]. }
    destruct Hok1 as (Hwf1 & Hs1 & Ha1 & _).
    destruct (remove_wf true w1 i k Hwf1 Hin1 (fun _ => Hall1))
      as (w2 & -> & Hwf2 & Hall2 & _ & Hs2 & _ & Hlen & _).
    simpl. eexists. split; [reflexivity|]. simpl.
    split; [exact Hwf2|]. split; [apply Hall2; reflexivity|].
    split; [eapply same_road_trans; eassumption|].
    repeat (split; [reflexivity|]).
    rewrite stats_total_set. specialize (Hlen eq_refl). rewrite <- Ha1. lia.
  - eexists. split; [reflexivity|]. split; [exact Hwf|]. split; [exact Hall|].
    split; [apply same_road_refl|]. repeat (split; [reflexivity|]). reflexivity.
Qed.

Lemma next_random_shuffles r : shuffles (snd (next_random r)) = shuffles r.
Proof. unfold next_random. destruct (randoms r); reflexivity. Qed.

Lemma trafico_dyn_refl st :
  highway_wf (Trafico.world st) -> all_wf (Trafico.world st) -> trafico_dyn st st.
Proof.
  intros H1 H2. split; [exact H1|]. split; [exact H2|].
  split; [apply same_objects_refl|]. repeat (split; [reflexivity|]). reflexivity.
Qed.

Lemma trafico_dyn_trans st1 st2 st3 :
  trafico_dyn st1 st2 -> trafico_dyn st2 st3 -> trafico_dyn st1 st3.
Proof.
  intros (_ & _ & A3 & A4 & A5 & A6 & A7 & A8) (B1 & B2 & B3 & B4 & B5 & B6 & B7 & B8).
  split; [exact B1|]. split; [exact B2|].
  split; [eapply same_objects_trans; eassumption|].
  repeat (split; [congruence|]). lia.
Qed.

(** The handling of a vehicle that is on the road succeeds, and the
    other vehicles stay where they are listed. *)
Lemma trafico_process_wf cfg st i :
  ~ Trafico.SAFE_TIME_HEADWAY cfg == 0 ->
  highway_wf (Trafico.world st) -> all_wf (Trafico.world st) ->
  on_road (Trafico.world st) i ->
  exists st',
    Trafico.process cfg st i = Ok st' /\ trafico_dyn st st'
    /\ same_road_except i (Trafico.world st) (Trafico.world st').
Proof.
  intros HH Hwf Hall [k Hin]. unfold Trafico.process.
  destruct (trafico_lane_change_step_wf cfg _ i k Hwf Hin) as (w1 & e1 & -> & Hok1).
  simpl.
  pose proof (lane_step_all_wf _ _ _ Hok1 (ex_intro _ k Hin) Hall) as Hall1.
  destruct (lane_step_on_road _ _ _ Hok1) as [k1 Hin1].
  pose proof Hok1 as (Hwf1 & Hs1 & Ha1 & _).
  destruct (car_following_wf (Trafico.follow_speed cfg) w1 i k1 Hwf1 Hin1)
    as (w2 & e2 & Hcf & Hok2).
  { intros veh a _. apply trafico_follow_speed_ok. exact HH. }
  unfold Trafico.car_following_step. rewrite Hcf. simpl.
  pose proof (lane_step_all_wf _ _ _ Hok2 (ex_intro _ k1 Hin1) Hall1) as Hall2.
  destruct (lane_step_on_road _ _ _ Hok2) as [k2 Hin2].
  pose proof Hok2 as (Hwf2 & Hs2 & Ha2 & _).
  pose proof (next_random_shuffles (Trafico.rng st)) as Hsh.
  destruct (next_random (Trafico.rng st)) as [u r]. simpl in Hsh.
  destruct (trafico_slowdown_wf cfg w2 i k2 u Hwf2 Hin2) as (w3 & -> & Hok3). simpl.
  pose proof (lane_step_all_wf _ _ _ Hok3 (ex_intro _ k2 Hin2) Hall2) as Hall3.
  destruct (lane_step_on_road _ _ _ Hok3) as [k3 Hin3].
  pose proof Hok3 as (Hwf3 & Hs3 & Ha3 & _).
  destruct (trafico_integrate_wf cfg w3 i k3 Hwf3 Hin3) as (w4 & -> & Hok4). simpl.
  pose proof (lane_step_all_wf _ _ _ Hok4 (ex_intro _ k3 Hin3) Hall3) as Hall4.
  destruct (lane_step_on_road _ _ _ Hok4) as [k4 Hin4].
  pose proof Hok4 as (Hwf4 & Hs4 & Ha4 & _).
  match goal with |- exists st', Trafico.exit_step ?S i = Ok st' /\ _ => set (st4 := S) end.
  destruct (trafico_exit_step_wf st4 i k4 Hwf4 Hall4 Hin4)
    as (st' & -> & Hwf' & Hall' & Hs' & E1 & E2 & E3 & E4 & _ & _ & _ & Hcount).
  exists st'. split; [reflexivity|].
  assert (Hsr : same_road_except i (Trafico.world st) (Trafico.world st')).
  { eapply same_road_trans; [exact Hs1|]. eapply same_road_trans; [exact Hs2|].
    eapply same_road_trans; [exact Hs3|]. eapply same_road_trans; [exact Hs4|].
    exact Hs'. }
  split; [|exact Hsr].
  split; [exact Hwf'|]. split; [exact Hall'|].
  split; [eapply same_road_objects; exact Hsr|].
  simpl in E1, E2, E3, E4, Hcount.
  split; [exact E1|]. split; [exact E2|]. split; [exact E3|].
  split; [rewrite E4; exact Hsh|].
  rewrite Hcount. rewrite Ha4, Ha3, Ha2, Ha1. reflexivity.
Qed.

Lemma same_road_on_road i j w w' :
  same_road_except i w w' -> j <> i -> on_road w j -> on_road w' j.
Proof.
  intros (_ & _ & _ & _ & H & _) Hne [k Hk]. exists k. apply (H j k Hne). exact Hk.
Qed.

(** The loop over the copy of the list of a lane. *)
Lemma trafico_process_all_wf cfg l : forall st,
  ~ Trafico.SAFE_TIME_HEADWAY cfg == 0 ->
  highway_wf (Trafico.world st) -> all_wf (Trafico.world st) ->
  NoDup l -> (forall j, In j l -> on_road (Trafico.world st) j) ->
  exists st', Trafico.process_all cfg st l = Ok st' /\ trafico_dyn st st'.
Proof.
  induction l as [|i l IH]; intros st HH Hwf Hall Hnd Hon; cbn [Trafico.process_all].
  - eexists. split; [reflexivity|]. apply trafico_dyn_refl; assumption.
  - apply NoDup_cons in Hnd as [Hil Hnd].
    destruct (trafico_process_wf cfg st i HH Hwf Hall) as (st1 & -> & Hd1 & Hs1);
      [apply Hon; left; reflexivity|]. simpl.
    destruct (IH st1 HH) as (st' & -> & Hd'); [apply Hd1 | apply Hd1 | exact Hnd | |].
    + intros j Hj. eapply same_road_on_road; [exact Hs1 | | apply Hon; right; exact Hj].
      intros ->. apply Hil. apply list_elem_of_In. exact Hj.
    + eexists. split; [reflexivity|]. eapply trafico_dyn_trans; eassumption.
Qed.

(** The loop over the lanes. *)
Lemma trafico_dynamics_wf cfg ls : forall st,
  ~ Trafico.SAFE_TIME_HEADWAY cfg == 0 ->
  highway_wf (Trafico.world st) -> all_wf (Trafico.world st) ->
  Forall (fun l => (0 <= l < num_lanes (Trafico.world st))%Z) ls ->
  exists st', Trafico.dynamics cfg st ls = Ok st' /\ trafico_dyn st st'.
Proof.
  induction ls as [|l ls IH]; intros st HH Hwf Hall Hls; cbn [Trafico.dynamics].
  - eexists. split; [reflexivity|]. apply trafico_dyn_refl; assumption.
  - apply Forall_cons in Hls as [Hl Hls].
    destruct (wf_py_get _ l Hwf Hl) as (snapshot & -> & Hlk). simpl.
    destruct (trafico_process_all_wf cfg snapshot st HH Hwf Hall) as (st1 & -> & Hd1).
    { destruct Hwf as (_ & Hnd & _). eapply Hnd. exact Hlk. }
    { intros j Hj. exists (Z.to_nat l), snapshot. auto. }
    simpl. destruct (IH st1 HH) as (st' & -> & Hd'); [apply Hd1 | apply Hd1 | |].
    + destruct Hd1 as (_ & _ & [Hn _] & _). rewrite Hn. exact Hls.
    + eexists. split; [reflexivity|]. eapply trafico_dyn_trans; eassumption.
Qed.

(** *** [trafico.py]: arrivals, and the whole loop *)

Lemma range_valid n l : In l (range n) -> (0 <= l < n)%Z.
Proof.
  unfold range. intros H. apply in_map_iff in H as (k & <- & Hk).
  apply in_seq in Hk. lia.
Qed.

(** A new object, not yet listed anywhere, leaves the highway well formed. *)
Lemma new_object_wf w n veh :
  highway_wf w -> objs w !! n = None ->
  highway_wf (set_objs (<[n := veh]> (objs w)) w)
  /\ ~ on_road (set_objs (<[n := veh]> (objs w)) w) n
  /\ (all_wf w -> all_wf (set_objs (<[n := veh]> (objs w)) w)).
Proof.
  intros (Hlen & Hnd & Hlo) Hn.
  assert (Hoff : ~ on_road w n).
  { intros [k Hk]. destruct (Hlo k n Hk) as (u & Hu & _). congruence. }
  split; [|split; [exact Hoff|]].
  - split; [exact Hlen|]. split; [exact Hnd|].
    intros k j Hj. destruct (Hlo k j Hj) as (u & Hu & Hk). simpl.
    rewrite lookup_insert_ne by congruence. eauto.
  - intros H. exact H.
Qed.

Lemma trafico_dyn_inv cfg st st' :
  trafico_inv cfg st -> trafico_dyn st st' -> trafico_inv cfg st'.
Proof.
  intros (_ & _ & Hn & Hid & Hsh & Hc) (B1 & B2 & [B3 B3'] & _ & _ & B6 & B7 & B8).
  split; [exact B1|]. split; [exact B2|]. split; [congruence|].
  split; [intros j Hj; rewrite B6; apply Hid; apply B3'; exact Hj|].
  split; [unfold shuffles_valid; rewrite B7; exact Hsh|].
  rewrite B6, B8. exact Hc.
Qed.

Lemma trafico_enter_inv cfg st l ty :
  trafico_inv cfg st -> (0 <= l < Trafico.NUM_LANES cfg)%Z ->
  exists st',
    Trafico.enter cfg st l ty = Ok st' /\ trafico_inv cfg st'
    /\ Trafico.t st' = Trafico.t st
    /\ Trafico.next_arrival st' = Trafico.next_arrival st
    /\ Trafico.rng st' = Trafico.rng st
    /\ Trafico.next_id st' = S (Trafico.next_id st).
Proof.
  intros (Hwf & Hall & Hn & Hid & Hsh & Hc) Hl. unfold Trafico.enter.
  set (n := Trafico.next_id st).
  set (veh := set_entry_time (Trafico.t st) (Trafico.new_vehicle cfg n l ty)).
  assert (Hfresh : objs (Trafico.world st) !! n = None).
  { destruct (objs (Trafico.world st) !! n) eqn:E; [|reflexivity].
    assert (n < n)%nat by (apply Hid; eexists; exact E). lia. }
  destruct (new_object_wf (Trafico.world st) n veh Hwf Hfresh) as (Hwf0 & Hoff0 & Hall0).
  destruct (wf_py_get (Trafico.world st) l Hwf) as (l0 & _ & Hlk); [lia|].
  destruct (add_wf true (set_objs (<[n := veh]> (objs (Trafico.world st)))
                           (Trafico.world st)) n veh (Z.to_nat l) l0)
    as (w' & -> & Hwf' & Hall' & _ & Hs' & Ho' & Ha' & _); try assumption.
  - simpl. apply lookup_insert_eq.
  - simpl. lia.
  - intros _. apply Hall0. exact Hall.
  - simpl. eexists. split; [reflexivity|]. simpl.
    split; [|auto]. unfold trafico_inv. simpl.
    split; [exact Hwf'|]. split; [apply Hall'; reflexivity|].
    destruct Hs' as (Hn' & _). simpl in Hn'. split; [congruence|].
    split.
    + intros j Hj. rewrite Ho' in Hj. simpl in Hj.
      destruct (decide (j = n)) as [->|Hne]; [unfold n; lia|].
      rewrite lookup_insert_ne in Hj by congruence. apply Hid in Hj. lia.
    + split; [exact Hsh|]. rewrite Ha'. simpl. rewrite length_app. simpl.
      fold n in Hc. lia.
Qed.

Lemma trafico_place_inv cfg ty ls : forall st,
  trafico_inv cfg st -> Forall (fun l => (0 <= l < Trafico.NUM_LANES cfg)%Z) ls ->
  exists st',
    Trafico.place cfg st ty ls = Ok st' /\ trafico_inv cfg st'
    /\ Trafico.t st' = Trafico.t st
    /\ Trafico.next_arrival st' = Trafico.next_arrival st
    /\ Trafico.rng st' = Trafico.rng st
    /\ (Trafico.next_id st' = Trafico.next_id st
        \/ Trafico.next_id st' = S (Trafico.next_id st)).
Proof.
  induction ls as [|l ls IH]; intros st Hinv Hls; cbn [Trafico.place].
  - eexists. split; [reflexivity|]. split; [exact Hinv|].
    repeat (split; [reflexivity|]). left. reflexivity.
  - apply Forall_cons in Hls as [Hl Hls].
    pose proof Hinv as (Hwf & _ & Hn & _).
    destruct (wf_py_get (Trafico.world st) l Hwf) as (l0 & -> & _); [lia|]. simpl.
    destruct (trafico_enter_inv cfg st l ty Hinv Hl) as (st' & He & Hi' & E1 & E2 & E3 & E4).
    destruct (py_min_by _ l0) as [first|].
    + destruct (Qltb _ _); [|apply IH; assumption].
      exists st'. split; [exact He|]. split; [exact Hi'|].
      repeat (split; [assumption|]). right. assumption.
    + exists st'. split; [exact He|]. split; [exact Hi'|].
      repeat (split; [assumption|]). right. assumption.
Qed.

Lemma trafico_arrival_inv cfg iv st :
  trafico_inv cfg st ->
  exists st',
    Trafico.arrival cfg iv st = Ok st' /\ trafico_inv cfg st'
    /\ Trafico.t st' = Trafico.t st.
Proof.
  intros Hinv. unfold Trafico.arrival.
  destruct (Qle_bool _ _); [|eexists; split; [reflexivity | split; [exact Hinv | reflexivity]]].
  pose proof Hinv as (Hwf & Hall & Hn & Hid & Hsh & Hc).
  destruct (next_choice (Trafico.rng st)) as [ty r1] eqn:E1.
  assert (Hsh1 : shuffles r1 = shuffles (Trafico.rng st)).
  { unfold next_choice in E1. destruct (choices (Trafico.rng st)).
    - injection E1 as _ <-. reflexivity.
    - injection E1 as _ <-. reflexivity. }
  destruct (next_shuffle r1 (range (Trafico.NUM_LANES cfg))) as [order r2] eqn:E2.
  assert (Hord : Forall (fun l => (0 <= l < Trafico.NUM_LANES cfg)%Z) order
                 /\ shuffles_valid (Trafico.NUM_LANES cfg) r2).
  { unfold next_shuffle in E2. unfold shuffles_valid in Hsh. rewrite <- Hsh1 in Hsh.
    destruct (shuffles r1) as [|s ss] eqn:Es.
    - injection E2 as <- <-. split.
      + apply List.Forall_forall. intros l Hl. apply range_valid. exact Hl.
      + unfold shuffles_valid. rewrite Es. constructor.
    - injection E2 as <- <-. apply Forall_cons in Hsh as [Hs Hss].
      split; [exact Hs | exact Hss]. }
  destruct Hord as [Hord Hsh2].
  match goal with |- exists st', (Trafico.place cfg ?S ty order ≫= _) = Ok st' /\ _ =>
    set (st0 := S) end.
  assert (Hinv0 : trafico_inv cfg st0).
  { unfold trafico_inv, st0. simpl.
    split; [exact Hwf|]. split; [exact Hall|]. split; [exact Hn|].
    split; [exact Hid|]. split; [exact Hsh2 | exact Hc]. }
  destruct (trafico_place_inv cfg ty order st0 Hinv0 Hord)
    as (st1 & -> & Hinv1 & Et & _). simpl.
  eexists. split; [reflexivity|]. simpl. split; [|exact Et].
  exact Hinv1.
Qed.

Lemma trafico_render_inv cfg st :
  ~ Trafico.SPEEDUP cfg == 0 -> trafico_inv cfg st ->
  exists st',
    Trafico.render cfg st = Ok st' /\ trafico_inv cfg st'
    /\ Trafico.t st' = Trafico.t st.
Proof.
  intros HS Hinv. unfold Trafico.render. rewrite py_div_ok by exact HS. simpl.
  destruct (Trafico.next_time (Trafico.clock st) (Trafico.start_real st)) as [now c1].
  destruct (Qle_bool _ _).
  - destruct (Trafico.next_time c1 now) as [now' c2].
    eexists. split; [reflexivity|]. split; [exact Hinv | reflexivity].
  - eexists. split; [reflexivity|]. split; [exact Hinv | reflexivity].
Qed.

Lemma trafico_tick_inv cfg iv st :
  ~ Trafico.SAFE_TIME_HEADWAY cfg == 0 -> ~ Trafico.SPEEDUP cfg == 0 ->
  trafico_inv cfg st ->
  exists st',
    Trafico.tick cfg iv st = Ok st' /\ trafico_inv cfg st'
    /\ Trafico.t st' = Trafico.t st + Trafico.DT cfg.
Proof.
  intros HH HS Hinv. unfold Trafico.tick.
  destruct (trafico_arrival_inv cfg iv st Hinv) as (st1 & -> & Hinv1 & Et1). simpl.
  pose proof Hinv1 as (Hwf1 & Hall1 & Hn1 & _).
  destruct (trafico_dynamics_wf cfg (range (Trafico.NUM_LANES cfg)) st1 HH Hwf1 Hall1)
    as (st2 & -> & Hd2).
  { apply List.Forall_forall. intros l Hl. rewrite Hn1. apply range_valid. exact Hl. }
  simpl.
  pose proof (trafico_dyn_inv cfg st1 st2 Hinv1 Hd2) as Hinv2.
  destruct Hd2 as (_ & _ & _ & Et2 & _).
  match goal with |- exists st', Trafico.render cfg ?S = Ok st' /\ _ => set (st3 := S) end.
  destruct (trafico_render_inv cfg st3 HS) as (st' & -> & Hinv' & Et').
  { exact Hinv2. }
  exists st'. split; [reflexivity|]. split; [exact Hinv'|].
  rewrite Et'. unfold st3. simpl. rewrite Et2, Et1. reflexivity.
Qed.

Lemma trafico_init_inv cfg r c0 :
  shuffles_valid (Trafico.NUM_LANES cfg) r -> trafico_inv cfg (Trafico.init cfg r c0).
Proof.
  intros Hr. unfold Trafico.init. destruct (Trafico.next_time c0 0) as [now c1].
  unfold trafico_inv. simpl.
  split.
  { split; [simpl; apply length_replicate|]. split.
    - intros k l Hl. simpl in Hl. apply lookup_replicate in Hl as [-> _]. constructor.
    - intros k i (l & Hl & Hi). simpl in Hl.
      apply lookup_replicate in Hl as [-> _]. destruct Hi. }
  split.
  { split; [constructor|]. intros i. simpl. split; [intros []|].
    intros (k & l & Hl & Hi). simpl in Hl.
    apply lookup_replicate in Hl as [-> _]. destruct Hi. }
  split; [reflexivity|].
  split; [intros j [u Hu]; rewrite lookup_empty in Hu; discriminate|].
  split; [exact Hr | reflexivity].
Qed.

(** The loop of [run_sim] cannot fail, and keeps the invariant. *)
Lemma trafico_loop_inv cfg iv fuel : forall st,
  ~ Trafico.SAFE_TIME_HEADWAY cfg == 0 -> ~ Trafico.SPEEDUP cfg == 0 ->
  trafico_inv cfg st ->
  exists st', Trafico.loop cfg iv fuel st = Ok st' /\ trafico_inv cfg st'.
Proof.
  induction fuel as [|fuel IH]; intros st HH HS Hinv; cbn [Trafico.loop].
  - eexists. split; [reflexivity | exact Hinv].
  - destruct (Qltb _ _); [|eexists; split; [reflexivity | exact Hinv]].
    destruct (trafico_tick_inv cfg iv st HH HS Hinv) as (st1 & -> & Hinv1 & _). simpl.
    apply IH; assumption.
Qed.

(** X14: [run_sim] of [trafico.py] cannot fail while it simulates, unless
    the headway or the speed-up of the display is zero: whatever [random]
    returns, every iteration of the loop succeeds.  In particular the
    unguarded [self.lanes[veh.lane].remove(veh)] of a lane change never
    raises [ValueError] and no lane index is out of range.  At every test of
    the [while], no lane list holds a vehicle twice, a vehicle listed in
    lane [k] has [k] as its [lane] attribute (so it is in one list only),
    and [highway.all] holds exactly the vehicles listed in the lanes, once
    each. *)
Theorem trafico_loop_never_fails (cfg : Trafico.Config) (iv : Q) (fuel : nat)
    (r : Rng) (c0 : list Q) :
  ~ Trafico.SAFE_TIME_HEADWAY cfg == 0 -> ~ Trafico.SPEEDUP cfg == 0 ->
  shuffles_valid (Trafico.NUM_LANES cfg) r ->
  exists st,
    Trafico.loop cfg iv fuel (Trafico.init cfg r c0) = Ok st
    /\ length (lanes (Trafico.world st)) = Z.to_nat (Trafico.NUM_LANES cfg)
    /\ (forall k l, lanes (Trafico.world st) !! k = Some l -> NoDup l)
    /\ (forall k l i, lanes (Trafico.world st) !! k = Some l -> In i l ->
          exists veh, objs (Trafico.world st) !! i = Some veh /\ lane veh = Z.of_nat k)
    /\ NoDup (all (Trafico.world st))
    /\ (forall i, In i (all (Trafico.world st)) <->
                  exists k l, lanes (Trafico.world st) !! k = Some l /\ In i l).
Proof.
  intros HH HS Hr.
  destruct (trafico_loop_inv cfg iv fuel (Trafico.init cfg r c0) HH HS
              (trafico_init_inv cfg r c0 Hr)) as (st & Hl & Hinv).
  exists st. split; [exact Hl|].
  destruct Hinv as ((Hlen & Hnd & Hlo) & (Hda & Hia) & Hn & _).
  split; [rewrite Hlen, Hn; reflexivity|]. split; [exact Hnd|].
  split; [intros k l i Hk Hi; apply Hlo; exists l; auto|].
  split; [exact Hda | exact Hia].
Qed.

Lemma trafico_loop_never_fails_witness :
  exists st,
    Trafico.loop Trafico.default 1.5 5 (Trafico.init Trafico.default truck_braking [])
    = Ok st
    /\ length (lanes (Trafico.world st)) = Z.to_nat (Trafico.NUM_LANES Trafico.default)
    /\ (forall k l, lanes (Trafico.world st) !! k = Some l -> NoDup l)
    /\ (forall k l i, lanes (Trafico.world st) !! k = Some l -> In i l ->
          exists veh, objs (Trafico.world st) !! i = Some veh /\ lane veh = Z.of_nat k)
    /\ NoDup (all (Trafico.world st))
    /\ (forall i, In i (all (Trafico.world st)) <->
                  exists k l, lanes (Trafico.world st) !! k = Some l /\ In i l).
Proof.
  apply (trafico_loop_never_fails Trafico.default 1.5 5 truck_braking []).
  - unfold Qeq. simpl. lia.
  - unfold Qeq. simpl. lia.
  - repeat constructor; simpl; lia.
Defined.

(** X15: [trafico.py] loses no vehicle and counts none twice: at every
    test of the [while] of [run_sim], the number of [Vehicle] objects
    created so far ([Vehicle._next_id - 1]) is the number of vehicles in
    [highway.all] plus the number of vehicles in the three lists of
    finished vehicles. *)
Theorem trafico_vehicles_conserved (cfg : Trafico.Config) (iv : Q) (fuel : nat)
    (r : Rng) (c0 : list Q) (st : Trafico.State) :
  ~ Trafico.SAFE_TIME_HEADWAY cfg == 0 -> ~ Trafico.SPEEDUP cfg == 0 ->
  shuffles_valid (Trafico.NUM_LANES cfg) r ->
  Trafico.loop cfg iv fuel (Trafico.init cfg r c0) = Ok st ->
  (Trafico.next_id st - 1
   = length (all (Trafico.world st)) + stats_total (Trafico.stats st))%nat
  /\ forall j, is_Some (objs (Trafico.world st) !! j) -> (j < Trafico.next_id st)%nat.
Proof.
  intros HH HS Hr Hl.
  destruct (trafico_loop_inv cfg iv fuel (Trafico.init cfg r c0) HH HS
              (trafico_init_inv cfg r c0 Hr)) as (st' & Hl' & Hinv).
  rewrite Hl in Hl'. injection Hl' as <-.
  destruct Hinv as (_ & _ & _ & Hid & _ & Hc). split; [lia | exact Hid].
Qed.

Lemma trafico_vehicles_conserved_witness :
  (Trafico.next_id (trafico_after 5 truck_braking) - 1
   = length (all (Trafico.world (trafico_after 5 truck_braking)))
     + stats_total (Trafico.stats (trafico_after 5 truck_braking)))%nat
  /\ forall j, is_Some (objs (Trafico.world (trafico_after 5 truck_braking)) !! j) ->
               (j < Trafico.next_id (trafico_after 5 truck_braking))%nat.
Proof.
  apply (trafico_vehicles_conserved Trafico.default 1.5 5 truck_braking []).
  - unfold Qeq. simpl. lia.
  - unfold Qeq. simpl. lia.
  - repeat constructor; simpl; lia.
  - vm_compute. reflexivity.
Defined.

(** *** [atascos.py]: the handling of a vehicle *)

Lemma off_road_kept_refl w : off_road_kept w w.
Proof. intros j Hj. auto. Qed.

Lemma off_road_kept_trans w1 w2 w3 :
  off_road_kept w1 w2 -> off_road_kept w2 w3 -> off_road_kept w1 w3.
Proof.
  intros A B j Hj. destruct (A j Hj) as [A1 A2]. destruct (B j A2) as [B1 B2].
  split; [congruence | exact B2].
Qed.

Lemma same_road_off_road i w w' :
  same_road_except i w w' -> on_road w i -> off_road_kept w w'.
Proof.
  intros (_ & _ & Ho & _ & Hin & _) Hon j Hj.
  assert (Hne : j <> i) by (intros ->; contradiction).
  split; [apply Ho; exact Hne|].
  intros [k Hk]. apply Hj. exists k. apply (Hin j k Hne). exact Hk.
Qed.

Lemma atascos_lane_change_step_wf cfg w i k :
  highway_wf w -> in_lane w k i ->
  exists w' e, Atascos.lane_change_step cfg w i = Ok (w', e) /\ lane_step_ok i w w'.
Proof.
  intros Hwf Hin. unfold Atascos.lane_change_step.
  destruct (ahead_ok w k i Hwf Hin) as (a & ->). simpl.
  destruct (wf_lane_of w k i Hwf Hin) as (veh & -> & _). simpl.
  assert (Hsame : lane_step_ok i w w)
    by (apply lane_step_refl; [exact Hwf | exists k; exact Hin]).
  destruct a as [j|]; [|do 2 eexists; split; [reflexivity | exact Hsame]].
  destruct (_ || _)%bool; [|do 2 eexists; split; [reflexivity | exact Hsame]].
  destruct (atascos_try_change_lane_wf cfg w i k Hwf Hin) as (w' & c & -> & Hok).
  simpl. do 2 eexists. split; [reflexivity | exact Hok].
Qed.

Lemma atascos_slowdown_wf cfg w i k u :
  highway_wf w -> in_lane w k i ->
  exists w', Atascos.slowdown_step cfg w i u = Ok w' /\ lane_step_ok i w w'.
Proof.
  intros Hwf Hin. unfold Atascos.slowdown_step. destruct (Qltb _ _).
  - destruct (update_step_ok w i (fun veh => set_v (Qmax 0 (v veh - 3)) veh) k Hwf Hin)
      as (w' & -> & Hok & _); [reflexivity | eauto].
  - eexists. split; [reflexivity|].
    apply lane_step_refl; [exact Hwf | exists k; exact Hin].
Qed.

Lemma atascos_integrate_wf cfg w i k :
  highway_wf w -> in_lane w k i ->
  exists w', Atascos.integrate_step cfg w i = Ok w' /\ lane_step_ok i w w'.
Proof.
  intros Hwf Hin. unfold Atascos.integrate_step.
  destruct (update_step_ok w i (fun veh => set_x (x veh + v veh * Atascos.DT cfg) veh)
              k Hwf Hin) as (w' & -> & Hok & _); [reflexivity | eauto].
Qed.

Lemma Qsum_snoc (l : list Q) (a : Q) : Qsum (l ++ [a]) == Qsum l + a.
Proof. unfold Qsum. rewrite fold_left_app. simpl. reflexivity. Qed.

(** The line of the csv file and the speed sample of a step. *)
Lemma atascos_sample_step_wf cfg st i k :
  highway_wf (Atascos.world st) -> in_lane (Atascos.world st) k i ->
  exists st',
    Atascos.sample_step cfg st i = Ok st'
    /\ Atascos.world st' = Atascos.world st
    /\ Atascos.t st' = Atascos.t st
    /\ Atascos.next_arrival_time st' = Atascos.next_arrival_time st
    /\ Atascos.queues st' = Atascos.queues st
    /\ Atascos.next_id st' = Atascos.next_id st
    /\ Atascos.rng st' = Atascos.rng st
    /\ Atascos.stats_flow st' = Atascos.stats_flow st
    /\ (csv_ok cfg st -> csv_ok cfg st').
Proof.
  intros Hwf Hin. unfold Atascos.sample_step.
  destruct (wf_lane_of _ k i Hwf Hin) as (veh & -> & _). simpl.
  destruct (Atascos.lines_written st <? Atascos.MAX_LINES cfg)%Z eqn:E.
  - apply Z.ltb_lt in E. eexists. split; [reflexivity|]. simpl.
    repeat (split; [reflexivity|]).
    intros (H1 & H2 & H3 & H4). unfold csv_ok. simpl.
    split; [lia|]. split; [rewrite length_app, H2; simpl; lia|]. split; [lia|].
    rewrite map_app. cbn [map]. rewrite Qsum_snoc, H4. reflexivity.
  - eexists. split; [reflexivity|]. repeat (split; [reflexivity|]). auto.
Qed.

Lemma atascos_exit_step_wf st i k :
  highway_wf (Atascos.world st) -> all_wf (Atascos.world st) ->
  in_lane (Atascos.world st) k i ->
  exists st',
    Atascos.exit_step st i = Ok st'
    /\ highway_wf (Atascos.world st') /\ all_wf (Atascos.world st')
    /\ same_road_except i (Atascos.world st) (Atascos.world st')
    /\ Atascos.t st' = Atascos.t st
    /\ Atascos.next_arrival_time st' = Atascos.next_arrival_time st
    /\ Atascos.queues st' = Atascos.queues st
    /\ Atascos.next_id st' = Atascos.next_id st
    /\ Atascos.rng st' = Atascos.rng st
    /\ Atascos.total_speed st' = Atascos.total_speed st
    /\ Atascos.speed_samples st' = Atascos.speed_samples st
    /\ Atascos.lines_written st' = Atascos.lines_written st
    /\ Atascos.rows st' = Atascos.rows st
    /\ (length (all (Atascos.world st')) + Atascos.stats_flow st'
        = length (all (Atascos.world st)) + Atascos.stats_flow st)%nat.
Proof.
  intros Hwf Hall Hin. unfold Atascos.exit_step.
  destruct (wf_lane_of _ k i Hwf Hin) as (veh & Hveh & _). rewrite Hveh. simpl.
  destruct (Qle_bool _ _).
  - destruct (update_step_ok (Atascos.world st) i (fun u => set_exit (Atascos.t st) u)
                k Hwf Hin) as (w1 & -> & Hok1 & Hl1); [reflexivity|]. simpl.
    assert (Hin1 : in_lane w1 k i) by (apply (in_lane_objs _ _ _ _ Hl1); exact Hin).
    assert (Hall1 : all_wf w1).
    { eapply lane_step_all_wf; [exact Hok1 | exists k; exact Hin | exact Hall]. }
    destruct Hok1 as (Hwf1 & Hs1 & Ha1 & _).
    destruct (remove_wf true w1 i k Hwf1 Hin1 (fun _ => Hall1))
      as (w2 & -> & Hwf2 & Hall2 & _ & Hs2 & _ & Hlen & _).
    simpl. eexists. split; [reflexivity|]. simpl.
    split; [exact Hwf2|]. split; [apply Hall2; reflexivity|].
    split; [eapply same_road_trans; eassumption|].
    repeat (split; [reflexivity|]).
    specialize (Hlen eq_refl). rewrite <- Ha1. lia.
  - eexists. split; [reflexivity|]. split; [exact Hwf|]. split; [exact Hall|].
    split; [apply same_road_refl|]. repeat (split; [reflexivity|]). reflexivity.
Qed.

Lemma next_random_randints r : randints (snd (next_random r)) = randints r.
Proof. unfold next_random. destruct (randoms r); reflexivity. Qed.

Lemma atascos_dyn_refl cfg st :
  highway_wf (Atascos.world st) -> all_wf (Atascos.world st) -> atascos_dyn cfg st st.
Proof.
  intros H1 H2. split; [exact H1|]. split; [exact H2|].
  split; [apply same_objects_refl|]. split; [apply off_road_kept_refl|].
  repeat (split; [reflexivity|]). auto.
Qed.

Lemma atascos_dyn_trans cfg st1 st2 st3 :
  atascos_dyn cfg st1 st2 -> atascos_dyn cfg st2 st3 -> atascos_dyn cfg st1 st3.
Proof.
  intros (_ & _ & A3 & A4 & A5 & A6 & A7 & A8 & A9 & A10 & A11)
         (B1 & B2 & B3 & B4 & B5 & B6 & B7 & B8 & B9 & B10 & B11).
  split; [exact B1|]. split; [exact B2|].
  split; [eapply same_objects_trans; eassumption|].
  split; [eapply off_road_kept_trans; eassumption|].
  repeat (split; [congruence|]). auto.
Qed.

Lemma atascos_process_wf cfg st i :
  highway_wf (Atascos.world st) -> all_wf (Atascos.world st) ->
  on_road (Atascos.world st) i ->
  exists st',
    Atascos.process cfg st i = Ok st' /\ atascos_dyn cfg st st'
    /\ same_road_except i (Atascos.world st) (Atascos.world st').
Proof.
  intros Hwf Hall [k Hin]. unfold Atascos.process.
  destruct (atascos_lane_change_step_wf cfg _ i k Hwf Hin) as (w1 & e1 & -> & Hok1).
  simpl.
  pose proof (lane_step_all_wf _ _ _ Hok1 (ex_intro _ k Hin) Hall) as Hall1.
  destruct (lane_step_on_road _ _ _ Hok1) as [k1 Hin1].
  pose proof Hok1 as (Hwf1 & Hs1 & Ha1 & _).
  destruct (car_following_wf (Atascos.follow_speed cfg) w1 i k1 Hwf1 Hin1)
    as (w2 & e2 & Hcf & Hok2).
  { intros veh a _. apply atascos_follow_speed_ok. }
  unfold Atascos.car_following_step. rewrite Hcf. simpl.
  pose proof (lane_step_all_wf _ _ _ Hok2 (ex_intro _ k1 Hin1) Hall1) as Hall2.
  destruct (lane_step_on_road _ _ _ Hok2) as [k2 Hin2].
  pose proof Hok2 as (Hwf2 & Hs2 & Ha2 & _).
  pose proof (next_random_randints (Atascos.rng st)) as Hsh.
  destruct (next_random (Atascos.rng st)) as [u r]. simpl in Hsh.
  destruct (atascos_slowdown_wf cfg w2 i k2 u Hwf2 Hin2) as (w3 & -> & Hok3). simpl.
  pose proof (lane_step_all_wf _ _ _ Hok3 (ex_intro _ k2 Hin2) Hall2) as Hall3.
  destruct (lane_step_on_road _ _ _ Hok3) as [k3 Hin3].
  pose proof Hok3 as (Hwf3 & Hs3 & Ha3 & _).
  destruct (atascos_integrate_wf cfg w3 i k3 Hwf3 Hin3) as (w4 & -> & Hok4). simpl.
  pose proof (lane_step_all_wf _ _ _ Hok4 (ex_intro _ k3 Hin3) Hall3) as Hall4.
  destruct (lane_step_on_road _ _ _ Hok4) as [k4 Hin4].
  pose proof Hok4 as (Hwf4 & Hs4 & Ha4 & _).
  match goal with
  | |- exists st', (Atascos.sample_step cfg ?S i ≫= _) = Ok st' /\ _ => set (st4 := S)
  end.
  destruct (atascos_sample_step_wf cfg st4 i k4 Hwf4 Hin4)
    as (st5 & -> & Ew & F1 & F2 & F3 & F4 & F5 & F6 & Hcsv). simpl.
  assert (Hwf5 : highway_wf (Atascos.world st5)) by (rewrite Ew; exact Hwf4).
  assert (Hall5 : all_wf (Atascos.world st5)) by (rewrite Ew; exact Hall4).
  assert (Hin5 : in_lane (Atascos.world st5) k4 i) by (rewrite Ew; exact Hin4).
  destruct (atascos_exit_step_wf st5 i k4 Hwf5 Hall5 Hin5)
    as (st' & -> & Hwf' & Hall' & Hs' & E1 & E2 & E3 & E4 & E5 & E6 & E7 & E8 & E9
        & Hcount).
  exists st'. split; [reflexivity|].
  assert (Hsr : same_road_except i (Atascos.world st) (Atascos.world st')).
  { eapply same_road_trans; [exact Hs1|]. eapply same_road_trans; [exact Hs2|].
    eapply same_road_trans; [exact Hs3|]. eapply same_road_trans; [exact Hs4|].
    rewrite Ew in Hs'. exact Hs'. }
  split; [|exact Hsr].
  split; [exact Hwf'|]. split; [exact Hall'|].
  split; [eapply same_road_objects; exact Hsr|].
  split; [eapply same_road_off_road; [exact Hsr | exists k; exact Hin]|].
  unfold st4 in *. simpl in *.
  split; [congruence|]. split; [congruence|]. split; [congruence|].
  split; [congruence|]. split; [congruence|].
  split.
  - rewrite Hcount, F6, Ew. simpl. rewrite Ha4, Ha3, Ha2, Ha1. reflexivity.
  - intros Hc. assert (H5 : csv_ok cfg st5) by (apply Hcsv; exact Hc).
    destruct H5 as (C1 & C2 & C3 & C4). unfold csv_ok. rewrite E6, E7, E8, E9. auto.
Qed.

Lemma atascos_process_all_wf cfg l : forall st,
  highway_wf (Atascos.world st) -> all_wf (Atascos.world st) ->
  NoDup l -> (forall j, In j l -> on_road (Atascos.world st) j) ->
  exists st', Atascos.process_all cfg st l = Ok st' /\ atascos_dyn cfg st st'.
Proof.
  induction l as [|i l IH]; intros st Hwf Hall Hnd Hon; cbn [Atascos.process_all].
  - eexists. split; [reflexivity|]. apply atascos_dyn_refl; assumption.
  - apply NoDup_cons in Hnd as [Hil Hnd].
    destruct (atascos_process_wf cfg st i Hwf Hall) as (st1 & -> & Hd1 & Hs1);
      [apply Hon; left; reflexivity|]. simpl.
    destruct (IH st1) as (st' & -> & Hd'); [apply Hd1 | apply Hd1 | exact Hnd | |].
    + intros j Hj. eapply same_road_on_road; [exact Hs1 | | apply Hon; right; exact Hj].
      intros ->. apply Hil. apply list_elem_of_In. exact Hj.
    + eexists. split; [reflexivity|]. eapply atascos_dyn_trans; eassumption.
Qed.

Lemma atascos_dynamics_wf cfg ls : forall st,
  highway_wf (Atascos.world st) -> all_wf (Atascos.world st) ->
  Forall (fun l => (0 <= l < num_lanes (Atascos.world st))%Z) ls ->
  exists st', Atascos.dynamics cfg st ls = Ok st' /\ atascos_dyn cfg st st'.
Proof.
  induction ls as [|l ls IH]; intros st Hwf Hall Hls; cbn [Atascos.dynamics].
  - eexists. split; [reflexivity|]. apply atascos_dyn_refl; assumption.
  - apply Forall_cons in Hls as [Hl Hls].
    destruct (wf_py_get _ l Hwf Hl) as (snapshot & -> & Hlk). simpl.
    destruct (atascos_process_all_wf cfg snapshot st Hwf Hall) as (st1 & -> & Hd1).
    { destruct Hwf as (_ & Hnd & _). eapply Hnd. exact Hlk. }
    { intros j Hj. exists (Z.to_nat l), snapshot. auto. }
    simpl. destruct (IH st1) as (st' & -> & Hd'); [apply Hd1 | apply Hd1 | |].
    + destruct Hd1 as (_ & _ & [Hn _] & _). rewrite Hn. exact Hls.
    + eexists. split; [reflexivity|]. eapply atascos_dyn_trans; eassumption.
Qed.

(** *** [atascos.py]: arrivals, admission, and the whole loop *)

Lemma atascos_dyn_inv cfg st st' :
  atascos_inv cfg st -> atascos_dyn cfg st st' -> atascos_inv cfg st'.
Proof.
  intros (_ & _ & Hn & Hql & Hqd & Hq & Hid & Hr & Hc & Hcsv)
         (B1 & B2 & [B3 B3'] & B4 & _ & _ & B7 & B8 & B9 & B10 & B11).
  split; [exact B1|]. split; [exact B2|]. split; [congruence|].
  split; [rewrite B7; exact Hql|].
  split; [rewrite B7; exact Hqd|].
  split.
  { intros k i Hi. unfold in_queue in Hi. rewrite B7 in Hi.
    destruct (Hq k i Hi) as (veh & Hv & Hk & Hoff).
    destruct (B4 i Hoff) as [Ho Hoff']. exists veh. rewrite Ho. auto. }
  split; [intros j Hj; rewrite B8; apply Hid; apply B3'; exact Hj|].
  split; [unfold randints_valid; rewrite B9; exact Hr|].
  split; [rewrite B7, B8; lia | auto].
Qed.

Lemma atascos_arrival_inv cfg iv st :
  (0 < Atascos.NUM_LANES cfg)%Z -> atascos_inv cfg st ->
  exists st',
    Atascos.arrival cfg iv st = Ok st' /\ atascos_inv cfg st'
    /\ Atascos.t st' = Atascos.t st.
Proof.
  intros Hpos Hinv. unfold Atascos.arrival.
  destruct (Qle_bool _ _);
    [|eexists; split; [reflexivity | split; [exact Hinv | reflexivity]]].
  pose proof Hinv as (Hwf & Hall & Hn & Hql & Hqd & Hq & Hid & Hr & Hc & Hcsv).
  destruct (next_choice (Atascos.rng st)) as [ty r1] eqn:E1.
  assert (Hr1 : randints r1 = randints (Atascos.rng st)).
  { unfold next_choice in E1. destruct (choices (Atascos.rng st)).
    - injection E1 as _ <-. reflexivity.
    - injection E1 as _ <-. reflexivity. }
  destruct (next_randint r1 0) as [l r2] eqn:E2.
  assert (Hl : (0 <= l < Atascos.NUM_LANES cfg)%Z
               /\ randints_valid (Atascos.NUM_LANES cfg) r2).
  { unfold next_randint in E2. unfold randints_valid in Hr. rewrite <- Hr1 in Hr.
    destruct (randints r1) as [|z zs] eqn:Ez.
    - injection E2 as <- <-. split; [lia|]. unfold randints_valid. rewrite Ez. constructor.
    - injection E2 as <- <-. apply Forall_cons in Hr as [Hz Hzs]. split; assumption. }
  destruct Hl as [Hl Hr2].
  set (n := Atascos.next_id st).
  set (veh := set_entry_time (Atascos.t st)
                (Atascos.new_vehicle cfg n l (Atascos.MAX_SPEED cfg * 0.6) ty)).
  assert (Hfresh : objs (Atascos.world st) !! n = None).
  { destruct (objs (Atascos.world st) !! n) eqn:E; [|reflexivity].
    assert (n < n)%nat by (apply Hid; eexists; exact E). lia. }
  destruct (new_object_wf (Atascos.world st) n veh Hwf Hfresh) as (Hwf0 & Hoff0 & Hall0).
  destruct (py_get_ok (Atascos.queues st) l) as (q & -> & Hqk); [rewrite Hql; lia|].
  simpl. eexists. split; [reflexivity|]. split; [|reflexivity].
  assert (Hnq : forall k q0, Atascos.queues st !! k = Some q0 -> ~ In n q0).
  { intros k q0 Hk0 Hc0. destruct (Hq k n) as (u & Hu & _); [exists q0; auto|]. congruence. }
  pose proof (lookup_lt_Some _ _ _ Hqk) as Hklt.
  unfold atascos_inv. simpl. rewrite py_set_nonneg by lia.
  split; [exact Hwf0|]. split; [apply Hall0; exact Hall|]. split; [exact Hn|].
  split; [rewrite length_insert; exact Hql|].
  split.
  { intros k q0 Hk0. destruct (decide (k = Z.to_nat l)) as [->|Hne].
    - rewrite list_lookup_insert_eq in Hk0 by exact Hklt. injection Hk0 as <-.
      apply NoDup_snoc; [eapply Hqd; exact Hqk | eapply Hnq; exact Hqk].
    - rewrite list_lookup_insert_ne in Hk0 by congruence. eapply Hqd. exact Hk0. }
  split.
  { intros k i (q0 & Hk0 & Hi0). simpl in Hk0.
    assert (Hcase : (k = Z.to_nat l /\ i = n)
                    \/ (i <> n /\ in_queue st k i)).
    { destruct (decide (k = Z.to_nat l)) as [->|Hne].
      - rewrite list_lookup_insert_eq in Hk0 by exact Hklt. injection Hk0 as <-.
        apply in_app_iff in Hi0 as [Hi0|[<-|[]]]; [|left; auto].
        right. split; [|exists q; auto]. intros ->. eapply Hnq; eassumption.
      - rewrite list_lookup_insert_ne in Hk0 by congruence.
        right. split; [|exists q0; auto]. intros ->. eapply Hnq; eassumption. }
    destruct Hcase as [[-> ->]|[Hne Hiq]].
    - exists veh. rewrite lookup_insert_eq. split; [reflexivity|].
      split; [simpl; lia | exact Hoff0].
    - destruct (Hq k i Hiq) as (u & Hu & Hk & Hoff). exists u.
      rewrite lookup_insert_ne by congruence. auto. }
  split.
  { intros j Hj. destruct (decide (j = n)) as [->|Hne]; [unfold n; lia|].
    rewrite lookup_insert_ne in Hj by congruence. apply Hid in Hj. lia. }
  split; [exact Hr2|].
  split; [|exact Hcsv].
  pose proof (concat_insert_length (Atascos.queues st) (Z.to_nat l) q (q ++ [n]) Hqk) as Hcl.
  rewrite length_app in Hcl. simpl in Hcl. fold n in Hc. lia.
Qed.

Lemma atascos_admit_head_inv cfg st l :
  (0 <= l < Atascos.NUM_LANES cfg)%Z -> atascos_inv cfg st ->
  exists st',
    Atascos.admit_head cfg st l = Ok st' /\ atascos_inv cfg st'
    /\ Atascos.t st' = Atascos.t st
    /\ Atascos.next_arrival_time st' = Atascos.next_arrival_time st.
Proof.
  intros Hl Hinv.
  pose proof Hinv as (Hwf & Hall & Hn & Hql & Hqd & Hq & Hid & Hr & Hc & Hcsv).
  unfold Atascos.admit_head.
  destruct (py_get_ok (Atascos.queues st) l) as (q & -> & Hqk); [rewrite Hql; lia|].
  simpl. destruct q as [|a q0] eqn:Eq;
    [eexists; split; [reflexivity|]; split; [exact Hinv|]; split; reflexivity|].
  rewrite <- Eq in *.
  pose proof (sort_by_perm
                (fun i j => (priority_of (Atascos.world st) j
                             <=? priority_of (Atascos.world st) i)%Z) q) as Hperm.
  fold (Atascos.sort_queue (Atascos.world st) q) in Hperm.
  assert (Hq' : NoDup (Atascos.sort_queue (Atascos.world st) q)).
  { rewrite Hperm. eapply Hqd. exact Hqk. }
  pose proof (lookup_lt_Some _ _ _ Hqk) as Hklt.
  destruct (Atascos.sort_queue (Atascos.world st) q) as [|first rest] eqn:Es.
  { exfalso. apply Permutation_nil in Hperm. rewrite Hperm in Eq. discriminate Eq. }
  destruct (wf_py_get (Atascos.world st) l Hwf) as (lane_list & -> & Hlk); [lia|].
  simpl.
  assert (Hmem : forall i, In i (first :: rest) <-> In i q).
  { intros i. split; apply Permutation_in; [exact Hperm | symmetry; exact Hperm]. }
  destruct (Atascos.entry_free cfg (Atascos.world st) lane_list).
  - assert (Hfq : in_queue st (Z.to_nat l) first).
    { exists q. split; [exact Hqk|]. apply Hmem. left. reflexivity. }
    destruct (Hq _ _ Hfq) as (veh & Hv & Hk & Hoff).
    destruct (add_wf true (Atascos.world st) first veh (Z.to_nat l) lane_list
                Hwf Hv Hk Hlk Hoff (fun _ => Hall))
      as (w' & -> & Hwf' & Hall' & _ & Hs' & Ho' & Ha' & _).
    simpl. eexists. split; [reflexivity|]. split; [|split; reflexivity].
    apply NoDup_cons in Hq' as [Hfr Hdr].
    unfold atascos_inv. simpl. rewrite py_set_nonneg by lia.
    split; [exact Hwf'|]. split; [apply Hall'; reflexivity|].
    split; [destruct Hs' as [Hn' _]; congruence|].
    split; [rewrite length_insert; exact Hql|].
    split.
    { intros k q1 Hk1. destruct (decide (k = Z.to_nat l)) as [->|Hne].
      - rewrite list_lookup_insert_eq in Hk1 by exact Hklt. congruence.
      - rewrite list_lookup_insert_ne in Hk1 by congruence. eapply Hqd. exact Hk1. }
    split.
    { intros k i (q1 & Hk1 & Hi1). simpl in Hk1.
      assert (Hold : in_queue st k i /\ i <> first).
      { destruct (decide (k = Z.to_nat l)) as [->|Hne].
        - rewrite list_lookup_insert_eq in Hk1 by exact Hklt. injection Hk1 as <-.
          split.
          + exists q. split; [exact Hqk|]. apply Hmem. right. exact Hi1.
          + intros ->. apply Hfr. apply list_elem_of_In. exact Hi1.
        - rewrite list_lookup_insert_ne in Hk1 by congruence.
          split; [exists q1; auto|]. intros ->.
          destruct (Hq k first) as (u & Hu & Hku & _); [exists q1; auto|].
          rewrite Hv in Hu. injection Hu as <-. lia. }
      destruct Hold as [Hiq Hne]. destruct (Hq k i Hiq) as (u & Hu & Hku & Hoffi).
      exists u. rewrite Ho'. split; [exact Hu|]. split; [exact Hku|].
      intros Hon. apply Hoffi.
      destruct Hs' as (_ & _ & _ & _ & Hin & _). destruct Hon as [k' Hk'].
      exists k'. apply (Hin i k' Hne). exact Hk'. }
    split; [intros j Hj; rewrite Ho' in Hj; apply Hid; exact Hj|].
    split; [exact Hr|]. split; [|exact Hcsv].
    pose proof (concat_insert_length (Atascos.queues st) (Z.to_nat l) q rest Hqk) as Hcl.
    apply Permutation_length in Hperm. simpl in Hperm.
    rewrite Ha', length_app. simpl. lia.
  - eexists. split; [reflexivity|]. split; [|split; reflexivity].
    unfold atascos_inv. simpl. rewrite py_set_nonneg by lia.
    split; [exact Hwf|]. split; [exact Hall|]. split; [exact Hn|].
    split; [rewrite length_insert; exact Hql|].
    split.
    { intros k q1 Hk1. destruct (decide (k = Z.to_nat l)) as [->|Hne].
      - rewrite list_lookup_insert_eq in Hk1 by exact Hklt. congruence.
      - rewrite list_lookup_insert_ne in Hk1 by congruence. eapply Hqd. exact Hk1. }
    split.
    { intros k i (q1 & Hk1 & Hi1). simpl in Hk1. apply Hq.
      destruct (decide (k = Z.to_nat l)) as [->|Hne].
      - rewrite list_lookup_insert_eq in Hk1 by exact Hklt. injection Hk1 as <-.
        exists q. split; [exact Hqk|]. apply Hmem. exact Hi1.
      - rewrite list_lookup_insert_ne in Hk1 by congruence. exists q1. auto. }
    split; [exact Hid|]. split; [exact Hr|]. split; [|exact Hcsv].
    pose proof (concat_insert_length (Atascos.queues st) (Z.to_nat l) q
                  (first :: rest) Hqk) as Hcl.
    apply Permutation_length in Hperm. lia.
Qed.

Lemma atascos_admission_inv cfg ls : forall st,
  Forall (fun l => (0 <= l < Atascos.NUM_LANES cfg)%Z) ls -> atascos_inv cfg st ->
  exists st',
    Atascos.admission cfg st ls = Ok st' /\ atascos_inv cfg st'
    /\ Atascos.t st' = Atascos.t st.
Proof.
  induction ls as [|l ls IH]; intros st Hls Hinv; cbn [Atascos.admission].
  - eexists. split; [reflexivity|]. split; [exact Hinv | reflexivity].
  - apply Forall_cons in Hls as [Hl Hls].
    destruct (atascos_admit_head_inv cfg st l Hl Hinv) as (st1 & -> & Hinv1 & Et1 & _).
    simpl. destruct (IH st1 Hls Hinv1) as (st' & -> & Hinv' & Et').
    eexists. split; [reflexivity|]. split; [exact Hinv' | congruence].
Qed.

Lemma range_Forall n : Forall (fun l => (0 <= l < n)%Z) (range n).
Proof. apply List.Forall_forall. intros l Hl. apply range_valid. exact Hl. Qed.

Lemma atascos_tick_inv cfg iv st :
  (0 < Atascos.NUM_LANES cfg)%Z -> atascos_inv cfg st ->
  exists st',
    Atascos.tick cfg iv st = Ok st' /\ atascos_inv cfg st'
    /\ Atascos.t st' = Atascos.t st + Atascos.DT cfg.
Proof.
  intros Hpos Hinv. unfold Atascos.tick.
  destruct (atascos_arrival_inv cfg iv st Hpos Hinv) as (st1 & -> & Hinv1 & Et1). simpl.
  destruct (atascos_admission_inv cfg (range (Atascos.NUM_LANES cfg)) st1
              (range_Forall _) Hinv1) as (st2 & -> & Hinv2 & Et2). simpl.
  pose proof Hinv2 as (Hwf2 & Hall2 & Hn2 & _).
  destruct (atascos_dynamics_wf cfg (range (Atascos.NUM_LANES cfg)) st2 Hwf2 Hall2)
    as (st3 & -> & Hd3); [rewrite Hn2; apply range_Forall|]. simpl.
  pose proof (atascos_dyn_inv cfg st2 st3 Hinv2 Hd3) as Hinv3.
  destruct Hd3 as (_ & _ & _ & _ & Et3 & _).
  eexists. split; [reflexivity|]. split; [exact Hinv3|].
  simpl. rewrite Et3, Et2, Et1. reflexivity.
Qed.

Lemma atascos_init_inv cfg r :
  randints_valid (Atascos.NUM_LANES cfg) r -> atascos_inv cfg (Atascos.init cfg r).
Proof.
  intros Hr. unfold atascos_inv, Atascos.init. simpl.
  split.
  { split; [simpl; apply length_replicate|]. split.
    - intros k l Hl. simpl in Hl. apply lookup_replicate in Hl as [-> _]. constructor.
    - intros k i (l & Hl & Hi). simpl in Hl.
      apply lookup_replicate in Hl as [-> _]. destruct Hi. }
  split.
  { split; [constructor|]. intros i. simpl. split; [intros []|].
    intros (k & l & Hl & Hi). simpl in Hl.
    apply lookup_replicate in Hl as [-> _]. destruct Hi. }
  split; [reflexivity|]. split; [apply length_replicate|].
  split; [intros k q Hk; apply lookup_replicate in Hk as [-> _]; constructor|].
  split.
  { intros k i (q & Hk & Hi). simpl in Hk.
    apply lookup_replicate in Hk as [-> _]. destruct Hi. }
  split; [intros j [u Hu]; rewrite lookup_empty in Hu; discriminate|].
  split; [exact Hr|].
  split.
  { simpl. assert (H : forall m, length (concat (replicate m (@nil nat))) = O).
    { induction m; simpl; auto. }
    rewrite H. reflexivity. }
  unfold csv_ok. simpl. split; [reflexivity|]. split; [reflexivity|].
  split; [lia | reflexivity].
Qed.

Lemma atascos_loop_inv cfg iv fuel : forall st,
  (0 < Atascos.NUM_LANES cfg)%Z -> atascos_inv cfg st ->
  exists st', Atascos.loop cfg iv fuel st = Ok st' /\ atascos_inv cfg st'.
Proof.
  induction fuel as [|fuel IH]; intros st Hpos Hinv; cbn [Atascos.loop].
  - eexists. split; [reflexivity | exact Hinv].
  - destruct (Qltb _ _); [|eexists; split; [reflexivity | exact Hinv]].
    destruct (atascos_tick_inv cfg iv st Hpos Hinv) as (st1 & -> & Hinv1 & _). simpl.
    apply IH; assumption.
Qed.



(** X17: [atascos.py] loses no vehicle and counts none twice: at every
    test of the [while], the number of [Vehicle] objects created so far is
    the number of vehicles waiting in the queues, plus the number of
    vehicles in [all_vehicles], plus the flow counted so far. *)
Theorem atascos_vehicles_conserved (cfg : Atascos.Config) (iv : Q) (fuel : nat)
    (r : Rng) (st : Atascos.State) :
  (0 < Atascos.NUM_LANES cfg)%Z -> randints_valid (Atascos.NUM_LANES cfg) r ->
  Atascos.loop cfg iv fuel (Atascos.init cfg r) = Ok st ->
  (Atascos.next_id st - 1
   = length (concat (Atascos.queues st)) + length (all (Atascos.world st))
     + Atascos.stats_flow st)%nat.
Proof.
  intros Hpos Hr Hl.
  destruct (atascos_loop_inv cfg iv fuel (Atascos.init cfg r) Hpos
              (atascos_init_inv cfg r Hr)) as (st' & Hl' & Hinv).
  rewrite Hl in Hl'. injection Hl' as <-.
  destruct Hinv as (_ & _ & _ & _ & _ & _ & _ & _ & Hc & _). lia.
Qed.

Lemma atascos_vehicles_conserved_witness :
  (Atascos.next_id (reached (Atascos.init Atascos.default truck_then_two_cars)
                      (Atascos.loop Atascos.default 2 4
                         (Atascos.init Atascos.default truck_then_two_cars))) - 1
   = length (concat (Atascos.queues
                       (reached (Atascos.init Atascos.default truck_then_two_cars)
                          (Atascos.loop Atascos.default 2 4
                             (Atascos.init Atascos.default truck_then_two_cars)))))
     + length (all (Atascos.world
                      (reached (Atascos.init Atascos.default truck_then_two_cars)
                         (Atascos.loop Atascos.default 2 4
                            (Atascos.init Atascos.default truck_then_two_cars)))))
     + Atascos.stats_flow
         (reached (Atascos.init Atascos.default truck_then_two_cars)
            (Atascos.loop Atascos.default 2 4
               (Atascos.init Atascos.default truck_then_two_cars))))%nat.
Proof.
  apply (atascos_vehicles_conserved Atascos.default 2 4 truck_then_two_cars).
  - simpl. lia.
  - repeat constructor; simpl; lia.
  - vm_compute. reflexivity.
Defined.



(** *** [traff.py]: the handling of a vehicle *)

Lemma remove_finished_vehicles g w i w' :
  remove g w i = Ok w' -> finished_vehicles w' = finished_vehicles w.
Proof.
  unfold remove. intros H.
  apply bind_inv in H as (veh & _ & H).
  apply bind_inv in H as (lane_list & _ & H).
  apply bind_inv in H as (w1 & Hw1 & H).
  assert (E1 : finished_vehicles w1 = finished_vehicles w).
  { destruct (py_in i lane_list).
    - apply bind_inv in Hw1 as (l' & _ & Hw1). apply mret_inv in Hw1. subst w1. reflexivity.
    - apply mret_inv in Hw1. subst w1. reflexivity. }
  destruct g; [destruct (py_in i (all w1))|].
  - apply bind_inv in H as (a' & _ & H). apply mret_inv in H. subst w'. exact E1.
  - apply mret_inv in H. subst w'. exact E1.
  - apply mret_inv in H. subst w'. exact E1.
Qed.

Lemma obj_kept_refl w : obj_kept w w.
Proof.
  split; [|auto]. intros j veh Hj. exists veh. auto.
Qed.

Lemma obj_kept_trans w1 w2 w3 : obj_kept w1 w2 -> obj_kept w2 w3 -> obj_kept w1 w3.
Proof.
  intros [A1 A2] [B1 B2]. split; [|auto].
  intros j veh Hj. destruct (A1 j veh Hj) as (v2 & H2 & Ht2 & He2 & Hx2).
  destruct (B1 j v2 H2) as (v3 & H3 & Ht3 & He3 & Hx3).
  exists v3. split; [exact H3|]. split; [congruence|]. split; [congruence | auto].
Qed.

Lemma obj_kept_objs w w' : objs w' = objs w -> obj_kept w w'.
Proof.
  intros E. split; [|rewrite E; auto]. intros j veh Hj. exists veh. rewrite E. auto.
Qed.

Lemma update_kept w i f w' :
  update w i f = Ok w' ->
  (forall u, vtype (f u) = vtype u /\ entry_time (f u) = entry_time u
             /\ (is_Some (exit_time u) -> is_Some (exit_time (f u)))) ->
  obj_kept w w'.
Proof.
  intros H Hf. apply update_inv in H as (u & Hu & ->). split; simpl.
  - intros j veh Hj. destruct (decide (j = i)) as [->|Hne].
    + rewrite lookup_insert_eq. exists (f u).
      assert (veh = u) by congruence. subst veh.
      destruct (Hf u) as (H1 & H2 & H3). auto.
    + rewrite lookup_insert_ne by congruence. exists veh. auto.
  - intros j Hj. destruct (decide (j = i)) as [->|Hne]; [eauto|].
    rewrite lookup_insert_ne in Hj by congruence. exact Hj.
Qed.

Lemma relaned_kept w w' i t : relaned w w' i t -> obj_kept w w'.
Proof.
  intros (u & Hu & E). split; rewrite E.
  - intros j veh Hj. destruct (decide (j = i)) as [->|Hne].
    + rewrite lookup_insert_eq. exists (set_lane t u).
      assert (veh = u) by congruence. subst veh. auto.
    + rewrite lookup_insert_ne by congruence. exists veh. auto.
  - intros j Hj. destruct (decide (j = i)) as [->|Hne]; [eauto|].
    rewrite lookup_insert_ne in Hj by congruence. exact Hj.
Qed.

Lemma traff_timed_kept w w' :
  obj_kept w w' -> finished_vehicles w' = finished_vehicles w ->
  traff_timed w -> traff_timed w'.
Proof.
  intros [K1 K2] Hf [T1 T2]. split.
  - intros j veh' Hj. destruct (K2 j) as [veh Hveh]; [eauto|].
    destruct (K1 j veh Hveh) as (v' & Hv' & _ & He & _).
    assert (v' = veh') by congruence. subst v'. rewrite He. eapply T1. exact Hveh.
  - intros ty j Hj. rewrite Hf in Hj.
    destruct (T2 ty j Hj) as (veh & Hveh & Hty & Hx).
    destruct (K1 j veh Hveh) as (v' & Hv' & Ht' & _ & Hx').
    exists v'. split; [exact Hv'|]. split; [congruence | auto].
Qed.

Lemma traff_car_following_kept cfg w i dt w' e :
  Traff.car_following_step cfg w i dt = Ok (w', e) -> obj_kept w w'.
Proof.
  unfold Traff.car_following_step. intros H.
  apply bind_inv in H as (a & _ & H). apply bind_inv in H as (veh & _ & H).
  apply bind_inv in H as (s0 & _ & H). apply bind_inv in H as (w1 & Hw1 & H).
  apply mret_inv in H. injection H as <- _.
  eapply update_kept; [exact Hw1|]. intros u. auto.
Qed.

Lemma traff_slowdown_kept cfg w i u w' :
  Traff.slowdown_step cfg w i u = Ok w' -> obj_kept w w'.
Proof.
  unfold Traff.slowdown_step. destruct (Qltb _ _); intros H.
  - eapply update_kept; [exact H|]. intros u0. auto.
  - apply mret_inv in H. subst w'. apply obj_kept_refl.
Qed.

Lemma traff_lane_change_kept cfg w i w' e :
  Traff.lane_change_step cfg w i = Ok (w', e) -> obj_kept w w'.
Proof.
  unfold Traff.lane_change_step. intros H.
  apply bind_inv in H as (veh & _ & H). apply bind_inv in H as ([w1 c] & Hc & H).
  apply mret_inv in H. injection H as <- _.
  apply traff_try_lane_change_changed in Hc as [[_ ->]|(_ & u & d & _ & _ & Hr)].
  - apply obj_kept_refl.
  - eapply relaned_kept. exact Hr.
Qed.

Lemma traff_integrate_kept w i dt w' :
  Traff.integrate_step w i dt = Ok w' -> obj_kept w w'.
Proof.
  unfold Traff.integrate_step. intros H.
  eapply update_kept; [exact H|]. intros u. auto.
Qed.

Lemma traff_exit_timed w i veh t w1 w3 :
  objs w !! i = Some veh ->
  update w i (fun u => set_exit t u) = Ok w1 -> objs w3 = objs w1 ->
  finished_vehicles w3
  = set_type (vtype veh) (get_type (vtype veh) (finished_vehicles w) ++ [i])
      (finished_vehicles w) ->
  traff_timed w -> traff_timed w3.
Proof.
  intros Hveh Hu Ho Hf [T1 T2].
  assert (Hk : obj_kept w w3).
  { eapply obj_kept_trans; [|apply obj_kept_objs; exact Ho].
    eapply update_kept; [exact Hu|]. intros u. simpl. auto. }
  apply update_inv in Hu as (u & Hu' & ->). simpl in Ho.
  assert (u = veh) by congruence. subst u.
  destruct Hk as [K1 K2]. split.
  - intros j veh' Hj. destruct (K2 j) as [v0 Hv0]; [eauto|].
    destruct (K1 j v0 Hv0) as (v' & Hv' & _ & He & _).
    assert (v' = veh') by congruence. subst v'. rewrite He. eapply T1. exact Hv0.
  - intros ty j Hj. rewrite Hf, get_set_type in Hj.
    assert (Hold : In j (get_type ty (finished_vehicles w)) ->
                   exists v', objs w3 !! j = Some v' /\ vtype v' = ty
                              /\ is_Some (exit_time v')).
    { intros Hin. destruct (T2 ty j Hin) as (v0 & Hv0 & Hty & Hx).
      destruct (K1 j v0 Hv0) as (v' & Hv' & Ht' & _ & Hx').
      exists v'. split; [exact Hv'|]. split; [congruence | auto]. }
    destruct (bool_decide (vtype veh = ty)) eqn:Et; [|auto].
    apply bool_decide_eq_true in Et. subst ty.
    apply in_app_or in Hj as [Hj|[<-|[]]]; [auto|].
    exists (set_exit t veh). rewrite Ho, lookup_insert_eq.
    split; [reflexivity|]. split; [reflexivity|]. simpl. eauto.
Qed.

Lemma traff_slowdown_wf cfg w i k u :
  highway_wf w -> in_lane w k i ->
  exists w', Traff.slowdown_step cfg w i u = Ok w' /\ lane_step_ok i w w'.
Proof.
  intros Hwf Hin. unfold Traff.slowdown_step. destruct (Qltb _ _).
  - destruct (update_step_ok w i (fun veh => set_v (Qmax 0 (v veh - 3)) veh) k Hwf Hin)
      as (w' & -> & Hok & _); [reflexivity | eauto].
  - eexists. split; [reflexivity|].
    apply lane_step_refl; [exact Hwf | exists k; exact Hin].
Qed.

Lemma traff_integrate_wf w i k dt :
  highway_wf w -> in_lane w k i ->
  exists w', Traff.integrate_step w i dt = Ok w' /\ lane_step_ok i w w'.
Proof.
  intros Hwf Hin. unfold Traff.integrate_step.
  destruct (update_step_ok w i (fun veh => set_x (x veh + v veh * dt) veh)
              k Hwf Hin) as (w' & -> & Hok & _); [reflexivity | eauto].
Qed.

Lemma traff_lane_change_step_wf cfg w i k :
  highway_wf w -> in_lane w k i ->
  exists w' e, Traff.lane_change_step cfg w i = Ok (w', e) /\ lane_step_ok i w w'.
Proof.
  intros Hwf Hin. unfold Traff.lane_change_step.
  destruct (wf_lane_of w k i Hwf Hin) as (veh & -> & _). simpl.
  destruct (traff_try_lane_change_wf cfg w i k Hwf Hin) as (w' & c & -> & Hok).
  simpl. do 2 eexists. split; [reflexivity | exact Hok].
Qed.

Lemma traff_exit_step_wf cfg st i k :
  highway_wf (Traff.world st) -> in_lane (Traff.world st) k i ->
  exists st',
    Traff.exit_step cfg st i = Ok st'
    /\ highway_wf (Traff.world st')
    /\ same_road_except i (Traff.world st) (Traff.world st')
    /\ Traff.sim_time st' = Traff.sim_time st
    /\ Traff.next_arrival st' = Traff.next_arrival st
    /\ Traff.entry_queue st' = Traff.entry_queue st
    /\ Traff.running st' = Traff.running st
    /\ Traff.paused st' = Traff.paused st
    /\ Traff.next_id st' = Traff.next_id st
    /\ (length (concat (lanes (Traff.world st')))
        + stats_total (finished_vehicles (Traff.world st'))
        = length (concat (lanes (Traff.world st)))
          + stats_total (finished_vehicles (Traff.world st)))%nat
    /\ (traff_timed (Traff.world st) -> traff_timed (Traff.world st')).
Proof.
  intros Hwf Hin. unfold Traff.exit_step.
  destruct (wf_lane_of _ k i Hwf Hin) as (veh & Hveh & _). rewrite Hveh. simpl.
  destruct (Qle_bool _ _).
  - destruct (update_step_ok (Traff.world st) i (fun u => set_exit (Traff.sim_time st) u)
                k Hwf Hin) as (w1 & Hu1 & Hok1 & Hl1); [reflexivity|].
    rewrite Hu1. simpl.
    destruct Hok1 as (Hwf1 & Hs1 & _ & _ & Hc1 & Hf1).
    set (w2 := set_finished_vehicles
                 (set_type (vtype veh) (get_type (vtype veh) (finished_vehicles w1) ++ [i])
                    (finished_vehicles w1)) w1).
    assert (Hwf2 : highway_wf w2) by exact Hwf1.
    assert (Hin2 : in_lane w2 k i).
    { unfold in_lane, w2. simpl. rewrite Hl1. exact Hin. }
    destruct (remove_wf false w2 i k Hwf2 Hin2) as (w3 & Hr3 & Hwf3 & _ & _ & Hs3 & _ & _ & _ & Hc3);
      [discriminate|].
    rewrite Hr3. simpl. eexists. split; [reflexivity|]. simpl.
    split; [exact Hwf3|].
    split; [eapply same_road_trans; [exact Hs1 | exact Hs3]|].
    repeat (split; [reflexivity|]).
    split.
    + rewrite (remove_finished_vehicles _ _ _ _ Hr3). unfold w2 at 1. simpl.
      rewrite stats_total_set, Hf1.
      change (lanes w2) with (lanes w1) in Hc3. lia.
    + apply (traff_exit_timed (Traff.world st) i veh (Traff.sim_time st) w1 w3).
      * apply deref_inv. exact Hveh.
      * exact Hu1.
      * rewrite (remove_objs _ _ _ _ Hr3). reflexivity.
      * rewrite (remove_finished_vehicles _ _ _ _ Hr3). unfold w2. simpl.
        rewrite Hf1. reflexivity.
  - eexists. split; [reflexivity|]. split; [exact Hwf|].
    split; [apply same_road_refl|]. repeat (split; [reflexivity|]). auto.
Qed.

Lemma traff_dyn_refl st : highway_wf (Traff.world st) -> traff_dyn st st.
Proof.
  intros H. split; [exact H|]. split; [apply same_objects_refl|].
  repeat (split; [reflexivity|]). auto.
Qed.

Lemma traff_dyn_trans st1 st2 st3 :
  traff_dyn st1 st2 -> traff_dyn st2 st3 -> traff_dyn st1 st3.
Proof.
  intros (_ & A2 & A3 & A4 & A5 & A6 & A7 & A8 & A9 & A10)
         (B1 & B2 & B3 & B4 & B5 & B6 & B7 & B8 & B9 & B10).
  split; [exact B1|]. split; [eapply same_objects_trans; eassumption|].
  split; [congruence|]. split; [congruence|]. split; [congruence|].
  split; [congruence|]. split; [congruence|]. split; [congruence|].
  split; [lia | auto].
Qed.

Lemma traff_process_wf cfg dt st i :
  (num_lanes (Traff.world st) <= Z.of_nat (length (Traff.LANE_SPEED_KMH cfg)))%Z ->
  highway_wf (Traff.world st) -> on_road (Traff.world st) i ->
  exists st',
    Traff.process cfg dt st i = Ok st' /\ traff_dyn st st'
    /\ same_road_except i (Traff.world st) (Traff.world st').
Proof.
  intros Hlim Hwf [k Hin]. unfold Traff.process.
  destruct (car_following_wf (fun w veh a => Traff.follow_speed cfg w veh a dt)
              (Traff.world st) i k Hwf Hin) as (w1 & e1 & Hcf & Hok1).
  { intros veh a Hr. apply traff_follow_speed_ok. lia. }
  assert (Hk1 : obj_kept (Traff.world st) w1)
    by (eapply traff_car_following_kept; exact Hcf).
  unfold Traff.car_following_step. rewrite Hcf. simpl.
  destruct (lane_step_on_road _ _ _ Hok1) as [k1 Hin1].
  pose proof Hok1 as (Hwf1 & Hs1 & _ & _ & Hc1 & Hf1).
  destruct (next_random (Traff.rng st)) as [u r].
  destruct (traff_slowdown_wf cfg w1 i k1 u Hwf1 Hin1) as (w2 & Hsl & Hok2).
  pose proof (traff_slowdown_kept _ _ _ _ _ Hsl) as Hk2.
  rewrite Hsl. simpl.
  destruct (lane_step_on_road _ _ _ Hok2) as [k2 Hin2].
  pose proof Hok2 as (Hwf2 & Hs2 & _ & _ & Hc2 & Hf2).
  destruct (traff_lane_change_step_wf cfg w2 i k2 Hwf2 Hin2) as (w3 & e2 & Hlc & Hok3).
  pose proof (traff_lane_change_kept _ _ _ _ _ Hlc) as Hk3.
  rewrite Hlc. simpl.
  destruct (lane_step_on_road _ _ _ Hok3) as [k3 Hin3].
  pose proof Hok3 as (Hwf3 & Hs3 & _ & _ & Hc3 & Hf3).
  destruct (traff_integrate_wf w3 i k3 dt Hwf3 Hin3) as (w4 & Hig & Hok4).
  pose proof (traff_integrate_kept _ _ _ _ Hig) as Hk4.
  rewrite Hig. simpl.
  destruct (lane_step_on_road _ _ _ Hok4) as [k4 Hin4].
  pose proof Hok4 as (Hwf4 & Hs4 & _ & _ & Hc4 & Hf4).
  match goal with |- exists st', Traff.exit_step cfg ?S i = Ok st' /\ _ => set (st4 := S) end.
  destruct (traff_exit_step_wf cfg st4 i k4 Hwf4 Hin4)
    as (st' & -> & Hwf' & Hs' & E1 & E2 & E3 & E4 & E5 & E6 & Hcount & Htimed).
  exists st'. split; [reflexivity|].
  assert (Hsr : same_road_except i (Traff.world st) (Traff.world st')).
  { eapply same_road_trans; [exact Hs1|]. eapply same_road_trans; [exact Hs2|].
    eapply same_road_trans; [exact Hs3|]. eapply same_road_trans; [exact Hs4|].
    exact Hs'. }
  split; [|exact Hsr].
  split; [exact Hwf'|]. split; [eapply same_road_objects; exact Hsr|].
  simpl in E1, E2, E3, E4, E5, E6, Hcount.
  repeat (split; [assumption|]).
  split.
  - rewrite Hcount, Hc4, Hc3, Hc2, Hc1, Hf4, Hf3, Hf2, Hf1. reflexivity.
  - intros Ht. apply Htimed. unfold st4. simpl.
    apply (traff_timed_kept w3 w4 Hk4 Hf4).
    apply (traff_timed_kept w2 w3 Hk3 Hf3).
    apply (traff_timed_kept w1 w2 Hk2 Hf2).
    apply (traff_timed_kept (Traff.world st) w1 Hk1 Hf1). exact Ht.
Qed.

Lemma traff_process_all_wf cfg dt l : forall st,
  (num_lanes (Traff.world st) <= Z.of_nat (length (Traff.LANE_SPEED_KMH cfg)))%Z ->
  highway_wf (Traff.world st) ->
  NoDup l -> (forall j, In j l -> on_road (Traff.world st) j) ->
  exists st', Traff.process_all cfg dt st l = Ok st' /\ traff_dyn st st'.
Proof.
  induction l as [|i l IH]; intros st Hlim Hwf Hnd Hon; cbn [Traff.process_all].
  - eexists. split; [reflexivity|]. apply traff_dyn_refl; assumption.
  - apply NoDup_cons in Hnd as [Hil Hnd].
    destruct (traff_process_wf cfg dt st i Hlim Hwf) as (st1 & -> & Hd1 & Hs1);
      [apply Hon; left; reflexivity|]. simpl.
    destruct (IH st1) as (st' & -> & Hd'); [| apply Hd1 | exact Hnd | |].
    + destruct Hd1 as (_ & [Hn _] & _). rewrite Hn. exact Hlim.
    + intros j Hj. eapply same_road_on_road; [exact Hs1 | | apply Hon; right; exact Hj].
      intros ->. apply Hil. apply list_elem_of_In. exact Hj.
    + eexists. split; [reflexivity|]. eapply traff_dyn_trans; eassumption.
Qed.

Lemma traff_dynamics_wf cfg dt ls : forall st,
  (num_lanes (Traff.world st) <= Z.of_nat (length (Traff.LANE_SPEED_KMH cfg)))%Z ->
  highway_wf (Traff.world st) ->
  Forall (fun l => (0 <= l < num_lanes (Traff.world st))%Z) ls ->
  exists st', Traff.dynamics cfg dt st ls = Ok st' /\ traff_dyn st st'.
Proof.
  induction ls as [|l ls IH]; intros st Hlim Hwf Hls; cbn [Traff.dynamics].
  - eexists. split; [reflexivity|]. apply traff_dyn_refl; assumption.
  - apply Forall_cons in Hls as [Hl Hls].
    destruct (wf_py_get _ l Hwf Hl) as (snapshot & -> & Hlk). simpl.
    destruct (traff_process_all_wf cfg dt snapshot st Hlim Hwf) as (st1 & -> & Hd1).
    { destruct Hwf as (_ & Hnd & _). eapply Hnd. exact Hlk. }
    { intros j Hj. exists (Z.to_nat l), snapshot. auto. }
    simpl. pose proof Hd1 as (Hwf1 & [Hn1 _] & _).
    destruct (IH st1) as (st' & -> & Hd');
      [rewrite Hn1; exact Hlim | exact Hwf1 | rewrite Hn1; exact Hls|].
    eexists. split; [reflexivity|]. eapply traff_dyn_trans; eassumption.
Qed.

(** *** [traff.py]: the frame loop *)

Lemma add_finished_vehicles g w i w' :
  add g w i = Ok w' -> finished_vehicles w' = finished_vehicles w.
Proof.
  unfold add. intros H.
  apply bind_inv in H as (veh & _ & H).
  apply bind_inv in H as (lane_list & _ & H).
  apply mret_inv in H. subst w'. destruct g; reflexivity.
Qed.

Lemma traff_insert_in_inv cfg ty te ls : forall st,
  traff_inv st -> Forall (fun l => (0 <= l < 3)%Z) ls ->
  exists st',
    Traff.insert_in cfg st ty te ls = Ok st' /\ traff_inv st'
    /\ Traff.sim_time st' = Traff.sim_time st
    /\ Traff.running st' = Traff.running st
    /\ Traff.paused st' = Traff.paused st.
Proof.
  induction ls as [|l ls IH]; intros st Hinv Hls; cbn [Traff.insert_in].
  - eexists. split; [reflexivity|]. split; [exact Hinv|]. auto.
  - apply Forall_cons in Hls as [Hl Hls].
    pose proof Hinv as (Hwf & Hn & Hid & Hc & Htm).
    unfold Traff.can_insert_at_start.
    destruct (wf_py_get (Traff.world st) l Hwf) as (l0 & -> & Hlk); [lia|]. simpl.
    assert (Hadd : exists st',
      (let n := Traff.next_id st in
       let w := set_objs (<[n := Traff.new_vehicle cfg n ty l te]> (objs (Traff.world st)))
                  (Traff.world st) in
       w' ← add false w n;
       mret (Traff.mkState w' (Traff.sim_time st) (Traff.next_arrival st)
               (Traff.remove_entry ty te (Traff.entry_queue st)) (Traff.running st)
               (Traff.paused st) (S n) (Traff.rng st) (Traff.trace st))) = Ok st'
      /\ traff_inv st'
      /\ Traff.sim_time st' = Traff.sim_time st
      /\ Traff.running st' = Traff.running st
      /\ Traff.paused st' = Traff.paused st).
    { cbv zeta. set (n := Traff.next_id st).
      set (veh := Traff.new_vehicle cfg n ty l te).
      assert (Hfresh : objs (Traff.world st) !! n = None).
      { destruct (objs (Traff.world st) !! n) eqn:E; [|reflexivity].
        assert (n < n)%nat by (apply Hid; eexists; exact E). lia. }
      destruct (new_object_wf (Traff.world st) n veh Hwf Hfresh) as (Hwf0 & Hoff0 & _).
      destruct (add_wf false (set_objs (<[n := veh]> (objs (Traff.world st)))
                                (Traff.world st)) n veh (Z.to_nat l) l0)
        as (w' & Hadd & Hwf' & _ & _ & Hs' & Ho' & _ & Hl'); try assumption.
      - simpl. apply lookup_insert_eq.
      - simpl. lia.
      - discriminate.
      - rewrite Hadd. simpl. eexists. split; [reflexivity|]. simpl.
        split; [|auto]. unfold traff_inv. simpl.
        split; [exact Hwf'|].
        destruct Hs' as (Hn' & _). simpl in Hn'. split; [congruence|].
        split.
        + intros j Hj. rewrite Ho' in Hj. simpl in Hj.
          destruct (decide (j = n)) as [->|Hne]; [unfold n; lia|].
          rewrite lookup_insert_ne in Hj by congruence. apply Hid in Hj. fold n in Hj. lia.
        + rewrite (add_finished_vehicles _ _ _ _ Hadd). simpl.
          rewrite Hl'. simpl.
          pose proof (concat_insert_length (lanes (Traff.world st)) (Z.to_nat l) l0
                        (sort_by_x (set_objs (<[n := veh]> (objs (Traff.world st)))
                                      (Traff.world st)) (l0 ++ [n])) Hlk) as Hcc.
          assert (Hlen : length (sort_by_x (set_objs (<[n := veh]> (objs (Traff.world st)))
                                      (Traff.world st)) (l0 ++ [n])) = S (length l0)).
          { unfold sort_by_x. rewrite (Permutation_length (sort_by_perm _ _)).
            rewrite length_app. simpl. lia. }
          fold n in Hc. split; [lia|].
          destruct Htm as [T1 T2]. split.
          * intros j vj Hj. rewrite Ho' in Hj. simpl in Hj.
            destruct (decide (j = n)) as [->|Hne].
            -- rewrite lookup_insert_eq in Hj. injection Hj as <-. simpl. eauto.
            -- rewrite lookup_insert_ne in Hj by congruence. eapply T1. exact Hj.
          * intros ty0 j Hj. rewrite (add_finished_vehicles _ _ _ _ Hadd) in Hj.
            simpl in Hj. destruct (T2 ty0 j Hj) as (vj & Hvj & Hr).
            exists vj. split; [|exact Hr]. rewrite Ho'. simpl.
            rewrite lookup_insert_ne; [exact Hvj|]. intros <-. congruence. }
    destruct (py_min_by _ l0) as [first|]; simpl.
    + destruct (Qltb _ _); [exact Hadd | apply IH; assumption].
    + exact Hadd.
Qed.

Lemma traff_insertion_inv cfg st :
  traff_inv st ->
  exists st',
    Traff.insertion cfg st = Ok st' /\ traff_inv st'
    /\ Traff.sim_time st' = Traff.sim_time st
    /\ Traff.running st' = Traff.running st
    /\ Traff.paused st' = Traff.paused st.
Proof.
  intros Hinv. unfold Traff.insertion.
  destruct (Traff.sort_entries cfg (Traff.entry_queue st)) as [|[ty te] q].
  - eexists. split; [reflexivity|]. split; [exact Hinv|]. auto.
  - apply traff_insert_in_inv; [exact Hinv|].
    repeat constructor; lia.
Qed.

Lemma traff_handle_events_fields es : forall st,
  Traff.world (fold_left Traff.handle_event es st) = Traff.world st
  /\ Traff.sim_time (fold_left Traff.handle_event es st) = Traff.sim_time st
  /\ Traff.next_arrival (fold_left Traff.handle_event es st) = Traff.next_arrival st
  /\ Traff.entry_queue (fold_left Traff.handle_event es st) = Traff.entry_queue st
  /\ Traff.next_id (fold_left Traff.handle_event es st) = Traff.next_id st
  /\ Traff.rng (fold_left Traff.handle_event es st) = Traff.rng st
  /\ Traff.trace (fold_left Traff.handle_event es st) = Traff.trace st.
Proof.
  induction es as [|e es IH]; intros st; simpl.
  - repeat split.
  - destruct (IH (Traff.handle_event st e)) as (A1 & A2 & A3 & A4 & A5 & A6 & A7).
    rewrite A1, A2, A3, A4, A5, A6, A7. destruct e; repeat split.
Qed.

Lemma traff_dyn_inv st st' : traff_inv st -> traff_dyn st st' -> traff_inv st'.
Proof.
  intros (_ & Hn & Hid & Hc & Htm) (B1 & [B2 B2'] & _ & _ & _ & _ & _ & B8 & B9 & B10).
  split; [exact B1|]. split; [congruence|].
  split; [intros j Hj; rewrite B8; apply Hid; apply B2'; exact Hj|].
  split; [rewrite B8, B9; exact Hc | auto].
Qed.

(** One pass of [while running] keeps the invariant; it does not return
    only if the arrival loop does not end, which needs an interval between
    arrivals that is not positive. *)
Lemma traff_frame_inv cfg iv st f :
  (3 <= length (Traff.LANE_SPEED_KMH cfg))%nat -> traff_inv st ->
  match Traff.frame cfg iv st f with
  | Ok st' =>
      traff_inv st'
      /\ (Traff.paused (fold_left Traff.handle_event (Traff.events f) st) = true ->
          Traff.sim_time st' = Traff.sim_time st)
      /\ (Traff.paused (fold_left Traff.handle_event (Traff.events f) st) = false ->
          Traff.sim_time st'
          = Traff.sim_time st + inject_Z (Traff.tick_ms f) / 1000 * Traff.SPEEDUP cfg)
  | Raise e => e = NonTermination /\ ~ 0 < iv
  end.
Proof.
  intros Hlim Hinv. unfold Traff.frame.
  destruct (traff_handle_events_fields (Traff.events f) st)
    as (A1 & A2 & A3 & A4 & A5 & A6 & A7).
  set (st0 := fold_left Traff.handle_event (Traff.events f) st) in *.
  assert (Hinv0 : traff_inv st0).
  { unfold traff_inv. rewrite A1, A5. exact Hinv. }
  destruct (Traff.paused st0) eqn:Ep.
  - simpl. split; [exact Hinv0|].
    split; [intros _; exact A2 | discriminate].
  - unfold Traff.advance.
    set (sim_dt := inject_Z (Traff.tick_ms f) / 1000 * Traff.SPEEDUP cfg).
    set (st1 := Traff.mkState (Traff.world st0) (Traff.sim_time st0 + sim_dt)
                  (Traff.next_arrival st0) (Traff.entry_queue st0) (Traff.running st0)
                  (Traff.paused st0) (Traff.next_id st0) (Traff.rng st0) (Traff.trace st0)).
    set (st2 := Traff.arrivals cfg (Traff.due_arrivals iv st1) iv st1).
    destruct (traff_arrivals_fields cfg (Traff.due_arrivals iv st1) iv st1)
      as (C1 & C2 & C3 & _).
    fold st2 in C1, C2, C3.
    assert (Hinv2 : traff_inv st2).
    { unfold traff_inv. rewrite C1, C3. exact Hinv0. }
    destruct (Traff.arrival_due cfg st2) eqn:Hdue.
    { simpl. split; [reflexivity|]. intros Hiv.
      assert (Hd : Traff.arrival_due cfg st2 = false)
        by (apply traff_arrivals_done; [exact Hiv | apply Nat.le_refl]).
      congruence. }
    destruct (traff_insertion_inv cfg st2 Hinv2) as (st3 & -> & Hinv3 & T3 & _). simpl.
    pose proof Hinv3 as (Hwf3 & Hn3 & _).
    destruct (traff_dynamics_wf cfg sim_dt (range (num_lanes (Traff.world st3))) st3)
      as (st4 & -> & Hd4); [rewrite Hn3; lia | exact Hwf3 | apply range_Forall|].
    simpl.
    pose proof (traff_dyn_inv st3 st4 Hinv3 Hd4) as Hinv4.
    destruct Hd4 as (_ & _ & T4 & _).
    assert (Et : Traff.sim_time st4 = Traff.sim_time st + sim_dt).
    { rewrite T4, T3, C2. unfold st1. simpl. rewrite A2. reflexivity. }
    destruct (Qle_bool _ _).
    + split; [exact Hinv4|]. split; [discriminate | intros _; exact Et].
    + split; [exact Hinv4|]. split; [discriminate | intros _; exact Et].
Qed.

Lemma traff_init_inv cfg r : traff_inv (Traff.init cfg r).
Proof.
  assert (Hnil : forall (k : nat) (l : list nat),
            (@nil nat :: [] :: [] :: []) !! k = Some l -> l = []).
  { intros [|[|[|k]]] l Hl; cbn in Hl; try discriminate Hl; injection Hl as <-; reflexivity. }
  unfold traff_inv, Traff.init. simpl.
  split.
  { split; [reflexivity|]. split.
    - intros k l Hl. simpl in Hl. apply Hnil in Hl as ->. constructor.
    - intros k i (l & Hl & Hi). simpl in Hl. apply Hnil in Hl as ->. destruct Hi. }
  split; [reflexivity|].
  split; [intros j [u Hu]; rewrite lookup_empty in Hu; discriminate|].
  split; [reflexivity|]. split.
  - intros j veh Hj. simpl in Hj. rewrite lookup_empty in Hj. discriminate.
  - intros ty j Hj. destruct ty; destruct Hj.
Qed.

Lemma traff_frames_loop_inv cfg iv fs : forall st,
  (3 <= length (Traff.LANE_SPEED_KMH cfg))%nat -> traff_inv st ->
  match Traff.frames_loop cfg iv st fs with
  | Ok st' => traff_inv st'
  | Raise e => e = NonTermination /\ ~ 0 < iv
  end.
Proof.
  induction fs as [|f fs IH]; intros st Hlim Hinv; cbn [Traff.frames_loop].
  - exact Hinv.
  - destruct (Traff.running st); [|exact Hinv].
    pose proof (traff_frame_inv cfg iv st f Hlim Hinv) as Hf.
    destruct (Traff.frame cfg iv st f) as [st1|e]; simpl.
    + apply IH; [exact Hlim | apply Hf].
    + exact Hf.
Qed.

(** X19: the frame loop of [run_pygame_sim] of [traff.py] cannot fail
    (the calls to pygame aside, which are not modelled), provided the
    interval between arrivals is positive and [LANE_SPEED_KMH] has a speed
    for each of the three lanes: whatever the frame times, the keys pressed
    and the values [random] returns, every pass succeeds.  In particular
    the arrival loop of each pass ends, the lanes [0, 1, 2] tried at the
    entrance exist, [lanes[veh.lane].remove(veh)] of [_move_vehicle] finds
    the vehicle, and no lane index is out of range.  After the loop the
    highway still has three lanes, no lane list holds a vehicle twice and a
    vehicle listed in lane [k] has [k] as its [lane] attribute. *)
Theorem traff_frames_never_fail (cfg : Traff.Config) (iv : Q) (r : Rng)
    (fs : list Traff.Frame) :
  0 < iv ->
  (3 <= length (Traff.LANE_SPEED_KMH cfg))%nat ->
  exists st,
    Traff.frames_loop cfg iv (Traff.init cfg r) fs = Ok st
    /\ highway_wf (Traff.world st) /\ num_lanes (Traff.world st) = 3%Z.
Proof.
  intros Hiv Hlim.
  pose proof (traff_frames_loop_inv cfg iv fs (Traff.init cfg r) Hlim
                (traff_init_inv cfg r)) as H.
  destruct (Traff.frames_loop cfg iv (Traff.init cfg r) fs) as [st|e].
  - destruct H as (Hwf & Hn & _). exists st. auto.
  - destruct H as [_ H]. contradiction.
Qed.

Lemma traff_frames_never_fail_witness :
  exists st,
    Traff.frames_loop Traff.default 1.5 (Traff.init Traff.default quiet) frames_72 = Ok st
    /\ highway_wf (Traff.world st) /\ num_lanes (Traff.world st) = 3%Z.
Proof.
  apply (traff_frames_never_fail Traff.default 1.5 quiet frames_72).
  - reflexivity.
  - simpl. lia.
Defined.

(** X20: [traff.py] loses no vehicle and counts none twice: after any
    number of frames, the number of [Vehicle] objects created so far
    ([Vehicle._id_counter - 1]) is the
    number of vehicles listed in the lanes plus the number of vehicles in
    the three lists of [finished_vehicles]; and every object carries an id
    below [next_id]. *)
Theorem traff_vehicles_conserved (cfg : Traff.Config) (iv : Q) (r : Rng)
    (fs : list Traff.Frame) (st : Traff.State) :
  (3 <= length (Traff.LANE_SPEED_KMH cfg))%nat ->
  Traff.frames_loop cfg iv (Traff.init cfg r) fs = Ok st ->
  (Traff.next_id st - 1
   = length (concat (lanes (Traff.world st)))
     + stats_total (finished_vehicles (Traff.world st)))%nat
  /\ forall j, is_Some (objs (Traff.world st) !! j) -> (j < Traff.next_id st)%nat.
Proof.
  intros Hlim Hl.
  pose proof (traff_frames_loop_inv cfg iv fs (Traff.init cfg r) Hlim
                (traff_init_inv cfg r)) as Hinv.
  rewrite Hl in Hinv.
  destruct Hinv as (_ & _ & Hid & Hc & _). split; [lia | exact Hid].
Qed.

Lemma traff_vehicles_conserved_witness :
  (Traff.next_id (traff_after frames_72) - 1
   = length (concat (lanes (Traff.world (traff_after frames_72))))
     + stats_total (finished_vehicles (Traff.world (traff_after frames_72))))%nat
  /\ forall j, is_Some (objs (Traff.world (traff_after frames_72)) !! j) ->
               (j < Traff.next_id (traff_after frames_72))%nat.
Proof.
  apply (traff_vehicles_conserved Traff.default 1.5 quiet frames_72).
  - simpl. lia.
  - vm_compute. reflexivity.
Defined.

(** *** [traff.py]: the statistics after the loop *)






(** X22: [traff.py] files a finished vehicle under its own type: after any
    number of frames, every vehicle in [highway.finished_vehicles[ty]] is
    of type [ty], and has both its entry time and its exit time set. *)
Theorem traff_finished_by_type (cfg : Traff.Config) (iv : Q) (r : Rng)
    (fs : list Traff.Frame) (st : Traff.State) (ty : VType) (j : nat) :
  (3 <= length (Traff.LANE_SPEED_KMH cfg))%nat ->
  Traff.frames_loop cfg iv (Traff.init cfg r) fs = Ok st ->
  In j (get_type ty (finished_vehicles (Traff.world st))) ->
  exists veh,
    deref (Traff.world st) j = Ok veh /\ vtype veh = ty
    /\ is_Some (entry_time veh) /\ is_Some (exit_time veh).
Proof.
  intros Hlim Hl Hj.
  pose proof (traff_frames_loop_inv cfg iv fs (Traff.init cfg r) Hlim
                (traff_init_inv cfg r)) as Hinv.
  rewrite Hl in Hinv.
  destruct Hinv as (_ & _ & _ & _ & T1 & T2).
  destruct (T2 ty j Hj) as (veh & Hv & Hty & Hx).
  exists veh. unfold deref. rewrite Hv.
  split; [reflexivity|]. split; [exact Hty|]. split; [eapply T1; exact Hv | exact Hx].
Qed.

Lemma traff_finished_by_type_witness :
  exists veh,
    deref (Traff.world (traff_after frames_72)) 2 = Ok veh /\ vtype veh = car
    /\ is_Some (entry_time veh) /\ is_Some (exit_time veh).
Proof.
  apply (traff_finished_by_type Traff.default 1.5 quiet frames_72
           (traff_after frames_72) car 2).
  - simpl. lia.
  - vm_compute. reflexivity.
  - vm_compute. left. reflexivity.
Defined.

(** *** [a2.py]: the drawing *)

Lemma find_snoc {A} (f : A -> bool) (l : list A) (a : A) :
  find f (l ++ [a])
  = match find f l with
    | Some b => Some b
    | None => if f a then Some a else None
    end.
Proof.
  induction l as [|b l IH]; simpl; [reflexivity|].
  destruct (f b); [reflexivity | exact IH].
Qed.

Lemma a2_plot_cell road u road' (k c : nat) :
  a2_road_shape road -> (0 <= A2.lane u <= 2)%Z -> 0 <= A2.position u ->
  A2.plot road u = Ok road' ->
  a2_cell road' k c
  = if a2_at_cell (Z.of_nat k) (Z.of_nat c) u
    then (if (k <? 3)%nat && (c <? 60)%nat then Some (A2.Letter (A2.type u)) else None)
    else a2_cell road k c.
Proof.
  intros [Hn Hrows] Hl Hx. unfold A2.plot.
  destruct (py_get_ok road (A2.lane u)) as (row & Hrow & Hlk); [lia|].
  rewrite Hrow. simpl.
  assert (Hlen : length row = 60%nat).
  { rewrite Forall_forall in Hrows. apply Hrows.
    eapply list_elem_of_lookup_2. exact Hlk. }
  pose proof (py_int_nonneg _ Hx) as Hp.
  set (pos := Z.min (py_int (A2.position u)) 59) in *.
  destruct (py_get_ok row pos) as (c0 & Hc & _); [unfold pos; lia|].
  rewrite Hc. simpl. intros H. apply mret_inv in H. subst road'.
  unfold a2_cell, a2_at_cell. fold pos.
  rewrite <- (Z2Nat.id (A2.lane u)) by lia.
  rewrite <- (Z2Nat.id pos) at 1 by (unfold pos; lia).
  destruct (Z.eqb_spec (Z.of_nat (Z.to_nat (A2.lane u))) (Z.of_nat k)) as [Ek|Ek].
  - apply Nat2Z.inj in Ek. subst k.
    rewrite py_set_lookup by lia.
    destruct (Z.eqb_spec pos (Z.of_nat c)) as [Ec|Ec]; simpl.
    + assert (c = Z.to_nat pos) by lia. subst c.
      rewrite py_set_lookup by (unfold pos; lia).
      replace (Z.to_nat (A2.lane u) <? 3)%nat with true
        by (symmetry; apply Nat.ltb_lt; lia).
      replace (Z.to_nat pos <? 60)%nat with true
        by (symmetry; apply Nat.ltb_lt; unfold pos; lia).
      reflexivity.
    + rewrite py_set_lookup_ne by lia. rewrite Hlk. reflexivity.
  - simpl. rewrite py_set_lookup_ne by lia. reflexivity.
Qed.

Lemma a2_plot_all_cell (k c : nat) l : forall road road',
  a2_road_shape road ->
  Forall (fun u => (0 <= A2.lane u <= 2)%Z /\ 0 <= A2.position u) l ->
  (k < 3)%nat -> (c < 60)%nat ->
  A2.plot_all road l = Ok road' ->
  a2_cell road' k c
  = match find (a2_at_cell (Z.of_nat k) (Z.of_nat c)) (rev l) with
    | Some u => Some (A2.Letter (A2.type u))
    | None => a2_cell road k c
    end.
Proof.
  induction l as [|u l IH]; intros road road' Hs Hl Hk Hc H; simpl in *.
  - apply mret_inv in H. subst road'. reflexivity.
  - apply Forall_cons in Hl as [[Hu1 Hu2] Hl].
    apply bind_inv in H as (road1 & H1 & H).
    destruct (a2_plot_ok road u Hs Hu1 Hu2) as (r1 & Hr1 & Hs1).
    rewrite H1 in Hr1. injection Hr1 as <-.
    rewrite (IH road1 road' Hs1 Hl Hk Hc H), find_snoc.
    destruct (find _ (rev l)); [reflexivity|].
    rewrite (a2_plot_cell road u road1 k c Hs Hu1 Hu2 H1).
    destruct (a2_at_cell _ _ u); [|reflexivity].
    apply Nat.ltb_lt in Hk, Hc. rewrite Hk, Hc. reflexivity.
Qed.

(** X23: what [display] of [a2.py] draws.  For vehicles in the lanes 0 to 2
    at positions that are not negative, the character printed for
    kilometre [col] of lane [l] (line [2 - l] of the drawing, as the lanes
    are printed from 2 down to 0) is the letter of the last vehicle of
    [self.vehicles] whose lane is [l] and whose cell [min(int(position),
    59)] is [col], and a dot if there is none: a vehicle hides the ones
    listed before it in the same cell, and column 59 shows whatever is
    at kilometre 59 or beyond.  The count printed below is the length of
    [self.vehicles]. *)
Theorem a2_display_cells (s : A2.Simulator) (scr : A2.Screen) (l col : Z) :
  Forall (fun u => (0 <= A2.lane u <= 2)%Z /\ 0 <= A2.position u) (A2.vehicles s) ->
  A2.display s = Ok scr -> (0 <= l <= 2)%Z -> (0 <= col <= 59)%Z ->
  a2_cell (A2.lines scr) (Z.to_nat (2 - l)) (Z.to_nat col)
  = Some (a2_shown l col (A2.vehicles s))
  /\ A2.on_road scr = length (A2.vehicles s).
Proof.
  intros Hv Hd Hl Hc. unfold A2.display in Hd.
  apply bind_inv in Hd as (road & Hroad & Hd). apply mret_inv in Hd. subst scr. simpl.
  split; [|reflexivity].
  assert (Hs0 : a2_road_shape (replicate 3 (replicate 60 A2.Free))).
  { split; [reflexivity|]. repeat constructor. }
  destruct (a2_plot_all_ok (A2.vehicles s) _ Hs0 Hv) as (r' & Hr' & [Hn Hrows]).
  rewrite Hroad in Hr'. injection Hr' as <-.
  pose proof (a2_plot_all_cell (Z.to_nat l) (Z.to_nat col) (A2.vehicles s) _ road
                Hs0 Hv ltac:(lia) ltac:(lia) Hroad) as Hcell.
  rewrite !Z2Nat.id in Hcell by lia.
  assert (Hrev : rev road !! Z.to_nat (2 - l) = road !! Z.to_nat l).
  { destruct road as [|r0 [|r1 [|r2 [|r3 road]]]]; try discriminate Hn.
    assert (l = 0 \/ l = 1 \/ l = 2)%Z as [-> | [-> | ->]] by lia; reflexivity. }
  unfold a2_cell at 1. rewrite Hrev. fold (a2_cell road (Z.to_nat l) (Z.to_nat col)).
  rewrite Hcell. unfold a2_shown.
  destruct (find _ (rev (A2.vehicles s))); [reflexivity|].
  unfold a2_cell.
  rewrite lookup_replicate_2 by lia. apply lookup_replicate_2. lia.
Qed.

Lemma a2_display_cells_witness :
  a2_cell (A2.lines (reached (A2.mkScreen [] 0 (mkByType O O O))
                       (A2.display a2_one_arrived))) (Z.to_nat (2 - 2)) (Z.to_nat 59)
  = Some (a2_shown 2 59 (A2.vehicles a2_one_arrived))
  /\ A2.on_road (reached (A2.mkScreen [] 0 (mkByType O O O)) (A2.display a2_one_arrived))
     = length (A2.vehicles a2_one_arrived).
Proof.
  apply (a2_display_cells a2_one_arrived).
  - repeat constructor; simpl; try lia; unfold Qle; simpl; lia.
  - vm_compute. reflexivity.
  - lia.
  - lia.
Defined.

(** * Claims that rest on the invariants of the runs *)

(** ** Removal of a vehicle (C10) *)

(** C10: removing a vehicle from a highway as the three engines build it
    (no lane list holds a vehicle twice, a listed vehicle has the index of
    its list as [lane] attribute, and in [trafico.py] and [atascos.py],
    where [global_list = true], the global list holds the vehicles of the
    lanes, once each) is total and membership-guarded, for a vehicle whose
    lane index designates a lane.  No error is raised and the vehicle
    objects are left alone.  If the vehicle is not in the list of its lane,
    every lane and the global list are unchanged.  If it is, that list
    loses exactly this vehicle, which is there once; the other lanes are
    unchanged; and the global list loses exactly this vehicle too
    ([traff.py], where [global_list = false], has no global list). *)
Theorem remove_membership_guarded (global_list : bool) (w : World) (i : nat)
    (veh : Vehicle) (lane_list : list nat) :
  highway_wf w -> (global_list = true -> all_wf w) ->
  deref w i = Ok veh ->
  py_get (lanes w) (lane veh) = Ok lane_list ->
  exists w',
    remove global_list w i = Ok w'
    /\ objs w' = objs w
    /\ (~ In i lane_list -> lanes w' = lanes w /\ all w' = all w)
    /\ (In i lane_list ->
        exists l1 l2,
          lane_list = l1 ++ i :: l2 /\ ~ In i (l1 ++ l2)
          /\ py_get (lanes w') (lane veh) = Ok (l1 ++ l2)
          /\ length (lanes w') = length (lanes w)
          /\ (forall k : nat, k <> Z.to_nat (lane veh) -> lanes w' !! k = lanes w !! k)
          /\ (global_list = false -> all w' = all w)
          /\ (global_list = true ->
              exists a1 a2,
                all w = a1 ++ i :: a2 /\ ~ In i (a1 ++ a2) /\ all w' = a1 ++ a2)).
Proof.
  intros Hwf Hall Hveh Hl.
  destruct (remove_spec global_list w i veh lane_list Hveh Hl)
    as (w' & Hr & Ho & Hlen & Hother & Habs & Hpres & Hkeep & Hglob).
  pose proof (py_get_inv _ _ _ Hl) as [Hrange Hlk].
  set (k0 := Z.to_nat (py_index (length (lanes w)) (lane veh))) in *.
  pose proof Hwf as (_ & Hnd & Hlo).
  assert (Hon : forall k l, lanes w !! k = Some l -> In i l -> l = lane_list /\ k = k0
                            /\ lane veh = Z.of_nat k0).
  { intros k l Hk Hi. destruct (Hlo k i) as (u & Hu & Hku); [exists l; auto|].
    apply deref_inv in Hveh. assert (u = veh) by congruence. subst u.
    assert (Hk0 : k0 = k).
    { unfold k0. rewrite Hku, py_index_nonneg by lia. lia. }
    subst k. split; [congruence|]. split; [reflexivity | exact Hku]. }
  exists w'. split; [exact Hr|]. split; [exact Ho|]. split.
  - intros Hn. split; [apply Habs; exact Hn|].
    apply Hkeep. destruct global_list; [right | left; reflexivity].
    intros Hin. destruct (Hall eq_refl) as [_ Hiff].
    apply Hiff in Hin as (k & l & Hk & Hi).
    destruct (Hon k l Hk Hi) as [-> _]. contradiction.
  - intros Hin.
    destruct (Hpres Hin) as (l1 & l2 & El & Hn1 & Hg).
    destruct (Hon k0 lane_list Hlk Hin) as (_ & _ & Hk0).
    exists l1, l2. split; [exact El|].
    assert (Hnd0 : NoDup lane_list) by (eapply Hnd; exact Hlk).
    split.
    { rewrite El in Hnd0. apply NoDup_app in Hnd0 as (_ & Hd & Hnd2).
      apply NoDup_cons in Hnd2 as [Hn2 _].
      intros Hc. apply in_app_or in Hc as [Hc|Hc]; [contradiction|].
      apply Hn2. apply list_elem_of_In. exact Hc. }
    split; [exact Hg|]. split; [exact Hlen|].
    split.
    { intros k Hk. apply Hother. unfold k0 in *. rewrite Hk0 in Hk.
      rewrite Nat2Z.id in Hk. rewrite Hk0, py_index_nonneg by lia.
      rewrite Nat2Z.id. exact Hk. }
    split.
    { intros ->. apply Hkeep. left. reflexivity. }
    intros ->. destruct (Hall eq_refl) as [Hnda Hiff].
    assert (Hia : In i (all w)).
    { apply Hiff. exists k0, lane_list. auto. }
    destruct (Hglob eq_refl Hia) as (a1 & a2 & Ea & Hna & Ha').
    exists a1, a2. split; [exact Ea|]. split; [|exact Ha'].
    rewrite Ea in Hnda. apply NoDup_app in Hnda as (_ & _ & Hnda).
    apply NoDup_cons in Hnda as [Hn2 _].
    intros Hc. apply in_app_or in Hc as [Hc|Hc]; [contradiction|].
    apply Hn2. apply list_elem_of_In. exact Hc.
Qed.

Lemma remove_membership_guarded_witness :
  exists w',
    remove true (Trafico.world (trafico_after 3 truck_braking)) 2 = Ok w'
    /\ lanes (Trafico.world (trafico_after 3 truck_braking)) = [[2%nat]; [1%nat]; []]
    /\ all (Trafico.world (trafico_after 3 truck_braking)) = [1%nat; 2%nat]
    /\ lanes w' = [[]; [1%nat]; []]
    /\ all w' = [1%nat].
Proof.
  assert (Hinv : trafico_inv Trafico.default (trafico_after 3 truck_braking)).
  { destruct (trafico_loop_inv Trafico.default 1.5 3
                (Trafico.init Trafico.default truck_braking []))
      as (st & Hst & Hinv).
    - unfold Qeq. simpl. lia.
    - unfold Qeq. simpl. lia.
    - apply trafico_init_inv. repeat constructor; simpl; lia.
    - unfold trafico_after. rewrite Hst. exact Hinv. }
  destruct Hinv as (Hwf & Hall & _).
  assert (Hveh : deref (Trafico.world (trafico_after 3 truck_braking)) 2
                 = Ok (reached (Trafico.new_vehicle Trafico.default 0 0 car)
                         (deref (Trafico.world (trafico_after 3 truck_braking)) 2)))
    by (vm_compute; reflexivity).
  assert (Hl : py_get (lanes (Trafico.world (trafico_after 3 truck_braking)))
                 (lane (reached (Trafico.new_vehicle Trafico.default 0 0 car)
                          (deref (Trafico.world (trafico_after 3 truck_braking)) 2)))
               = Ok [2%nat])
    by (vm_compute; reflexivity).
  destruct (remove_membership_guarded true _ 2%nat _ _ Hwf (fun _ => Hall) Hveh Hl)
    as (w' & H & _).
  exists w'. split; [exact H|].
  vm_compute in H. injection H as <-.
  repeat split; vm_compute; reflexivity.
Defined.

(** ** The mean speed that is reported (C3) *)


